(* ===== verification/_CoqProject ===== *)
-Q . S2P
Prelude.v
GoStrings.v
Sha256.v
Values.v
CanonicalJson.v
CanonicalInj.v
CanonicalSpec.v
Regexp.v
Yaml.v
Redact.v
Os.v
Paths.v
Cassette.v
Stream.v
StreamCassette.v
Session.v
StreamSession.v
GrpcStream.v
Demux.v
TransportRecord.v
TransportReplay.v
Connection.v
Interop.v
Glob.v
CliConfig.v
CliScrub.v
Url.v
Adapters.v
CliPlatform.v
CliReport.v
CliShim.v
CliStreams.v
CliRun.v
Directory.v
Programs.v
WrapCommand.v
WrapFs.v
CliSuite.v
CliParallel.v
