(* ===== verification/Prelude.v ===== *)
(** * A model of xrr's Go module and the theorems that make it correct

    xrr records the interactions of a program with the outside world - commands,
    HTTP calls, redis and SQL queries, file-system operations, gRPC calls - in
    cassettes, and later replays them without the outside world.  This library
    models the Go implementation (src/go), file by file, as executable
    functions, and proves that what is recorded is what is replayed, that
    credentials do not reach the disk, and that a cassette is addressed by
    exactly the identity of the interaction.

    ** How the parts fit together

    A request has a fingerprint: eight hexadecimal digits of the SHA-256 of the
    canonical JSON of its identifying fields.  A session in record mode runs the
    real operation and saves the request and the response as a pair of YAML
    files named by adapter and fingerprint; in replay mode it looks the pair up
    instead.  Before a file is written a redactor rewrites every string in it
    that looks like a credential.  A streamed interaction is saved as one pair
    too, its messages numbered across both sides; a replay checks what the
    client sends against the recording and hands out what was received.  The
    gRPC interceptor puts client streams on top of that, and the gRPC transport
    does the same one level below, from HTTP/2 frames.  The command line runs a
    program with shims in front of its commands, each a session of its own; the
    examples wrap an interface of an application by hand.

    ** The files

    The library that everything rests on:

    - [Prelude], [GoStrings], [Sha256], [Os], [Paths], [Glob], [Url]: the parts of the Go
      language and standard library that the source uses - byte strings and UTF-8,
      package strings, strconv's quoting, hex and base64, crypto/sha256, errors as
      data with [errors.Is], paths, a file system as a finite map with a small
      state-and-error monad ([io]), path.Match and net/url.Parse.
    - [Values]: [any] and [yaml.Node] as inductive data.
    - [Regexp]: RE2 matching for the patterns of redact.go, by derivatives,
      proved equal to the usual relational semantics.
    - [Yaml]: the entry points of gopkg.in/yaml.v3 that the source calls, as a
      class [YamlLib], the documented behaviour relied on, as [YamlLaws], and a
      concrete instance.

    The package xrr:

    - [CanonicalJson], [CanonicalSpec], [CanonicalInj]: canonical.go.
      [CanonicalJSON] detours through encoding/json and undoes its escapes; what it
      writes is proved to be the canonical form of spec/cassette-format-v1.md, stated
      as a relation on code points, and to identify the fingerprint inputs.
    - [Redact]: redact.go.  The policy, and the pass over a YAML tree:
      non-interference (two files that differ in secrets only are written
      alike), absence of secret values, shape, idempotence.
    - [Cassette]: cassette.go.  [Save], [Load] and what each failure leaves.
    - [Session]: session.go, env.go and xrr.go.  [Record_] in its three modes,
      against the interface [Adapter]; replay of what was recorded.
    - [Stream], [StreamCassette], [StreamSession]: stream.go,
      stream_cassette.go, stream_session.go and stream_scrub.go.  The validator
      against a declarative well-formedness, the save/load round trip, the
      recording as an event log with its invariant, the replay handle refining a
      specification of two queues and a poison, occurrence counters, and the end
      to end theorem.

    The adapters:

    - [Adapters]: adapters/exec, redis, sql, http, fs and grpc/grpc.go: requests,
      responses, fingerprints, and each as an instance of [Session.Adapter].
    - [GrpcStream]: adapters/grpc/stream.go.  The recording and the replaying
      client stream; a recorded conversation replays call for call.
    - [Demux]: adapters/grpctransport/headers.go and demux.go.  Message
      reassembly from interleaved frames, header semantics and sanitization.
    - [TransportRecord]: adapters/grpctransport/record.go and adapter.go.  The
      tracker of the streams of a connection, the two decoder loops taking turns
      in any order, and the tap over two pipes as a step relation.
    - [TransportReplay]: adapters/grpctransport/replay.go.  The server side of a
      replayed connection, frames in and frames out.
    - [Connection]: a whole call over such a connection; [Interop]: one cassette
      format for the two gRPC adapters, each replaying what the other recorded.

    The command line, cmd/xrr:

    - [CliConfig]: config.go, config_file.go and [resolve] of run.go: layers of
      settings, their precedence and validation, the configuration of a run.
    - [CliScrub]: scrub.go; [CliPlatform]: platform.go; [CliReport]: report.go.
    - [CliShim]: shim.go, the process that stands in for a command, as a state
      monad over the world (files, output, children started).
    - [CliRun]: run.go, main.go and version.go: flags, the run directory, the
      child, the report and the exit code.

    - [CliStreams]: what runs beside a child, over all schedules: the goroutine of
      shim.go that feeds a recorded command its input and keeps a copy, and the
      one of run.go that passes signals on.
    - [CliSuite]: a whole test suite under the shims of one run, and the suite
      and the command of testdata/fakecli.
    - [CliParallel]: replaying shims that run at the same time, as processes that
      take turns one system call at a time.

    The adopters, go/examples:

    - [Directory]: a directory of unary cassettes as a table of answers, for a
      session and for the shims alike.
    - [Programs]: what every wrapper over a session has in common - a program as
      what a caller does with an interface, and recording and replaying as a
      refinement of the table.
    - [WrapCommand]: wrap_command_runner and env_session; [WrapFs]:
      wrap_fs_runner.  Their wrappers are instances of [Programs].

    A Go method becomes the function of the same name (a clash of names is
    resolved by a suffix, as in [SendMsg_record] and [SendMsg_replay]); its
    receiver becomes an argument and a result when it is changed; an [(x, error)]
    result becomes [err + x].  Every exported entry point of the stream handles
    holds its mutex throughout, so one call is one atomic step and a concurrent
    history is a sequence of steps; theorems about runs quantify over all such
    sequences.  Clocks are arguments.

    ** What the theorems show

    - Recorded is replayed.  Unary: [Record_replay], and for whole programs
      [session_refines_table], [recorded_program_replays],
      [wrapped_runner_replays], [fs_cassettes_portable], [env_session_replays],
      [main_replays].  Streams: [stream_record_replay], [grpc_record_replay],
      [transport_round_trip], [transport_record_replay],
      [tapped_call_served], and across the two gRPC adapters
      [tapped_replays_intercepted], [intercepted_call_served].  The command line:
      [shim_record_replay], and for a whole suite [suite_record_replay].  Files and wire: [Save_Load_exact],
      [SaveStream_LoadStream], [call_log_roundtrip], [demux_roundtrip],
      [decodeGRPCMessage_encode].
    - Credentials: [redactNode_noninterference], [redactNode_no_secret],
      [Save_noninterference], [recording_noninterference],
      [sanitizeHeaders_noninterference], [env_secret_removed],
      [scrubArgv_noninterference].
    - Addressing: [CanonicalJSON_spec], [CanonicalJSON_injective],
      [adapters_identify], [exec_identity], [fs_identity], [http_identity], [counter_key_identifies],
      [open_ordinal], [counters_in_step], [inferred_addressing].
    - Refinement and equivalence with a specification: [StreamReplay_refines],
      [replayStream_refines], [next_refines], [decode_turns_refines],
      [ValidateStreamPair_spec], [decodeStrictB64_spec], [IsSecretKey_spec],
      [IsSecretValue_spec], [loadLayers_spec], [collectEnvSecrets_spec].
    - Invariants: [recording_well_formed], [LoadStream_well_formed],
      [tracker_isolated], [resolve_spec].
    - Schedules: [parallel_shims], [tee_schedules], [signals_relayed].
    - Progress: [feed_terminates], [half_close_answered], [tap_returns],
      [trimNewline_spec].
    - What the live program sees, and what runs: [recorder_transparent],
      [real_binary_runs], [denied_in_run], [execute_ok], [execute_cleans_up],
      [writes_only_at_terminal].
    - Errors: [StreamReplay_mismatch_sticky], [mapErr_faithful], [Load_errors],
      [main_needs_directory], and the behaviours that the comments of the source
      do not expect: [fall_through_loses_chunk], [split_message_lost],
      [late_sends_unchecked], [bad_bytes_collide].

    Theorems that rest on a library's behaviour take its laws as a class; each
    such class has a concrete instance here ([ReferenceYaml],
    [StreamCassette.ReferenceStream], the demo instances of [GrpcStream]), at
    which the theorem's witness evaluates.

    ** Fuel and bounds

    Fuel appears in [Sha256.absorb] (one unit per block of sixteen words; the
    number of words is enough), in [GoStrings.replace_go] (one unit per byte),
    in [Demux.drain] (one unit per turn, each taking at least five bytes off the
    buffer; [feed_terminates] shows the length is enough), in [Demux.read_all]
    ([next_refines] gives the sufficient amount), in [Glob] (each turn takes a
    byte of the pattern; [path_Match_fuel] shows that more changes nothing) and in
    [WrapCommand.trim_loop] (a byte a turn).  All other recursion is structural.
    Integers are [Z] with Go's ranges as hypotheses where a value crosses YAML
    ([pair_range]), and wrapped where the source converts ([to_code], [Atoi]).

    ** What is not modelled

    - Parameters: yaml.v3; the formatting of finite floats ([FloatFormat]) and
      fmt's rendering of other values; the Unicode tables above ASCII
      ([Unicode]); protobuf, gRPC's status package and live streams ([GrpcLib],
      [LiveStream]); the HTTP/2 framer with HPACK (the sequence of frames it
      returns, header blocks as field lists, the write it refuses); the
      conversion of a float to a machine integer; what net/url says of an
      authority ([Authority]); the decoders of the configuration, the call log
      and a recorded response ([ConfigLib], [CallDecoder], [ConfigDecoder],
      [ResponseDecoder]) and time.ParseDuration; operating-system failures
      ([Faults]), execute bits and links ([Platform]), the process's own
      environment ([RunEnv]), the commands that run ([Child], [Commands]).
    - Left out: recording shims that run at the same time, what a child's output
      does while it is copied (it is appended whole), the accessors of the
      handles, text that goes to a log, and the ports to other languages. *)

From Stdlib Require Export Ascii.
From Stdlib Require Import DecimalString DecimalZ.
From stdpp Require Export prelude strings numbers list gmap sorting.

(** stdpp's [naive_solver] clears hypotheses that are no longer there. *)
#[export] Set Warnings "-clear-no-such-hyp".

(** ** Go byte strings

    A Go [string] and a Go [[]byte] are both sequences of bytes; both are
    [string] here, a character being one byte.  The two string quotes are
    built from their codes. *)

Abbreviation byte_val := N_of_ascii.
Abbreviation byte_of := ascii_of_N.

Definition dquote : ascii := "034"%char.
Definition backslash : ascii := "092"%char.

Declare Scope gostr_scope.
Delimit Scope gostr_scope with gostr.
Notation "c ::: s" := (String c s) (at level 60, right associativity) : gostr_scope.
Open Scope gostr_scope.

(** Concatenation of a list of pieces ([bytes.Buffer] writes, repeated
    [append]). *)
Fixpoint sconcat (l : list string) : string :=
  match l with
  | [] => ""
  | s :: l' => s +:+ sconcat l'
  end.

(** [n] copies of a character. *)
Fixpoint srepeat (n : nat) (c : ascii) : string :=
  match n with
  | O => ""
  | S n' => c ::: srepeat n' c
  end.

(** The first [n] bytes, and what is left after them ([s[:n]], [s[n:]]). *)
Fixpoint stake (n : nat) (s : string) : string :=
  match n, s with
  | S n', c ::: s' => c ::: stake n' s'
  | _, _ => ""
  end.

Fixpoint sdrop (n : nat) (s : string) : string :=
  match n, s with
  | O, _ => s
  | S n', _ ::: s' => sdrop n' s'
  | S _, EmptyString => ""
  end.

Fixpoint slen (s : string) : nat :=
  match s with
  | EmptyString => O
  | _ ::: s' => S (slen s')
  end.

(** Reading a string as the list of its byte values. *)
Definition bytes_of (s : string) : list N := byte_val <$> String.list_ascii_of_string s.
Definition of_bytes (l : list N) : string := String.string_of_list_ascii (byte_of <$> l).

(** [strconv.Itoa] / the [%d] verb, and [strconv.Atoi] restricted to what
    [Itoa] can print plus leading zeros. *)
Definition itoa (z : Z) : string := NilZero.string_of_int (Z.to_int z).
Definition itoa_nat (n : nat) : string := itoa (Z.of_nat n).

(** All characters of a string satisfy a predicate; the string is empty or
    begins with a character outside it. *)
Fixpoint sall (p : ascii → bool) (s : string) : bool :=
  match s with
  | EmptyString => true
  | c ::: s' => p c && sall p s'
  end.

Definition head_not (p : ascii → bool) (s : string) : Prop :=
  match s with EmptyString => True | c ::: _ => p c = false end.

Definition is_digit (c : ascii) : bool := (48 <=? byte_val c)%N && (byte_val c <=? 57)%N.

(** The characters of a decimal integer. *)
Definition int_char (c : ascii) : bool := is_digit c || bool_decide (c = "-"%char).

Definition parse_int (s : string) : option Z := Z.of_int <$> NilZero.int_of_string s.

(** ** Go errors

    One constructor per sentinel ([var Err... = errors.New]), one per concrete
    error type the code matches on, [ENew] for every other [errors.New] or
    [fmt.Errorf] without [%w], and [EWrap] for [fmt.Errorf("...: %w", e)] with
    the text rendered before the wrapped error.  [EOs] is an error of package
    [os] together with what [os.IsNotExist] answers for it; [EStatus] is a gRPC
    status error with its code, its description and the text its [Error]
    method renders; [EExit] is an [*exec.ExitError].  [EPanic] is no error value
    but a run-time panic, which ends the call it occurs in. *)
Inductive err : Type :=
| ErrCassetteMiss
| ErrShapeMismatch
| ErrStreamMismatch
| EOF
| ErrClosedPipe
| EMismatch (op : string) (ordinal : nat) (detail : string)
| EOs (not_exist : bool) (text : string)
| EStatus (code : Z) (desc text : string)
| EExit (code : Z) (signal : option Z) (text : string)
| ENew (text : string)
| EPanic (text : string)
| EWrap (prefix : string) (inner : err).

Definition result (A : Type) : Type := (err + A)%type.

Global Instance result_ret : MRet result := λ A x, inr x.
Global Instance result_bind : MBind result :=
  λ A B f m, match m with inl e => inl e | inr x => f x end.

(** [errors.Is(e, target)] for the sentinel targets the code asks about: the
    chain of wrapped errors is searched, and [*StreamMismatchError] answers
    [ErrStreamMismatch] through its [Is] method. *)
Inductive sentinel : Type := SCassetteMiss | SShapeMismatch | SStreamMismatch | SEOF | SClosedPipe.

Fixpoint errors_is (e : err) (t : sentinel) : bool :=
  match e, t with
  | ErrCassetteMiss, SCassetteMiss => true
  | ErrShapeMismatch, SShapeMismatch => true
  | ErrStreamMismatch, SStreamMismatch => true
  | EMismatch _ _ _, SStreamMismatch => true
  | EOF, SEOF => true
  | ErrClosedPipe, SClosedPipe => true
  | EWrap _ e', _ => errors_is e' t
  | _, _ => false
  end.

(** [e.Error()]. *)
Fixpoint error_text (e : err) : string :=
  match e with
  | ErrCassetteMiss => "xrr: cassette miss"
  | ErrShapeMismatch => "xrr: cassette shape mismatch"
  | ErrStreamMismatch => "xrr: stream mismatch"
  | EOF => "EOF"
  | ErrClosedPipe => "io: read/write on closed pipe"
  | EMismatch op i detail =>
      "xrr: stream mismatch: " +:+ op +:+ " " +:+ itoa_nat i +:+ ": " +:+ detail
  | EOs _ text => text
  | EStatus _ _ text => text
  | EExit _ _ text => text
  | ENew text => text
  | EPanic text => text
  | EWrap prefix e' => prefix +:+ error_text e'
  end.

(** Keeping an error only under a wrapper: [fmt.Errorf("prefix%w", err)]. *)
Definition wrap_err {A} (prefix : string) (r : result A) : result A :=
  match r with inl e => inl (EWrap prefix e) | inr x => inr x end.

Global Instance err_eq_dec : EqDecision err.
Proof. solve_decision. Defined.

(** ** Generic lemmas on strings *)

Create HintDb gostr discriminated.

Lemma sapp_nil_l (s : string) : "" +:+ s = s.
Proof. reflexivity. Qed.

Lemma sapp_nil_r (s : string) : s +:+ "" = s.
Proof. induction s as [|c s IH]; [done|]. by change (c ::: (s +:+ "") = c ::: s); rewrite IH. Qed.

Lemma sapp_cons c (s t : string) : (c ::: s) +:+ t = c ::: (s +:+ t).
Proof. reflexivity. Qed.

Lemma sapp_assoc (s t u : string) : (s +:+ t) +:+ u = s +:+ (t +:+ u).
Proof. induction s as [|c s IH]; [done|]. rewrite !sapp_cons. by rewrite IH. Qed.

Lemma slen_app (s t : string) : slen (s +:+ t) = slen s + slen t.
Proof. induction s as [|c s IH]; [done|]. rewrite sapp_cons. simpl. by rewrite IH. Qed.

Lemma sconcat_app l1 l2 : sconcat (l1 ++ l2) = sconcat l1 +:+ sconcat l2.
Proof. induction l1 as [|s l1 IH]; [done|]. simpl. by rewrite IH, sapp_assoc. Qed.

Lemma sapp_inv_head (s t u : string) : s +:+ t = s +:+ u → t = u.
Proof. apply (inj (String.app s)). Qed.

Lemma sapp_inv_len (s1 s2 t1 t2 : string) :
  slen s1 = slen s2 → s1 +:+ t1 = s2 +:+ t2 → s1 = s2 ∧ t1 = t2.
Proof.
  revert s2. induction s1 as [|c s1 IH]; intros [|c2 s2] Hlen; simpl in *; try done.
  rewrite !sapp_cons. intros [= -> Heq]. by destruct (IH s2) as [-> ->]; [lia| |].
Qed.

Lemma stake_sdrop n (s : string) : stake n s +:+ sdrop n s = s.
Proof.
  revert n. induction s as [|c s IH]; intros [|n]; try done.
  simpl. rewrite sapp_cons. by rewrite IH.
Qed.

Lemma slen_stake n (s : string) : slen (stake n s) = n `min` slen s.
Proof. revert n. induction s as [|c s IH]; intros [|n]; simpl; auto. Qed.

Lemma slen_sdrop n (s : string) : slen (sdrop n s) = slen s - n.
Proof. revert n. induction s as [|c s IH]; intros [|n]; simpl; auto. Qed.

Lemma stake_app_exact (s t : string) : stake (slen s) (s +:+ t) = s.
Proof. induction s as [|c s IH]; [by destruct t|]. rewrite sapp_cons. simpl. by rewrite IH. Qed.

Lemma sdrop_app_exact (s t : string) : sdrop (slen s) (s +:+ t) = t.
Proof. induction s as [|c s IH]; [done|]. rewrite sapp_cons. simpl. by rewrite IH. Qed.

Lemma slen_zero (s : string) : slen s = 0 → s = "".
Proof. by destruct s. Qed.

(** Induction on the length of a string, for readers that consume more than
    one byte per step. *)
Lemma string_len_ind (P : string → Prop) :
  (∀ s, (∀ t, slen t < slen s → P t) → P s) → ∀ s, P s.
Proof.
  intros H s. remember (slen s) as n eqn:Hn. revert s Hn.
  induction n as [n IH] using lt_wf_ind. intros s ->.
  apply H. intros t Ht. by apply (IH (slen t)).
Qed.

Lemma sall_app p (s t : string) : sall p (s +:+ t) = sall p s && sall p t.
Proof. induction s as [|c s IH]; [done|]. rewrite sapp_cons. simpl. rewrite IH. by destruct (p c). Qed.

(** Two words over a class of characters, each followed by a character outside
    the class, are equal when the texts are. *)
Lemma sall_split p (s1 s2 t1 t2 : string) :
  sall p s1 → sall p s2 → head_not p t1 → head_not p t2 →
  s1 +:+ t1 = s2 +:+ t2 → s1 = s2 ∧ t1 = t2.
Proof.
  revert s2. induction s1 as [|c s1 IH]; intros [|c2 s2]; simpl.
  - done.
  - intros _ [Hc _]%andb_True Ht1 _. rewrite sapp_nil_l, sapp_cons. intros ->. simpl in Ht1.
    by rewrite Ht1 in Hc.
  - intros [Hc _]%andb_True _ _ Ht2. rewrite sapp_nil_l, sapp_cons. intros <-. simpl in Ht2.
    by rewrite Ht2 in Hc.
  - intros [_ H1]%andb_True [_ H2]%andb_True Ht1 Ht2. rewrite !sapp_cons. intros [= -> Heq].
    by destruct (IH s2 H1 H2 Ht1 Ht2 Heq) as [-> ->].
Qed.

(** ** Decimal integers *)

Lemma to_int_not_nil z : Z.to_int z ≠ Decimal.Pos Decimal.Nil ∧ Z.to_int z ≠ Decimal.Neg Decimal.Nil.
Proof.
  destruct z as [|p|p]; simpl; split; try done;
    intros [= H]; by apply (DecimalPos.Unsigned.to_uint_nonnil p).
Qed.

Lemma parse_int_itoa z : parse_int (itoa z) = Some z.
Proof.
  unfold parse_int, itoa. destruct (to_int_not_nil z).
  rewrite NilZero.isi by done. simpl. by rewrite DecimalZ.of_to.
Qed.

Lemma itoa_inj z1 z2 : itoa z1 = itoa z2 → z1 = z2.
Proof. intros H%(f_equal parse_int). rewrite !parse_int_itoa in H. by injection H. Qed.

Lemma itoa_chars z : sall int_char (itoa z).
Proof.
  assert (∀ d, sall int_char (NilEmpty.string_of_uint d)) as H.
  { induction d; simpl; auto. }
  assert (∀ d, sall int_char (NilZero.string_of_uint d)) as H0.
  { intros d. unfold NilZero.string_of_uint. destruct d; try done; apply H. }
  unfold itoa, NilZero.string_of_int. destruct (Z.to_int z); [apply H0|].
  simpl. apply H0.
Qed.

Lemma itoa_app_inj z1 z2 t1 t2 :
  head_not int_char t1 → head_not int_char t2 →
  itoa z1 +:+ t1 = itoa z2 +:+ t2 → z1 = z2 ∧ t1 = t2.
Proof.
  intros Ht1 Ht2 Heq.
  destruct (sall_split int_char (itoa z1) (itoa z2) t1 t2) as [H ->];
    auto using itoa_chars, itoa_inj.
Qed.

(** ** Boolean searches *)

Lemma existsb_spec {A} (p : A → bool) (l : list A) : existsb p l ↔ ∃ x, x ∈ l ∧ p x.
Proof.
  induction l as [|y l IH]; simpl.
  - split; [done|]. by intros (x & ?%elem_of_nil & _).
  - rewrite orb_True, IH. split.
    + intros [H|(x & Hx & H)]; [exists y|exists x]; split; auto; by constructor.
    + intros (x & [->|Hx]%elem_of_cons & H); eauto.
Qed.

Lemma forallb_spec {A} (p : A → bool) (l : list A) : forallb p l ↔ ∀ x, x ∈ l → p x.
Proof.
  induction l as [|y l IH]; simpl.
  - split; [|done]. by intros _ x ?%elem_of_nil.
  - rewrite andb_True, IH. split.
    + by intros [H1 H2] x [->|Hx]%elem_of_cons; auto.
    + intros H. split; [apply H; by constructor|]. intros x Hx. apply H. by constructor.
Qed.

(** ** Error chains *)

Lemma errors_is_wrap prefix e t : errors_is (EWrap prefix e) t = errors_is e t.
Proof. by destruct t. Qed.

(** ** Tactics of the development *)

(** Case analysis on every [match] and [if] of the goal and the hypotheses,
    closing the branches whose results disagree. *)
Ltac split_match :=
  repeat (case_match; simplify_eq/=; try done).

(** Enumeration of the 256 values of the bytes in context. *)
Ltac byte_cases :=
  repeat match goal with b : ascii |- _ => destruct b as [[] [] [] [] [] [] [] []] end.

(** Inversion of a successful [result] bind. *)
Lemma bind_inr {A B} (m : result A) (f : A → result B) b :
  m ≫= f = inr b ↔ ∃ a, m = inr a ∧ f a = inr b.
Proof. destruct m as [e|a]; simpl; split; [done|by intros (?&?&?)|eauto|]. by intros (?&[= <-]&?). Qed.

Lemma wrap_err_inr {A} p (m : result A) a : wrap_err p m = inr a ↔ m = inr a.
Proof. by destruct m. Qed.

#[export] Hint Resolve itoa_chars : gostr.
