(* ===== verification/GoStrings.v ===== *)
(** Byte-level functions of Go's standard library that the program calls:
    UTF-8 decoding ([unicode/utf8]), package [strings], [strconv.Quote],
    [encoding/hex] and [encoding/base64].  Case mapping, printability and
    nothing else come from the Unicode tables, through the class [Unicode]. *)

From Stdlib Require Import ZifyBool.
From S2P Require Import Prelude.

Local Open Scope N_scope.

(** ** UTF-8

    [chunks s] is the sequence of runes a Go [range] loop over [s] visits: a
    well-formed encoding with its rune, or a single byte that starts none. *)
Inductive chunk : Type :=
| CRune (r : N) (raw : string)
| CBad (b : ascii).

Definition raw_of (c : chunk) : string :=
  match c with CRune _ raw => raw | CBad b => String b "" end.

Definition rune_error : N := 0xFFFD.

(** The rune a [range] loop reports for a chunk. *)
Definition rune_of (c : chunk) : N :=
  match c with CRune r _ => r | CBad _ => rune_error end.

Definition is_cont (b : ascii) : bool := (0x80 <=? byte_val b) && (byte_val b <=? 0xBF).

Definition in_range (lo hi : N) (b : ascii) : bool := (lo <=? byte_val b) && (byte_val b <=? hi).

(** Two-, three- and four-byte forms, with the second-byte ranges that exclude
    overlong forms, surrogates and code points above U+10FFFF. *)
Definition ok2 (b0 b1 : ascii) : bool := in_range 0xC2 0xDF b0 && is_cont b1.

Definition ok3 (b0 b1 b2 : ascii) : bool :=
  in_range 0xE0 0xEF b0 &&
  in_range (if byte_val b0 =? 0xE0 then 0xA0 else 0x80)
           (if byte_val b0 =? 0xED then 0x9F else 0xBF) b1 &&
  is_cont b2.

Definition ok4 (b0 b1 b2 b3 : ascii) : bool :=
  in_range 0xF0 0xF4 b0 &&
  in_range (if byte_val b0 =? 0xF0 then 0x90 else 0x80)
           (if byte_val b0 =? 0xF4 then 0x8F else 0xBF) b1 &&
  is_cont b2 && is_cont b3.

Definition low6 (b : ascii) : N := N.land (byte_val b) 0x3F.

Definition rune2 (b0 b1 : ascii) : N :=
  N.lor (N.shiftl (N.land (byte_val b0) 0x1F) 6) (low6 b1).
Definition rune3 (b0 b1 b2 : ascii) : N :=
  N.lor (N.shiftl (N.land (byte_val b0) 0x0F) 12) (N.lor (N.shiftl (low6 b1) 6) (low6 b2)).
Definition rune4 (b0 b1 b2 b3 : ascii) : N :=
  N.lor (N.shiftl (N.land (byte_val b0) 0x07) 18)
    (N.lor (N.shiftl (low6 b1) 12) (N.lor (N.shiftl (low6 b2) 6) (low6 b3))).

Definition str1 (a : ascii) : string := String a "".
Definition str2 (a b : ascii) : string := String a (str1 b).
Definition str3 (a b c : ascii) : string := String a (str2 b c).
Definition str4 (a b c d : ascii) : string := String a (str3 b c d).

Fixpoint chunks (s : string) : list chunk :=
  match s with
  | EmptyString => []
  | String b0 s1 =>
    if byte_val b0 <? 0x80 then CRune (byte_val b0) (str1 b0) :: chunks s1 else
    match s1 with
    | EmptyString => [CBad b0]
    | String b1 s2 =>
      if ok2 b0 b1 then CRune (rune2 b0 b1) (str2 b0 b1) :: chunks s2 else
      match s2 with
      | EmptyString => CBad b0 :: chunks s1
      | String b2 s3 =>
        if ok3 b0 b1 b2 then CRune (rune3 b0 b1 b2) (str3 b0 b1 b2) :: chunks s3 else
        match s3 with
        | EmptyString => CBad b0 :: chunks s1
        | String b3 s4 =>
          if ok4 b0 b1 b2 b3
          then CRune (rune4 b0 b1 b2 b3) (str4 b0 b1 b2 b3) :: chunks s4
          else CBad b0 :: chunks s1
        end
      end
    end
  end.

Definition chunk_ok (c : chunk) : bool := match c with CRune _ _ => true | CBad _ => false end.

(** [utf8.ValidString] / [utf8.Valid]. *)
Definition utf8_valid (s : string) : bool := forallb chunk_ok (chunks s).

(** [utf8.AppendRune]; a surrogate or out-of-range value encodes U+FFFD. *)
Definition encode_rune (r : N) : string :=
  let r := if ((0xD800 <=? r) && (r <=? 0xDFFF)) || (0x10FFFF <? r) then rune_error else r in
  if r <? 0x80 then str1 (byte_of r)
  else if r <? 0x800 then
    str2 (byte_of (N.lor 0xC0 (N.shiftr r 6))) (byte_of (N.lor 0x80 (N.land r 0x3F)))
  else if r <? 0x10000 then
    str3 (byte_of (N.lor 0xE0 (N.shiftr r 12)))
         (byte_of (N.lor 0x80 (N.land (N.shiftr r 6) 0x3F)))
         (byte_of (N.lor 0x80 (N.land r 0x3F)))
  else
    str4 (byte_of (N.lor 0xF0 (N.shiftr r 18)))
         (byte_of (N.lor 0x80 (N.land (N.shiftr r 12) 0x3F)))
         (byte_of (N.lor 0x80 (N.land (N.shiftr r 6) 0x3F)))
         (byte_of (N.lor 0x80 (N.land r 0x3F))).

(** ** The Unicode tables

    [unicode.ToUpper], [unicode.ToLower] and [unicode.IsPrint] on the code
    points above ASCII; below 0x80 the functions are fixed here. *)
Class Unicode := {
  table_upper : N → N;
  table_lower : N → N;
  table_print : N → bool;
}.

(** Tables that map no rune above ASCII, for closed examples. *)
Definition ascii_only : Unicode :=
  {| table_upper := λ r, r; table_lower := λ r, r; table_print := λ _, true |}.

Section tables.
Context {U : Unicode}.

Definition rune_upper (r : N) : N :=
  if r <? 0x80 then (if (0x61 <=? r) && (r <=? 0x7A) then r - 32 else r) else table_upper r.
Definition rune_lower (r : N) : N :=
  if r <? 0x80 then (if (0x41 <=? r) && (r <=? 0x5A) then r + 32 else r) else table_lower r.
Definition rune_print (r : N) : bool :=
  if r <? 0x80 then (0x20 <=? r) && (r <=? 0x7E) else table_print r.

(** [strings.Map]: an unchanged rune keeps its bytes, a malformed byte becomes
    the mapped U+FFFD. *)
Definition map_chunk (f : N → N) (c : chunk) : string :=
  match c with
  | CRune r raw => if f r =? r then raw else encode_rune (f r)
  | CBad _ => encode_rune (f rune_error)
  end.

Definition strings_Map (f : N → N) (s : string) : string := sconcat (map_chunk f <$> chunks s).

Definition ToUpper (s : string) : string := strings_Map rune_upper s.
Definition ToLower (s : string) : string := strings_Map rune_lower s.

(** [strings.EqualFold], on the simple case pairs of the tables. *)
Definition rune_fold_eq (a b : N) : bool :=
  (a =? b) || (rune_upper a =? rune_upper b) || (rune_lower a =? rune_lower b).
Definition EqualFold (s t : string) : bool :=
  (length (chunks s) =? length (chunks t))%nat &&
  forallb (λ '(a, b), rune_fold_eq (rune_of a) (rune_of b)) (zip (chunks s) (chunks t)).

(** [strconv.Quote], the [%q] verb. *)
Definition hex_lower (n : N) : ascii := default "0"%char (String.get (N.to_nat n) "0123456789abcdef").

Definition hex4 (r : N) : string :=
  str4 (hex_lower (N.land (N.shiftr r 12) 15)) (hex_lower (N.land (N.shiftr r 8) 15))
       (hex_lower (N.land (N.shiftr r 4) 15)) (hex_lower (N.land r 15)).

Definition quote_chunk (c : chunk) : string :=
  match c with
  | CBad b => str2 backslash "x" +:+
              str2 (hex_lower (N.shiftr (byte_val b) 4)) (hex_lower (N.land (byte_val b) 15))
  | CRune r raw =>
    if (r =? byte_val dquote) || (r =? byte_val backslash) then str1 backslash +:+ raw
    else if rune_print r then raw
    else match r with
         | 7 => str2 backslash "a" | 8 => str2 backslash "b" | 12 => str2 backslash "f"
         | 10 => str2 backslash "n" | 13 => str2 backslash "r" | 9 => str2 backslash "t"
         | 11 => str2 backslash "v"
         | _ => if (r <? 32) || (r =? 127) then
                  str2 backslash "x" +:+ str2 (hex_lower (N.shiftr r 4)) (hex_lower (N.land r 15))
                else if r <? 0x10000 then str2 backslash "u" +:+ hex4 r
                else str2 backslash "U" +:+ hex4 (N.shiftr r 16) +:+ hex4 (N.land r 0xFFFF)
         end
  end.

Definition Quote (s : string) : string :=
  str1 dquote +:+ sconcat (quote_chunk <$> chunks s) +:+ str1 dquote.

(** The [%q] verb on a byte: a quoted character literal. *)
Definition QuoteByte (b : ascii) : string :=
  let r := byte_val b in
  "'" +:+ (if r =? 39 then str2 backslash "'"
           else if r =? byte_val dquote then str1 dquote
           else quote_chunk (CRune r (encode_rune r))) +:+ "'".

End tables.

(** ** Package strings *)

(** [unicode.IsSpace]. *)
Definition is_space_rune (r : N) : bool :=
  existsb (N.eqb r)
    [9; 10; 11; 12; 13; 32; 0x85; 0xA0; 0x1680; 0x2028; 0x2029; 0x202F; 0x205F; 0x3000]
  || ((0x2000 <=? r) && (r <=? 0x200A)).

Fixpoint drop_while {A} (p : A → bool) (l : list A) : list A :=
  match l with
  | [] => []
  | x :: l' => if p x then drop_while p l' else l
  end.

Definition TrimSpace (s : string) : string :=
  let sp c := is_space_rune (rune_of c) in
  sconcat (raw_of <$> reverse (drop_while sp (reverse (drop_while sp (chunks s))))).

Fixpoint HasPrefix (s p : string) : bool :=
  match p, s with
  | EmptyString, _ => true
  | String a p', String b s' => bool_decide (a = b) && HasPrefix s' p'
  | _, _ => false
  end.

Definition HasSuffix (s p : string) : bool :=
  (slen p <=? slen s)%nat && bool_decide (sdrop (slen s - slen p) s = p).

(** [strings.CutPrefix] and [strings.TrimPrefix]. *)
Definition CutPrefix (s p : string) : option string :=
  if HasPrefix s p then Some (sdrop (slen p) s) else None.
Definition TrimPrefix (s p : string) : string := default s (CutPrefix s p).

(** [strings.TrimSuffix]. *)
Definition TrimSuffix (s p : string) : string :=
  if HasSuffix s p then stake (slen s - slen p) s else s.

(** [strings.TrimLeft(s, c)] for a one-character cutset. *)
Fixpoint TrimLeft1 (s : string) (c : ascii) : string :=
  match s with
  | String b s' => if bool_decide (b = c) then TrimLeft1 s' c else s
  | EmptyString => s
  end.

(** [strings.Split(s, sep)] for a one-byte separator: never empty. *)
Fixpoint Split1 (s : string) (sep : ascii) : list string :=
  match s with
  | EmptyString => [""]
  | String c s' =>
    if bool_decide (c = sep) then "" :: Split1 s' sep
    else match Split1 s' sep with
         | w :: ws => String c w :: ws
         | [] => [str1 c]
         end
  end.

(** [strings.Cut(s, sep)] for a one-byte separator. *)
Fixpoint Cut1 (s : string) (sep : ascii) : option (string * string) :=
  match s with
  | EmptyString => None
  | String c s' =>
    if bool_decide (c = sep) then Some ("", s')
    else match Cut1 s' sep with Some (a, b) => Some (String c a, b) | None => None end
  end.

(** Cutting around the last separator ([strings.LastIndex] and slicing). *)
Definition CutLast1 (s : string) (sep : ascii) : option (string * string) :=
  match Cut1 (String.rev s) sep with
  | Some (a, b) => Some (String.rev b, String.rev a)
  | None => None
  end.

(** [strings.Join]. *)
Fixpoint Join (l : list string) (sep : string) : string :=
  match l with
  | [] => ""
  | [s] => s
  | s :: l' => s +:+ sep +:+ Join l' sep
  end.

(** [strings.ReplaceAll(s, old, new)] for a non-empty [old]; [fuel] counts the
    bytes still to read. *)
Fixpoint replace_go (fuel : nat) (s old new : string) : string :=
  match fuel, s with
  | S f, String c s' =>
    if HasPrefix s old then new +:+ replace_go f (sdrop (slen old) s) old new
    else String c (replace_go f s' old new)
  | _, _ => s
  end.
Definition ReplaceAll (s old new : string) : string := replace_go (slen s) s old new.

(** [strings.ReplaceAll] with one-byte [old] and [new]. *)
Fixpoint replace1 (s : string) (old new : ascii) : string :=
  match s with
  | EmptyString => ""
  | String c s' => String (if bool_decide (c = old) then new else c) (replace1 s' old new)
  end.

Fixpoint contains_char (s : string) (c : ascii) : bool :=
  match s with
  | EmptyString => false
  | String b s' => bool_decide (b = c) || contains_char s' c
  end.

(** ** encoding/hex *)

Fixpoint hex_encode (s : string) : string :=
  match s with
  | EmptyString => ""
  | String b s' =>
    String (hex_lower (N.shiftr (byte_val b) 4))
      (String (hex_lower (N.land (byte_val b) 15)) (hex_encode s'))
  end.

(** ** encoding/base64, StdEncoding

    A sextet is six bits, most significant first; a byte is the eight booleans
    of its [ascii], least significant first. *)
Inductive sextet : Type := Sx (b5 b4 b3 b2 b1 b0 : bool).

Definition sextet_N (x : sextet) : N :=
  let '(Sx b5 b4 b3 b2 b1 b0) := x in
  32 * N.b2n b5 + 16 * N.b2n b4 + 8 * N.b2n b3 + 4 * N.b2n b2 + 2 * N.b2n b1 + N.b2n b0.

Definition sextet_of (n : N) : sextet :=
  Sx (N.testbit n 5) (N.testbit n 4) (N.testbit n 3) (N.testbit n 2) (N.testbit n 1) (N.testbit n 0).

Definition b64_char (x : sextet) : ascii :=
  default "A"%char (String.get (N.to_nat (sextet_N x))
    "ABCDEFGHIJKLMNOPQRSTUVWXYZabcdefghijklmnopqrstuvwxyz0123456789+/").

Definition b64_val (c : ascii) : option sextet :=
  let n := byte_val c in
  if in_range 65 90 c then Some (sextet_of (n - 65))
  else if in_range 97 122 c then Some (sextet_of (n - 71))
  else if in_range 48 57 c then Some (sextet_of (n + 4))
  else if n =? 43 then Some (sextet_of 62)
  else if n =? 47 then Some (sextet_of 63)
  else None.

Definition pad_char : ascii := "="%char.

(** [EncodeToString]: three bytes to four characters, padded with ['=']. *)
Fixpoint b64_encode (s : string) : string :=
  match s with
  | EmptyString => ""
  | String (Ascii a0 a1 a2 a3 a4 a5 a6 a7) EmptyString =>
    str4 (b64_char (Sx a7 a6 a5 a4 a3 a2)) (b64_char (Sx a1 a0 false false false false))
         pad_char pad_char
  | String (Ascii a0 a1 a2 a3 a4 a5 a6 a7)
      (String (Ascii b0 b1 b2 b3 b4 b5 b6 b7) EmptyString) =>
    str4 (b64_char (Sx a7 a6 a5 a4 a3 a2)) (b64_char (Sx a1 a0 b7 b6 b5 b4))
         (b64_char (Sx b3 b2 b1 b0 false false)) pad_char
  | String (Ascii a0 a1 a2 a3 a4 a5 a6 a7)
      (String (Ascii b0 b1 b2 b3 b4 b5 b6 b7)
        (String (Ascii c0 c1 c2 c3 c4 c5 c6 c7) s')) =>
    str4 (b64_char (Sx a7 a6 a5 a4 a3 a2)) (b64_char (Sx a1 a0 b7 b6 b5 b4))
         (b64_char (Sx b3 b2 b1 b0 c7 c6)) (b64_char (Sx c5 c4 c3 c2 c1 c0))
      +:+ b64_encode s'
  end.

(** [Strict().DecodeString] on a text without line breaks: whole quanta only,
    padding only in the last one, and zero trailing padding bits. *)
Fixpoint b64_decode (s : string) : option string :=
  match s with
  | EmptyString => Some ""
  | String c0 (String c1 (String c2 (String c3 s'))) =>
    '(Sx a7 a6 a5 a4 a3 a2) ← b64_val c0;
    '(Sx a1 a0 b7 b6 b5 b4) ← b64_val c1;
    let a := Ascii a0 a1 a2 a3 a4 a5 a6 a7 in
    if bool_decide (c2 = pad_char) then
      if bool_decide (c3 = pad_char) && bool_decide (s' = "") && negb (b7 || b6 || b5 || b4)
      then Some (str1 a) else None
    else
      '(Sx b3 b2 b1 b0 c7 c6) ← b64_val c2;
      let b := Ascii b0 b1 b2 b3 b4 b5 b6 b7 in
      if bool_decide (c3 = pad_char) then
        if bool_decide (s' = "") && negb (c7 || c6) then Some (str2 a b) else None
      else
        '(Sx c5 c4 c3' c2' c1' c0') ← b64_val c3;
        rest ← b64_decode s';
        Some (str3 a b (Ascii c0' c1' c2' c3' c4 c5 c6 c7) +:+ rest)
  | _ => None
  end.

(** ** Chunks *)

(** One step of the reader: the first chunk and the rest of the text. *)
Lemma chunks_step s :
  s = "" ∧ chunks s = [] ∨
  ∃ c rest, s = raw_of c +:+ rest ∧ chunks s = c :: chunks rest ∧ (slen rest < slen s)%nat.
Proof.
  destruct s as [|b0 s1]; [by left|right].
  assert (∀ c, raw_of c = str1 b0 → chunks (String b0 s1) = c :: chunks s1 →
    ∃ c rest, String b0 s1 = raw_of c +:+ rest ∧
      chunks (String b0 s1) = c :: chunks rest ∧ (slen rest < slen (String b0 s1))%nat) as Hbad.
  { intros c Hr Hc. exists c, s1. rewrite Hr, Hc. simpl. split_and!; [done..|lia]. }
  simpl chunks in *. destruct (byte_val b0 <? 0x80); [by apply (Hbad (CRune (byte_val b0) (str1 b0)))|].
  destruct s1 as [|b1 s2]; [by apply (Hbad (CBad b0))|].
  destruct (ok2 b0 b1).
  { exists (CRune (rune2 b0 b1) (str2 b0 b1)), s2. split_and!; [done..|simpl; lia]. }
  destruct s2 as [|b2 s3]; [by apply (Hbad (CBad b0))|].
  destruct (ok3 b0 b1 b2).
  { exists (CRune (rune3 b0 b1 b2) (str3 b0 b1 b2)), s3. split_and!; [done..|simpl; lia]. }
  destruct s3 as [|b3 s4]; [by apply (Hbad (CBad b0))|].
  destruct (ok4 b0 b1 b2 b3).
  { exists (CRune (rune4 b0 b1 b2 b3) (str4 b0 b1 b2 b3)), s4. split_and!; [done..|simpl; lia]. }
  by apply (Hbad (CBad b0)).
Qed.

(** Reading loses no byte. *)
Lemma chunks_raw s : sconcat (raw_of <$> chunks s) = s.
Proof.
  induction s as [s IH] using string_len_ind.
  destruct (chunks_step s) as [[-> ->]|(c & rest & -> & -> & Hlt)]; [done|].
  simpl. by rewrite IH.
Qed.

Lemma chunks_inj s t : chunks s = chunks t → s = t.
Proof. intros H. by rewrite <-(chunks_raw s), H, chunks_raw. Qed.

(** What a chunk can be: a rune with its own encoding, ASCII or free of ASCII
    bytes; or a malformed byte, which is not ASCII. *)
Definition high_byte (b : ascii) : bool := 0x80 <=? byte_val b.

Definition chunk_wf (c : chunk) : Prop :=
  match c with
  | CRune r raw =>
    raw = encode_rune r ∧ (r < 0x80 ∧ raw = str1 (byte_of r) ∨ 0x80 <= r ∧ sall high_byte raw)
  | CBad b => high_byte b
  end.

Lemma byte_of_val b : byte_of (byte_val b) = b.
Proof. apply ascii_N_embedding. Qed.

Lemma byte_val_lt b : byte_val b < 256.
Proof. apply N_ascii_bounded. Qed.

(** Or-ing a shifted value with one that fits below it is an addition, so the
    bit fields of an encoding are digits. *)
Lemma lor_shiftl_add a k b p : 2 ^ k = p → b < p → N.lor (N.shiftl a k) b = a * p + b.
Proof.
  intros <- Hb. assert (N.land (N.shiftl a k) b = 0) as Hand.
  { apply N.bits_inj. intros i. rewrite N.land_spec, N.bits_0.
    destruct (N.lt_ge_cases i k) as [Hi|Hi]; [by rewrite N.shiftl_spec_low|].
    destruct (decide (b = 0)) as [->|Hb0]; [by rewrite N.bits_0, andb_false_r|].
    rewrite (N.bits_above_log2 b i), andb_false_r; [done|].
    apply N.lt_le_trans with k; [|done]. apply N.log2_lt_pow2; lia. }
  rewrite <-N.lxor_lor, <-N.add_nocarry_lxor, N.shiftl_mul_pow2 by done. done.
Qed.

Lemma land_low b k p : 2 ^ k = p → N.land b (N.ones k) = b mod p.
Proof. intros <-. apply N.land_ones. Qed.

Lemma digit_split a k : k ≠ 0 → ∃ q, a = q * k + a mod k ∧ a mod k < k.
Proof.
  intros Hk. exists (a / k). split; [|by apply N.mod_lt].
  rewrite N.mul_comm. apply N.div_mod'.
Qed.

Lemma low6_mod b : low6 b = byte_val b mod 64.
Proof. by apply (land_low _ 6). Qed.

Lemma low6_lt b : low6 b < 64.
Proof. rewrite low6_mod. by apply N.mod_lt. Qed.

Lemma rune2_val b0 b1 : rune2 b0 b1 = byte_val b0 mod 32 * 64 + low6 b1.
Proof.
  unfold rune2. change 0x1F with (N.ones 5). rewrite (land_low _ 5 32 eq_refl).
  apply (lor_shiftl_add _ 6 _ 64 eq_refl), low6_lt.
Qed.

Lemma rune3_val b0 b1 b2 :
  rune3 b0 b1 b2 = byte_val b0 mod 16 * 4096 + low6 b1 * 64 + low6 b2.
Proof.
  unfold rune3. change 0x0F with (N.ones 4). rewrite (land_low _ 4 16 eq_refl).
  pose proof (low6_lt b1). pose proof (low6_lt b2).
  rewrite (lor_shiftl_add _ 6 _ 64 eq_refl), (lor_shiftl_add _ 12 _ 4096 eq_refl) by lia. lia.
Qed.

Lemma rune4_val b0 b1 b2 b3 :
  rune4 b0 b1 b2 b3 = byte_val b0 mod 8 * 262144 + low6 b1 * 4096 + low6 b2 * 64 + low6 b3.
Proof.
  unfold rune4. change 0x07 with (N.ones 3). rewrite (land_low _ 3 8 eq_refl).
  pose proof (low6_lt b1). pose proof (low6_lt b2). pose proof (low6_lt b3).
  rewrite (lor_shiftl_add _ 6 _ 64 eq_refl), (lor_shiftl_add _ 12 _ 4096 eq_refl),
    (lor_shiftl_add _ 18 _ 262144 eq_refl) by lia. lia.
Qed.

Lemma in_range_spec lo hi b : in_range lo hi b ↔ lo <= byte_val b <= hi.
Proof.
  unfold in_range. rewrite andb_True, !Is_true_true, !N.leb_le. done.
Qed.

Lemma is_cont_spec b : is_cont b ↔ 128 <= byte_val b <= 191.
Proof. apply (in_range_spec 128 191). Qed.

Lemma is_cont_low6 b : is_cont b → byte_val b = 128 + low6 b.
Proof.
  rewrite is_cont_spec, low6_mod. intros H.
  destruct (digit_split (byte_val b) 64) as (q & Hq & ?); [done|].
  generalize dependent (byte_val b mod 64). intros r. lia.
Qed.

Lemma byte_eq b n : byte_val b = n → byte_of n = b.
Proof. intros <-. apply byte_of_val. Qed.

Lemma lor_hi_add k p b h a : 2 ^ k = p → h = b * p → a < p → N.lor h a = h + a.
Proof.
  intros Hp -> H. subst p. rewrite <-N.shiftl_mul_pow2. rewrite (lor_shiftl_add b k a _ eq_refl H).
  by rewrite N.shiftl_mul_pow2.
Qed.

Lemma in_range_high lo hi b : 0x80 <= lo → in_range lo hi b → high_byte b.
Proof.
  unfold in_range, high_byte. intros Hlo [H _]%andb_True.
  apply Is_true_true, N.leb_le. apply Is_true_true, N.leb_le in H. lia.
Qed.

Lemma is_cont_high b : is_cont b → high_byte b.
Proof. apply (in_range_high 0x80 0xBF). lia. Qed.


(** Digits of [q * p + r] in base [p]. *)
Lemma mod_digit q r p : r < p → (q * p + r) mod p = r.
Proof. intros H. symmetry. apply (N.mod_unique _ _ q); lia. Qed.

Lemma div_digit q r p : r < p → (q * p + r) / p = q.
Proof. intros H. symmetry. apply (N.div_unique _ _ _ r); lia. Qed.

Ltac digits := repeat first [rewrite mod_digit by lia|rewrite div_digit by lia].

(** The intervals of [encode_rune]. *)
Lemma encode_rune_2 r : 0x80 <= r < 0x800 →
  encode_rune r = str2 (byte_of (N.lor 0xC0 (r / 64))) (byte_of (N.lor 0x80 (r mod 64))).
Proof.
  intros H. unfold encode_rune.
  replace ((0xD800 <=? r) && (r <=? 0xDFFF) || (0x10FFFF <? r)) with false by lia.
  replace (r <? 0x80) with false by lia. replace (r <? 0x800) with true by lia.
  change 0x3F with (N.ones 6). by rewrite (land_low _ 6 64 eq_refl), N.shiftr_div_pow2.
Qed.

Lemma encode_rune_3 r : 0x800 <= r < 0x10000 → r < 0xD800 ∨ 0xDFFF < r →
  encode_rune r = str3 (byte_of (N.lor 0xE0 (r / 64 / 64)))
    (byte_of (N.lor 0x80 ((r / 64) mod 64))) (byte_of (N.lor 0x80 (r mod 64))).
Proof.
  intros H Hs. unfold encode_rune.
  replace ((0xD800 <=? r) && (r <=? 0xDFFF) || (0x10FFFF <? r)) with false by lia.
  replace (r <? 0x80) with false by lia. replace (r <? 0x800) with false by lia.
  replace (r <? 0x10000) with true by lia.
  change 0x3F with (N.ones 6). rewrite !(land_low _ 6 64 eq_refl), !N.shiftr_div_pow2.
  by rewrite N.Div0.div_div.
Qed.

Lemma encode_rune_4 r : 0x10000 <= r <= 0x10FFFF →
  encode_rune r = str4 (byte_of (N.lor 0xF0 (r / 64 / 64 / 64)))
    (byte_of (N.lor 0x80 ((r / 64 / 64) mod 64)))
    (byte_of (N.lor 0x80 ((r / 64) mod 64))) (byte_of (N.lor 0x80 (r mod 64))).
Proof.
  intros H. unfold encode_rune.
  replace ((0xD800 <=? r) && (r <=? 0xDFFF) || (0x10FFFF <? r)) with false by lia.
  replace (r <? 0x80) with false by lia. replace (r <? 0x800) with false by lia.
  replace (r <? 0x10000) with false by lia.
  change 0x3F with (N.ones 6). rewrite !(land_low _ 6 64 eq_refl), !N.shiftr_div_pow2.
  by rewrite !N.Div0.div_div.
Qed.

Ltac intro_low6 b H :=
  let E := fresh "E" in let y := fresh "y" in
  pose proof (is_cont_low6 b H) as E; pose proof (low6_lt b);
  generalize dependent (low6 b); intros y; intros.

(** The second-byte ranges keep every form in its own interval, away from the
    surrogates. *)
Lemma rune2_encode b0 b1 :
  ok2 b0 b1 → encode_rune (rune2 b0 b1) = str2 b0 b1 ∧ 0x80 <= rune2 b0 b1.
Proof.
  intros [H0%in_range_spec H1]%andb_True. rewrite rune2_val.
  destruct (digit_split (byte_val b0) 32) as (q & Hq & Hx); [done|].
  generalize dependent (byte_val b0 mod 32). intros x Hq Hx. intro_low6 b1 H1.
  assert (byte_val b0 = 192 + x) by lia. split; [|lia].
  rewrite encode_rune_2 by lia. digits.
  rewrite (lor_hi_add 6 64 3 0xC0 x), (lor_hi_add 6 64 2 0x80 y) by lia.
  by rewrite (byte_eq b0), (byte_eq b1) by lia.
Qed.

Lemma rune3_encode b0 b1 b2 :
  ok3 b0 b1 b2 → encode_rune (rune3 b0 b1 b2) = str3 b0 b1 b2 ∧ 0x80 <= rune3 b0 b1 b2.
Proof.
  intros [[H0%in_range_spec H1%in_range_spec]%andb_True H2]%andb_True. rewrite rune3_val.
  assert (is_cont b1) as Hc1 by (apply is_cont_spec; repeat case_match; lia).
  destruct (digit_split (byte_val b0) 16) as (q & Hq & Hx); [done|].
  generalize dependent (byte_val b0 mod 16). intros x Hq Hx.
  intro_low6 b1 Hc1. intro_low6 b2 H2.
  assert (byte_val b0 = 224 + x) by lia.
  assert (x = 0 → 32 <= y) by (intros; replace (byte_val b0 =? 224) with true in H1 by lia; lia).
  assert (x = 13 → y <= 31) by (intros; replace (byte_val b0 =? 237) with true in H1 by lia; lia).
  replace (x * 4096 + y * 64 + y0) with ((x * 64 + y) * 64 + y0) by lia.
  split; [|lia].
  rewrite encode_rune_3 by lia. digits.
  rewrite (lor_hi_add 5 32 7 0xE0 x), !(lor_hi_add 6 64 2 0x80) by lia.
  by rewrite (byte_eq b0), (byte_eq b1), (byte_eq b2) by lia.
Qed.

Lemma rune4_encode b0 b1 b2 b3 :
  ok4 b0 b1 b2 b3 →
  encode_rune (rune4 b0 b1 b2 b3) = str4 b0 b1 b2 b3 ∧ 0x80 <= rune4 b0 b1 b2 b3.
Proof.
  intros [[[H0%in_range_spec H1%in_range_spec]%andb_True H2]%andb_True H3]%andb_True.
  rewrite rune4_val.
  assert (is_cont b1) as Hc1 by (apply is_cont_spec; repeat case_match; lia).
  destruct (digit_split (byte_val b0) 8) as (q & Hq & Hx); [done|].
  generalize dependent (byte_val b0 mod 8). intros x Hq Hx.
  intro_low6 b1 Hc1. intro_low6 b2 H2. intro_low6 b3 H3.
  assert (byte_val b0 = 240 + x) by lia.
  assert (x = 0 → 16 <= y) by (intros; replace (byte_val b0 =? 240) with true in H1 by lia; lia).
  assert (x = 4 → y <= 15) by (intros; replace (byte_val b0 =? 244) with true in H1 by lia; lia).
  replace (x * 262144 + y * 4096 + y0 * 64 + y1) with (((x * 64 + y) * 64 + y0) * 64 + y1) by lia.
  split; [|lia].
  rewrite encode_rune_4 by lia. digits.
  rewrite (lor_hi_add 4 16 15 0xF0 x), !(lor_hi_add 6 64 2 0x80) by lia.
  by rewrite (byte_eq b0), (byte_eq b1), (byte_eq b2), (byte_eq b3) by lia.
Qed.

Lemma chunks_wf s : Forall chunk_wf (chunks s).
Proof.
  induction s as [s IH] using string_len_ind.
  destruct s as [|b0 s1]; [constructor|]. simpl chunks.
  destruct (N.ltb_spec (byte_val b0) 0x80) as [Hlt|Hge].
  { constructor; [|apply IH; simpl; lia]. simpl. rewrite byte_of_val. split; [|by left].
    unfold encode_rune.
    replace ((0xD800 <=? byte_val b0) && (byte_val b0 <=? 0xDFFF) || (0x10FFFF <? byte_val b0))
      with false by lia.
    replace (byte_val b0 <? 0x80) with true by lia. by rewrite byte_of_val. }
  assert (high_byte b0) as Hb0 by (by apply Is_true_true, N.leb_le).
  destruct s1 as [|b1 s2]; [by repeat constructor|].
  destruct (ok2 b0 b1) eqn:E2.
  { constructor; [|apply IH; simpl; lia].
    apply Is_true_true in E2. destruct (rune2_encode b0 b1 E2) as [He Hr].
    split; [done|right; split; [done|]].
    apply andb_True in E2 as [_ H1]. by repeat (apply andb_True; split; auto using is_cont_high). }
  assert (Forall chunk_wf (chunks (String b1 s2))) as Hrest by (apply IH; simpl; lia).
  destruct s2 as [|b2 s3]; [by constructor|].
  destruct (ok3 b0 b1 b2) eqn:E3.
  { constructor; [|apply IH; simpl; lia].
    apply Is_true_true in E3. destruct (rune3_encode b0 b1 b2 E3) as [He Hr].
    split; [done|right; split; [done|]].
    apply andb_True in E3 as [[_ H1]%andb_True H2].
    assert (high_byte b1) by (eapply in_range_high; [|exact H1]; case_match; lia).
    by repeat (apply andb_True; split; auto using is_cont_high). }
  destruct s3 as [|b3 s4]; [by constructor|].
  destruct (ok4 b0 b1 b2 b3) eqn:E4; [|by constructor].
  constructor; [|apply IH; simpl; lia].
  apply Is_true_true in E4. destruct (rune4_encode b0 b1 b2 b3 E4) as [He Hr].
  split; [done|right; split; [done|]].
  apply andb_True in E4 as [[[_ H1]%andb_True H2]%andb_True H3].
  assert (high_byte b1) by (eapply in_range_high; [|exact H1]; case_match; lia).
  by repeat (apply andb_True; split; auto using is_cont_high).
Qed.

(** ** Package strings *)

Lemma TrimSuffix_app s t : TrimSuffix (s +:+ t) t = s.
Proof.
  unfold TrimSuffix, HasSuffix. rewrite slen_app.
  replace (slen s + slen t - slen t)%nat with (slen s) by lia.
  rewrite sdrop_app_exact, stake_app_exact, bool_decide_eq_true_2 by done.
  by replace (slen t <=? slen s + slen t)%nat with true by lia.
Qed.

Lemma HasPrefix_nil s : HasPrefix s "" = true.
Proof. by destruct s. Qed.

Lemma HasPrefix_app p s : HasPrefix (p +:+ s) p = true.
Proof. induction p as [|c p IH]; [apply HasPrefix_nil|]. rewrite sapp_cons. simpl. by rewrite bool_decide_eq_true_2. Qed.

Lemma HasPrefix_spec s w : HasPrefix s w ↔ ∃ t, s = w +:+ t.
Proof.
  split.
  - revert s. induction w as [|c w IH]; intros s H; [by exists s|]. destruct s as [|b s]; [done|].
    simpl in H. apply andb_True in H as [->%bool_decide_unpack H].
    destruct (IH s H) as [t ->]. by exists t.
  - intros [t ->]. by rewrite HasPrefix_app.
Qed.

Lemma CutPrefix_app p s : CutPrefix (p +:+ s) p = Some s.
Proof. unfold CutPrefix. by rewrite HasPrefix_app, sdrop_app_exact. Qed.

Lemma Cut1_spec s sep a b :
  Cut1 s sep = Some (a, b) ↔ s = a +:+ String sep b ∧ contains_char a sep = false.
Proof.
  revert a b. induction s as [|c s IH]; intros a b; simpl.
  { split; [done|]. intros [H _]. by destruct a. }
  case_bool_decide as Hc.
  - subst. split; [by intros [= <- <-]|]. destruct a as [|x a]; rewrite ?sapp_cons; intros [[= ->] Ha]; [done|].
    subst. simpl in Ha. by rewrite bool_decide_eq_true_2 in Ha.
  - destruct (Cut1 s sep) as [[a' b']|] eqn:E.
    + destruct (IH a' b') as [IH1 _]. destruct IH1 as [-> Ha']; [done|]. split.
      * intros [= <- <-]. split; [done|]. simpl. by rewrite bool_decide_eq_false_2.
      * destruct a as [|x a]; rewrite ?sapp_cons; intros [[= -> Heq] Ha]; [done|].
        simpl in Ha. apply orb_false_iff in Ha as [_ Ha].
        destruct (IH a b) as [_ IH2]. rewrite Heq in IH2. specialize (IH2 (conj eq_refl Ha)). congruence.
    + split; [done|]. destruct a as [|x a]; rewrite ?sapp_cons; intros [[= -> Heq] Ha]; [done|].
      simpl in Ha. apply orb_false_iff in Ha as [_ Ha]. exfalso.
      destruct (IH a b) as [_ IH2]. rewrite Heq in IH2. by specialize (IH2 (conj eq_refl Ha)).
Qed.

Lemma rev_app_spec (s t : string) : String.rev_app s t = String.rev s +:+ t.
Proof.
  unfold String.rev. revert t. induction s as [|c s IH]; intros t; simpl; [done|].
  by rewrite IH, (IH (String c "")), sapp_assoc.
Qed.

Lemma rev_cons c (s : string) : String.rev (String c s) = String.rev s +:+ str1 c.
Proof. apply (rev_app_spec s (str1 c)). Qed.

Lemma rev_sapp (s t : string) : String.rev (s +:+ t) = String.rev t +:+ String.rev s.
Proof.
  induction s as [|c s IH]; [by rewrite sapp_nil_l, sapp_nil_r|].
  by rewrite sapp_cons, !rev_cons, IH, sapp_assoc.
Qed.

Lemma rev_rev (s : string) : String.rev (String.rev s) = s.
Proof. induction s as [|c s IH]; [done|]. by rewrite rev_cons, rev_sapp, IH. Qed.

Lemma contains_char_app (s t : string) c :
  contains_char (s +:+ t) c = contains_char s c || contains_char t c.
Proof. induction s as [|b s IH]; [done|]. rewrite sapp_cons. simpl. by rewrite IH, orb_assoc. Qed.

Lemma contains_char_rev (s : string) c : contains_char (String.rev s) c = contains_char s c.
Proof.
  induction s as [|b s IH]; [done|]. rewrite rev_cons, contains_char_app, IH. simpl.
  by rewrite orb_false_r, orb_comm.
Qed.

(** Cutting at the last separator: the tail is what holds none. *)
Lemma CutLast1_spec s sep a b :
  CutLast1 s sep = Some (a, b) ↔ s = a +:+ String sep b ∧ contains_char b sep = false.
Proof.
  unfold CutLast1.
  assert (∀ x y, String.rev s = x +:+ String sep y ↔ s = String.rev y +:+ String sep (String.rev x)) as Hr.
  { intros x y. split; intros H.
    - by rewrite <-(rev_rev s), H, rev_sapp, rev_cons, sapp_assoc.
    - by rewrite H, rev_sapp, rev_cons, !rev_rev, sapp_assoc. }
  split.
  - destruct (Cut1 (String.rev s) sep) as [[x y]|] eqn:E; [|done]. intros [= <- <-].
    apply Cut1_spec in E as [E1%Hr E2]. by rewrite contains_char_rev.
  - intros [Hs Hb]. assert (Cut1 (String.rev s) sep = Some (String.rev b, String.rev a)) as ->.
    { apply Cut1_spec. rewrite contains_char_rev. split; [|done]. apply Hr. by rewrite !rev_rev. }
    by rewrite !rev_rev.
Qed.

(** ** Base64 *)

Lemma b64_val_char x : b64_val (b64_char x) = Some x.
Proof. by destruct x as [[] [] [] [] [] []]. Qed.

Lemma b64_char_val c x : b64_val c = Some x → b64_char x = c.
Proof. by destruct c as [[] [] [] [] [] [] [] []]; vm_compute; intros [= <-]. Qed.

Lemma b64_char_not_pad x : b64_char x ≠ pad_char.
Proof. by destruct x as [[] [] [] [] [] []]. Qed.

(** Induction three bytes (one encoded quantum) at a time. *)
Lemma string_ind3 (P : string → Prop) :
  P "" → (∀ a, P (str1 a)) → (∀ a b, P (str2 a b)) →
  (∀ a b c s, P s → P (String a (String b (String c s)))) → ∀ s, P s.
Proof.
  intros H0 H1 H2 H3 s. induction s as [s IH] using string_len_ind.
  destruct s as [|a [|b [|c s]]]; [done|apply H1|apply H2|]. apply H3, IH. simpl. lia.
Qed.

Lemma b64_decode_encode s : b64_decode (b64_encode s) = Some s.
Proof.
  induction s as [|[]|[] []|[] [] [] s IH] using string_ind3;
    simpl; unfold str4, str3, str2, str1; rewrite ?sapp_cons, ?sapp_nil_l; simpl;
    rewrite ?b64_val_char; simpl;
    rewrite ?(bool_decide_eq_false_2 _ (b64_char_not_pad _)), ?b64_val_char; simpl; try done.
  by rewrite IH.
Qed.

(** The strict decoder accepts exactly what the encoder writes. *)
Lemma b64_decode_Some t s : b64_decode t = Some s ↔ t = b64_encode s.
Proof.
  split; [|intros ->; apply b64_decode_encode].
  revert s. induction t as [t IH] using string_len_ind. intros s.
  destruct t as [|c0 [|c1 [|c2 [|c3 t']]]]; simpl; try done.
  { by intros [= <-]. }
  destruct (b64_val c0) as [[a7 a6 a5 a4 a3 a2]|] eqn:E0; simpl; [|done].
  destruct (b64_val c1) as [[a1 a0 b7 b6 b5 b4]|] eqn:E1; simpl; [|done].
  apply b64_char_val in E0 as <-, E1 as <-.
  destruct (bool_decide_reflect (c2 = pad_char)) as [->|Hp2].
  { destruct (bool_decide_reflect (c3 = pad_char)) as [->|]; simpl; [|done].
    destruct (bool_decide_reflect (t' = "")) as [->|]; simpl; [|done].
    destruct b7, b6, b5, b4; simpl; try done. by intros [= <-]. }
  destruct (b64_val c2) as [[b3 b2 b1 b0 e7 e6]|] eqn:E2; simpl; [|done].
  apply b64_char_val in E2 as <-.
  destruct (bool_decide_reflect (c3 = pad_char)) as [->|Hp3].
  { destruct (bool_decide_reflect (t' = "")) as [->|]; simpl; [|done].
    destruct e7, e6; simpl; try done. by intros [= <-]. }
  destruct (b64_val c3) as [[e5 e4 e3 e2 e1 e0]|] eqn:E3; simpl; [|done].
  apply b64_char_val in E3 as <-.
  destruct (b64_decode t') as [rest|] eqn:Er; simpl; [|done].
  intros [= <-]. apply IH in Er as ->; [|simpl; lia]. done.
Qed.
