(* ===== verification/Sha256.v ===== *)
(** [crypto/sha256] (FIPS 180-4) as an executable function on byte strings, with
    the published test vectors, and the length of a digest. *)

From S2P Require Import Prelude GoStrings.

Local Open Scope N_scope.

(** ** 32-bit words *)

Definition mask32 : N := 0xFFFFFFFF.
Definition add32 (x y : N) : N := N.land (x + y) mask32.
Definition rotr (k x : N) : N :=
  N.lor (N.shiftr x k) (N.land (N.shiftl x (32 - k)) mask32).

Definition ch (x y z : N) : N := N.lxor (N.land x y) (N.land (N.lxor mask32 x) z).
Definition maj (x y z : N) : N := N.lxor (N.land x y) (N.lxor (N.land x z) (N.land y z)).
Definition big_sigma0 (x : N) : N := N.lxor (rotr 2 x) (N.lxor (rotr 13 x) (rotr 22 x)).
Definition big_sigma1 (x : N) : N := N.lxor (rotr 6 x) (N.lxor (rotr 11 x) (rotr 25 x)).
Definition small_sigma0 (x : N) : N := N.lxor (rotr 7 x) (N.lxor (rotr 18 x) (N.shiftr x 3)).
Definition small_sigma1 (x : N) : N := N.lxor (rotr 17 x) (N.lxor (rotr 19 x) (N.shiftr x 10)).

(** The eight working variables, and the sixteen words of the schedule that the
    next round still needs. *)
Record hstate : Type :=
  HState { ha : N; hb : N; hc : N; hd : N; he : N; hf : N; hg : N; hh : N }.

(** FIPS 180-4 takes the constants from the primes: the first thirty-two bits of
    the fractional parts of cube roots (the rounds) and of square roots (the
    initial state).  [root_le] finds the integer [k]-th root bit by bit. *)
Fixpoint root_le (k : N) (bits : nat) (x : N) : N :=
  match bits with
  | O => 0
  | S b =>
    let r := 2 * root_le k b (N.shiftr x k) in
    if (r + 1) ^ k <=? x then r + 1 else r
  end.

Definition root_word (k p : N) : N := N.land (root_le k 40 (N.shiftl p (32 * k))) mask32.

Definition is_prime (n : N) : bool :=
  forallb (fun d => negb (n mod N.of_nat d =? 0)) (seq 2 (N.to_nat n - 2)).

(** The sixty-four primes below 312. *)
Definition primes : list N :=
  Eval vm_compute in filter (fun n => is_prime n) (map N.of_nat (seq 2 310)).

Definition round_constants : list N := Eval vm_compute in map (root_word 3) primes.

Definition initial_state : hstate :=
  Eval vm_compute in
  match map (root_word 2) primes with
  | a :: b :: c :: d :: e :: f :: g :: h :: _ => HState a b c d e f g h
  | _ => HState 0 0 0 0 0 0 0 0
  end.

(** ** Compression *)

Fixpoint rounds (ks w : list N) (st : hstate) : hstate :=
  match ks with
  | [] => st
  | k :: ks' =>
    match w with
    | w0 :: ((w1 :: _) as w') =>
      let '(HState a b c d e f g h) := st in
      let t1 := add32 h (add32 (big_sigma1 e) (add32 (ch e f g) (add32 k w0))) in
      let t2 := add32 (big_sigma0 a) (maj a b c) in
      let w16 := add32 (small_sigma1 (nth 14 w 0)) (add32 (nth 9 w 0) (add32 (small_sigma0 w1) w0)) in
      rounds ks' (w' ++ [w16]) (HState (add32 t1 t2) a b c (add32 d t1) e f g)
    | _ => st
    end
  end.

Definition add_states (s t : hstate) : hstate :=
  HState (add32 (ha s) (ha t)) (add32 (hb s) (hb t)) (add32 (hc s) (hc t)) (add32 (hd s) (hd t))
         (add32 (he s) (he t)) (add32 (hf s) (hf t)) (add32 (hg s) (hg t)) (add32 (hh s) (hh t)).

Definition compress (st : hstate) (w : list N) : hstate :=
  add_states st (rounds round_constants w st).

(** ** Padding and the whole digest *)

Definition word_of (a b c d : N) : N :=
  N.lor (N.shiftl a 24) (N.lor (N.shiftl b 16) (N.lor (N.shiftl c 8) d)).

Fixpoint words (l : list N) : list N :=
  match l with a :: b :: c :: d :: r => word_of a b c d :: words r | _ => [] end.

(** [n] big-endian bytes of [x]. *)
Fixpoint be_bytes (n : nat) (x : N) : list N :=
  match n with
  | O => []
  | S n' => be_bytes n' (N.shiftr x 8) ++ [N.land x 255]
  end.

Definition pad (l : list N) : list N :=
  let n := length l in
  l ++ [0x80] ++ replicate (63 - (n + 8) mod 64)%nat 0 ++ be_bytes 8 (8 * N.of_nat n).

Fixpoint absorb (fuel : nat) (st : hstate) (ws : list N) : hstate :=
  match fuel with
  | O => st
  | S f => match ws with
           | [] => st
           | _ => absorb f (compress st (take 16 ws)) (drop 16 ws)
           end
  end.

Definition state_bytes (st : hstate) : list N :=
  be_bytes 4 (ha st) ++ be_bytes 4 (hb st) ++ be_bytes 4 (hc st) ++ be_bytes 4 (hd st) ++
  be_bytes 4 (he st) ++ be_bytes 4 (hf st) ++ be_bytes 4 (hg st) ++ be_bytes 4 (hh st).

(** [sha256.Sum256(data)]; one block of sixteen words per unit of fuel. *)
Definition Sum256 (data : string) : string :=
  let ws := words (pad (bytes_of data)) in
  of_bytes (state_bytes (absorb (length ws) initial_state ws)).

(** [hex.EncodeToString(sum[:4])]. *)
Definition hash8 (data : string) : string := hex_encode (stake 4 (Sum256 data)).

(** [hex.EncodeToString(sum[:])]. *)
Definition hash_hex (data : string) : string := hex_encode (Sum256 data).

(** ** Test vectors *)

Example sha256_abc :
  hash_hex "abc" = "ba7816bf8f01cfea414140de5dae2223b00361a396177a9cb410ff61f20015ad".
Proof. vm_compute. reflexivity. Qed.

Example sha256_empty :
  hash_hex "" = "e3b0c44298fc1c149afbf4c8996fb92427ae41e4649b934ca495991b7852b855".
Proof. vm_compute. reflexivity. Qed.

Example sha256_two_blocks :
  hash_hex "abcdbcdecdefdefgefghfghighijhijkijkljklmklmnlmnomnopnopq" =
  "248d6a61d20638b8e5c026930c3e6039a33ce45964ff2167f6ecedd419db06c1".
Proof. vm_compute. reflexivity. Qed.

(** ** Lengths *)

Lemma length_be_bytes n x : length (be_bytes n x) = n.
Proof. revert x. induction n as [|n IH]; intros x; simpl; [done|]. rewrite length_app, IH. simpl. lia. Qed.

Lemma slen_of_bytes l : slen (of_bytes l) = length l.
Proof. induction l as [|x l IH]; [done|]. 
  change (S (slen (of_bytes l)) = S (length l)). by rewrite IH.
 Qed.

Lemma slen_Sum256 data : slen (Sum256 data) = 32%nat.
Proof.
  unfold Sum256. rewrite slen_of_bytes. unfold state_bytes.
  by rewrite !length_app, !length_be_bytes.
Qed.

Lemma slen_hex_encode s : slen (hex_encode s) = (2 * slen s)%nat.
Proof. induction s as [|b s IH]; simpl; [done|]. rewrite IH. lia. Qed.

Lemma slen_hash8 data : slen (hash8 data) = 8%nat.
Proof. unfold hash8. by rewrite slen_hex_encode, slen_stake, slen_Sum256. Qed.

Definition is_hex (c : ascii) : bool :=
  is_digit c || ((97 <=? byte_val c) && (byte_val c <=? 102)).

Lemma get_sall p n s c : sall p s → String.get n s = Some c → p c.
Proof.
  revert n. induction s as [|b s IH]; intros [|n]; simpl; try done.
  - by intros [Hb _]%andb_True [= <-].
  - intros [_ Hs]%andb_True. by apply IH.
Qed.

Lemma hex_lower_is_hex n : is_hex (hex_lower n).
Proof.
  unfold hex_lower. destruct (String.get _ _) as [c|] eqn:E; simpl; [|done].
  by eapply (get_sall is_hex) in E.
Qed.

Lemma hex_encode_hex s : sall is_hex (hex_encode s).
Proof. induction s as [|b s IH]; simpl; [done|]. 
  by repeat (apply andb_True; split; [apply hex_lower_is_hex|]).
Qed.

(** A fingerprint is eight lower-case hexadecimal characters. *)
Definition fingerprint_shape (fp : string) : Prop := slen fp = 8%nat ∧ sall is_hex fp.

Lemma hash8_shape data : fingerprint_shape (hash8 data).
Proof. split; [apply slen_hash8|apply hex_encode_hex]. Qed.
