(* ===== verification/Values.v ===== *)
(** Dynamic Go values ([any]) and YAML nodes ([yaml.Node]): the data that the
    cassette layer, the fingerprints and the redactor pass around. *)

From S2P Require Import Prelude GoStrings.

(** ** yaml.Node

    The fields of [yaml.Node] that the source reads or writes: kind, style
    (only whether it is [DoubleQuotedStyle]), tag, scalar value, content. *)
Inductive ykind : Type := YDocument | YSequence | YMapping | YScalar | YAlias.

Inductive ynode : Type :=
| YNode (kind : ykind) (dquoted : bool) (tag value : string) (content : list ynode).

Definition y_kind (n : ynode) : ykind := let '(YNode k _ _ _ _) := n in k.
Definition y_tag (n : ynode) : string := let '(YNode _ _ t _ _) := n in t.
Definition y_value (n : ynode) : string := let '(YNode _ _ _ v _) := n in v.
Definition y_content (n : ynode) : list ynode := let '(YNode _ _ _ _ c) := n in c.

Global Instance ykind_eq_dec : EqDecision ykind.
Proof. solve_decision. Defined.

(** Values of a mapping's content: key node, value node, key node, ... *)
Fixpoint y_pairs (content : list ynode) : list (ynode * ynode) :=
  match content with
  | k :: v :: rest => (k, v) :: y_pairs rest
  | _ => []
  end.

(** ** any

    [VInt] carries the Go integer type, which the type switches of the source
    distinguish.  A [float64] is not-a-number, an infinity, or [m * 2^e].
    [VMap] lists the entries of a map with string keys in some iteration order;
    [VStruct] lists the fields that a struct's tags give the encoders, omitted
    ones left out; [VQuoted] is the string type of stream_cassette.go whose
    YAML form is forced to double quotes. *)
Inductive intkind : Type := KInt | KInt64 | KUint64 | KUint32.

Inductive float64 : Type :=
| FNaN
| FInf (negative : bool)
| FNum (m e : Z).

Inductive any : Type :=
| VNil
| VBool (b : bool)
| VInt (k : intkind) (z : Z)
| VFloat (f : float64)
| VString (s : string)
| VQuoted (s : string)
| VSlice (l : list any)
| VMap (m : list (string * any))
| VStruct (fs : list (string * any)).

(** Induction through the lists. *)
Section ynode_induction.
Variable P : ynode → Prop.
Hypothesis Hnode : ∀ k d t v c, Forall P c → P (YNode k d t v c).

Fixpoint ynode_deep_ind (n : ynode) : P n :=
  match n with
  | YNode k d t v c =>
    Hnode k d t v c
      ((fix go (l : list ynode) : Forall P l :=
          match l with
          | [] => Forall_nil_2 P
          | x :: l' => Forall_cons_2 P x l' (ynode_deep_ind x) (go l')
          end) c)
  end.
End ynode_induction.

Section any_induction.
Variable P : any → Prop.
Hypothesis Hnil : P VNil.
Hypothesis Hbool : ∀ b, P (VBool b).
Hypothesis Hint : ∀ k z, P (VInt k z).
Hypothesis Hfloat : ∀ f, P (VFloat f).
Hypothesis Hstring : ∀ s, P (VString s).
Hypothesis Hquoted : ∀ s, P (VQuoted s).
Hypothesis Hslice : ∀ l, Forall P l → P (VSlice l).
Hypothesis Hmap : ∀ m, Forall (λ kv, P kv.2) m → P (VMap m).
Hypothesis Hstruct : ∀ m, Forall (λ kv, P kv.2) m → P (VStruct m).

Fixpoint any_deep_ind (v : any) : P v :=
  let fields := fix go (m : list (string * any)) : Forall (λ kv, P kv.2) m :=
    match m with
    | [] => Forall_nil_2 _
    | kv :: m' => Forall_cons_2 _ kv m' (any_deep_ind kv.2) (go m')
    end in
  match v with
  | VNil => Hnil
  | VBool b => Hbool b
  | VInt k z => Hint k z
  | VFloat f => Hfloat f
  | VString s => Hstring s
  | VQuoted s => Hquoted s
  | VSlice l =>
    Hslice l ((fix go (l : list any) : Forall P l :=
      match l with
      | [] => Forall_nil_2 _
      | x :: l' => Forall_cons_2 _ x l' (any_deep_ind x) (go l')
      end) l)
  | VMap m => Hmap m (fields m)
  | VStruct m => Hstruct m (fields m)
  end.
End any_induction.

(** ** Go maps

    A [map[string]any] is a [gmap]; reading it as an [any] lists its entries. *)
Definition of_gomap (m : gmap string any) : any := VMap (map_to_list m).

(** [m[k]] for a missing key is the zero value, the nil interface. *)
Definition gomap_get (m : gmap string any) (k : string) : any := default VNil (m !! k).

(** A nil slice encodes as [null] in JSON; a non-nil one as its elements. *)
Definition of_slice {A} (f : A → any) (l : option (list A)) : any :=
  match l with None => VNil | Some l => VSlice (f <$> l) end.

(** ** Sorting map entries by key

    Go's encoders visit map keys in increasing byte order. *)
Definition key_le {A} (p q : string * A) : Prop := String.le p.1 q.1.

Global Instance key_le_dec {A} : RelDecision (@key_le A).
Proof. intros p q. unfold key_le. apply _. Defined.

Definition sort_keys {A} (m : list (string * A)) : list (string * A) := merge_sort key_le m.

Global Instance key_le_total {A} : Total (@key_le A).
Proof. intros p q. apply (total String.le). Qed.

Global Instance key_le_trans {A} : Transitive (@key_le A).
Proof. intros p q r. unfold key_le. by etrans. Qed.

Lemma sort_keys_Permutation {A} (m : list (string * A)) : sort_keys m ≡ₚ m.
Proof. apply merge_sort_Permutation. Qed.

Lemma sort_keys_sorted {A} (m : list (string * A)) : StronglySorted key_le (sort_keys m).
Proof. apply Sorted_StronglySorted; [apply _|]. apply Sorted_merge_sort; apply _. Qed.

(** With distinct keys there is one sorted order, whatever the iteration order
    was. *)
Lemma sorted_keys_unique {A} (m1 m2 : list (string * A)) :
  NoDup m1.*1 → StronglySorted key_le m1 → StronglySorted key_le m2 → m1 ≡ₚ m2 → m1 = m2.
Proof.
  intros Hnd Hs1 Hs2 Hp. apply (StronglySorted_unique_strong key_le); [|done..].
  intros p q Hp1 Hq1 Hpq Hqp.
  assert (p.1 = q.1) as Heq by (by apply (anti_symm String.le)).
  rewrite <-Hp in Hq1.
  apply list_elem_of_lookup in Hp1 as [i Hi], Hq1 as [j Hj].
  enough (i = j) as -> by congruence.
  apply (NoDup_lookup m1.*1 i j p.1 Hnd); rewrite list_lookup_fmap.
  - by rewrite Hi.
  - by rewrite Hj, Heq.
Qed.

Lemma sort_keys_perm {A} (m1 m2 : list (string * A)) :
  NoDup m1.*1 → m1 ≡ₚ m2 → sort_keys m1 = sort_keys m2.
Proof.
  intros Hnd Hp. apply sorted_keys_unique; [| apply sort_keys_sorted..|].
  - by rewrite sort_keys_Permutation.
  - by rewrite !sort_keys_Permutation.
Qed.

Lemma sort_keys_id {A} (m : list (string * A)) :
  NoDup m.*1 → StronglySorted key_le m → sort_keys m = m.
Proof.
  intros Hnd Hs. symmetry. apply sorted_keys_unique; auto using sort_keys_sorted.
  by rewrite sort_keys_Permutation.
Qed.

(** Sorting looks at the keys only: it commutes with a map over the values. *)
Section merge_fmap.
Context {A B : Type} (g : A → B).
Let f : string * A → string * B := prod_map id g.
Let fs : list (option (list (string * A))) → list (option (list (string * B))) :=
  fmap (M:=list) (fmap (M:=option) (fmap (M:=list) f)).

Lemma list_merge_fmap (l1 l2 : list (string * A)) :
  list_merge key_le (f <$> l1) (f <$> l2) = f <$> list_merge key_le l1 l2.
Proof.
  revert l2. induction l1 as [|x1 l1 IH1]; intros l2; [by destruct l2|].
  induction l2 as [|x2 l2 IH2]; [done|].
  rewrite !fmap_cons, !list_merge_cons.
  destruct (decide (key_le (f x1) (f x2))) as [H|H], (decide (key_le x1 x2)) as [H'|H'];
    try (destruct x1, x2; unfold key_le in *; simpl in *; done).
  - rewrite fmap_cons. f_equal. rewrite <-fmap_cons. apply IH1.
  - rewrite fmap_cons. f_equal. rewrite <-fmap_cons. apply IH2.
Qed.

Lemma merge_stack_fmap st :
  merge_stack key_le (fs st) = f <$> merge_stack key_le st.
Proof.
  induction st as [|[l|] st IH]; simpl; [done| |done].
  by rewrite IH, list_merge_fmap.
Qed.

Lemma merge_list_to_stack_fmap st (l : list (string * A)) :
  merge_list_to_stack key_le (fs st) (f <$> l) = fs (merge_list_to_stack key_le st l).
Proof.
  revert l. induction st as [|[l'|] st IH]; intros l; simpl; [done| |done].
  by rewrite list_merge_fmap, <-IH.
Qed.

Lemma sort_keys_fmap (m : list (string * A)) : sort_keys (f <$> m) = f <$> sort_keys m.
Proof.
  unfold sort_keys, merge_sort.
  change (@nil (option (list (string * B)))) with (fs []).
  generalize (@nil (option (list (string * A)))) as st.
  induction m as [|x m IH]; intros st; simpl; [apply merge_stack_fmap|].
  rewrite <-IH. f_equal. apply (merge_list_to_stack_fmap st [x]).
Qed.
End merge_fmap.
