(* ===== verification/CanonicalJson.v ===== *)
(** go/canonical.go: the canonical JSON every fingerprint hashes.

    [go_json] is [encoding/json]; [CanonicalJSON], [unescapeLineTerminators] and
    [CanonicalFingerprint] are the functions of the file; [direct_json] is the same
    writer without the detour through escapes that have to be undone, and the two
    agree ([CanonicalJSON_direct]).  [CanonicalSpec] compares the result with the
    format's specification. *)

From S2P Require Import Prelude GoStrings Sha256 Values.

Local Open Scope N_scope.

(** Text of a finite [float64] ([strconv.AppendFloat] as [encoding/json] calls
    it): digits, sign, point and exponent. *)
Definition float_char (c : ascii) : bool :=
  int_char c || bool_decide (c ∈ ["+"; "."; "e"]%char).

Class FloatFormat := {
  format_float : Z → Z → string;
  format_float_chars : ∀ m e, sall float_char (format_float m e);
}.

Lemma int_char_float c : int_char c → float_char c.
Proof. unfold float_char. by intros ->%Is_true_true. Qed.

Lemma sall_impl (p q : ascii → bool) s : (∀ c, p c → q c) → sall p s → sall q s.
Proof.
  intros Hpq. induction s as [|c s IH]; simpl; [done|].
  intros [Hc Hs]%andb_True. apply andb_True. auto.
Qed.

(** A formatter for closed examples: dyadic integers. *)
Definition integral_floats : FloatFormat :=
  {| format_float m e := itoa (Z.shiftl m e);
     format_float_chars m e := sall_impl _ _ _ int_char_float (itoa_chars _) |}.

(** ** encoding/json *)

Definition esc (s : string) : string := String backslash s.

Definition json_u00 (r : N) : string :=
  esc ("u00" +:+ str2 (hex_lower (N.shiftr r 4)) (hex_lower (N.land r 15))).

(** The control characters with a short escape. *)
Definition short_escape (r : N) : option string :=
  if r =? 8 then Some (esc "b") else
  if r =? 9 then Some (esc "t") else
  if r =? 10 then Some (esc "n") else
  if r =? 12 then Some (esc "f") else
  if r =? 13 then Some (esc "r") else None.

(** Escapes of the ASCII characters: the quote, the backslash and the control
    characters. *)
Definition escape_ascii (r : N) (raw : string) : string :=
  if (r =? byte_val dquote) || (r =? byte_val backslash) then esc raw
  else match short_escape r with
       | Some e => e
       | None => if r <? 0x20 then json_u00 r else raw
       end.

Definition is_line_separator (r : N) : bool := (r =? 0x2028) || (r =? 0x2029).

Definition is_html (r : N) : bool := (r =? 0x3C) || (r =? 0x3E) || (r =? 0x26).

(** One step of [appendString]; [html] is [SetEscapeHTML]. *)
Definition json_chunk (html : bool) (c : chunk) : string :=
  match c with
  | CBad _ => esc "ufffd"
  | CRune r raw =>
    if r <? 0x80 then (if html && is_html r then json_u00 r else escape_ascii r raw)
    else if is_line_separator r then esc ("u202" +:+ str1 (hex_lower (N.land r 15)))
    else raw
  end.

Definition json_string_with (f : chunk → string) (s : string) : string :=
  str1 dquote +:+ sconcat (f <$> chunks s) +:+ str1 dquote.

Definition json_float {F : FloatFormat} (f : float64) : result string :=
  match f with
  | FNaN => inl (ENew "json: unsupported value: NaN")
  | FInf false => inl (ENew "json: unsupported value: +Inf")
  | FInf true => inl (ENew "json: unsupported value: -Inf")
  | FNum m e => inr (format_float m e)
  end.

(** Running a list of results in order, stopping at the first error. *)
Fixpoint sequence {A} (l : list (result A)) : result (list A) :=
  match l with
  | [] => inr []
  | r :: l' => x ← r; xs ← sequence l'; inr (x :: xs)
  end.

Fixpoint sequence_fields (l : list (string * result string)) : result (list (string * string)) :=
  match l with
  | [] => inr []
  | (k, r) :: l' => x ← r; xs ← sequence_fields l'; inr ((k, x) :: xs)
  end.

Definition json_field (f : chunk → string) (kv : string * string) : string :=
  json_string_with f kv.1 +:+ ":" +:+ kv.2.

Section encoder.
Context {F : FloatFormat} (f : chunk → string).

Definition json_object (fields : list (string * string)) : string :=
  "{" +:+ Join (json_field f <$> fields) "," +:+ "}".

(** Values encode recursively, the fields of a map by increasing key, those of
    a struct in declaration order. *)
Fixpoint json_with (v : any) : result string :=
  match v with
  | VNil => inr "null"
  | VBool true => inr "true"
  | VBool false => inr "false"
  | VInt _ z => inr (itoa z)
  | VFloat x => json_float x
  | VString s | VQuoted s => inr (json_string_with f s)
  | VSlice l => ss ← sequence (map json_with l); inr ("[" +:+ Join ss "," +:+ "]")
  | VMap m =>
    fs ← sequence_fields (sort_keys (map (λ '(k, x), (k, json_with x)) m));
    inr (json_object fs)
  | VStruct m =>
    fs ← sequence_fields (map (λ '(k, x), (k, json_with x)) m);
    inr (json_object fs)
  end.
End encoder.

(** [json.Marshal] ([html = true]) and an encoder with [SetEscapeHTML(false)]. *)
Definition go_json {F : FloatFormat} (html : bool) : any → result string :=
  json_with (json_chunk html).

(** ** canonical.go *)

Definition rawLineSeparator : string := encode_rune 0x2028.
Definition rawParagraphSeparator : string := encode_rune 0x2029.

Definition is_u202 (d e f g : ascii) : bool :=
  bool_decide (d = "u"%char) && bool_decide (e = "2"%char) &&
  bool_decide (f = "0"%char) && bool_decide (g = "2"%char).

(** The loop of [unescapeLineTerminators]: [b] is the unread rest. *)
Fixpoint unescape_go (b : string) : string :=
  match b with
  | EmptyString => ""
  | String c rest =>
    if negb (bool_decide (c = backslash)) then String c (unescape_go rest) else
    match rest with
    | EmptyString => str1 c
    | String d rest2 =>
      let keep := String c (String d (unescape_go rest2)) in
      match rest2 with
      | String e (String f (String g (String x rest6))) =>
        if is_u202 d e f g then
          if bool_decide (x = "8"%char) then rawLineSeparator +:+ unescape_go rest6
          else if bool_decide (x = "9"%char) then rawParagraphSeparator +:+ unescape_go rest6
          else keep
        else keep
      | _ => keep
      end
    end
  end.

Definition unescapeLineTerminators (b : string) : string :=
  if negb (contains_char b backslash) then b else unescape_go b.

Definition newline : string := str1 "010".

Definition CanonicalJSON {F : FloatFormat} (v : any) : result string :=
  s ← go_json false v;
  let buf := s +:+ newline in
  mret (unescapeLineTerminators (TrimSuffix buf newline)).

Definition CanonicalFingerprint {F : FloatFormat} (v : any) : result string :=
  canonical ← CanonicalJSON v; mret (hash8 canonical).

(** ** The encoder without the detour

    The line separators are written raw at once.  Everything else is as in
    [encoding/json], the escaped replacement character for a byte that is no UTF-8
    included. *)
Definition direct_chunk (c : chunk) : string :=
  match c with
  | CBad _ => esc "ufffd"
  | CRune r raw => if r <? 0x80 then escape_ascii r raw else raw
  end.

Definition direct_string : string → string := json_string_with direct_chunk.

Definition direct_json {F : FloatFormat} : any → result string := json_with direct_chunk.

(** ** The detour changes nothing else

    [closed a b]: reading [a] in front of any text, the unescaping loop writes
    [b] and continues behind it. *)
Definition closed (a b : string) : Prop :=
  ∀ rest, unescape_go (a +:+ rest) = b +:+ unescape_go rest.

Definition not_backslash (c : ascii) : bool := negb (bool_decide (c = backslash)).

Lemma closed_app a1 b1 a2 b2 : closed a1 b1 → closed a2 b2 → closed (a1 +:+ a2) (b1 +:+ b2).
Proof. intros H1 H2 rest. by rewrite !sapp_assoc, H1, H2. Qed.

Lemma closed_plain a : sall not_backslash a → closed a a.
Proof.
  intros Ha rest. induction a as [|c a IH]; [done|].
  apply andb_True in Ha as [Hc Ha]. rewrite !sapp_cons. simpl. unfold not_backslash in Hc.
  rewrite (Is_true_true_1 _ Hc). by rewrite IH.
Qed.

Lemma closed_unescape a b : closed a b → unescape_go a = b.
Proof. intros H. specialize (H ""). by rewrite !sapp_nil_r in H. Qed.

Lemma high_not_backslash c : high_byte c → not_backslash c.
Proof. byte_cases; done. Qed.

Lemma float_not_backslash c : float_char c → not_backslash c.
Proof. byte_cases; done. Qed.

Lemma unescapeLineTerminators_go b : unescapeLineTerminators b = unescape_go b.
Proof.
  unfold unescapeLineTerminators. destruct (contains_char b backslash) eqn:E; simpl; [done|].
  symmetry. apply closed_unescape, closed_plain.
  induction b as [|c b IH]; simpl in *; [done|]. apply orb_false_iff in E as [Hc Hb].
  unfold not_backslash. rewrite Hc. simpl. auto.
Qed.

(** A two-byte escape other than [\u] is copied as a unit. *)
Lemma closed_esc d : bool_decide (d = "u"%char) = false → closed (esc (str1 d)) (esc (str1 d)).
Proof.
  intros Hd rest. unfold esc, str1. rewrite !sapp_cons, !sapp_nil_l. simpl.
  destruct rest as [|e [|f [|g [|x rest]]]]; try done. unfold is_u202. by rewrite Hd.
Qed.

Lemma closed_u00 x y : closed (esc ("u00" +:+ str2 x y)) (esc ("u00" +:+ str2 x y)) ∨
  not_backslash x = false ∨ not_backslash y = false.
Proof.
  destruct (not_backslash x) eqn:Hx; [|auto]. destruct (not_backslash y) eqn:Hy; [|auto].
  left. intros rest. unfold esc. rewrite sapp_cons.
  change (String backslash (String "u" (unescape_go (("00" +:+ str2 x y) +:+ rest))) =
          String backslash (("u00" +:+ str2 x y) +:+ unescape_go rest)).
  rewrite (closed_plain ("00" +:+ str2 x y)); [done|]. simpl. by rewrite Hx, Hy.
Qed.

Lemma escape_ascii_closed b :
  (byte_val b <? 0x80) = true →
  closed (escape_ascii (byte_val b) (str1 b)) (escape_ascii (byte_val b) (str1 b)).
Proof.
  destruct (closed_u00 (hex_lower (N.shiftr (byte_val b) 4))
              (hex_lower (N.land (byte_val b) 15))) as [Hu|[Hu|Hu]].
  - fold (json_u00 (byte_val b)) in Hu. unfold escape_ascii.
    destruct ((byte_val b =? byte_val dquote) || (byte_val b =? byte_val backslash)) eqn:Eq.
    { intros _. apply closed_esc. clear Hu. revert Eq. byte_cases; done. }
    unfold short_escape. repeat case_match; intros Hb; try by (simplify_eq; apply closed_esc).
    { exact Hu. }
    apply closed_plain. clear -Eq. revert Eq. byte_cases; done.
  - exfalso. revert Hu. byte_cases; done.
  - exfalso. revert Hu. byte_cases; done.
Qed.

Lemma json_chunk_closed c : chunk_wf c → closed (json_chunk false c) (direct_chunk c).
Proof.
  destruct c as [r raw|b]; simpl; [|intros _ rest; reflexivity].
  intros [Hraw [[Hr ->]|[Hr Hhigh]]].
  - replace (r <? 0x80) with true by lia.
    assert (byte_val (byte_of r) = r) as E by (by apply N_ascii_embedding; lia).
    rewrite <-E at 1 3. apply escape_ascii_closed. lia.
  - replace (r <? 0x80) with false by lia.
    destruct (is_line_separator r) eqn:Els.
    + unfold is_line_separator in Els. subst raw.
      assert (r = 0x2028 ∨ r = 0x2029) as [-> | ->] by lia; intros rest; reflexivity.
    + apply closed_plain, (sall_impl high_byte); auto using high_not_backslash.
Qed.

Lemma json_string_closed s : closed (json_string_with (json_chunk false) s) (direct_string s).
Proof.
  apply closed_app; [intros rest; reflexivity|]. apply closed_app; [|intros rest; reflexivity].
  induction (chunks_wf s) as [|c l Hc Hl IH]; simpl; [intros rest; reflexivity|].
  by apply closed_app; [apply json_chunk_closed|].
Qed.

Lemma Join_closed l1 l2 : Forall2 closed l1 l2 → closed (Join l1 ",") (Join l2 ",").
Proof.
  induction 1 as [|a b l1 l2 Hab Hl IH]; simpl; [intros rest; reflexivity|].
  destruct Hl; [done|]. apply closed_app; [done|]. apply closed_app; [intros rest; reflexivity|done].
Qed.

(** Two results that agree up to unescaping. *)
Definition res_rel {A B} (R : A → B → Prop) (ra : result A) (rb : result B) : Prop :=
  match ra, rb with
  | inl e1, inl e2 => e1 = e2
  | inr a, inr b => R a b
  | _, _ => False
  end.

Lemma sequence_rel {A B C} (R : A → B → Prop) (g : C → result A) (h : C → result B) l :
  Forall (λ v, res_rel R (g v) (h v)) l →
  res_rel (Forall2 R) (sequence (map g l)) (sequence (map h l)).
Proof.
  induction 1 as [|v l Hv Hl IH]; simpl; [constructor|].
  destruct (g v), (h v); simpl in *; try done.
  destruct (sequence (map g l)), (sequence (map h l)); simpl in *; try done. by constructor.
Qed.

Definition field_rel (R : string → string → Prop) (p q : string * string) : Prop :=
  p.1 = q.1 ∧ R p.2 q.2.

Lemma sequence_fields_rel {C} (R : string → string → Prop) (g h : C → result string) m :
  Forall (λ kv, res_rel R (g kv.2) (h kv.2)) m →
  res_rel (Forall2 (field_rel R)) (sequence_fields (prod_map id g <$> m))
    (sequence_fields (prod_map id h <$> m)).
Proof.
  induction 1 as [|[k v] m Hv Hm IH]; [constructor|].
  rewrite !fmap_cons. simpl. simpl in Hv.
  destruct (g v), (h v); simpl in *; try done.
  revert IH. generalize (sequence_fields (prod_map id g <$> m)).
  generalize (sequence_fields (prod_map id h <$> m)).
  intros [e2|fs2] [e1|fs1]; simpl; try done. by constructor.
Qed.

Lemma json_object_closed fs1 fs2 :
  Forall2 (field_rel closed) fs1 fs2 →
  closed (json_object (json_chunk false) fs1) (json_object direct_chunk fs2).
Proof.
  intros H. apply closed_app; [intros rest; reflexivity|].
  apply closed_app; [|intros rest; reflexivity]. apply Join_closed, Forall2_fmap.
  eapply Forall2_impl; [done|]. intros [k1 v1] [k2 v2] [Hk Hv]. simpl in *. subst k2.
  unfold json_field. simpl. apply closed_app; [apply json_string_closed|].
  apply closed_app; [intros rest; reflexivity|done].
Qed.

Section agreement.
Context {F : FloatFormat}.

Lemma fields_fmap {C D} (g : C → D) (m : list (string * C)) :
  map (λ '(k, x), (k, g x)) m = prod_map id g <$> m.
Proof. apply list_fmap_ext. by intros ? []. Qed.

Lemma object_rel m :
  Forall (λ kv, res_rel closed (go_json false kv.2) (direct_json kv.2)) m →
  res_rel closed
    (fs ← sequence_fields (map (λ '(k, x), (k, go_json false x)) m);
     inr (json_object (json_chunk false) fs))
    (fs ← sequence_fields (map (λ '(k, x), (k, direct_json x)) m); inr (json_object direct_chunk fs)).
Proof.
  intros H%sequence_fields_rel. rewrite !fields_fmap.
  destruct (sequence_fields (prod_map id (go_json false) <$> m)),
    (sequence_fields (prod_map id direct_json <$> m)); simpl in *; try done.
  by apply json_object_closed.
Qed.

Lemma go_json_rel v : res_rel closed (go_json false v) (direct_json v).
Proof.
  induction v as [|[]| |[| [] |]| | |l IH|m IH|m IH] using any_deep_ind;
    try (intros rest; reflexivity); try done.
  - apply closed_plain. eapply sall_impl; [|apply itoa_chars].
    intros c Hc. by apply float_not_backslash, int_char_float.
  - apply closed_plain. eapply sall_impl; [|apply format_float_chars].
    intros c Hc. by apply float_not_backslash.
  - apply json_string_closed.
  - apply json_string_closed.
  - apply sequence_rel in IH. unfold go_json, direct_json in *. simpl.
    destruct (sequence (map (json_with (json_chunk false)) l)),
      (sequence (map (json_with direct_chunk) l)); simpl in *; try done.
    apply closed_app; [intros rest; reflexivity|].
    apply closed_app; [by apply Join_closed|intros rest; reflexivity].
  - unfold go_json, direct_json in *. simpl. rewrite !fields_fmap, !sort_keys_fmap, <-!fields_fmap.
    apply object_rel. by rewrite sort_keys_Permutation.
  - by apply object_rel.
Qed.

Lemma CanonicalJSON_direct v : CanonicalJSON v = direct_json v.
Proof.
  pose proof (go_json_rel v) as H. unfold CanonicalJSON, mret, result_ret.
  destruct (go_json false v) as [e|a], (direct_json v) as [e'|b]; simpl in *; try done; [by subst|].
  f_equal. rewrite TrimSuffix_app, unescapeLineTerminators_go. by apply closed_unescape.
Qed.
End agreement.
