(* ===== verification/CanonicalInj.v ===== *)
(** The canonical JSON of go/canonical.go identifies the value it was made
    from: strings read back, encodings are prefix-free, and two values with the
    same canonical bytes are equal.  Hence two fingerprints agree only for equal
    inputs or on a collision of the truncated hash. *)

From Stdlib Require Import ZifyBool.
From S2P Require Import Prelude GoStrings Sha256 Values CanonicalJson.

(** ** Reading a string back *)

Definition hex_val (c : ascii) : N :=
  if is_digit c then (byte_val c - 48)%N else (byte_val c - 87)%N.

Definition short_unescape (d : ascii) : option ascii :=
  if bool_decide (d = dquote) then Some dquote else
  if bool_decide (d = backslash) then Some backslash else
  if bool_decide (d = "b"%char) then Some "008"%char else
  if bool_decide (d = "t"%char) then Some "009"%char else
  if bool_decide (d = "n"%char) then Some "010"%char else
  if bool_decide (d = "f"%char) then Some "012"%char else
  if bool_decide (d = "r"%char) then Some "013"%char else None.

Definition cons_fst (c : ascii) (o : option (string * string)) : option (string * string) :=
  match o with Some (t, r) => Some (String c t, r) | None => None end.

(** The bytes of a string literal up to its closing quote, and the text after
    the quote. *)
Fixpoint unquote (s : string) : option (string * string) :=
  match s with
  | EmptyString => None
  | String c s1 =>
    if bool_decide (c = dquote) then Some ("", s1)
    else if bool_decide (c = backslash) then
      match s1 with
      | EmptyString => None
      | String d s2 =>
        match short_unescape d with
        | Some b => cons_fst b (unquote s2)
        | None =>
          match s2 with
          | String _ (String _ (String x (String y s6))) =>
            cons_fst (byte_of (16 * hex_val x + hex_val y)) (unquote s6)
          | _ => None
          end
        end
      end
    else cons_fst c (unquote s1)
  end.

(** ** Values with one encoding

    Valid UTF-8 text, integers of type [int], and maps listed by increasing key
    without repetition: one representative for every JSON value the adapters
    fingerprint. *)
Inductive canon : any → Prop :=
| canon_nil : canon VNil
| canon_bool b : canon (VBool b)
| canon_int z : canon (VInt KInt z)
| canon_string s : utf8_valid s → canon (VString s)
| canon_slice l : Forall canon l → canon (VSlice l)
| canon_map m :
    NoDup m.*1 → StronglySorted key_le m →
    Forall (λ kv, utf8_valid kv.1) m → Forall (λ kv, canon kv.2) m → canon (VMap m).

(** ** Strings *)

Lemma unquote_high raw rest :
  sall high_byte raw →
  unquote (raw +:+ rest) =
  match unquote rest with Some (t, r) => Some (raw +:+ t, r) | None => None end.
Proof.
  induction raw as [|c raw IH].
  - intros _. rewrite sapp_nil_l. destruct (unquote rest) as [[]|]; [by rewrite sapp_nil_l|done].
  - intros [Hc Hraw]%andb_True. rewrite sapp_cons. simpl.
    rewrite (bool_decide_eq_false_2 (c = dquote)) by (intros ->; done).
    rewrite (bool_decide_eq_false_2 (c = backslash)) by (intros ->; done).
    rewrite IH by done. by destruct (unquote rest) as [[]|].
Qed.

Lemma unquote_ascii b rest :
  (byte_val b <? 0x80)%N = true →
  unquote (escape_ascii (byte_val b) (str1 b) +:+ rest) = cons_fst b (unquote rest).
Proof. intros Hb. revert Hb. byte_cases; done. Qed.

Lemma unquote_chunk c rest :
  chunk_wf c → chunk_ok c →
  unquote (direct_chunk c +:+ rest) =
  match unquote rest with Some (t, r) => Some (raw_of c +:+ t, r) | None => None end.
Proof.
  destruct c as [r raw|b]; [|done]. intros [_ [[Hr ->]|[Hr Hhigh]]] _; simpl.
  - replace (r <? 0x80)%N with true by lia.
    assert (byte_val (byte_of r) = r) as E by (apply N_ascii_embedding; lia).
    rewrite <-E at 1. rewrite unquote_ascii by (by rewrite E; lia).
    by destruct (unquote rest) as [[]|].
  - replace (r <? 0x80)%N with false by lia. by apply unquote_high.
Qed.

Lemma unquote_direct s rest :
  utf8_valid s → unquote (sconcat (direct_chunk <$> chunks s) +:+ str1 dquote +:+ rest) = Some (s, rest).
Proof.
  unfold utf8_valid. rewrite <-(chunks_raw s) at 3.
  induction (chunks_wf s) as [|c l Hc Hl IH]; [done|].
  intros [Hok Hrest]%andb_True. rewrite !fmap_cons. simpl.
  rewrite sapp_assoc, unquote_chunk by done. by rewrite IH.
Qed.

Lemma direct_string_inj s1 s2 t1 t2 :
  utf8_valid s1 → utf8_valid s2 →
  direct_string s1 +:+ t1 = direct_string s2 +:+ t2 → s1 = s2 ∧ t1 = t2.
Proof.
  intros H1 H2. unfold direct_string, json_string_with.
  rewrite !sapp_assoc. intros H%sapp_inv_head%(f_equal unquote).
  rewrite !unquote_direct in H by done. by simplify_eq.
Qed.

(** ** Successful encodings *)

Lemma sequence_inr {A B} (f : A → result B) l ss :
  sequence (map f l) = inr ss ↔ Forall2 (λ v s, f v = inr s) l ss.
Proof.
  revert ss. induction l as [|v l IH]; intros ss; simpl.
  - split; [by intros [= <-]|by intros ->%Forall2_nil_inv_l].
  - rewrite bind_inr. split.
    + intros (s & Hs & (ss' & Hss & [= <-])%bind_inr). constructor; [done|]. by apply IH.
    + intros (s & ss' & Hs & Hss & ->)%Forall2_cons_inv_l. exists s. split; [done|].
      apply bind_inr. exists ss'. split; [by apply IH|done].
Qed.

Lemma sequence_fields_inr {A} (f : A → result string) m fs :
  sequence_fields (prod_map id f <$> m) = inr fs ↔
  Forall2 (λ kv kv', kv.1 = kv'.1 ∧ f kv.2 = inr kv'.2) m fs.
Proof.
  revert fs. induction m as [|[k v] m IH]; intros fs.
  - simpl. split; [by intros [= <-]|by intros ->%Forall2_nil_inv_l].
  - rewrite fmap_cons. simpl. rewrite bind_inr. split.
    + intros (s & Hs & (fs' & Hfs & [= <-])%bind_inr). constructor; [done|]. by apply IH.
    + intros ([k' s] & fs' & [Hk Hs] & Hfs & ->)%Forall2_cons_inv_l. simpl in *. subst k'.
      exists s. split; [done|]. apply bind_inr. exists fs'. split; [by apply IH|done].
Qed.

(** ** First characters

    Every encoding starts with a character that names its kind, and none of
    them is a closing bracket. *)
Definition kind_of (v : any) : N :=
  match v with
  | VNil => 0 | VBool true => 1 | VBool false => 2 | VInt _ _ => 3 | VFloat _ => 3
  | VString _ | VQuoted _ => 4 | VSlice _ => 5 | VMap _ | VStruct _ => 6
  end.

Definition char_kind (c : ascii) : option N :=
  if bool_decide (c = "n"%char) then Some 0%N else
  if bool_decide (c = "t"%char) then Some 1%N else
  if bool_decide (c = "f"%char) then Some 2%N else
  if int_char c then Some 3%N else
  if bool_decide (c = dquote) then Some 4%N else
  if bool_decide (c = "["%char) then Some 5%N else
  if bool_decide (c = "{"%char) then Some 6%N else None.

Definition head_kind (s : string) : option N :=
  match s with EmptyString => None | String c _ => char_kind c end.

Lemma int_char_kind c : int_char c → char_kind c = Some 3%N.
Proof. byte_cases; done. Qed.

Lemma head_kind_itoa z t : head_kind (itoa z +:+ t) = Some 3%N.
Proof.
  pose proof (itoa_chars z) as H. destruct (itoa z) as [|c s] eqn:E.
  - pose proof (parse_int_itoa z) as Hp. rewrite E in Hp. done.
  - apply andb_True in H as [Hc _]. rewrite sapp_cons. by apply int_char_kind.
Qed.

Section injectivity.
Context {F : FloatFormat}.

Lemma direct_slice l a :
  direct_json (VSlice l) = inr a ↔
  ∃ ss, Forall2 (λ v s, direct_json v = inr s) l ss ∧ a = "[" +:+ Join ss "," +:+ "]".
Proof.
  unfold direct_json at 1. simpl. rewrite bind_inr. split.
  - intros (ss & Hss%sequence_inr & [= <-]). eauto.
  - intros (ss & Hss & ->). exists ss. split; [by apply sequence_inr|done].
Qed.

Lemma direct_map m a :
  NoDup m.*1 → StronglySorted key_le m →
  direct_json (VMap m) = inr a ↔
  ∃ fs, Forall2 (λ kv kv', kv.1 = kv'.1 ∧ direct_json kv.2 = inr kv'.2) m fs ∧
    a = json_object direct_chunk fs.
Proof.
  intros Hnd Hs. unfold direct_json at 1. simpl. rewrite fields_fmap, sort_keys_fmap.
  rewrite (sort_keys_id m) by done. rewrite bind_inr. split.
  - intros (fs & Hfs%sequence_fields_inr & [= <-]). eauto.
  - intros (fs & Hfs & ->). exists fs. split; [by apply sequence_fields_inr|done].
Qed.

Lemma direct_head_kind v a t :
  canon v → direct_json v = inr a → head_kind (a +:+ t) = Some (kind_of v).
Proof.
  destruct 1 as [|[]|z|s Hs|l Hl|m Hnd Hsort Hkeys Hm].
  - by intros [= <-].
  - by intros [= <-].
  - by intros [= <-].
  - intros [= <-]. apply head_kind_itoa.
  - by intros [= <-].
  - by intros (ss & _ & ->)%direct_slice.
  - by intros (fs & _ & ->)%direct_map.
Qed.

(** What [v] encodes to cannot be confused with any other value's encoding,
    whatever follows. *)
Definition prefix_free (v : any) : Prop := ∀ v' a a' t t',
  canon v → canon v' → direct_json v = inr a → direct_json v' = inr a' →
  head_not int_char t → head_not int_char t' → a +:+ t = a' +:+ t' → v = v' ∧ t = t'.

Lemma Join_cons s l t : Join (s :: l) "," +:+ t =
  s +:+ match l with [] => t | _ => "," +:+ Join l "," +:+ t end.
Proof. destruct l; [done|]. simpl. by rewrite !sapp_assoc. Qed.

(** The continuation of [Join_cons] begins with a separator. *)
Ltac case_join := match goal with |- context [match ?l with [] => _ | _ :: _ => _ end] => destruct l end.

(** The text behind an element: a comma or the closing bracket. *)
Lemma elements_prefix_free l l' ss ss' t t' :
  Forall prefix_free l → Forall canon l → Forall canon l' →
  Forall2 (λ v s, direct_json v = inr s) l ss → Forall2 (λ v s, direct_json v = inr s) l' ss' →
  Join ss "," +:+ "]" +:+ t = Join ss' "," +:+ "]" +:+ t' → l = l' ∧ t = t'.
Proof.
  intros Hpf Hc Hc' Hss. revert l' ss' Hpf Hc Hc'.
  induction Hss as [|v s l ss Hv Hss IH]; intros l' ss' Hpf Hc Hc' Hss' Heq.
  - destruct Hss' as [|v' s' l' ss' Hv' Hss']; [by do 2 apply sapp_inv_head in Heq|exfalso].
    rewrite Join_cons in Heq. apply Forall_cons in Hc' as [Hv'c _].
    epose proof (direct_head_kind v' s' _ Hv'c Hv') as Hk. by rewrite <-Heq in Hk.
  - apply Forall_cons in Hpf as [Hpv Hpf], Hc as [Hcv Hc].
    destruct Hss' as [|v' s' l' ss' Hv' Hss'].
    { exfalso. rewrite Join_cons in Heq.
      epose proof (direct_head_kind v s _ Hcv Hv) as Hk. by rewrite Heq in Hk. }
    apply Forall_cons in Hc' as [Hcv' Hc']. rewrite !Join_cons in Heq.
    apply (Hpv v' s s') in Heq as [-> Heq]; [|done..|by case_join|by case_join].
    destruct Hss as [|w s1 l ss Hw Hss], Hss' as [|w' s1' l' ss' Hw' Hss'];
      try (rewrite !sapp_cons in Heq; by discriminate Heq).
    + by apply sapp_inv_head in Heq as ->.
    + apply sapp_inv_head in Heq.
      destruct (IH (w' :: l') (s1' :: ss')) as [-> ->]; auto.
Qed.

Lemma json_field_app k x t :
  json_field direct_chunk (k, x) +:+ t = direct_string k +:+ ":" +:+ x +:+ t.
Proof. unfold json_field. by rewrite !sapp_assoc. Qed.

Lemma fields_prefix_free m m' fs fs' t t' :
  Forall (λ kv, prefix_free kv.2) m →
  Forall (λ kv, utf8_valid kv.1) m → Forall (λ kv, utf8_valid kv.1) m' →
  Forall (λ kv, canon kv.2) m → Forall (λ kv, canon kv.2) m' →
  Forall2 (λ kv kv', kv.1 = kv'.1 ∧ direct_json kv.2 = inr kv'.2) m fs →
  Forall2 (λ kv kv', kv.1 = kv'.1 ∧ direct_json kv.2 = inr kv'.2) m' fs' →
  Join (json_field direct_chunk <$> fs) "," +:+ "}" +:+ t =
  Join (json_field direct_chunk <$> fs') "," +:+ "}" +:+ t' → m = m' ∧ t = t'.
Proof.
  intros Hpf Hk Hk' Hc Hc' Hfs. revert m' fs' Hpf Hk Hk' Hc Hc'.
  induction Hfs as [|[k v] [k0 s] m fs [Hkk Hv] Hfs IH];
    intros m' fs' Hpf Hk Hk' Hc Hc' Hfs' Heq.
  - destruct Hfs' as [|[k' v'] [] m' fs' [] Hfs']; [by do 2 apply sapp_inv_head in Heq|].
    rewrite fmap_cons, Join_cons, json_field_app in Heq. discriminate Heq.
  - apply Forall_cons in Hpf as [Hpv Hpf], Hc as [Hcv Hc], Hk as [Hkv Hk].
    simpl in Hkk, Hv, Hpv, Hcv, Hkv. subst k0.
    destruct Hfs' as [|[k' v'] [k0 s'] m' fs' [Hkk Hv'] Hfs'].
    { rewrite fmap_cons, Join_cons, json_field_app in Heq. discriminate Heq. }
    apply Forall_cons in Hc' as [Hcv' Hc'], Hk' as [Hkv' Hk'].
    simpl in Hkk, Hv', Hcv', Hkv'. subst k0.
    rewrite !fmap_cons, !Join_cons in Heq.
    rewrite !json_field_app in Heq.
    apply direct_string_inj in Heq as [-> Heq%sapp_inv_head]; [|done..].
    apply (Hpv v' s s') in Heq as [-> Heq]; [|done..|by case_join|by case_join].
    destruct Hfs as [|[k1 w1] [k2 w2] m fs [] Hfs], Hfs' as [|[k3 w3] [k4 w4] m' fs' [] Hfs'];
      try (rewrite !sapp_cons in Heq; by discriminate Heq).
    + by apply sapp_inv_head in Heq as ->.
    + apply sapp_inv_head in Heq.
      destruct (IH ((k3, w3) :: m') ((k4, w4) :: fs')) as [-> ->]; auto.
Qed.

Lemma direct_prefix_free v : prefix_free v.
Proof.
  induction v as [| |k z|x|s|s|l IH|m IH|m _] using any_deep_ind;
    intros v' a a' t t' Hc Hc' Ha Ha' Ht Ht' Heq;
    pose proof (direct_head_kind _ _ t Hc Ha) as K; pose proof (direct_head_kind _ _ t' Hc' Ha') as K';
    rewrite Heq, K' in K; inversion Hc; inversion Hc'; subst; simpl in K;
    repeat match goal with b : bool |- _ => destruct b end; try discriminate K; clear K K'.
  - injection Ha as <-. injection Ha' as <-. by apply sapp_inv_head in Heq.
  - injection Ha as <-. injection Ha' as <-. by apply sapp_inv_head in Heq.
  - injection Ha as <-. injection Ha' as <-. by apply sapp_inv_head in Heq.
  - injection Ha as <-. injection Ha' as <-. by apply itoa_app_inj in Heq as [-> ->].
  - injection Ha as <-. injection Ha' as <-. by apply direct_string_inj in Heq as [-> ->].
  - apply direct_slice in Ha as (ss & Hss & ->), Ha' as (ss' & Hss' & ->).
    rewrite !sapp_assoc in Heq. apply sapp_inv_head in Heq.
    eapply elements_prefix_free in Heq as [-> ->]; eauto.
  - apply direct_map in Ha as (fs & Hfs & ->); [|done..].
    apply direct_map in Ha' as (fs' & Hfs' & ->); [|done..].
    unfold json_object in Heq. rewrite !sapp_assoc in Heq. apply sapp_inv_head in Heq.
    eapply fields_prefix_free in Heq as [-> ->]; eauto.
Qed.

Lemma CanonicalJSON_inj v v' a :
  canon v → canon v' → CanonicalJSON v = inr a → CanonicalJSON v' = inr a → v = v'.
Proof.
  rewrite !CanonicalJSON_direct. intros Hc Hc' Ha Ha'.
  by apply (direct_prefix_free v v' a a "" "").
Qed.

(** Canonical values always encode. *)
Lemma canon_encodes v : canon v → ∃ a, CanonicalJSON v = inr a.
Proof.
  rewrite CanonicalJSON_direct.
  induction v as [| |k z|x|s|s|l IH|m IH|m _] using any_deep_ind; inversion 1; subst; eauto.
  - destruct b; eauto.
  - assert (∃ ss, Forall2 (λ v s, direct_json v = inr s) l ss) as [ss Hss].
    { clear H. induction IH as [|v l Hv _ IHl]; [by exists []|].
      apply Forall_cons in H1 as [Hcv Hcl]. destruct (Hv Hcv) as [a Ha].
      destruct (IHl Hcl) as [ss Hss]. exists (a :: ss). by constructor. }
    eexists. apply direct_slice. eauto.
  - assert (∃ fs, Forall2 (λ kv kv', kv.1 = kv'.1 ∧ direct_json kv.2 = inr kv'.2) m fs) as [fs Hfs].
    { match goal with Hm : Forall (λ kv, canon kv.2) m |- _ => revert Hm end.
      clear -IH. induction IH as [|[k v] m Hv _ IHm]; [by exists []|].
      intros [Hcv Hcm]%Forall_cons. destruct (Hv Hcv) as [a Ha].
      destruct (IHm Hcm) as [fs Hfs]. exists ((k, a) :: fs). by constructor. }
    eexists. apply direct_map; eauto.
Qed.

(** ** Maps *)

(** Iteration order does not show. *)
Lemma CanonicalJSON_perm m1 m2 :
  NoDup m1.*1 → m1 ≡ₚ m2 → CanonicalJSON (VMap m1) = CanonicalJSON (VMap m2).
Proof.
  intros Hnd Hp. rewrite !CanonicalJSON_direct. unfold direct_json. simpl.
  by rewrite !fields_fmap, !sort_keys_fmap, (sort_keys_perm m1 m2).
Qed.

Lemma CanonicalJSON_gomap (m : gmap string any) :
  CanonicalJSON (of_gomap m) = CanonicalJSON (VMap (sort_keys (map_to_list m))).
Proof.
  apply CanonicalJSON_perm; [apply NoDup_fst_map_to_list|]. by rewrite sort_keys_Permutation.
Qed.

(** A Go map of text keys and canonical values. *)
Definition canon_gomap (m : gmap string any) : Prop :=
  map_Forall (λ k v, utf8_valid k ∧ canon v) m.

Lemma canon_gomap_sorted m : canon_gomap m → canon (VMap (sort_keys (map_to_list m))).
Proof.
  intros Hm. apply map_Forall_to_list in Hm.
  constructor; rewrite ?sort_keys_Permutation.
  - apply NoDup_fst_map_to_list.
  - apply sort_keys_sorted.
  - eapply Forall_impl; [exact Hm|]. by intros [] [].
  - eapply Forall_impl; [exact Hm|]. by intros [] [].
Qed.

Lemma CanonicalJSON_gomap_inj m m' a :
  canon_gomap m → canon_gomap m' →
  CanonicalJSON (of_gomap m) = inr a → CanonicalJSON (of_gomap m') = inr a → m = m'.
Proof.
  intros Hm%canon_gomap_sorted Hm'%canon_gomap_sorted. rewrite !CanonicalJSON_gomap.
  intros Ha Ha'. injection (CanonicalJSON_inj _ _ _ Hm Hm' Ha Ha') as Heq.
  apply map_to_list_inj. by rewrite <-(sort_keys_Permutation (map_to_list m)), Heq, sort_keys_Permutation.
Qed.

Lemma canon_gomap_encodes m : canon_gomap m → ∃ a, CanonicalJSON (of_gomap m) = inr a.
Proof. intros Hm%canon_gomap_sorted. rewrite CanonicalJSON_gomap. by apply canon_encodes. Qed.

(** ** Properties *)

(** C37. No two Go maps of text and integers have the same canonical bytes: the
    fingerprint input identifies the request fields it was made from. *)
Theorem CanonicalJSON_injective m m' a :
  canon_gomap m → canon_gomap m' →
  CanonicalJSON (of_gomap m) = inr a → CanonicalJSON (of_gomap m') = inr a → m = m'.
Proof. apply CanonicalJSON_gomap_inj. Qed.

(** Every fingerprint is eight lower-case hexadecimal digits, and the order
    in which a map is iterated does not change it. *)
Theorem CanonicalFingerprint_stable m1 m2 fp :
  NoDup m1.*1 → m1 ≡ₚ m2 → CanonicalFingerprint (VMap m1) = inr fp →
  fingerprint_shape fp ∧ CanonicalFingerprint (VMap m2) = inr fp.
Proof.
  intros Hnd Hp. unfold CanonicalFingerprint. rewrite <-(CanonicalJSON_perm m1 m2) by done.
  intros H. split; [|done]. apply bind_inr in H as (a & _ & H). injection H as <-.
  apply hash8_shape.
Qed.
End injectivity.

Section witnesses.
Local Existing Instance integral_floats.

Definition demo_inputs : gmap string any := {[ "method" := VString "Get"; "n" := VInt KInt 0 ]}.

Lemma CanonicalJSON_injective_witness : ∃ a,
  CanonicalJSON (of_gomap demo_inputs) = inr a ∧ demo_inputs = demo_inputs.
Proof.
  assert (canon_gomap demo_inputs) as H.
  { apply map_Forall_insert_2; [by repeat constructor|].
    apply map_Forall_singleton. by repeat constructor. }
  eexists. split; [vm_compute; reflexivity|].
  eapply (CanonicalJSON_injective demo_inputs demo_inputs); [exact H|exact H|vm_compute; reflexivity..].
Defined.

Lemma CanonicalFingerprint_stable_witness :
  CanonicalFingerprint (VMap [("b", VString "x"); ("a", VNil)]) =
  CanonicalFingerprint (VMap [("a", VNil); ("b", VString "x")]).
Proof.
  symmetry.
  apply (CanonicalFingerprint_stable [("a", VNil); ("b", VString "x")]
           [("b", VString "x"); ("a", VNil)]).
  - by apply (bool_decide_unpack _).
  - apply Permutation_swap.
  - vm_compute. reflexivity.
Defined.
End witnesses.
