(* ===== verification/CanonicalSpec.v ===== *)
(** The section "Canonical JSON" of spec/cassette-format-v1.md, stated on code
    points and as a relation, and that go/canonical.go meets it.

    Nothing here is shared with the encoder but the decimal notation of integers:
    text is a list of code points, an object's members are any permutation of the
    map's entries that is ordered by code points, and the escapes are the
    specification's list.  Byte order is the encoder's, code point order the
    specification's; UTF-8 keeps the one under the other. *)

From Stdlib Require Import ZifyBool.
From S2P Require Import Prelude GoStrings Sha256 Values CanonicalJson CanonicalInj.

Local Open Scope N_scope.

(** ** The specification *)

(** A Unicode scalar value, and text as UTF-8. *)
Definition scalar (r : N) : bool := (r <? 0xD800) || ((0xE000 <=? r) && (r <=? 0x10FFFF)).

Definition utf8 (rs : list N) : string := sconcat (encode_rune <$> rs).

(** "sorted lexicographically by code point". *)
Fixpoint code_points_lt (a b : list N) : bool :=
  match a, b with
  | [], _ :: _ => true
  | x :: a', y :: b' => (x <? y) || ((x =? y) && code_points_lt a' b')
  | _, [] => false
  end.

(** "only the quote, the backslash and U+0000-U+001F are escaped - \b \t \n \f \r
    as their short forms, the rest as lowercase \u00xx.  Every other code point is
    emitted as raw UTF-8". *)
Definition spec_rune (r : N) : string :=
  match r with
  | 0x22 => str2 backslash dquote
  | 0x5C => str2 backslash backslash
  | 0x08 => str2 backslash "b"
  | 0x09 => str2 backslash "t"
  | 0x0A => str2 backslash "n"
  | 0x0C => str2 backslash "f"
  | 0x0D => str2 backslash "r"
  | _ =>
    if r <? 0x20 then str2 backslash "u" +:+ "00" +:+ str2 (hex_lower (r / 16)) (hex_lower (r mod 16))
    else encode_rune r
  end.

Definition spec_text (rs : list N) : string :=
  str1 dquote +:+ sconcat (spec_rune <$> rs) +:+ str1 dquote.

(** A member of an object: its key, its value, and the value's canonical form. *)
Record member := Member { m_key : list N; m_value : any; m_form : string }.

Definition member_entry (e : member) : string * any := (utf8 (m_key e), m_value e).
Definition member_text (e : member) : string := spec_text (m_key e) +:+ ":" +:+ m_form e.

(** [canonical_form v a]: [a] is a canonical form of [v].  Numbers are integers, the
    only ones the specification settles. *)
Inductive canonical_form : any → string → Prop :=
| cf_null : canonical_form VNil "null"
| cf_true : canonical_form (VBool true) "true"
| cf_false : canonical_form (VBool false) "false"
| cf_int k z : canonical_form (VInt k z) (itoa z)
| cf_text rs : Forall scalar rs → canonical_form (VString (utf8 rs)) (spec_text rs)
| cf_array l ss :
    Forall2 canonical_form l ss → canonical_form (VSlice l) ("[" +:+ Join ss "," +:+ "]")
| cf_object m es :
    m ≡ₚ (member_entry <$> es) →
    StronglySorted (λ e e', code_points_lt (m_key e) (m_key e')) es →
    Forall (λ e, Forall scalar (m_key e)) es →
    Forall (λ e, canonical_form (m_value e) (m_form e)) es →
    canonical_form (VMap m) ("{" +:+ Join (member_text <$> es) "," +:+ "}").

(** What the specification speaks of: null, booleans, integers, text, and arrays and
    objects of these, the keys of an object distinct. *)
Inductive specified : any → Prop :=
| sp_nil : specified VNil
| sp_bool b : specified (VBool b)
| sp_int k z : specified (VInt k z)
| sp_text s : utf8_valid s → specified (VString s)
| sp_slice l : Forall specified l → specified (VSlice l)
| sp_map m :
    NoDup m.*1 → Forall (λ kv, Is_true (utf8_valid kv.1)) m → Forall (λ kv, specified kv.2) m →
    specified (VMap m).

(** ** The four forms of an encoding *)

Definition lead (h x : N) : ascii := byte_of (h + x).
Definition cont (y : N) : ascii := byte_of (128 + y).

Lemma rune_forms r : scalar r →
  r < 0x80 ∧ encode_rune r = str1 (byte_of r) ∨
  (∃ x y, r = x * 64 + y ∧ y < 64 ∧ 2 <= x < 32 ∧ encode_rune r = str2 (lead 0xC0 x) (cont y)) ∨
  (∃ x y z, r = (x * 64 + y) * 64 + z ∧ y < 64 ∧ z < 64 ∧ x < 16 ∧ 0x800 <= r ∧
     encode_rune r = str3 (lead 0xE0 x) (cont y) (cont z)) ∨
  (∃ x y z w, r = ((x * 64 + y) * 64 + z) * 64 + w ∧ y < 64 ∧ z < 64 ∧ w < 64 ∧ x <= 4 ∧
     0x10000 <= r ∧ encode_rune r = str4 (lead 0xF0 x) (cont y) (cont z) (cont w)).
Proof.
  intros Hr. apply Is_true_true in Hr. unfold scalar in Hr.
  assert (∀ a, ∃ q y, a = q * 64 + y ∧ y < 64) as split64.
  { intros a. destruct (digit_split a 64) as (q & Hq & Hy); [done|]. by exists q, (a mod 64). }
  destruct (N.lt_ge_cases r 0x80) as [H1|H1].
  { left. split; [done|]. unfold encode_rune.
    replace ((0xD800 <=? r) && (r <=? 0xDFFF) || (0x10FFFF <? r)) with false by lia.
    by replace (r <? 0x80) with true by lia. }
  right. destruct (split64 r) as (a & w & -> & Hw). unfold lead, cont.
  destruct (N.lt_ge_cases (a * 64 + w) 0x800) as [H2|H2].
  { left. exists a, w. split_and!; [done..|lia|lia|]. rewrite encode_rune_2 by lia. digits.
    by rewrite (lor_hi_add 6 64 3 0xC0 a), (lor_hi_add 6 64 2 0x80 w) by lia. }
  right. destruct (split64 a) as (b & z & -> & Hz).
  destruct (N.lt_ge_cases ((b * 64 + z) * 64 + w) 0x10000) as [H3|H3].
  { left. exists b, z, w. split_and!; [done..|lia|lia|]. rewrite encode_rune_3 by lia. digits.
    by rewrite (lor_hi_add 5 32 7 0xE0 b), !(lor_hi_add 6 64 2 0x80) by lia. }
  right. destruct (split64 b) as (c & y & -> & Hy). exists c, y, z, w.
  split_and!; [done..|lia|lia|]. rewrite encode_rune_4 by lia. digits.
  by rewrite (lor_hi_add 4 16 15 0xF0 c), !(lor_hi_add 6 64 2 0x80) by lia.
Qed.

Lemma byte_val_of n : n < 256 → byte_val (byte_of n) = n.
Proof. apply N_ascii_embedding. Qed.

Lemma byte_val_lead h x : h + x < 256 → byte_val (lead h x) = h + x.
Proof. apply byte_val_of. Qed.

Lemma byte_val_cont y : y < 64 → byte_val (cont y) = 128 + y.
Proof. intros H. apply byte_val_of. lia. Qed.

Lemma cont_is_cont y : y < 64 → is_cont (cont y).
Proof. intros H. apply is_cont_spec. rewrite byte_val_cont by done. lia. Qed.

Lemma low6_cont y : y < 64 → low6 (cont y) = y.
Proof. intros H. rewrite low6_mod, byte_val_cont by done. change 128 with (2 * 64). by apply mod_digit. Qed.

(** ** Reading text back as code points *)

Lemma chunks_1 b s : byte_val b < 0x80 → chunks (String b s) = CRune (byte_val b) (str1 b) :: chunks s.
Proof. intros H. cbn [chunks]. by replace (byte_val b <? 0x80) with true by lia. Qed.

Lemma chunks_2 b0 b1 s :
  0x80 <= byte_val b0 → ok2 b0 b1 →
  chunks (String b0 (String b1 s)) = CRune (rune2 b0 b1) (str2 b0 b1) :: chunks s.
Proof.
  intros H H2%Is_true_true. cbn [chunks]. replace (byte_val b0 <? 0x80) with false by lia. by rewrite H2.
Qed.

Lemma chunks_3 b0 b1 b2 s :
  0xE0 <= byte_val b0 → ok3 b0 b1 b2 →
  chunks (String b0 (String b1 (String b2 s))) = CRune (rune3 b0 b1 b2) (str3 b0 b1 b2) :: chunks s.
Proof.
  intros H H3%Is_true_true. cbn [chunks]. replace (byte_val b0 <? 0x80) with false by lia.
  assert (ok2 b0 b1 = false) as -> by (unfold ok2, in_range; lia). by rewrite H3.
Qed.

Lemma chunks_4 b0 b1 b2 b3 s :
  0xF0 <= byte_val b0 → ok4 b0 b1 b2 b3 →
  chunks (String b0 (String b1 (String b2 (String b3 s)))) =
  CRune (rune4 b0 b1 b2 b3) (str4 b0 b1 b2 b3) :: chunks s.
Proof.
  intros H H4%Is_true_true. cbn [chunks]. replace (byte_val b0 <? 0x80) with false by lia.
  assert (ok2 b0 b1 = false) as -> by (unfold ok2, in_range; lia).
  assert (ok3 b0 b1 b2 = false) as -> by (unfold ok3, in_range at 1; lia). by rewrite H4.
Qed.

Lemma chunks_encode r rest : scalar r → chunks (encode_rune r +:+ rest) = CRune r (encode_rune r) :: chunks rest.
Proof.
  intros Hr. destruct (rune_forms r Hr) as [[H ->]|[(x & y & -> & Hy & Hx & ->)|
    [(x & y & z & -> & Hy & Hz & Hx & H & ->)|(x & y & z & w & -> & Hy & Hz & Hw & Hx & H & ->)]]];
    apply Is_true_true in Hr; unfold scalar in Hr;
    unfold str4, str3, str2, str1; rewrite !sapp_cons, sapp_nil_l.
  - by rewrite chunks_1, byte_val_of by (rewrite ?byte_val_of; lia).
  - rewrite chunks_2.
    + rewrite rune2_val, low6_cont, byte_val_lead by lia.
      replace (0xC0 + x) with (6 * 32 + x) at 1 by lia. by rewrite mod_digit by lia.
    + rewrite byte_val_lead; lia.
    + apply andb_True. split; [|by apply cont_is_cont]. apply in_range_spec. rewrite byte_val_lead; lia.
  - rewrite chunks_3.
    + rewrite rune3_val, !low6_cont, byte_val_lead by lia.
      replace (0xE0 + x) with (14 * 16 + x) at 1 by lia. rewrite mod_digit by lia.
      by replace (x * 4096 + y * 64 + z) with ((x * 64 + y) * 64 + z) by lia.
    + rewrite byte_val_lead; lia.
    + apply andb_True. split; [|by apply cont_is_cont]. apply andb_True.
      rewrite !in_range_spec, !byte_val_lead, byte_val_cont by lia. split; [lia|].
      destruct (0xE0 + x =? 0xE0) eqn:E1, (0xE0 + x =? 0xED) eqn:E2; lia.
  - rewrite chunks_4.
    + rewrite rune4_val, !low6_cont, byte_val_lead by lia.
      replace (0xF0 + x) with (30 * 8 + x) at 1 by lia. rewrite mod_digit by lia.
      by replace (x * 262144 + y * 4096 + z * 64 + w) with (((x * 64 + y) * 64 + z) * 64 + w) by lia.
    + rewrite byte_val_lead; lia.
    + apply andb_True. split; [|by apply cont_is_cont]. apply andb_True. split; [|by apply cont_is_cont].
      apply andb_True. rewrite !in_range_spec, !byte_val_lead, byte_val_cont by lia. split; [lia|].
      destruct (0xF0 + x =? 0xF0) eqn:E1, (0xF0 + x =? 0xF4) eqn:E2; lia.
Qed.

Definition rune_chunk (r : N) : chunk := CRune r (encode_rune r).

Lemma chunks_utf8 rs : Forall scalar rs → chunks (utf8 rs) = rune_chunk <$> rs.
Proof.
  unfold utf8. induction 1 as [|r rs Hr _ IH]; [done|]. rewrite !fmap_cons. simpl.
  by rewrite chunks_encode, IH.
Qed.

Lemma utf8_inj rs rs' : Forall scalar rs → Forall scalar rs' → utf8 rs = utf8 rs' → rs = rs'.
Proof.
  intros H H' Heq%(f_equal chunks). rewrite !chunks_utf8 in Heq by done.
  assert (∀ l : list N, rune_of <$> fmap (M:=list) rune_chunk l = l) as Hl.
  { intros l. induction l as [|x l IH]; [done|]. rewrite !fmap_cons. simpl. by rewrite IH. }
  by rewrite <-(Hl rs), Heq, Hl.
Qed.

(** What is no scalar value is written as the replacement character, whose own form
    then decodes to it. *)
Lemma not_scalar_encode r : scalar r = false → encode_rune r = str3 "239" "191" "189".
Proof.
  unfold scalar. intros H. unfold encode_rune.
  by replace ((0xD800 <=? r) && (r <=? 0xDFFF) || (0x10FFFF <? r)) with true by lia.
Qed.

Lemma chunks_scalar s : Forall (λ c, match c with CRune r _ => Is_true (scalar r) | CBad _ => True end) (chunks s).
Proof.
  induction s as [s IH] using string_len_ind. destruct s as [|b0 s1]; [constructor|]. simpl chunks.
  destruct (N.ltb_spec (byte_val b0) 0x80) as [Hlt|Hge].
  { constructor; [|apply IH; simpl; lia]. apply Is_true_true. unfold scalar. lia. }
  destruct s1 as [|b1 s2]; [by repeat constructor|].
  destruct (ok2 b0 b1) eqn:E2.
  { constructor; [|apply IH; simpl; lia]. apply Is_true_true. destruct (scalar _) eqn:E; [done|].
    apply not_scalar_encode in E. destruct (rune2_encode b0 b1) as [He _]; [by rewrite E2|].
    rewrite He in E. discriminate E. }
  assert (Forall (λ c, match c with CRune r _ => Is_true (scalar r) | CBad _ => True end)
    (chunks (String b1 s2))) as Hrest by (apply IH; simpl; lia).
  destruct s2 as [|b2 s3]; [by constructor|].
  destruct (ok3 b0 b1 b2) eqn:E3.
  { constructor; [|apply IH; simpl; lia]. apply Is_true_true. destruct (scalar _) eqn:E; [done|].
    pose proof (not_scalar_encode _ E) as E'. destruct (rune3_encode b0 b1 b2) as [He _]; [by rewrite E3|].
    rewrite He in E'. injection E' as -> -> ->. vm_compute in E. discriminate E. }
  destruct s3 as [|b3 s4]; [by constructor|].
  destruct (ok4 b0 b1 b2 b3) eqn:E4; [|by constructor].
  constructor; [|apply IH; simpl; lia]. apply Is_true_true. destruct (scalar _) eqn:E; [done|].
  apply not_scalar_encode in E. destruct (rune4_encode b0 b1 b2 b3) as [He _]; [by rewrite E4|].
  rewrite He in E. discriminate E.
Qed.

(** Valid text is the encoding of code points. *)
Lemma utf8_valid_spec s : utf8_valid s ↔ ∃ rs, Forall scalar rs ∧ s = utf8 rs.
Proof.
  split.
  - intros Hv. exists (rune_of <$> chunks s). unfold utf8_valid in Hv.
    pose proof (chunks_wf s) as Hw. pose proof (chunks_scalar s) as Hs. revert Hv Hw Hs.
    rewrite <-(chunks_raw s) at 5. generalize (chunks s) as l. clear s.
    induction l as [|[r raw|b] l IH]; [by intros; split; [constructor|]| |done].
    intros Hv [[Hraw _] Hw]%Forall_cons [Hr Hs]%Forall_cons.
    destruct (IH Hv Hw Hs) as [H1 H2]. unfold utf8 in *. rewrite !fmap_cons. simpl. rewrite H2.
    split; [by constructor|]. by rewrite Hraw at 1.
  - intros (rs & Hrs & ->). unfold utf8_valid. rewrite chunks_utf8 by done.
    clear. induction rs; [done|]. by rewrite fmap_cons.
Qed.

(** ** UTF-8 keeps the order of code points *)

Definition byte_lt (s t : string) : Prop := String.compare s t = Lt.

Lemma byte_lt_head c d s t : byte_val c < byte_val d → byte_lt (String c s) (String d t).
Proof. unfold byte_lt. simpl. unfold Ascii.compare. by intros ->%N.compare_lt_iff. Qed.

Lemma byte_lt_tail c s t : byte_lt s t → byte_lt (String c s) (String c t).
Proof. unfold byte_lt. simpl. unfold Ascii.compare. by rewrite N.compare_refl. Qed.

Lemma byte_lt_app s t u : byte_lt t u → byte_lt (s +:+ t) (s +:+ u).
Proof. intros H. induction s as [|c s IH]; [done|]. by apply byte_lt_tail. Qed.

(** Digits in order: the first one that differs decides. *)
Lemma lead_lt h x x' s t :
  h + x < 256 → h + x' < 256 → x < x' ∨ x = x' ∧ byte_lt s t →
  byte_lt (String (lead h x) s) (String (lead h x') t).
Proof.
  intros H H' [Hlt|[<- Hst]]; [|by apply byte_lt_tail].
  apply byte_lt_head. rewrite !byte_val_lead by done. lia.
Qed.

Lemma cont_lt y y' s t :
  y < 64 → y' < 64 → y < y' ∨ y = y' ∧ byte_lt s t → byte_lt (String (cont y) s) (String (cont y') t).
Proof. intros H H'. apply (lead_lt 128); lia. Qed.

Ltac next_digit a b :=
  first [apply lead_lt; [lia|lia|]|apply cont_lt; [lia|lia|]];
  destruct (decide (a = b)) as [<-|?]; [try (right; split; [done|])|left; lia].

Lemma encode_rune_lt r r' s t :
  scalar r → scalar r' → r < r' → byte_lt (encode_rune r +:+ s) (encode_rune r' +:+ t).
Proof.
  intros Hr Hr' Hlt.
  destruct (rune_forms r Hr) as [[H ->]|[(x & y & -> & Hy & Hx & ->)|
    [(x & y & z & -> & Hy & Hz & Hx & H & ->)|(x & y & z & w & -> & Hy & Hz & Hw & Hx & H & ->)]]],
  (rune_forms r' Hr') as [[H' ->]|[(x' & y' & -> & Hy' & Hx' & ->)|
    [(x' & y' & z' & -> & Hy' & Hz' & Hx' & H' & ->)|
     (x' & y' & z' & w' & -> & Hy' & Hz' & Hw' & Hx' & H' & ->)]]]; try lia;
    unfold str4, str3, str2, str1; rewrite !sapp_cons, ?sapp_nil_l;
    try (apply byte_lt_head; rewrite ?byte_val_lead, ?byte_val_of by lia; lia).
  - next_digit x x'. apply cont_lt; lia.
  - next_digit x x'. next_digit y y'. apply cont_lt; lia.
  - next_digit x x'. next_digit y y'. next_digit z z'. apply cont_lt; lia.
Qed.

Lemma utf8_lt rs rs' :
  Forall scalar rs → Forall scalar rs' → code_points_lt rs rs' → byte_lt (utf8 rs) (utf8 rs').
Proof.
  unfold utf8. intros H. revert rs'. induction H as [|r rs Hr Hrs IH]; intros rs' H' Hlt.
  - destruct H' as [|r' rs' Hr' _]; [done|]. rewrite fmap_cons. simpl.
    by destruct (rune_forms r' Hr') as [[? ->]|[(?&?&?&?&?&->)|[(?&?&?&?&?&?&?&?&->)|(?&?&?&?&?&?&?&?&?&?&->)]]].
  - destruct H' as [|r' rs' Hr' Hrs']; [done|]. rewrite !fmap_cons. simpl in *.
    apply orb_True in Hlt as [Hlt|[Heq Hlt]%andb_True].
    + apply encode_rune_lt; [done..|]. apply Is_true_true in Hlt. lia.
    + assert (r = r') as -> by (apply Is_true_true in Heq; lia). apply byte_lt_app. auto.
Qed.

Lemma byte_lt_le s t : byte_lt s t → String.le s t ∧ s ≠ t.
Proof.
  unfold byte_lt, String.le, String.leb. intros H. rewrite H. split; [done|]. intros ->.
  pose proof (String.compare_antisym t t) as Ha. rewrite H in Ha. discriminate Ha.
Qed.

Lemma code_points_total rs rs' : code_points_lt rs rs' ∨ rs = rs' ∨ code_points_lt rs' rs.
Proof.
  revert rs'. induction rs as [|r rs IH]; intros [|r' rs']; simpl; auto.
  rewrite !orb_True, !andb_True, !(Is_true_true (_ <? _)), !(Is_true_true (_ =? _)), !N.ltb_lt, !N.eqb_eq.
  destruct (N.lt_trichotomy r r') as [?|[<-|?]]; [by auto| |by auto].
  destruct (IH rs') as [?|[<-|?]]; auto 6.
Qed.

(** On distinct texts the two orders are one. *)
Lemma utf8_le rs rs' :
  Forall scalar rs → Forall scalar rs' → String.le (utf8 rs) (utf8 rs') → utf8 rs ≠ utf8 rs' →
  code_points_lt rs rs'.
Proof.
  intros H H' Hle Hne. destruct (code_points_total rs rs') as [?|[->|Hgt]]; [done..|].
  apply (utf8_lt _ _ H' H) in Hgt. apply byte_lt_le in Hgt as [Hge _].
  by destruct (Hne (anti_symm String.le _ _ Hle Hge)).
Qed.

(** ** The writer on texts *)

Lemma spec_rune_ascii b :
  byte_val b < 0x80 → spec_rune (byte_val b) = escape_ascii (byte_val b) (str1 b).
Proof. intros H. assert ((byte_val b <? 0x80) = true) as Hb by lia. clear H. revert Hb. byte_cases; done. Qed.

Lemma direct_rune r : scalar r → direct_chunk (rune_chunk r) = spec_rune r.
Proof.
  intros Hr. unfold rune_chunk, direct_chunk. destruct (rune_forms r Hr) as [[H E]|H].
  - replace (r <? 0x80) with true by lia. rewrite E, <-(byte_val_of r) at 1 by lia.
    by rewrite <-spec_rune_ascii, byte_val_of by (rewrite ?byte_val_of; lia).
  - assert (0x80 <= r) as Hge.
    { destruct H as [(?&?&->&?&?&?)|[(?&?&?&?&?&?&?&?&?)|(?&?&?&?&?&?&?&?&?&?&?)]]; lia. }
    replace (r <? 0x80) with false by lia. clear H Hr. unfold spec_rune.
    destruct r as [|p]; [done|].
    assert ((N.pos p <? 32) = false) as Hlt by lia.
    do 7 (destruct p as [p|p|]; try (rewrite Hlt; done); try lia).
Qed.

Lemma direct_text rs : Forall scalar rs → direct_string (utf8 rs) = spec_text rs.
Proof.
  intros H. unfold direct_string, json_string_with, spec_text. rewrite chunks_utf8 by done.
  do 2 f_equal. induction H as [|r rs Hr _ IH]; [done|].
  rewrite !fmap_cons, direct_rune by done. cbn [sconcat]. by rewrite IH.
Qed.

(** ** The writer meets the specification *)

Section agreement.
Context {F : FloatFormat}.

Lemma members_sorted es :
  Forall (λ e, Forall scalar (m_key e)) es →
  StronglySorted (λ e e', code_points_lt (m_key e) (m_key e')) es →
  NoDup (member_entry <$> es).*1 ∧ StronglySorted key_le (member_entry <$> es).
Proof.
  intros Hk Hs. induction Hs as [|e es Hs IH He]; [by split; constructor|].
  apply Forall_cons in Hk as [Hke Hk]. destruct (IH Hk) as [Hnd Hss].
  assert (Forall (λ e', byte_lt (utf8 (m_key e)) (utf8 (m_key e'))) es) as Hlt.
  { apply Forall_forall. intros e' Hin. rewrite Forall_forall in Hk, He. apply utf8_lt; auto. }
  rewrite !fmap_cons. split; constructor; try done.
  - intros Hin. apply list_elem_of_fmap in Hin as ([k v] & Ek & Hin).
    apply list_elem_of_fmap in Hin as (e' & E' & Hin). rewrite Forall_forall in Hlt.
    apply Hlt, byte_lt_le in Hin as [_ Hne]. injection E' as -> ->. simpl in Ek. by apply Hne.
  - apply Forall_fmap. eapply Forall_impl; [exact Hlt|]. intros e' [? _]%byte_lt_le. done.
Qed.

Lemma direct_perm m1 m2 : NoDup m1.*1 → m1 ≡ₚ m2 → direct_json (VMap m1) = direct_json (VMap m2).
Proof. rewrite <-!CanonicalJSON_direct. apply CanonicalJSON_perm. Qed.

Lemma direct_object m es :
  m ≡ₚ (member_entry <$> es) →
  StronglySorted (λ e e', code_points_lt (m_key e) (m_key e')) es →
  Forall (λ e, Forall scalar (m_key e)) es →
  Forall (λ e, direct_json (m_value e) = inr (m_form e)) es →
  direct_json (VMap m) = inr ("{" +:+ Join (member_text <$> es) "," +:+ "}").
Proof.
  intros Hp Hs Hk Hv. destruct (members_sorted es) as [Hnd Hss]; [done..|].
  rewrite (direct_perm m (member_entry <$> es)); [|by rewrite Hp|done].
  apply direct_map; [done..|]. exists ((λ e, (utf8 (m_key e), m_form e)) <$> es). split.
  - apply Forall2_fmap, Forall_Forall2_diag. eapply Forall_impl; [exact Hv|]. done.
  - unfold json_object. do 4 f_equal. rewrite <-list_fmap_compose. apply Forall_fmap_ext_1.
    eapply Forall_impl; [exact Hk|]. intros e He. unfold member_text. rewrite <-direct_text by done.
    reflexivity.
Qed.

(** The encoder writes every canonical form. *)
Lemma canonical_form_direct v a : canonical_form v a → direct_json v = inr a.
Proof.
  revert a. induction v as [|b|k z|x|s|s|l IH|m IH|m _] using any_deep_ind; intros a H; inversion H; subst;
    try done.
  - unfold direct_json. simpl. f_equal. by apply direct_text.
  - apply direct_slice. exists ss. split; [|done]. clear H. revert IH.
    match goal with H : Forall2 _ _ _ |- _ => induction H as [|v s l ss Hv _ IHl] end; [constructor|].
    intros [H IH]%Forall_cons. constructor; auto.
  - apply direct_object; [done..|]. apply Forall_forall. intros e He.
    rewrite Forall_forall in IH. apply (IH (member_entry e)).
    + match goal with H : m ≡ₚ _ |- _ => rewrite H end. by apply list_elem_of_fmap_2.
    + match goal with H : Forall (λ e, canonical_form _ _) _ |- _ => rewrite Forall_forall in H; by apply H end.
Qed.

(** Every value the specification speaks of has one. *)
Lemma members_of m :
  Forall (λ kv, Is_true (utf8_valid kv.1)) m → Forall (λ kv, ∃ a, canonical_form kv.2 a) m →
  ∃ es, m = member_entry <$> es ∧ Forall (λ e, Forall scalar (m_key e)) es ∧
    Forall (λ e, canonical_form (m_value e) (m_form e)) es.
Proof.
  induction m as [|[k v] m IH]; intros Hk Hv; [by exists []|].
  apply Forall_cons in Hk as [(rs & Hrs & Ek)%utf8_valid_spec Hk], Hv as [[a Ha] Hv].
  simpl in Ek, Ha. destruct (IH Hk Hv) as (es & -> & H1 & H2).
  exists (Member rs v a :: es). rewrite fmap_cons. subst k. split_and!; [done|by constructor..].
Qed.

Lemma code_points_sorted es :
  NoDup (member_entry <$> es).*1 → StronglySorted key_le (member_entry <$> es) →
  Forall (λ e, Forall scalar (m_key e)) es →
  StronglySorted (λ e e', code_points_lt (m_key e) (m_key e')) es.
Proof.
  induction es as [|e es IH]; [constructor|]. rewrite !fmap_cons.
  intros [Hn Hnd]%NoDup_cons [Hs He]%StronglySorted_inv [Hke Hk]%Forall_cons.
  constructor; [auto|]. apply Forall_forall. intros e' Hin.
  rewrite Forall_fmap, Forall_forall in He. rewrite Forall_forall in Hk.
  apply utf8_le; [done|by apply Hk|by apply (He e')|]. intros Heq. apply Hn.
  rewrite <-list_fmap_compose. apply list_elem_of_fmap. by exists e'.
Qed.

Lemma canonical_form_exists v : specified v → ∃ a, canonical_form v a.
Proof.
  induction v as [|[]|k z|x|s|s|l IH|m IH|m _] using any_deep_ind; inversion 1; subst;
    try by (eexists; constructor).
  - match goal with H : Is_true (utf8_valid _) |- _ => apply utf8_valid_spec in H as (rs & Hrs & ->) end.
    eexists. by constructor.
  - assert (∃ ss, Forall2 canonical_form l ss) as [ss Hss]; [|eexists; by constructor].
    apply Forall_exists_Forall2_l. rewrite !Forall_forall in *. auto.
  - match goal with H : Forall (λ kv, specified kv.2) m |- _ => rename H into Hm end.
    assert (Forall (λ kv, ∃ a, canonical_form kv.2 a) m) as Hf by (rewrite !Forall_forall in *; auto).
    rewrite <-(sort_keys_Permutation m) in *.
    destruct (members_of (sort_keys m)) as (es & Es & Hk & Hv); [done..|].
    pose proof (sort_keys_sorted m) as Hs. rewrite Es in *.
    eexists. apply (cf_object _ es); [|by apply code_points_sorted|done..].
    by rewrite <-Es, sort_keys_Permutation.
Qed.
End agreement.

Section properties.
Context {F : FloatFormat}.

(** C35. [CanonicalJSON] writes the canonical JSON of spec/cassette-format-v1.md: every
    value the specification speaks of - text that is UTF-8, integers, booleans, null,
    arrays, and objects with distinct keys in any iteration order - is encoded without an
    error, and the bytes are its canonical form, which is the only one: keys by code
    point, no white space, the specification's escapes and no others.  Text that is not
    UTF-8, structs and floats are outside the specification and outside the theorem; what
    the code does with the first two is [bad_bytes_collide] and [struct_fields_unsorted]. *)
Theorem CanonicalJSON_spec v :
  specified v → ∃ a, CanonicalJSON v = inr a ∧ ∀ b, canonical_form v b ↔ b = a.
Proof.
  intros [a Ha]%canonical_form_exists. exists a. rewrite CanonicalJSON_direct.
  split; [by apply canonical_form_direct|]. intros b. split; [|by intros ->].
  intros Hb%canonical_form_direct. apply canonical_form_direct in Ha. congruence.
Qed.

(** A byte that starts no code point is written as the escaped replacement character,
    an escape outside the list, whatever the byte was. *)
Theorem bad_bytes_collide b b' :
  high_byte b → high_byte b' → CanonicalJSON (VString (str1 b)) = CanonicalJSON (VString (str1 b')).
Proof.
  assert (∀ c, high_byte c → CanonicalJSON (VString (str1 c)) =
    inr (str1 dquote +:+ esc "ufffd" +:+ str1 dquote)) as H; [|by intros H1%H H2%H; rewrite H1, H2].
  intros c Hc. apply Is_true_true in Hc. unfold high_byte in Hc.
  rewrite CanonicalJSON_direct. unfold direct_json, json_with, json_string_with, str1. cbn [chunks].
  by replace (byte_val c <? 0x80) with false by lia.
Qed.
End properties.

(** ** At concrete values *)

Section witnesses.
#[local] Existing Instance integral_floats.

(** The fields of a struct keep their order of declaration. *)
Example struct_fields_unsorted :
  CanonicalJSON (VStruct [("b", VInt KInt 1); ("a", VInt KInt 2)]) ≠
  CanonicalJSON (VMap [("b", VInt KInt 1); ("a", VInt KInt 2)]).
Proof. vm_compute. discriminate. Qed.

(** The specification's hazard vector and its streaming form, byte for byte. *)
Definition hazard : list N :=
  [0x61; 0x26; 0x62; 0x3C; 0x63; 0x3E; 0x2F; 0xE9; 0x2028; 0x2029; 0x08; 0x0C; 0x1F; 0x7F].

Definition hazard_inputs : any := VMap [("stream", VString "server"); ("k", VString (utf8 hazard))].

Example hazard_fingerprint : CanonicalFingerprint hazard_inputs = inr "bcc2c6c3".
Proof. vm_compute. reflexivity. Qed.

(** Byte order is not UTF-16 order: U+FFFF sorts before U+10000. *)
Example keys_by_code_point :
  CanonicalJSON (VMap [(utf8 [0x10000], VNil); (utf8 [0xFFFF], VNil)]) =
  inr ("{" +:+ Join [spec_text [0xFFFF] +:+ ":null"; spec_text [0x10000] +:+ ":null"] "," +:+ "}").
Proof. vm_compute. reflexivity. Qed.

Lemma CanonicalJSON_spec_witness : ∃ a,
  CanonicalJSON hazard_inputs = inr a ∧ canonical_form hazard_inputs a ∧
  hex_encode a = "7b226b223a226126623c633e2fc3a9e280a8e280a95c625c665c75303031667f222c2273747265616d223a22736572766572227d".
Proof.
  destruct (CanonicalJSON_spec hazard_inputs) as (a & Ha & Hf).
  - constructor; [by apply (bool_decide_unpack _)|repeat constructor|repeat constructor].
  - exists a. split; [exact Ha|]. split; [by apply Hf|].
    vm_compute in Ha. injection Ha as <-. vm_compute. reflexivity.
Defined.
End witnesses.
