(* ===== verification/Regexp.v ===== *)
(** The part of package [regexp] the redaction patterns use: classes, sequence,
    alternation, repetition and the ASCII word boundary, over runes.

    [matches] is the meaning of an expression at a position, [search] the
    executable [MatchString], by derivatives; they agree ([search_spec]). *)

From S2P Require Import Prelude GoStrings.

(** ** Expressions *)

Inductive re : Type :=
| RVoid
| REps
| RClass (ranges : list (N * N))
| RWordB
| RSeq (r1 r2 : re)
| RAlt (r1 r2 : re)
| RStar (r : re).

Definition in_class (ranges : list (N * N)) (x : N) : bool :=
  existsb (λ '(lo, hi), (lo <=? x)%N && (x <=? hi)%N) ranges.

Definition word_ranges : list (N * N) := [(48, 57); (65, 90); (95, 95); (97, 122)]%N.

Definition is_word (c : option N) : bool :=
  match c with None => false | Some x => in_class word_ranges x end.

(** [\b]: exactly one neighbour is a word character. *)
Definition boundary (p n : option N) : bool := xorb (is_word p) (is_word n).

(** ** Meaning

    [matches r p u n]: [r] matches the runes [u], standing between the rune [p]
    and the rune [n] of the text. *)
Definition next_of (v : list N) (n : option N) : option N :=
  match v with [] => n | x :: _ => Some x end.

Fixpoint prev_of (p : option N) (u : list N) : option N :=
  match u with [] => p | x :: u' => prev_of (Some x) u' end.

Inductive matches : re → option N → list N → option N → Prop :=
| m_eps p n : matches REps p [] n
| m_class rs x p n : in_class rs x → matches (RClass rs) p [x] n
| m_wordb p n : boundary p n → matches RWordB p [] n
| m_seq r1 r2 p u v n :
    matches r1 p u (next_of v n) → matches r2 (prev_of p u) v n →
    matches (RSeq r1 r2) p (u ++ v) n
| m_alt_l r1 r2 p u n : matches r1 p u n → matches (RAlt r1 r2) p u n
| m_alt_r r1 r2 p u n : matches r2 p u n → matches (RAlt r1 r2) p u n
| m_star_nil r p n : matches (RStar r) p [] n
| m_star_cons r p u v n :
    matches r p u (next_of v n) → matches (RStar r) (prev_of p u) v n →
    matches (RStar r) p (u ++ v) n.

(** The expression occurs in the text. *)
Definition occurs (r : re) (s : list N) : Prop :=
  ∃ pre u post, s = pre ++ u ++ post ∧ matches r (prev_of None pre) u (next_of post None).

(** ** Matching *)

Fixpoint nullable (r : re) (p n : option N) : bool :=
  match r with
  | RVoid | RClass _ => false
  | REps | RStar _ => true
  | RWordB => boundary p n
  | RSeq r1 r2 => nullable r1 p n && nullable r2 p n
  | RAlt r1 r2 => nullable r1 p n || nullable r2 p n
  end.

(** Sequence and alternation without dead branches. *)
Definition seq (r1 r2 : re) : re :=
  match r1 with RVoid => RVoid | REps => r2 | _ => RSeq r1 r2 end.

Definition alt (r1 r2 : re) : re :=
  match r1, r2 with
  | RVoid, _ => r2
  | _, RVoid => r1
  | _, _ => RAlt r1 r2
  end.

(** What is left of [r] after the rune [x], [p] being the rune before it. *)
Fixpoint deriv (r : re) (p : option N) (x : N) : re :=
  match r with
  | RVoid | REps | RWordB => RVoid
  | RClass rs => if in_class rs x then REps else RVoid
  | RSeq r1 r2 =>
    alt (seq (deriv r1 p x) r2) (if nullable r1 p (Some x) then deriv r2 p x else RVoid)
  | RAlt r1 r2 => alt (deriv r1 p x) (deriv r2 p x)
  | RStar r1 => seq (deriv r1 p x) r
  end.

Definition is_void (r : re) : bool := match r with RVoid => true | _ => false end.

(** Some prefix of the text matches. *)
Fixpoint match_prefix (r : re) (p : option N) (s : list N) : bool :=
  if is_void r then false else
  match s with
  | [] => nullable r p None
  | x :: s' => nullable r p (Some x) || match_prefix (deriv r p x) (Some x) s'
  end.

Fixpoint search_from (r : re) (p : option N) (s : list N) : bool :=
  match_prefix r p s || match s with [] => false | x :: s' => search_from r (Some x) s' end.

Definition runes (s : string) : list N := rune_of <$> chunks s.

(** [re.MatchString(s)]. *)
Definition MatchString (r : re) (s : string) : bool := search_from r None (runes s).

(** ** Notation of the patterns *)

Definition lit1 (c : ascii) : re := RClass [(byte_val c, byte_val c)].

Fixpoint lit (s : string) : re :=
  match s with
  | EmptyString => REps
  | String c s' => RSeq (lit1 c) (lit s')
  end.

Fixpoint rep (n : nat) (r : re) : re :=
  match n with O => REps | S n' => RSeq r (rep n' r) end.

Definition at_least (n : nat) (r : re) : re := RSeq (rep n r) (RStar r).

Definition opt (r : re) : re := RAlt REps r.

Fixpoint up_to (n : nat) (r : re) : re :=
  match n with O => REps | S n' => opt (RSeq r (up_to n' r)) end.

(** ** Correctness *)

Lemma next_of_app u v n : next_of (u ++ v) n = next_of u (next_of v n).
Proof. by destruct u. Qed.

Lemma prev_of_app p u v : prev_of p (u ++ v) = prev_of (prev_of p u) v.
Proof. revert p. induction u as [|x u IH]; intros p; simpl; auto. Qed.

Lemma m_seq_inv r1 r2 p w n :
  matches (RSeq r1 r2) p w n →
  ∃ u v, w = u ++ v ∧ matches r1 p u (next_of v n) ∧ matches r2 (prev_of p u) v n.
Proof. inversion 1; subst; eauto 10. Qed.

Lemma m_class_inv rs p w n : matches (RClass rs) p w n → ∃ x, w = [x] ∧ in_class rs x.
Proof. inversion 1; subst; eauto. Qed.

Lemma m_alt_inv r1 r2 p w n :
  matches (RAlt r1 r2) p w n ↔ matches r1 p w n ∨ matches r2 p w n.
Proof. split; [inversion 1; subst; auto|intros [|]; by constructor]. Qed.

Lemma m_void_inv p w n : ¬ matches RVoid p w n.
Proof. inversion 1. Qed.

Lemma matches_seq r1 r2 p w n : matches (seq r1 r2) p w n ↔ matches (RSeq r1 r2) p w n.
Proof.
  destruct r1; simpl; try done; split.
  - by intros []%m_void_inv.
  - by intros (u & v & _ & []%m_void_inv & _)%m_seq_inv.
  - intros H. apply (m_seq _ _ _ []); [constructor|done].
  - intros (u & v & -> & Hu & Hv)%m_seq_inv. by inversion Hu; subst.
Qed.

Lemma matches_alt r1 r2 p w n : matches (alt r1 r2) p w n ↔ matches r1 p w n ∨ matches r2 p w n.
Proof.
  pose proof (m_void_inv p w n). destruct r1; simpl; try tauto;
    destruct r2; simpl; rewrite ?m_alt_inv; tauto.
Qed.

Lemma nullable_spec r p n : nullable r p n ↔ matches r p [] n.
Proof.
  revert p n. induction r as [| |rs| |r1 IH1 r2 IH2|r1 IH1 r2 IH2|r IH]; intros p n; simpl.
  - split; [done|by intros ?%m_void_inv].
  - split; [constructor|done].
  - split; [done|]. by intros (x & [=] & _)%m_class_inv.
  - split; [by constructor|by inversion 1].
  - rewrite andb_True, IH1, IH2. split.
    + intros [H1 H2]. by apply (m_seq _ _ _ [] []).
    + intros (u & v & Huv & H1 & H2)%m_seq_inv. symmetry in Huv.
      by apply app_eq_nil in Huv as [-> ->].
  - by rewrite orb_True, IH1, IH2, m_alt_inv.
  - split; [constructor|done].
Qed.

(** A non-empty match of a star begins with a non-empty match of its body. *)
Lemma star_cons_inv r p x w n :
  matches (RStar r) p (x :: w) n →
  ∃ u v, w = u ++ v ∧ matches r p (x :: u) (next_of v n) ∧
    matches (RStar r) (prev_of (Some x) u) v n.
Proof.
  remember (RStar r) as s eqn:Es. remember (x :: w) as xw eqn:Ew. intros H.
  revert x w Ew. induction H as [| | | | | | |r' p u v n Hu _ Hv IH]; simplify_eq.
  - done.
  - intros x w Ew. destruct u as [|y u]; simpl in *; simplify_eq; [by apply IH|eauto].
Qed.

Lemma deriv_spec r p x w n : matches (deriv r p x) (Some x) w n ↔ matches r p (x :: w) n.
Proof.
  revert p w n. induction r as [| |rs| |r1 IH1 r2 IH2|r1 IH1 r2 IH2|r IH]; intros p w n; simpl.
  - split; by intros ?%m_void_inv.
  - split; [by intros ?%m_void_inv|by inversion 1].
  - destruct (in_class rs x) eqn:E.
    + split; [inversion 1; subst; constructor; by rewrite E|].
      intros (y & [= -> ->] & _)%m_class_inv. constructor.
    + split; [by intros ?%m_void_inv|]. intros (y & [= -> ->] & Hy)%m_class_inv. by rewrite E in Hy.
  - split; [by intros ?%m_void_inv|by inversion 1].
  - rewrite matches_alt, matches_seq. split.
    + intros [(u & v & -> & Hu & Hv)%m_seq_inv|H].
      * apply (m_seq _ _ p (x :: u) v n); [by apply IH1|done].
      * destruct (nullable r1 p (Some x)) eqn:E; [|by apply m_void_inv in H].
        apply (m_seq _ _ p [] (x :: w) n); [by apply nullable_spec; simpl; rewrite E|by apply IH2].
    + intros (u & v & Huv & Hu & Hv)%m_seq_inv. destruct u as [|y u]; simpl in Huv.
      * subst v. right. apply nullable_spec, Is_true_true_1 in Hu. simpl in Hu. rewrite Hu.
        by apply IH2.
      * injection Huv as <- ->. left. apply m_seq; [by apply IH1|done].
  - by rewrite matches_alt, m_alt_inv, IH1, IH2.
  - rewrite matches_seq. split.
    + intros (u & v & -> & Hu & Hv)%m_seq_inv.
      apply (m_star_cons _ p (x :: u) v n); [by apply IH|done].
    + intros (u & v & -> & Hu & Hv)%star_cons_inv. apply m_seq; [by apply IH|done].
Qed.

Lemma match_prefix_spec r p s :
  match_prefix r p s ↔ ∃ u v, s = u ++ v ∧ matches r p u (next_of v None).
Proof.
  revert r p. induction s as [|x s IH]; intros r p; simpl; destruct (is_void r) eqn:Ev.
  1, 3: (destruct r; try done; split; [done|]; by intros (u & v & _ & []%m_void_inv)).
  - rewrite nullable_spec. split; [by exists [], []|].
    intros (u & v & Huv & H). symmetry in Huv. by apply app_eq_nil in Huv as [-> ->].
  - rewrite orb_True, nullable_spec, IH. split.
    + intros [H|(u & v & -> & H)]; [by exists [], (x :: s)|].
      exists (x :: u), v. split; [done|by apply deriv_spec].
    + intros ([|y u] & v & Huv & H); simpl in *; simplify_eq; [by left|right].
      exists u, v. split; [done|by apply deriv_spec].
Qed.

Lemma search_from_spec r p s :
  search_from r p s ↔
  ∃ pre u post, s = pre ++ u ++ post ∧ matches r (prev_of p pre) u (next_of post None).
Proof.
  revert p. induction s as [|x s IH]; intros p; cbn [search_from]; rewrite orb_True, match_prefix_spec.
  - split.
    + intros [(u & v & -> & H)|[]]. by exists [], u, v.
    + intros (pre & u & post & Heq & H). symmetry in Heq.
      apply app_eq_nil in Heq as [-> [-> ->]%app_eq_nil]. left. by exists [], [].
  - rewrite IH. split.
    + intros [(u & v & -> & H)|(pre & u & post & -> & H)]; [by exists [], u, v|].
      by exists (x :: pre), u, post.
    + intros ([|y pre] & u & post & Heq & H); simpl in *; simplify_eq.
      * left. by exists u, post.
      * right. by exists pre, u, post.
Qed.

Lemma MatchString_spec r s : MatchString r s ↔ occurs r (runes s).
Proof. apply search_from_spec. Qed.
