(* ===== verification/Yaml.v ===== *)
(** gopkg.in/yaml.v3, the library every cassette is read and written with.

    [YamlLib] lists the entry points the source calls; [YamlLaws] the documented
    behaviour the theorems rely on.  [ReferenceYaml] is a concrete instance that
    meets the laws, so that theorems over them can be applied to closed inputs. *)

From S2P Require Import Prelude GoStrings Values.

(** ** The interface *)

Class YamlLib := {
  (** [node.Encode(v)]. *)
  yEncode : any → result ynode;
  (** [yaml.Marshal(&node)] and [yaml.Marshal(v)]. *)
  yMarshalNode : ynode → result string;
  yMarshal : any → result string;
  (** [yaml.Unmarshal(data, &raw)] with [raw map[string]yaml.Node]. *)
  yUnmarshalMap : string → result (gmap string ynode);
  (** [node.Decode(&m)] with [m map[string]any]; [None] is the nil map that a
      null node leaves behind. *)
  yDecodeMap : ynode → result (option (gmap string any));
  (** [node.Decode(&s)] with [s string]. *)
  yDecodeString : ynode → result string;
  (** [node.SetString(s)]: the node afterwards. *)
  ySetString : ynode → string → ynode;
}.

(** The keys of a mapping's content. *)
Definition y_keys (content : list ynode) : list string :=
  y_value ∘ fst <$> y_pairs content.

(** The same mapping with other values. *)
Definition same_keys (c c' : list ynode) : Prop :=
  length c = length c' ∧ (y_pairs c).*1 = (y_pairs c').*1.

Definition str_node (dq : bool) (s : string) : ynode := YNode YScalar dq "!!str" s [].

(** Values that decode back to themselves from the YAML they encode to: text
    that is UTF-8 and the types that decoding into [any] produces. *)
Fixpoint yaml_value (v : any) : bool :=
  match v with
  | VNil | VBool _ | VInt KInt _ => true
  | VString s => utf8_valid s
  | VSlice l => forallb yaml_value l
  | _ => false
  end.

Class YamlLaws {Y : YamlLib} := {
  (** Nodes that [Marshal] writes and [Unmarshal] reads back unchanged: those
      that [Encode] builds, and those with a string scalar reset by
      [SetString]. *)
  yClean : ynode → Prop;
  clean_encode v n : yEncode v = inr n → yClean n;
  clean_content k d t v c : yClean (YNode k d t v c) → Forall yClean c;
  clean_sequence d t v c c' :
    yClean (YNode YSequence d t v c) → length c = length c' → Forall yClean c' →
    yClean (YNode YSequence d t v c');
  clean_document d t v c c' :
    yClean (YNode YDocument d t v c) → length c = length c' → Forall yClean c' →
    yClean (YNode YDocument d t v c');
  clean_mapping d t v c c' :
    yClean (YNode YMapping d t v c) → same_keys c c' → Forall yClean c' →
    yClean (YNode YMapping d t v c');
  clean_set_string n s : yClean n → y_kind n = YScalar → yClean (ySetString n s);
  (** A struct encodes as the mapping of its fields, in order; a string as a
      [!!str] scalar with that value. *)
  encode_struct fs n :
    yEncode (VStruct fs) = inr n →
    ∃ d t v c, n = YNode YMapping d t v c ∧
      Forall2 (λ f p, y_value p.1 = f.1 ∧ yEncode f.2 = inr p.2) fs (y_pairs c);
  encode_string s n : utf8_valid s → yEncode (VString s) = inr n → ∃ dq, n = str_node dq s;
  encode_quoted s n : utf8_valid s → yEncode (VQuoted s) = inr n → n = str_node true s;
  encode_empty_map n :
    yEncode (VMap []) = inr n → yDecodeMap n = inr (Some ∅);
  (** Reading a mapping that was written gives its values by key. *)
  unmarshal_marshal_node d t v c data :
    yClean (YNode YMapping d t v c) → NoDup (y_keys c) →
    yMarshalNode (YNode YMapping d t v c) = inr data →
    ∃ m, yUnmarshalMap data = inr m ∧ ∀ k, m !! k = list_to_map (M := gmap string ynode) (prod_map y_value id <$> y_pairs c) !! k;
  unmarshal_marshal fs data :
    NoDup fs.*1 → yMarshal (VStruct fs) = inr data →
    ∃ m ns, yUnmarshalMap data = inr m ∧
      Forall2 (λ f kn, f.1 = kn.1 ∧ yEncode f.2 = inr kn.2) fs ns ∧
      ∀ k, m !! k = list_to_map (M := gmap string ynode) ns !! k;
  (** Decoding what was encoded. *)
  decode_string dq s : yDecodeString (str_node dq s) = inr s;
  decode_map m n :
    map_Forall (λ _ v, yaml_value v) m → yEncode (of_gomap m) = inr n →
    yDecodeMap n = inr (Some m);
  decode_struct fs n :
    NoDup fs.*1 → Forall (λ f, yaml_value f.2) fs → yEncode (VStruct fs) = inr n →
    yDecodeMap n = inr (Some (list_to_map fs));
  (** [SetString] overwrites kind, tag and value and nothing else; bytes that
      are not UTF-8 are kept as base64 under another tag. *)
  set_string_kind n s : y_kind (ySetString n s) = YScalar;
  set_string_valid n s :
    utf8_valid s → y_tag (ySetString n s) = "!!str" ∧ y_value (ySetString n s) = s;
  set_string_invalid n s : utf8_valid s = false → y_tag (ySetString n s) = "!!binary";
  set_string_content n s : y_content (ySetString n s) = y_content n;
  set_string_overwrites k k' d t t' v v' c s :
    ySetString (YNode k d t v c) s = ySetString (YNode k' d t' v' c) s;
  set_string_again n s : ySetString (ySetString n s) s = ySetString n s;
}.

(** ** A concrete instance *)

Module ReferenceYaml.

Definition scalar (tag value : string) : ynode := YNode YScalar false tag value [].

Definition key_node (k : string) : ynode := str_node false k.

Fixpoint of_pairs (l : list (string * ynode)) : list ynode :=
  match l with
  | [] => []
  | (k, n) :: l' => key_node k :: n :: of_pairs l'
  end.

Fixpoint encode (v : any) : ynode :=
  match v with
  | VNil => scalar "!!null" "null"
  | VBool b => scalar "!!bool" (if b then "true" else "false")
  | VInt _ z => scalar "!!int" (itoa z)
  | VFloat _ => scalar "!!float" ".nan"
  | VString s => str_node false s
  | VQuoted s => str_node true s
  | VSlice l => YNode YSequence false "!!seq" "" (map encode l)
  | VMap m => YNode YMapping false "!!map" ""
                (of_pairs (sort_keys (map (λ '(k, x), (k, encode x)) m)))
  | VStruct m => YNode YMapping false "!!map" "" (of_pairs (map (λ '(k, x), (k, encode x)) m))
  end.

Fixpoint decode (n : ynode) : any :=
  let '(YNode kind _ tag value c) := n in
  match kind with
  | YSequence => VSlice (map decode c)
  | YScalar =>
    if bool_decide (tag = "!!bool") then VBool (bool_decide (value = "true"))
    else if bool_decide (tag = "!!int") then VInt KInt (default 0%Z (parse_int value))
    else if bool_decide (tag = "!!str") then VString value
    else VNil
  | _ => VNil
  end.

Definition pairs_map (c : list ynode) : gmap string ynode :=
  list_to_map (prod_map y_value id <$> y_pairs c).

(** Text of a node: the number that codes its tree. *)
Definition kind_nat (k : ykind) : nat :=
  match k with YDocument => 0 | YSequence => 1 | YMapping => 2 | YScalar => 3 | YAlias => 4 end.
Definition nat_kind (n : nat) : ykind :=
  match n with 0 => YDocument | 1 => YSequence | 2 => YMapping | 3 => YScalar | _ => YAlias end.

Fixpoint to_tree (n : ynode) : gen_tree string :=
  let '(YNode k d t v c) := n in
  GenNode (kind_nat k) (GenNode (if d then 1 else 0) [] :: GenLeaf t :: GenLeaf v :: map to_tree c).

Fixpoint of_tree (t : gen_tree string) : ynode :=
  match t with
  | GenNode k (GenNode d _ :: GenLeaf tag :: GenLeaf v :: c) =>
    YNode (nat_kind k) (d =? 1) tag v (map of_tree c)
  | _ => YNode YScalar false "" "" []
  end.

Definition print (n : ynode) : string := itoa (Zpos (countable.encode (to_tree n))).
Definition parse (s : string) : option ynode :=
  match parse_int s with
  | Some (Zpos p) => of_tree <$> countable.decode p
  | _ => None
  end.

Definition bad_yaml : err := ENew "yaml: invalid document".

Definition set_string (n : ynode) (s : string) : ynode :=
  let '(YNode _ d _ _ c) := n in
  if utf8_valid s then YNode YScalar d "!!str" s c
  else YNode YScalar d "!!binary" (b64_encode s) c.

Definition lib : YamlLib := {|
  yEncode v := inr (encode v);
  yMarshalNode n := inr (print n);
  yMarshal v := inr (print (encode v));
  yUnmarshalMap s :=
    match parse s with
    | Some (YNode YMapping _ _ _ c) => inr (pairs_map c)
    | _ => inl bad_yaml
    end;
  yDecodeMap n :=
    match n with
    | YNode YMapping _ _ _ c => inr (Some (decode <$> pairs_map c))
    | YNode YScalar _ "!!null" _ _ => inr None
    | _ => inl bad_yaml
    end;
  yDecodeString n :=
    match n with
    | YNode YScalar _ _ v _ => inr v
    | _ => inl bad_yaml
    end;
  ySetString := set_string;
|}.

Lemma of_tree_to_tree n : of_tree (to_tree n) = n.
Proof.
  induction n as [k d t v c IH] using ynode_deep_ind. simpl.
  assert (map of_tree (map to_tree c) = c) as Hc.
  { induction IH as [|x c Hx _ IHc]; simpl; [done|]. by rewrite Hx, IHc. }
  rewrite Hc. f_equal; [by destruct k|by destruct d].
Qed.

Lemma parse_print n : parse (print n) = Some n.
Proof. unfold parse, print. by rewrite parse_int_itoa, countable.decode_encode; simpl; rewrite of_tree_to_tree. Qed.

Lemma pairs_of_pairs l : prod_map y_value id <$> y_pairs (of_pairs l) = l.
Proof. induction l as [|[k n] l IH]; [done|]. csimpl. by rewrite IH. Qed.

Lemma decode_encode v : yaml_value v → decode (encode v) = v.
Proof.
  induction v as [|b|k z|f|s|s|l IH|m IH|m IH] using any_deep_ind; try done; simpl.
  - by destruct b.
  - destruct k; try done. intros _. by rewrite parse_int_itoa.
  - intros H. f_equal. induction IH as [|x l Hx _ IHl]; simpl in *; [done|].
    apply andb_True in H as [H1 H2]. by rewrite Hx, IHl.
Qed.

Lemma forall2_of_pairs (fs : list (string * any)) :
  Forall2 (λ f (p : ynode * ynode), y_value p.1 = f.1 ∧ inr (A := err) (encode f.2) = inr p.2) fs
    (y_pairs (of_pairs (map (λ '(k, x), (k, encode x)) fs))).
Proof. induction fs as [|[k v] fs IH]; simpl; constructor; auto. Qed.

Lemma forall2_fields (fs : list (string * any)) :
  Forall2 (λ f (kn : string * ynode), f.1 = kn.1 ∧ inr (A := err) (encode f.2) = inr kn.2) fs
    (map (λ '(k, x), (k, encode x)) fs).
Proof. induction fs as [|[k v] fs IH]; simpl; constructor; auto. Qed.

Lemma decode_map_encode (m : gmap string any) :
  map_Forall (λ _ v, yaml_value v) m →
  decode <$> pairs_map (of_pairs (sort_keys (map (λ '(k, x), (k, encode x)) (map_to_list m)))) = m.
Proof.
  intros Hm. unfold pairs_map. rewrite pairs_of_pairs.
  change (map (λ '(k, x), (k, encode x)) (map_to_list m))
    with ((λ '(k, x), (k, encode x)) <$> map_to_list m).
  assert (∀ l : list (string * any), (λ '(k, x), (k, encode x)) <$> l = prod_map id encode <$> l) as He.
  { intros l. apply list_fmap_ext. by intros ? []. }
  rewrite He, sort_keys_fmap.
  assert ((list_to_map (prod_map id encode <$> sort_keys (map_to_list m)) : gmap string ynode)
          = encode <$> m) as ->.
  { rewrite list_to_map_fmap. f_equal.
    rewrite (list_to_map_proper _ (map_to_list m)).
    - apply list_to_map_to_list.
    - rewrite sort_keys_Permutation. apply NoDup_fst_map_to_list.
    - apply sort_keys_Permutation. }
  rewrite <-map_fmap_compose. rewrite <-(map_fmap_id m) at 2.
  apply map_fmap_ext. intros k v Hk. apply decode_encode. by apply (Hm k).
Qed.

Lemma decode_struct_encode (fs : list (string * any)) :
  Forall (λ f, yaml_value f.2) fs →
  decode <$> pairs_map (of_pairs (map (λ '(k, x), (k, encode x)) fs)) = list_to_map fs.
Proof.
  intros Hfs. unfold pairs_map. rewrite pairs_of_pairs, <-list_to_map_fmap. f_equal.
  rewrite <-list_fmap_compose. induction Hfs as [|[k v] fs Hv _ IH]; [done|].
  csimpl. rewrite IH. unfold prod_map. simpl. by rewrite decode_encode.
Qed.

Definition laws : @YamlLaws lib.
Proof.
  refine {| yClean := λ _, True |}; simpl; intros; simplify_eq; try done.
  - by apply Forall_true.
  - eexists _, _, _, _. split; [done|]. apply forall2_of_pairs.
  - eauto.
  - rewrite parse_print. eauto.
  - rewrite parse_print. simpl. eexists _, _. split; [done|].
    split; [apply forall2_fields|]. intros k. unfold pairs_map. by rewrite pairs_of_pairs.
  - unfold of_gomap. by rewrite decode_map_encode.
  - by rewrite decode_struct_encode.
  - destruct n; simpl. by case_match.
  - destruct n; simpl. by rewrite (Is_true_true_1 _ H).
  - destruct n; simpl. by rewrite H.
  - destruct n; simpl. by case_match.
  - destruct n; simpl. destruct (utf8_valid s) eqn:E; simpl; by rewrite E.
Defined.

End ReferenceYaml.
