(* ===== verification/Os.v ===== *)
(** The operating system as the program sees it: paths, a file system whose
    calls can fail, the environment and the clock's text.

    A call is a function of type [io A]: from a file system to the file system
    afterwards and a value or an error. *)

From S2P Require Import Prelude GoStrings.

(** ** path/filepath on Unix *)

Definition slash : ascii := "/"%char.

(** One element of the path against the elements kept so far, last first. *)
Definition clean_step (rooted : bool) (st : list string) (e : string) : list string :=
  if bool_decide (e = "") || bool_decide (e = ".") then st
  else if bool_decide (e = "..") then
    match st with
    | top :: st' => if bool_decide (top = "..") then e :: st else st'
    | [] => if rooted then [] else [e]
    end
  else e :: st.

Definition clean_stack (rooted : bool) (l : list string) : list string :=
  foldl (clean_step rooted) [] l.

Definition Clean (path : string) : string :=
  if bool_decide (path = "") then "." else
  let rooted := HasPrefix path "/" in
  let l := reverse (clean_stack rooted (Split1 path slash)) in
  if rooted then "/" +:+ Join l "/"
  else if bool_decide (l = []) then "." else Join l "/".

Definition filepath_Join (elem : list string) : string :=
  match filter (λ e, e ≠ "") elem with
  | [] => ""
  | l => Clean (Join l "/")
  end.

Definition filepath_Dir (path : string) : string :=
  match CutLast1 path slash with
  | Some (d, _) => Clean (d +:+ "/")
  | None => "."
  end.

(** ** Files *)

Inductive fnode : Type := FFile (data : string) | FDir.

Abbreviation fsys := (gmap string fnode).

Definition io (A : Type) : Type := fsys → fsys * result A.

Global Instance io_ret : MRet io := λ A x σ, (σ, inr x).
Global Instance io_bind : MBind io := λ A B f m σ,
  match m σ with
  | (σ', inl e) => (σ', inl e)
  | (σ', inr x) => f x σ'
  end.

Definition throw {A} (e : err) : io A := λ σ, (σ, inl e).
Definition lift {A} (r : result A) : io A := λ σ, (σ, r).

(** [m] with its error wrapped by [fmt.Errorf("prefix%w", err)]. *)
Definition io_wrap {A} (prefix : string) (m : io A) : io A :=
  λ σ, let '(σ', r) := m σ in (σ', wrap_err prefix r).

(** The failures that are not decided by the files themselves (permissions, a
    full disk): the error of the call, and for a write how many bytes reached
    the file before it. *)
Class Faults := {
  read_fault : string → option string;
  write_fault : string → option (nat * string);
  mkdir_fault : string → option string;
}.

Definition no_faults : Faults :=
  {| read_fault := λ _, None; write_fault := λ _, None; mkdir_fault := λ _, None |}.

Definition path_error (op path what : string) : string := op +:+ " " +:+ path +:+ ": " +:+ what.

Section calls.
Context {O : Faults}.

Definition ReadFile (path : string) : io string := λ σ,
  match read_fault path with
  | Some text => (σ, inl (EOs false text))
  | None =>
    match σ !! path with
    | Some (FFile data) => (σ, inr data)
    | Some FDir => (σ, inl (EOs false (path_error "read" path "is a directory")))
    | None => (σ, inl (EOs true (path_error "open" path "no such file or directory")))
    end
  end.

(** [os.WriteFile]: create or truncate, then write; the parent directory must
    exist. *)
Definition WriteFile (path data : string) : io unit := λ σ,
  match σ !! path, σ !! filepath_Dir path with
  | Some FDir, _ => (σ, inl (EOs false (path_error "open" path "is a directory")))
  | _, Some FDir =>
    match write_fault path with
    | Some (n, text) => (<[path := FFile (stake n data)]> σ, inl (EOs false text))
    | None => (<[path := FFile data]> σ, inr tt)
    end
  | _, _ => (σ, inl (EOs true (path_error "open" path "no such file or directory")))
  end.

(** [os.Stat], as far as [IsDir]. *)
Definition Stat (path : string) : io bool := λ σ,
  match read_fault path with
  | Some text => (σ, inl (EOs false text))
  | None =>
    match σ !! path with
    | Some FDir => (σ, inr true)
    | Some (FFile _) => (σ, inr false)
    | None => (σ, inl (EOs true (path_error "stat" path "no such file or directory")))
    end
  end.

(** [os.MkdirAll] of a path whose parents the model does not name. *)
Definition MkdirAll (path : string) : io unit := λ σ,
  match mkdir_fault path with
  | Some text => (σ, inl (EOs false text))
  | None =>
    match σ !! path with
    | Some (FFile _) => (σ, inl (EOs false (path_error "mkdir" path "not a directory")))
    | _ => (<[path := FDir]> σ, inr tt)
    end
  end.
(** [os.Mkdir]. *)
Definition Mkdir (path : string) : io unit := λ σ,
  match mkdir_fault path with
  | Some text => (σ, inl (EOs false text))
  | None =>
    match σ !! path, σ !! filepath_Dir path with
    | Some _, _ => (σ, inl (EOs false (path_error "mkdir" path "file exists")))
    | None, Some FDir => (<[path := FDir]> σ, inr tt)
    | None, _ => (σ, inl (EOs true (path_error "mkdir" path "no such file or directory")))
    end
  end.

(** [os.MkdirTemp]: the name it chooses, or its error. *)
Definition MkdirTemp (name : result string) : io string := λ σ,
  match name with
  | inl e => (σ, inl e)
  | inr d => (<[d := FDir]> σ, inr d)
  end.
End calls.

(** [os.RemoveAll] of a directory. *)
Definition under (d q : string) : bool := bool_decide (q = d) || HasPrefix q (d +:+ "/").
Definition RemoveAll (d : string) (σ : fsys) : fsys := filter (λ kv, under d kv.1 = false) σ.

(** [os.IsNotExist]. *)
Definition IsNotExist (e : err) : bool := match e with EOs b _ => b | _ => false end.

(** ** time.Now().UTC().Format(time.RFC3339)

    The reading is the number of seconds since 1970-01-01; the calendar date is
    computed from the day number. *)
Definition pad2 (z : Z) : string := (if (z <? 10)%Z then "0" else "") +:+ itoa z.
Definition pad4 (z : Z) : string :=
  (if (z <? 1000)%Z then "0" else "") +:+ (if (z <? 100)%Z then "0" else "") +:+ pad2 z.

Section calendar.
Local Open Scope Z_scope.

Definition civil (days : Z) : Z * Z * Z :=
  let z := days + 719468 in
  let era := z / 146097 in
  let doe := z mod 146097 in
  let yoe := (doe - doe / 1460 + doe / 36524 - doe / 146096) / 365 in
  let doy := doe - (365 * yoe + yoe / 4 - yoe / 100) in
  let mp := (5 * doy + 2) / 153 in
  let d := doy - (153 * mp + 2) / 5 + 1 in
  let m := if mp <? 10 then mp + 3 else mp - 9 in
  (yoe + era * 400 + (if m <=? 2 then 1 else 0), m, d).

Definition RFC3339 (unix : Z) : string :=
  let '(y, m, d) := civil (unix / 86400) in
  let s := unix mod 86400 in
  pad4 y +:+ "-" +:+ pad2 m +:+ "-" +:+ pad2 d +:+ "T" +:+
  pad2 (s / 3600) +:+ ":" +:+ pad2 (s / 60 mod 60) +:+ ":" +:+ pad2 (s mod 60) +:+ "Z".
End calendar.

Example RFC3339_epoch : RFC3339 0 = "1970-01-01T00:00:00Z".
Proof. reflexivity. Qed.

Example RFC3339_leap : RFC3339 1709210096 = "2024-02-29T12:34:56Z".
Proof. reflexivity. Qed.

(** ** Lemmas *)

Lemma io_bind_inr {A B} (m : io A) (f : A → io B) σ σ' b :
  (m ≫= f) σ = (σ', inr b) ↔ ∃ σ1 a, m σ = (σ1, inr a) ∧ f a σ1 = (σ', inr b).
Proof.
  unfold mbind, io_bind. destruct (m σ) as [σ1 [e|a]]; naive_solver.
Qed.

Lemma io_wrap_inr {A} p (m : io A) σ σ' a : io_wrap p m σ = (σ', inr a) ↔ m σ = (σ', inr a).
Proof. unfold io_wrap. destruct (m σ) as [σ1 [e|x]]; simpl; split; naive_solver. Qed.

Lemma ReadFile_file {O : Faults} path data σ :
  read_fault path = None → σ !! path = Some (FFile data) → ReadFile path σ = (σ, inr data).
Proof. unfold ReadFile. by intros -> ->. Qed.

Lemma WriteFile_inr {O : Faults} path data σ σ' :
  WriteFile path data σ = (σ', inr tt) → σ' = <[path := FFile data]> σ.
Proof. unfold WriteFile. intros H. by repeat (case_match; simplify_eq). Qed.

(** A write touches its own path only, whether it succeeds or not. *)
Lemma WriteFile_frame {O : Faults} path data σ p :
  p ≠ path → (WriteFile path data σ).1 !! p = σ !! p.
Proof.
  intros Hp. unfold WriteFile.
  repeat case_match; simpl; rewrite ?lookup_insert_ne by congruence; try done.
Qed.

Lemma RemoveAll_under d q σ : under d q → RemoveAll d σ !! q = None.
Proof.
  intros H. unfold RemoveAll. apply map_lookup_filter_None. right. intros x _. simpl. by rewrite (Is_true_true_1 _ H).
Qed.

Lemma RemoveAll_other d q σ : under d q = false → RemoveAll d σ !! q = σ !! q.
Proof.
  intros H. unfold RemoveAll. destruct (σ !! q) as [x|] eqn:Hq.
  - by apply map_lookup_filter_Some.
  - apply map_lookup_filter_None. by left.
Qed.

(** ** Joining a directory and a file name *)

Lemma Split1_no_sep w sep : contains_char w sep = false → Split1 w sep = [w].
Proof.
  induction w as [|c w IH]; simpl; [done|]. intros [Hc Hw]%orb_false_iff.
  rewrite Hc. by rewrite IH.
Qed.

Lemma Split1_app d w sep :
  contains_char w sep = false → Split1 (d +:+ String sep w) sep = Split1 d sep ++ [w].
Proof.
  intros Hw. induction d as [|c d IH].
  - rewrite sapp_nil_l. simpl. rewrite bool_decide_eq_true_2 by done. by rewrite Split1_no_sep.
  - rewrite sapp_cons. simpl. rewrite IH. destruct (bool_decide (c = sep)); [done|].
    destruct (Split1 d sep) as [|x l] eqn:E; [|done].
    exfalso. clear -E. destruct d as [|c d]; simpl in E; [done|].
    repeat case_match; done.
Qed.

(** A name that stands for itself in a path. *)
Definition plain_name (w : string) : Prop :=
  contains_char w slash = false ∧ w ≠ "" ∧ w ≠ "." ∧ w ≠ "..".

Lemma clean_step_plain rooted st w : plain_name w → clean_step rooted st w = w :: st.
Proof. intros (_ & H1 & H2 & H3). unfold clean_step. by rewrite !bool_decide_eq_false_2. Qed.

Lemma Join_snoc l w : Join (l ++ [w]) "/" = match l with [] => w | _ => Join l "/" +:+ "/" +:+ w end.
Proof.
  induction l as [|x l IH]; [done|]. change ((x :: l) ++ [w]) with (x :: (l ++ [w])).
  destruct l as [|y l]; [done|].
  change (x +:+ "/" +:+ Join ((y :: l) ++ [w]) "/" = (x +:+ "/" +:+ Join (y :: l) "/") +:+ "/" +:+ w).
  rewrite IH. by rewrite !sapp_assoc.
Qed.

(** The part of a joined path in front of the file name. *)
Definition dir_prefix (d : string) : string :=
  if bool_decide (d = "") then "" else
  let rooted := HasPrefix d "/" in
  let l := reverse (clean_stack rooted (Split1 d slash)) in
  (if rooted then "/" else "") +:+ (if bool_decide (l = []) then "" else Join l "/" +:+ "/").

Lemma filepath_Join_name d w : plain_name w → filepath_Join [d; w] = dir_prefix d +:+ w.
Proof.
  intros Hw. unfold filepath_Join, dir_prefix. pose proof Hw as (Hs & Hne & _).
  assert (∀ r l, reverse (clean_stack r (l ++ [w])) = reverse (clean_stack r l) ++ [w]) as Hstack.
  { intros r l. unfold clean_stack. rewrite foldl_app. simpl.
    by rewrite clean_step_plain, reverse_cons. }
  rewrite !filter_cons, filter_nil. destruct (decide (w ≠ "")) as [_|]; [|done].
  destruct (decide (d ≠ "")) as [Hd|Hd].
  - rewrite (bool_decide_eq_false_2 _ Hd). simpl Join. unfold Clean.
    rewrite bool_decide_eq_false_2 by (by destruct d).
    change (d +:+ "/" +:+ w) with (d +:+ String slash w).
    assert (HasPrefix (d +:+ String slash w) "/" = HasPrefix d "/") as ->.
    { destruct d; [done|]. rewrite sapp_cons. simpl. by rewrite !HasPrefix_nil. }
    rewrite Split1_app, Hstack by done.
    set (l := reverse _). clearbody l.
    rewrite (bool_decide_eq_false_2 (l ++ [w] = [])) by (by destruct l).
    rewrite Join_snoc.
    destruct (HasPrefix d "/"), l; simpl; rewrite ?sapp_nil_l, ?sapp_assoc; done.
  - assert (d = "") as -> by (by destruct (decide (d = ""))).
    simpl Join. unfold Clean. rewrite bool_decide_eq_false_2 by done.
    assert (HasPrefix w "/" = false) as Hp.
    { destruct w as [|c w]; [done|]. simpl in *. apply orb_false_iff in Hs as [Hc _].
      rewrite bool_decide_eq_false_2; [done|]. intros <-. by rewrite bool_decide_eq_true_2 in Hc. }
    rewrite Hp, Split1_no_sep by done. unfold clean_stack. simpl. rewrite clean_step_plain by done.
    rewrite reverse_singleton. by rewrite bool_decide_eq_false_2.
Qed.

Lemma filepath_Join_inj d w1 w2 :
  plain_name w1 → plain_name w2 → filepath_Join [d; w1] = filepath_Join [d; w2] → w1 = w2.
Proof. intros H1 H2. rewrite !filepath_Join_name by done. apply sapp_inv_head. Qed.

(** ** The clock's text is ASCII *)

Definition ascii_char (c : ascii) : bool := (byte_val c <? 0x80)%N.

Lemma ascii_valid s : sall ascii_char s → utf8_valid s.
Proof.
  induction s as [|c s IH]; [done|]. cbn [sall]. intros [Hc Hs]%andb_True.
  unfold utf8_valid, ascii_char in *. simpl chunks. rewrite (Is_true_true_1 _ Hc). simpl. auto.
Qed.

Lemma itoa_ascii z : sall ascii_char (itoa z).
Proof.
  pose proof (itoa_chars z) as H. induction (itoa z) as [|c s IH]; simpl in *; [done|].
  apply andb_True in H as [Hc Hs]. apply andb_True. split; [|auto].
  clear -Hc. revert Hc. byte_cases; done.
Qed.

Lemma pad2_ascii z : sall ascii_char (pad2 z).
Proof. unfold pad2. rewrite sall_app. apply andb_True. split; [by case_match|apply itoa_ascii]. Qed.

Lemma RFC3339_valid z : utf8_valid (RFC3339 z).
Proof.
  apply ascii_valid. unfold RFC3339, pad4. destruct (civil _) as [[y m] d].
  rewrite !sall_app, !andb_True.
  repeat match goal with |- _ ∧ _ => split end; try apply pad2_ascii; repeat case_match; done.
Qed.
