(* ===== verification/Paths.v ===== *)
(** Package path/filepath on Unix, continued: the last element of a path, and what
    [Dir] and [Base] make of a joined path. *)

From S2P Require Import Prelude GoStrings Os.

(** ** path/filepath *)

Fixpoint drop_slashes (s : string) : string :=
  match s with String c s' => if bool_decide (c = slash) then drop_slashes s' else s | EmptyString => s end.

(** [filepath.Base]. *)
Definition filepath_Base (path : string) : string :=
  if bool_decide (path = "") then "." else
  let p := String.rev (drop_slashes (String.rev path)) in
  let b := match CutLast1 p slash with Some (_, b) => b | None => p end in
  if bool_decide (b = "") then "/" else b.

(** ** Paths *)

(** The stacks [Clean] builds: names, and above a relative path's start parent
    references at the bottom. *)
Inductive normal (rooted : bool) : list string → Prop :=
| normal_nil : normal rooted []
| normal_name w st : plain_name w → normal rooted st → normal rooted (w :: st)
| normal_up st : rooted = false → Forall (λ e, e = "..") st → normal rooted st → normal rooted (".." :: st).

Lemma normal_step rooted st e :
  contains_char e slash = false → normal rooted st → normal rooted (clean_step rooted st e).
Proof.
  intros He H. unfold clean_step. destruct (bool_decide (e = "") || bool_decide (e = ".")) eqn:E1; [done|].
  apply orb_false_iff in E1 as [H1%bool_decide_eq_false_1 H2%bool_decide_eq_false_1].
  case_bool_decide as H3; [|by constructor; [split_and!|]]. subst.
  destruct H as [|w st (Hs & Hw & Hw1 & Hw2) H|st Hr Hall H].
  - destruct rooted; constructor; [done..|constructor].
  - by rewrite bool_decide_eq_false_2.
  - rewrite bool_decide_eq_true_2 by done. constructor; [done| |by constructor]. by constructor.
Qed.

Lemma Split1_slash_free s : Forall (λ e, contains_char e slash = false) (Split1 s slash).
Proof.
  induction s as [|c s IH]; simpl; [by repeat constructor|]. case_bool_decide as Hc.
  - by constructor.
  - destruct IH as [|x l Hx Hl]; constructor; simpl; try done; by rewrite ?bool_decide_eq_false_2.
Qed.

Lemma normal_stack rooted l st :
  Forall (λ e, contains_char e slash = false) l → normal rooted st → normal rooted (foldl (clean_step rooted) st l).
Proof. intros Hl. revert st. induction Hl as [|e l He _ IH]; intros st H; simpl; [done|]. by apply IH, normal_step. Qed.

(** A normal stack is rebuilt from its elements. *)
Lemma normal_rebuild rooted st : normal rooted st → clean_stack rooted (reverse st) = st.
Proof.
  unfold clean_stack. induction 1 as [|w st Hw H IH|st Hr Hall H IH]; [done|..];
    rewrite reverse_cons, foldl_app, IH; simpl.
  - by rewrite clean_step_plain.
  - subst. unfold clean_step. simpl. destruct Hall as [|e st -> _]; done.
Qed.

Lemma normal_slash_free rooted st : normal rooted st → Forall (λ e, contains_char e slash = false ∧ e ≠ "") st.
Proof. induction 1 as [|w st (?&?&_) _ IH|st _ _ _ IH]; constructor; auto. Qed.

Lemma Split1_word x s sep : contains_char x sep = false → Split1 (x +:+ String sep s) sep = x :: Split1 s sep.
Proof.
  induction x as [|c x IH]; [rewrite sapp_nil_l; cbn [Split1]; by rewrite bool_decide_eq_true_2|]. cbn [contains_char]. intros [Hc Hx]%orb_false_iff.
  rewrite sapp_cons. cbn [Split1]. by rewrite Hc, IH.
Qed.

Lemma Split1_Join l :
  l ≠ [] → Forall (λ e, contains_char e slash = false ∧ e ≠ "") l → Split1 (Join l "/") slash = l.
Proof.
  intros Hne H. induction H as [|x l [Hx _] Hl IH]; [done|]. destruct l as [|y l]; [by apply Split1_no_sep|].
  change (Join (x :: y :: l) "/") with (x +:+ String slash (Join (y :: l) "/")).
  rewrite Split1_word by done. by rewrite IH.
Qed.

Lemma Join_head l : l ≠ [] → Forall (λ e, contains_char e slash = false ∧ e ≠ "") l →
  ∃ c s, Join l "/" = String c s ∧ c ≠ slash.
Proof.
  intros Hne H. destruct H as [|x l [Hx Hx'] Hl]; [done|].
  destruct x as [|c x]; [done|]. simpl in Hx. apply orb_false_iff in Hx as [Hc%bool_decide_eq_false_1 _].
  destruct l; [by exists c, x|]. eexists c, _. split; [|done]. reflexivity.
Qed.

Lemma filepath_Dir_cut x w : contains_char w slash = false → filepath_Dir (x +:+ String slash w) = Clean (x +:+ "/").
Proof.
  intros Hw. unfold filepath_Dir.
  assert (CutLast1 (x +:+ String slash w) slash = Some (x, w)) as -> by (by apply CutLast1_spec). done.
Qed.

Lemma drop_slashes_name w t :
  contains_char w slash = false → w ≠ "" → drop_slashes (String.rev w +:+ t) = String.rev w +:+ t.
Proof.
  intros Hs Hne. rewrite <-contains_char_rev in Hs.
  destruct (String.rev w) as [|c u] eqn:E; [apply (f_equal String.rev) in E; by rewrite rev_rev in E|].
  rewrite sapp_cons. simpl in *. apply orb_false_iff in Hs as [Hc _]. by rewrite Hc.
Qed.

Lemma CutLast1_none w sep : contains_char w sep = false → CutLast1 w sep = None.
Proof.
  intros Hw. destruct (CutLast1 w sep) as [[a b]|] eqn:E; [|done]. apply CutLast1_spec in E as [-> _].
  rewrite contains_char_app in Hw. apply orb_false_iff in Hw as [_ Hw]. cbn [contains_char] in Hw.
  by rewrite bool_decide_eq_true_2 in Hw.
Qed.

Lemma filepath_Base_cut x w : plain_name w → filepath_Base (x +:+ String slash w) = w.
Proof.
  intros (Hs & Hne & _). unfold filepath_Base. rewrite bool_decide_eq_false_2 by (by destruct x).
  rewrite rev_sapp, rev_cons, sapp_assoc, drop_slashes_name by done.
  rewrite <-sapp_assoc, <-rev_cons, <-rev_sapp, rev_rev.
  assert (CutLast1 (x +:+ String slash w) slash = Some (x, w)) as -> by (by apply CutLast1_spec).
  by rewrite bool_decide_eq_false_2.
Qed.

Lemma filepath_Base_plain w : plain_name w → filepath_Base w = w.
Proof.
  intros (Hs & Hne & _). unfold filepath_Base. rewrite !bool_decide_eq_false_2 by done.
  rewrite <-(sapp_nil_r (String.rev w)), drop_slashes_name, sapp_nil_r, rev_rev by done.
  rewrite CutLast1_none by done. by rewrite bool_decide_eq_false_2.
Qed.

Lemma Clean_rooted_slash l :
  normal true (reverse l) → Clean (("/" +:+ Join l "/") +:+ "/") = "/" +:+ Join l "/".
Proof.
  intros Hn. pose proof (normal_rebuild _ _ Hn) as Hre. rewrite reverse_involutive in Hre.
  pose proof (normal_slash_free _ _ Hn) as Hl. apply Forall_reverse in Hl. rewrite reverse_involutive in Hl.
  unfold Clean. rewrite bool_decide_eq_false_2 by done.
  change (("/" +:+ Join l "/") +:+ "/") with (String slash (Join l "/") +:+ String slash "").
  rewrite Split1_app by done. rewrite sapp_cons. cbn [HasPrefix].
  rewrite HasPrefix_nil, bool_decide_eq_true_2 by done. cbn [andb].
  assert (clean_stack true (Split1 (String slash (Join l "/")) slash ++ [""]) = reverse l) as ->;
    [|by rewrite reverse_involutive].
  unfold clean_stack. rewrite foldl_app. cbn [foldl Split1]. rewrite bool_decide_eq_true_2 by done. cbn [foldl].
  destruct (decide (l = [])) as [->|Hne]; [done|]. rewrite Split1_Join by done.
  change (clean_step true [] "") with (@nil string). fold (clean_stack true l). by rewrite Hre.
Qed.

Lemma Clean_relative_slash l :
  l ≠ [] → normal false (reverse l) → Clean (Join l "/" +:+ "/") = Join l "/".
Proof.
  intros Hne Hn. pose proof (normal_rebuild _ _ Hn) as Hre. rewrite reverse_involutive in Hre.
  pose proof (normal_slash_free _ _ Hn) as Hl. apply Forall_reverse in Hl. rewrite reverse_involutive in Hl.
  destruct (Join_head l Hne Hl) as (c & s & Hj & Hc).
  unfold Clean. rewrite bool_decide_eq_false_2 by (by rewrite Hj).
  change (Join l "/" +:+ "/") with (Join l "/" +:+ String slash "").
  rewrite Split1_app, Split1_Join by done.
  assert (HasPrefix (Join l "/" +:+ String slash "") "/" = false) as ->.
  { rewrite Hj, sapp_cons. cbn [HasPrefix]. by rewrite bool_decide_eq_false_2. }
  assert (clean_stack false (l ++ [""]) = reverse l) as ->.
  { unfold clean_stack. rewrite foldl_app. fold (clean_stack false l). by rewrite Hre. }
  rewrite reverse_involutive. by rewrite bool_decide_eq_false_2.
Qed.

(** The directory and the last element of a joined path. *)
Lemma filepath_Dir_Join d w : d ≠ "" → plain_name w → filepath_Dir (filepath_Join [d; w]) = Clean d.
Proof.
  intros Hd Hw. rewrite filepath_Join_name by done. unfold dir_prefix, Clean. rewrite !(bool_decide_eq_false_2 _ Hd).
  set (rooted := HasPrefix d "/").
  assert (normal rooted (clean_stack rooted (Split1 d slash))) as Hn.
  { apply normal_stack; [apply Split1_slash_free|constructor]. }
  revert Hn. generalize (clean_stack rooted (Split1 d slash)) as st. clearbody rooted. clear d Hd. intros st Hn.
  rewrite <-(reverse_involutive st) in Hn. revert Hn. generalize (reverse st) as l. clear st. intros l Hn.
  destruct Hw as (Hs & _). destruct rooted.
  - rewrite <-(Clean_rooted_slash l Hn). case_bool_decide as Hl.
    + subst. transitivity (Clean ("" +:+ "/")); [exact (filepath_Dir_cut "" w Hs)|reflexivity].
    + rewrite <-(filepath_Dir_cut _ w Hs). by rewrite !sapp_assoc.
  - rewrite sapp_nil_l. case_bool_decide as Hl.
    + subst. rewrite sapp_nil_l. unfold filepath_Dir. by rewrite CutLast1_none.
    + etrans; [|exact (Clean_relative_slash l Hl Hn)]. rewrite <-(filepath_Dir_cut _ w Hs).
      by rewrite sapp_assoc.
Qed.

Lemma filepath_Base_Join d w : plain_name w → filepath_Base (filepath_Join [d; w]) = w.
Proof.
  intros Hw. rewrite filepath_Join_name by done. unfold dir_prefix. destruct (bool_decide (d = "")).
  { by rewrite sapp_nil_l, filepath_Base_plain. }
  destruct (bool_decide (reverse _ = [])); destruct (HasPrefix d "/"); rewrite ?sapp_nil_l, ?sapp_nil_r, ?sapp_assoc.
  - by apply (filepath_Base_cut "" w).
  - by apply filepath_Base_plain.
  - rewrite <-sapp_assoc. by apply (filepath_Base_cut ("/" +:+ Join _ "/") w).
  - by apply (filepath_Base_cut (Join _ "/") w).
Qed.

Lemma Clean_idempotent d : Clean (Clean d) = Clean d.
Proof.
  destruct (decide (d = "")) as [->|Hd]; [done|]. unfold Clean at 2 3. rewrite (bool_decide_eq_false_2 _ Hd).
  set (rooted := HasPrefix d "/").
  assert (normal rooted (clean_stack rooted (Split1 d slash))) as Hn.
  { apply normal_stack; [apply Split1_slash_free|constructor]. }
  revert Hn. generalize (clean_stack rooted (Split1 d slash)) as st. clearbody rooted. clear d Hd. intros st Hn.
  pose proof (normal_rebuild _ _ Hn) as Hre. pose proof (normal_slash_free _ _ Hn) as Hl.
  apply Forall_reverse in Hl. revert Hre Hl. rewrite <-(reverse_involutive st) at 2.
  generalize (reverse st) as l. clear st Hn. intros l Hre Hl. destruct rooted.
  - destruct (decide (l = [])) as [->|Hne]; [done|]. unfold Clean. rewrite bool_decide_eq_false_2 by done.
    change ("/" +:+ Join l "/") with (String slash (Join l "/")). cbn [HasPrefix Split1].
    rewrite HasPrefix_nil, bool_decide_eq_true_2 by done. cbn [andb]. rewrite Split1_Join by done.
    rewrite bool_decide_eq_true_2 by done. change (clean_stack true ("" :: l)) with (clean_stack true l).
    rewrite Hre. by rewrite reverse_involutive.
  - case_bool_decide as Hne; [done|]. destruct (Join_head l Hne Hl) as (c & s & Hj & Hc). unfold Clean.
    rewrite bool_decide_eq_false_2 by (by rewrite Hj). rewrite Split1_Join by done.
    assert (HasPrefix (Join l "/") "/" = false) as ->.
    { rewrite Hj. cbn [HasPrefix]. by rewrite bool_decide_eq_false_2. }
    rewrite Hre, reverse_involutive. by rewrite bool_decide_eq_false_2.
Qed.
