(* ===== verification/Cassette.v ===== *)
(** go/cassette.go: the unary cassette, two YAML files per interaction. *)

From S2P Require Import Prelude GoStrings Values Yaml Redact Os.

(** ** Data *)

(** The [envelope] struct; [Error] has [omitempty]. *)
Record envelope := {
  e_xrr : string;
  e_adapter : string;
  e_fingerprint : string;
  e_recorded_at : string;
  e_error : string;
  e_payload : any;
}.

Definition envelope_fields (e : envelope) : list (string * any) :=
  [("xrr", VString (e_xrr e)); ("adapter", VString (e_adapter e));
   ("fingerprint", VString (e_fingerprint e)); ("recorded_at", VString (e_recorded_at e))] ++
  (if bool_decide (e_error e = "") then [] else [("error", VString (e_error e))]) ++
  [("payload", e_payload e)].

Record FileCassette := { cdir : string; redactor : option Redactor }.

Definition NewFileCassette (d : string) : FileCassette := {| cdir := d; redactor := None |}.
Definition NewFileCassetteWithRedactor (d : string) (r : Redactor) : FileCassette :=
  {| cdir := d; redactor := Some r |}.

(** The file name of one half of a pair, and its path. *)
Definition file_name (adapterID fingerprint kind : string) : string :=
  adapterID +:+ "-" +:+ fingerprint +:+ "." +:+ kind +:+ ".yaml".

Definition file_path (c : FileCassette) (adapterID fingerprint kind : string) : string :=
  filepath_Join [cdir c; file_name adapterID fingerprint kind].

Definition normalizePayload (v : any) : any := match v with VNil => VMap [] | _ => v end.

Section cassette.
Context {U : Unicode} {Y : YamlLib} {O : Faults}.
(** [os.Getenv] at the time of the write. *)
Variable env : string → string.

Definition activeRedactor (c : FileCassette) : Redactor :=
  match redactor c with
  | Some r => r
  | None => NewRedactor (RedactConfigFromEnv env)
  end.

(** ** Writing *)

Definition write (c : FileCassette) (adapterID fingerprint kind recordedAt recordedErr : string)
    (payload : any) : io unit :=
  let e := {| e_xrr := "1"; e_adapter := adapterID; e_fingerprint := fingerprint;
              e_recorded_at := recordedAt; e_error := recordedErr; e_payload := payload |} in
  node ← lift (wrap_err ("xrr: encode " +:+ kind +:+ ": ") (yEncode (VStruct (envelope_fields e))));
  let node := redactNode node (activeRedactor c) "" in
  data ← lift (wrap_err ("xrr: marshal " +:+ kind +:+ ": ") (yMarshalNode node));
  WriteFile (file_path c adapterID fingerprint kind) data.

(** [now] is the reading of the clock. *)
Definition Save (c : FileCassette) (now : Z) (adapterID fingerprint : string) (req resp : any)
    (recordedErr : option err) : io unit :=
  let at_ := RFC3339 now in
  write c adapterID fingerprint "req" at_ "" (normalizePayload req);;
  let respErr := match recordedErr with Some e => error_text e | None => "" end in
  write c adapterID fingerprint "resp" at_ respErr (normalizePayload resp).

(** ** Reading *)

(** [decode] is [payload.Decode(target)] at the target's type. *)
Definition read_into {T} (decode : ynode → result T) (c : FileCassette)
    (adapterID fingerprint kind : string) : io (string * T) := λ σ,
  match ReadFile (file_path c adapterID fingerprint kind) σ with
  | (σ, inl e) =>
    (σ, inl (if IsNotExist e then ErrCassetteMiss else EWrap ("xrr: read " +:+ kind +:+ ": ") e))
  | (σ, inr data) =>
    (σ, raw ← wrap_err ("xrr: unmarshal envelope " +:+ kind +:+ ": ") (yUnmarshalMap data);
        match raw !! "stream" with
        | Some _ =>
          inl (EWrap ("xrr: streamed cassette in unary code path (" +:+ kind +:+ "): ")
                 ErrShapeMismatch)
        | None =>
          match raw !! "payload" with
          | None => inl (ENew ("xrr: missing payload in " +:+ kind))
          | Some payloadNode =>
            target ← wrap_err ("xrr: decode payload " +:+ kind +:+ ": ") (decode payloadNode);
            let recordedErr :=
              match raw !! "error" with
              | Some errNode => match yDecodeString errNode with inr s => s | inl _ => "" end
              | None => ""
              end in
            mret (recordedErr, target)
          end
        end)
  end.

(** The recorded error and the two payloads, decoded into the targets. *)
Definition Load_into {TQ TP} (decode_req : ynode → result TQ) (decode_resp : ynode → result TP)
    (c : FileCassette) (adapterID fingerprint : string) : io (string * TQ * TP) :=
  q ← read_into decode_req c adapterID fingerprint "req";
  p ← read_into decode_resp c adapterID fingerprint "resp";
  mret (p.1, q.2, p.2).

(** Both targets of type [map[string]any], as the session loads a pair. *)
Definition read : FileCassette → string → string → string → io (string * option (gmap string any)) :=
  read_into yDecodeMap.
Definition Load : FileCassette → string → string →
    io (string * option (gmap string any) * option (gmap string any)) := Load_into yDecodeMap yDecodeMap.

(** *** A load changes nothing, and a pair is what its two files are *)

Lemma read_into_frame {T} (d : ynode → result T) c aid fp kind σ : (read_into d c aid fp kind σ).1 = σ.
Proof. unfold read_into, ReadFile. split_match. Qed.

Lemma Load_into_frame {TQ TP} (dq : ynode → result TQ) (dp : ynode → result TP) c aid fp σ :
  (Load_into dq dp c aid fp σ).1 = σ.
Proof.
  unfold Load_into, mbind, io_bind. pose proof (read_into_frame dq c aid fp "req" σ) as H1.
  destruct (read_into dq c aid fp "req" σ) as [σ1 [|q]]; simpl in *; [done|]. subst.
  pose proof (read_into_frame dp c aid fp "resp" σ) as H2.
  by destruct (read_into dp c aid fp "resp" σ) as [σ2 [|r]].
Qed.

Lemma read_into_ext {T} (d : ynode → result T) c aid fp kind σ σ' :
  σ !! file_path c aid fp kind = σ' !! file_path c aid fp kind →
  (read_into d c aid fp kind σ).2 = (read_into d c aid fp kind σ').2.
Proof. intros H. unfold read_into, ReadFile. rewrite H. split_match. Qed.

Lemma Load_into_ext {TQ TP} (dq : ynode → result TQ) (dp : ynode → result TP) c aid fp σ σ' :
  (∀ kind, kind = "req" ∨ kind = "resp" → σ !! file_path c aid fp kind = σ' !! file_path c aid fp kind) →
  (Load_into dq dp c aid fp σ).2 = (Load_into dq dp c aid fp σ').2.
Proof.
  intros H. unfold Load_into, mbind, io_bind.
  pose proof (read_into_ext dq c aid fp "req" σ σ' (H _ (or_introl eq_refl))) as H1.
  pose proof (read_into_ext dp c aid fp "resp" σ σ' (H _ (or_intror eq_refl))) as H2.
  pose proof (read_into_frame dq c aid fp "req" σ) as F1. pose proof (read_into_frame dq c aid fp "req" σ') as F2.
  destruct (read_into dq c aid fp "req" σ) as [σ1 r1], (read_into dq c aid fp "req" σ') as [σ1' r1'].
  simpl in *. subst. destruct r1' as [|q]; [done|].
  destruct (read_into dp c aid fp "resp" σ) as [σ2 r2], (read_into dp c aid fp "resp" σ') as [σ2' r2'].
  simpl in *. subst. by destruct r2'.
Qed.

(** ** Writing, step by step *)

(** The tree that reaches the disk, before and after redaction. *)
Definition encoded (adapterID fingerprint at_ e : string) (payload : any) : result ynode :=
  yEncode (VStruct (envelope_fields
    {| e_xrr := "1"; e_adapter := adapterID; e_fingerprint := fingerprint;
       e_recorded_at := at_; e_error := e; e_payload := payload |})).

Lemma write_inr c aid fp kind at_ e payload σ σ' :
  write c aid fp kind at_ e payload σ = (σ', inr tt) →
  ∃ n data, encoded aid fp at_ e payload = inr n ∧
    yMarshalNode (redactNode n (activeRedactor c) "") = inr data ∧
    WriteFile (file_path c aid fp kind) data σ = (σ', inr tt) ∧
    σ' = <[file_path c aid fp kind := FFile data]> σ.
Proof.
  unfold write. intros (σ1 & n & Hn & H)%io_bind_inr. injection Hn as -> Hn.
  apply wrap_err_inr in Hn.
  apply io_bind_inr in H as (σ2 & data & Hd & Hw). injection Hd as -> Hd.
  apply wrap_err_inr in Hd. exists n, data. split_and!; [done..|].
  by apply WriteFile_inr in Hw.
Qed.

Lemma write_frame c aid fp kind at_ e payload σ p :
  p ≠ file_path c aid fp kind → (write c aid fp kind at_ e payload σ).1 !! p = σ !! p.
Proof.
  intros Hp. unfold write, mbind, io_bind, lift.
  destruct (wrap_err _ _) as [?|n]; simpl; [done|].
  destruct (wrap_err _ _) as [?|data]; simpl; [done|]. by apply WriteFile_frame.
Qed.

(** Writing shows the disk the public view of the payload only. *)
Lemma write_public {L : YamlLaws} c aid fp kind at_ e p1 p2 n1 n2 σ :
  encoded aid fp at_ e p1 = inr n1 → encoded aid fp at_ e p2 = inr n2 →
  public_view (activeRedactor c) "" n1 = public_view (activeRedactor c) "" n2 →
  write c aid fp kind at_ e p1 σ = write c aid fp kind at_ e p2 σ.
Proof.
  intros H1 H2 Hv. unfold write. unfold encoded in *. rewrite H1, H2.
  unfold mbind, io_bind, lift. simpl. by rewrite !redactNode_render, Hv.
Qed.

(** Text of an envelope field that survives YAML. *)
Lemma redact_top_value {L : YamlLaws} r fs n :
  yEncode (VStruct fs) = inr n →
  ∃ d t v c, redactNode n r "" = YNode YMapping d t v c ∧ yClean (YNode YMapping d t v c) ∧
    prod_map y_value id <$> y_pairs c =
      (λ f, (f.1, match yEncode f.2 with
                  | inr x => redact_value r "" f.1 x
                  | inl _ => YNode YScalar false "" "" [] end)) <$> fs.
Proof.
  intros Hn. pose proof (redactNode_clean r n "" (clean_encode _ _ Hn)) as Hclean.
  destruct (encode_struct _ _ Hn) as (d & t & v & c & -> & Hc).
  rewrite redactNode_mapping in Hclean |- *. do 4 eexists. split_and!; [done..|].
  rewrite y_pairs_map_values, <-list_fmap_compose. clear Hn Hclean.
  induction Hc as [|f p fs ps [Hk He] _ IH]; [done|]. csimpl. rewrite IH, He.
  unfold prod_map. simpl. by rewrite Hk.
Qed.

Lemma envelope_names_NoDup e : NoDup (envelope_fields e).*1.
Proof.
  unfold envelope_fields. case_bool_decide; simpl;
    repeat (apply NoDup_cons; split; [set_solver by done|]); apply NoDup_nil_2.
Qed.

(** The envelope that reading back a written file gives: no [stream] field, the
    redacted payload, and the error when there is one. *)
Lemma written_envelope_error {L : YamlLaws} r aid fp at_ e payload n data np :
  encoded aid fp at_ e payload = inr n → yMarshalNode (redactNode n r "") = inr data →
  yEncode payload = inr np →
  ∃ raw, yUnmarshalMap data = inr raw ∧ raw !! "stream" = None ∧
    raw !! "payload" = Some (redactNode np r "payload") ∧
    (utf8_valid e →
     match raw !! "error" with
     | Some n => match yDecodeString n with inr s => s | inl _ => "" end
     | None => ""
     end = e).
Proof.
  intros Hn Hd Hp.
  assert (e ≠ "" → utf8_valid e → ∃ dq, yEncode (VString e) = inr (str_node dq e)) as Hstr.
  { intros Hz He. destruct (encode_struct _ _ Hn) as (d & t & v & cs & _ & Hc).
    unfold envelope_fields in Hc. simpl in Hc. rewrite bool_decide_eq_false_2 in Hc by done.
    do 4 (inversion Hc as [|???? _ Hc']; clear Hc; rename Hc' into Hc; subst).
    inversion Hc as [|?? ?? [_ Hs] _]; subst. simpl in Hs.
    destruct (encode_string _ _ He Hs) as [dq Heq]. rewrite Heq in Hs. by exists dq. }
  destruct (redact_top_value r _ _ Hn) as (d & t & v & cs & Hred & Hclean & Hpairs).
  rewrite Hred in Hd.
  assert (y_keys cs = (envelope_fields {| e_xrr := "1"; e_adapter := aid; e_fingerprint := fp;
    e_recorded_at := at_; e_error := e; e_payload := payload |}).*1) as Hkeys.
  { unfold y_keys. transitivity ((prod_map y_value id <$> y_pairs cs).*1).
    - rewrite <-list_fmap_compose. by apply list_fmap_ext.
    - rewrite Hpairs, <-list_fmap_compose. by apply list_fmap_ext. }
  assert (NoDup (y_keys cs)) as Hnd by (rewrite Hkeys; apply envelope_names_NoDup).
  destruct (unmarshal_marshal_node _ _ _ _ _ Hclean Hnd Hd) as (m & Hm & Hlook).
  exists m. split; [done|]. rewrite Hpairs in Hlook. unfold envelope_fields in Hlook.
  simpl in Hlook.
  rewrite (Hlook "stream"), (Hlook "payload"), (Hlook "error"). clear Hlook.
  case_bool_decide as Hz; csimpl; rewrite Hp; simplify_map_eq; [done|].
  split_and!; [done..|]. intros He.
  destruct (Hstr Hz He) as [dq ->]. unfold redact_value. simpl. by rewrite decode_string.
Qed.

Lemma written_envelope {L : YamlLaws} r aid fp at_ e payload n data np :
  encoded aid fp at_ e payload = inr n → yMarshalNode (redactNode n r "") = inr data →
  yEncode payload = inr np →
  ∃ raw, yUnmarshalMap data = inr raw ∧ raw !! "stream" = None ∧
    raw !! "payload" = Some (redactNode np r "payload").
Proof.
  intros Hn Hd Hp.
  destruct (written_envelope_error _ _ _ _ _ _ _ _ _ Hn Hd Hp) as (raw & ? & ? & ? & _). eauto.
Qed.

(** The payload of an envelope that encodes, encodes. *)
Lemma encoded_payload {L : YamlLaws} aid fp at_ e payload n :
  encoded aid fp at_ e payload = inr n → ∃ np, yEncode payload = inr np.
Proof.
  intros (d & t & v & cs & _ & Hc)%encode_struct.
  assert (("payload", payload) ∈ envelope_fields {| e_xrr := "1"; e_adapter := aid;
    e_fingerprint := fp; e_recorded_at := at_; e_error := e; e_payload := payload |}) as Hin.
  { unfold envelope_fields. rewrite !elem_of_app. right. right. by left. }
  apply list_elem_of_lookup in Hin as [i Hi].
  destruct (Forall2_lookup_l _ _ _ _ _ Hc Hi) as (p & _ & _ & Hp). eauto.
Qed.

(** What [read] makes of a file that [write] produced, under any redactor. *)
Lemma read_written {L : YamlLaws} {T} (decode : ynode → result T) c r aid fp kind at_ e payload n data σ :
  utf8_valid e →
  encoded aid fp at_ e payload = inr n → yMarshalNode (redactNode n r "") = inr data →
  σ !! file_path c aid fp kind = Some (FFile data) → read_fault (file_path c aid fp kind) = None →
  ∃ np, yEncode payload = inr np ∧
    read_into decode c aid fp kind σ =
    (σ, target ← wrap_err ("xrr: decode payload " +:+ kind +:+ ": ")
                   (decode (redactNode np r "payload"));
        mret (e, target)).
Proof.
  intros He Hn Hd Hf Hr. destruct (encoded_payload _ _ _ _ _ _ Hn) as [np Hp].
  exists np. split; [done|].
  destruct (written_envelope_error _ _ _ _ _ _ _ _ _ Hn Hd Hp) as (raw & Hraw & Hs & Hpl & Herr).
  unfold read_into. rewrite (ReadFile_file _ data) by done. f_equal.
  rewrite Hraw. cbn [wrap_err mbind result_bind]. by rewrite Hs, Hpl, (Herr He).
Qed.

(** File names of a pair. *)
Lemma file_name_plain aid fp kind :
  contains_char aid slash = false → contains_char fp slash = false →
  kind = "req" ∨ kind = "resp" → plain_name (file_name aid fp kind).
Proof.
  intros Ha Hf Hk. unfold file_name.
  assert (6 ≤ slen (aid +:+ "-" +:+ fp +:+ "." +:+ kind +:+ ".yaml")) as Hlen.
  { rewrite !slen_app. simpl. lia. }
  split_and!.
  - rewrite !contains_char_app, Ha, Hf. by destruct Hk as [-> | ->].
  - intros H. rewrite H in Hlen. simpl in Hlen. lia.
  - intros H. rewrite H in Hlen. simpl in Hlen. lia.
  - intros H. rewrite H in Hlen. simpl in Hlen. lia.
Qed.

Lemma req_resp_paths c aid fp :
  contains_char aid slash = false → contains_char fp slash = false →
  file_path c aid fp "req" ≠ file_path c aid fp "resp".
Proof.
  intros Ha Hf H%filepath_Join_inj; [|apply file_name_plain; auto..].
  unfold file_name in H. by apply sapp_inv_head, sapp_inv_head, sapp_inv_head, sapp_inv_head in H.
Qed.

(** The identities a cassette directory can hold side by side: names without a
    slash. *)
Definition fileable (aid fp : string) : Prop :=
  contains_char aid slash = false ∧ contains_char fp slash = false.

Definition recorded_text (e : option err) : string :=
  match e with Some e => error_text e | None => "" end.

(** A successful save, write by write. *)
Lemma Save_inr c now aid fp req resp e σ σ' :
  Save c now aid fp req resp e σ = (σ', inr tt) →
  ∃ n1 d1 n2 d2,
    encoded aid fp (RFC3339 now) "" (normalizePayload req) = inr n1 ∧
    yMarshalNode (redactNode n1 (activeRedactor c) "") = inr d1 ∧
    encoded aid fp (RFC3339 now) (recorded_text e) (normalizePayload resp) = inr n2 ∧
    yMarshalNode (redactNode n2 (activeRedactor c) "") = inr d2 ∧
    σ' = <[file_path c aid fp "resp" := FFile d2]> (<[file_path c aid fp "req" := FFile d1]> σ).
Proof.
  unfold Save. intros (σ1 & [] & H1 & H2)%io_bind_inr.
  apply write_inr in H1 as (n1 & d1 & ? & ? & _ & ->).
  apply write_inr in H2 as (n2 & d2 & ? & ? & _ & ->).
  exists n1, d1, n2, d2. done.
Qed.
End cassette.

(** ** Properties *)

Section properties.
Context {U : Unicode} {Y : YamlLib} {O : Faults} (env : string → string).

(** After a save that succeeded, the load returns the text of the recorded error
    and what decoding makes of the redacted encodings of the two payloads, and
    changes no file. *)
Lemma Load_into_after_Save {L : YamlLaws} {TQ TP} (decode_req : ynode → result TQ)
    (decode_resp : ynode → result TP) c now aid fp req resp e σ σ' :
  fileable aid fp → utf8_valid (recorded_text e) →
  read_fault (file_path c aid fp "req") = None → read_fault (file_path c aid fp "resp") = None →
  Save env c now aid fp req resp e σ = (σ', inr tt) →
  ∃ nq np, yEncode (normalizePayload req) = inr nq ∧ yEncode (normalizePayload resp) = inr np ∧
    Load_into decode_req decode_resp c aid fp σ' =
    (σ', q ← wrap_err "xrr: decode payload req: "
               (decode_req (redactNode nq (activeRedactor env c) "payload"));
         p ← wrap_err "xrr: decode payload resp: "
               (decode_resp (redactNode np (activeRedactor env c) "payload"));
         mret (recorded_text e, q, p)).
Proof.
  intros [Ha Hf] He Hr1 Hr2 Hs.
  apply Save_inr in Hs as (n1 & d1 & n2 & d2 & Hn1 & Hd1 & Hn2 & Hd2 & ->).
  pose proof (req_resp_paths c aid fp Ha Hf) as Hne.
  set (σ' := <[_ := _]> (<[_ := _]> σ)).
  destruct (read_written decode_req c _ aid fp "req" _ "" _ n1 d1 σ' I Hn1 Hd1) as (nq & Hq & Hread1);
    [unfold σ'; by rewrite lookup_insert_ne, lookup_insert_eq|done|].
  destruct (read_written decode_resp c _ aid fp "resp" _ _ _ n2 d2 σ' He Hn2 Hd2) as (np & Hp & Hread2);
    [unfold σ'; by rewrite lookup_insert_eq|done|].
  exists nq, np. split_and!; [done..|].
  unfold Load_into, mbind, io_bind. rewrite Hread1. cbn -[σ' wrap_err].
  destruct (wrap_err _ (decode_req (redactNode nq _ _))) as [?|q]; [done|].
  cbn -[σ' wrap_err]. rewrite Hread2. cbn -[σ' wrap_err].
  by destruct (wrap_err _ (decode_resp (redactNode np _ _))) as [?|p].
Qed.

Lemma Load_after_Save {L : YamlLaws} c now aid fp req resp e σ σ' :
  fileable aid fp → utf8_valid (recorded_text e) →
  read_fault (file_path c aid fp "req") = None → read_fault (file_path c aid fp "resp") = None →
  Save env c now aid fp req resp e σ = (σ', inr tt) →
  ∃ nq np, yEncode (normalizePayload req) = inr nq ∧ yEncode (normalizePayload resp) = inr np ∧
    Load c aid fp σ' =
    (σ', q ← wrap_err "xrr: decode payload req: "
               (yDecodeMap (redactNode nq (activeRedactor env c) "payload"));
         p ← wrap_err "xrr: decode payload resp: "
               (yDecodeMap (redactNode np (activeRedactor env c) "payload"));
         mret (recorded_text e, q, p)).
Proof. apply Load_into_after_Save. Qed.

(** Round trip: payloads of plain YAML values in which nothing calls for
    redaction come back exactly, with the text of the recorded error. *)
Theorem Save_Load_exact {L : YamlLaws} c now aid fp (mq mp : gmap string any) nq np e σ σ' :
  fileable aid fp → utf8_valid (recorded_text e) →
  read_fault (file_path c aid fp "req") = None → read_fault (file_path c aid fp "resp") = None →
  map_Forall (λ _ v, yaml_value v) mq → map_Forall (λ _ v, yaml_value v) mp →
  yEncode (of_gomap mq) = inr nq → redactNode nq (activeRedactor env c) "payload" = nq →
  yEncode (of_gomap mp) = inr np → redactNode np (activeRedactor env c) "payload" = np →
  Save env c now aid fp (of_gomap mq) (of_gomap mp) e σ = (σ', inr tt) →
  Load c aid fp σ' = (σ', inr (recorded_text e, Some mq, Some mp)).
Proof.
  intros Hfl He Hr1 Hr2 Hmq Hmp Hnq Hrq Hnp Hrp Hs.
  destruct (Load_after_Save _ _ _ _ _ _ _ _ _ Hfl He Hr1 Hr2 Hs) as (nq' & np' & Hq & Hp & ->).
  change (normalizePayload (of_gomap ?m)) with (of_gomap m) in Hq, Hp.
  rewrite Hnq in Hq. rewrite Hnp in Hp. injection Hq as <-. injection Hp as <-.
  by rewrite Hrq, Hrp, (decode_map _ _ Hmq Hnq), (decode_map _ _ Hmp Hnp).
Qed.

(** C12. No secret reaches the disk: two interactions that differ only in the
    credentials of their payloads leave identical file systems, whether the
    writes succeed, fail or stop half way. *)
Theorem Save_noninterference {L : YamlLaws} c now aid fp q1 q2 p1 p2 e σ nq1 nq2 np1 np2 :
  let at_ := RFC3339 now in
  encoded aid fp at_ "" (normalizePayload q1) = inr nq1 →
  encoded aid fp at_ "" (normalizePayload q2) = inr nq2 →
  encoded aid fp at_ (recorded_text e) (normalizePayload p1) = inr np1 →
  encoded aid fp at_ (recorded_text e) (normalizePayload p2) = inr np2 →
  public_view (activeRedactor env c) "" nq1 = public_view (activeRedactor env c) "" nq2 →
  public_view (activeRedactor env c) "" np1 = public_view (activeRedactor env c) "" np2 →
  Save env c now aid fp q1 p1 e σ = Save env c now aid fp q2 p2 e σ.
Proof.
  intros at_ Hq1 Hq2 Hp1 Hp2 Hq Hp. unfold Save, mbind, io_bind.
  rewrite (write_public env c aid fp "req" _ _ _ _ _ _ σ Hq1 Hq2 Hq).
  destruct (write _ _ _ _ _ _ _ _) as [σ1 [?|[]]]; [done|].
  by apply (write_public env c aid fp "resp" _ _ _ _ _ _ σ1 Hp1 Hp2 Hp).
Qed.

(** A save touches the two files of its pair and no other path, on every
    outcome. *)
Theorem Save_frame c now aid fp req resp e σ p :
  p ≠ file_path c aid fp "req" → p ≠ file_path c aid fp "resp" →
  (Save env c now aid fp req resp e σ).1 !! p = σ !! p.
Proof.
  intros H1 H2. unfold Save, mbind, io_bind.
  pose proof (write_frame env c aid fp "req" (RFC3339 now) "" (normalizePayload req) σ p H1) as Hw.
  destruct (write _ _ _ _ _ _ _ _) as [σ1 [?|[]]]; simpl in *; [done|].
  by rewrite (write_frame env c aid fp "resp").
Qed.

(** A load is read-only and accepts unary cassettes only: when it returns
    payloads, both files are there, parse to envelopes with a payload, and
    neither carries a [stream] field. *)
Theorem Load_unary c aid fp σ σ' x :
  Load c aid fp σ = (σ', inr x) →
  σ' = σ ∧ ∀ kind, kind = "req" ∨ kind = "resp" →
    ∃ data raw, σ !! file_path c aid fp kind = Some (FFile data) ∧
      yUnmarshalMap data = inr raw ∧ raw !! "stream" = None ∧ is_Some (raw !! "payload").
Proof.
  assert (∀ kind σ σ' y, read c aid fp kind σ = (σ', inr y) →
    σ' = σ ∧ ∃ data raw, σ !! file_path c aid fp kind = Some (FFile data) ∧
      yUnmarshalMap data = inr raw ∧ raw !! "stream" = None ∧ is_Some (raw !! "payload")) as Hread.
  { intros kind σ0 σ1 y H. unfold read, read_into, ReadFile in H.
    destruct (read_fault _); [done|].
    destruct (σ0 !! file_path c aid fp kind) as [[data|]|] eqn:E; [|done..].
    injection H as <- H. split; [done|].
    apply bind_inr in H as (raw & Hraw%wrap_err_inr & H). exists data, raw.
    destruct (raw !! "stream"); [done|]. destruct (raw !! "payload"); [|done]. eauto. }
  intros (σ1 & q & [-> H1]%Hread & H)%io_bind_inr.
  apply io_bind_inr in H as (σ2 & p & [-> H2]%Hread & H). injection H as <- _.
  split; [done|]. by intros kind [-> | ->].
Qed.

(** Misses and shape errors are told apart: a missing file of the pair is
    [ErrCassetteMiss], a streamed file in the unary path is [ErrShapeMismatch]
    and never a miss. *)
Theorem Load_errors c aid fp σ :
  (∀ p, read_fault p = None) →
  (σ !! file_path c aid fp "req" = None → Load c aid fp σ = (σ, inl ErrCassetteMiss)) ∧
  (∀ data raw n, σ !! file_path c aid fp "req" = Some (FFile data) →
    yUnmarshalMap data = inr raw → raw !! "stream" = Some n →
    ∃ e, Load c aid fp σ = (σ, inl e) ∧ errors_is e SShapeMismatch ∧
      errors_is e SCassetteMiss = false).
Proof.
  intros Hf. split.
  - intros H. unfold Load, Load_into, mbind, io_bind, read_into, ReadFile. by rewrite Hf, H.
  - intros data raw n H Hu Hs. unfold Load, Load_into, mbind, io_bind, read_into, ReadFile. rewrite Hf, H.
    rewrite Hu. simpl. rewrite Hs. eauto.
Qed.
End properties.

(** ** Closed instances *)

Section witnesses.
Local Existing Instance ascii_only.
Local Existing Instance ReferenceYaml.lib.
Local Existing Instance ReferenceYaml.laws.
Local Existing Instance no_faults.

Definition no_env : string → string := λ _, "".
Definition demo_cassette : FileCassette := NewFileCassette "cas".
Definition demo_fs : fsys := {[ "cas" := FDir ]}.
Definition demo_req (secret : string) : gmap string any :=
  {[ "argv" := VSlice [VString "ls"]; "token" := VString secret ]}.
Definition demo_resp : gmap string any := {[ "stdout" := VString "x"; "exit_code" := VInt KInt 0 ]}.
Definition demo_save (req : gmap string any) (e : option err) : fsys * result unit :=
  Save no_env demo_cassette 0 "exec" "0011aabb" (of_gomap req) (of_gomap demo_resp) e demo_fs.

(** With the reference YAML and no faults, a write into an existing directory
    succeeds. *)
Lemma demo_write_ok env c aid fp kind at_ e payload σ :
  σ !! filepath_Dir (file_path c aid fp kind) = Some FDir →
  σ !! file_path c aid fp kind ≠ Some FDir →
  ∃ data, write env c aid fp kind at_ e payload σ =
    (<[file_path c aid fp kind := FFile data]> σ, inr tt).
Proof.
  intros Hd Hp. unfold write, mbind, io_bind, lift. simpl. unfold WriteFile. rewrite Hd.
  eexists. destruct (σ !! file_path c aid fp kind) as [[]|]; done.
Qed.

Lemma demo_save_ok secret e : ∃ σ, demo_save (demo_req secret) e = (σ, inr tt).
Proof.
  unfold demo_save, Save, mbind, io_bind.
  destruct (demo_write_ok no_env demo_cassette "exec" "0011aabb" "req" (RFC3339 0) ""
    (normalizePayload (of_gomap (demo_req secret))) demo_fs) as [d1 ->]; [done..|].
  cbv beta iota zeta.
  destruct (demo_write_ok no_env demo_cassette "exec" "0011aabb" "resp" (RFC3339 0)
    match e with Some e => error_text e | None => "" end
    (normalizePayload (of_gomap demo_resp))
    (<[file_path demo_cassette "exec" "0011aabb" "req" := FFile d1]> demo_fs)) as [d2 ->].
  - by rewrite lookup_insert_ne.
  - by rewrite lookup_insert_ne.
  - eauto.
Qed.

Lemma demo_load :
  ∃ σ, demo_save (demo_req "hunter2") (Some (ENew "boom")) = (σ, inr tt) ∧
  Load demo_cassette "exec" "0011aabb" σ =
    (σ, inr ("boom", Some (demo_req "<redacted:TOKEN>"), Some demo_resp)).
Proof.
  destruct (demo_save_ok "hunter2" (Some (ENew "boom"))) as [σ Hs]. exists σ. split; [exact Hs|].
  destruct (Load_after_Save no_env demo_cassette 0 "exec" "0011aabb"
    (of_gomap (demo_req "hunter2")) (of_gomap demo_resp) (Some (ENew "boom")) demo_fs σ)
    as (nq & np & Hq & Hp & H); [by split|done|done|done|exact Hs|].
  rewrite H. injection Hq as <-. injection Hp as <-. vm_compute. reflexivity.
Qed.

Lemma Save_Load_exact_witness :
  ∃ σ, demo_save (demo_req "") None = (σ, inr tt) ∧
  Load demo_cassette "exec" "0011aabb" σ = (σ, inr ("", Some (demo_req ""), Some demo_resp)).
Proof.
  destruct (demo_save_ok "" None) as [σ Hs]. exists σ. split; [exact Hs|].
  eapply (Save_Load_exact no_env demo_cassette 0 "exec" "0011aabb" (demo_req "") demo_resp _ _
    None demo_fs); try done.
  - apply map_Forall_insert_2; [reflexivity|]. by apply map_Forall_singleton.
  - apply map_Forall_insert_2; [reflexivity|]. by apply map_Forall_singleton.
Defined.

Lemma Save_noninterference_witness :
  demo_save (demo_req "hunter2") None = demo_save (demo_req "swordfish") None.
Proof.
  eapply (Save_noninterference no_env demo_cassette 0 "exec" "0011aabb"
    (of_gomap (demo_req "hunter2")) (of_gomap (demo_req "swordfish"))
    (of_gomap demo_resp) (of_gomap demo_resp) None demo_fs);
    [reflexivity|reflexivity|reflexivity|reflexivity|vm_compute; reflexivity|reflexivity].
Defined.

Lemma Save_frame_witness : (demo_save (demo_req "") None).1 !! "cas/other.yaml" = None.
Proof.
  exact (Save_frame no_env demo_cassette 0 "exec" "0011aabb" (of_gomap (demo_req ""))
    (of_gomap demo_resp) None demo_fs "cas/other.yaml"
    ltac:(vm_compute; discriminate) ltac:(vm_compute; discriminate)).
Defined.

Lemma Load_unary_witness :
  ∃ (σ : fsys) data, σ !! file_path demo_cassette "exec" "0011aabb" "resp" = Some (FFile data).
Proof.
  destruct demo_load as (σ & _ & Hl). exists σ.
  destruct (Load_unary demo_cassette "exec" "0011aabb" σ σ _ Hl) as [_ H].
  destruct (H "resp") as (data & raw & Hd & _); [by right|]. by exists data.
Defined.

Lemma Load_errors_witness :
  Load demo_cassette "exec" "0011aabb" demo_fs = (demo_fs, inl ErrCassetteMiss).
Proof. apply (Load_errors demo_cassette "exec" "0011aabb" demo_fs); reflexivity. Defined.
End witnesses.
