(* ===== verification/Stream.v ===== *)
(** go/stream.go and the types of go/stream_scrub.go: the streamed-interaction
    model, its validation rules, and the fingerprint of a streamed open. *)

From S2P Require Import Prelude GoStrings Sha256 Values CanonicalJson CanonicalInj.

(** ** Types *)

Definition StreamServer : string := "server".
Definition StreamClient : string := "client".
Definition StreamBidi : string := "bidi".

(** The switch every entry point guards its stream type with. *)
Definition known_type (t : string) : bool :=
  bool_decide (t = StreamServer) || bool_decide (t = StreamClient) || bool_decide (t = StreamBidi).

Record StreamFrame := { f_seq : Z; f_message : string; f_text : bool; f_at : option Z }.

Record StreamEvent := { ev_seq : Z; ev_at : option Z }.

Record ReqStream := {
  rq_type : string;
  rq_frames : list StreamFrame;
  rq_half_close : option StreamEvent;
}.

Record RespStream := { rs_frames : list StreamFrame; rs_end : StreamEvent }.

Record StreamPair := {
  p_req : ReqStream;
  p_resp : RespStream;
  p_req_payload : option (gmap string any);
  p_resp_payload : option (gmap string any);
  p_recorded_at : string;
  p_recorded_err : string;
}.

Record StreamOpen := {
  o_adapter : string;
  o_type : string;
  o_identity : gmap string any;
  o_counter : bool;
  o_payload : gmap string any;
}.

Inductive StreamDirection : Type := StreamSend | StreamRecv.

Record StreamScrubInfo := { si_adapter : string; si_type : string }.

Definition StreamScrubFunc : Type := StreamDirection → StreamScrubInfo → string → string.

(** ** ValidateStreamPair *)

(** The closure's state: the sequence numbers seen and the largest of them. *)
Record seen_state := { seen : gset Z; max_seq : Z }.

Definition bad_type (t : string) `{Unicode} : err :=
  ENew ("xrr: stream type " +:+ Quote t +:+ " invalid (want server|client|bidi)").

Definition add (st : seen_state) (seq : Z) (what : string) : result seen_state :=
  if (seq <? 0)%Z then inl (ENew ("xrr: " +:+ what +:+ " seq " +:+ itoa seq +:+ " is negative")) else
  if bool_decide (seq ∈ seen st) then
    inl (ENew ("xrr: duplicate seq " +:+ itoa seq +:+ " across pair (" +:+ what +:+ ")")) else
  inr {| seen := {[ seq ]} ∪ seen st;
         max_seq := if (seq >? max_seq st)%Z then seq else max_seq st |}.

Fixpoint addFrames (st : seen_state) (prev : Z) (i : nat) (frames : list StreamFrame)
    (side : string) : result seen_state :=
  match frames with
  | [] => inr st
  | f :: frames' =>
    st' ← add st (f_seq f) (side +:+ " frame " +:+ itoa_nat i);
    if (f_seq f <=? prev)%Z then
      inl (ENew ("xrr: " +:+ side +:+ " frames not strictly ascending at index " +:+ itoa_nat i))
    else addFrames st' (f_seq f) (S i) frames' side
  end.

Section stream.
Context {U : Unicode}.

Definition ValidateStreamPair (p : StreamPair) : result unit :=
  if negb (known_type (rq_type (p_req p))) then inl (bad_type (rq_type (p_req p))) else
  let st0 := {| seen := ∅; max_seq := -1 |} in
  st1 ← addFrames st0 (-1) 0 (rq_frames (p_req p)) "req";
  st2 ← addFrames st1 (-1) 0 (rs_frames (p_resp p)) "resp";
  st3 ← match rq_half_close (p_req p) with
        | Some h => add st2 (ev_seq h) "half_close"
        | None => inr st2
        end;
  let end_seq := ev_seq (rs_end (p_resp p)) in
  st4 ← add st3 end_seq "end";
  if bool_decide (end_seq = max_seq st4) then inr tt
  else inl (ENew ("xrr: end.seq " +:+ itoa end_seq +:+ " is not the maximum seq " +:+
                  itoa (max_seq st4))).

(** ** Fingerprints *)

Context {F : FloatFormat}.

Definition reserved_key (k : string) : bool := bool_decide (k = "stream") || bool_decide (k = "n").

(** The loop over the identity map stops at a reserved key; [None] when there
    is none.  Which of two reserved keys is reported depends on Go's iteration
    order, here that of [map_to_list]. *)
Definition reserved_in (m : gmap string any) : option string :=
  head (filter (λ k, reserved_key k) (map_to_list m).*1).

Definition stream_inputs (o : StreamOpen) (n : Z) : gmap string any :=
  let inputs := <["stream" := VString (o_type o)]> (o_identity o) in
  if (0 <=? n)%Z then <["n" := VInt KInt n]> inputs else inputs.

Definition streamCanonical (o : StreamOpen) (n : Z) : result string :=
  if negb (known_type (o_type o)) then inl (bad_type (o_type o)) else
  match reserved_in (o_identity o) with
  | Some k =>
    inl (ENew ("xrr: stream identity key " +:+ Quote k +:+ " is reserved for core injection"))
  | None =>
    wrap_err "xrr: stream fingerprint marshal: " (CanonicalJSON (of_gomap (stream_inputs o n)))
  end.

Definition StreamFingerprint (o : StreamOpen) (n : Z) : result string :=
  n ← (if o_counter o then
         if (n <? 0)%Z
         then inl (ENew ("xrr: stream occurrence n must be >= 0, got " +:+ itoa n))
         else inr n
       else inr (-1)%Z);
  canonical ← streamCanonical o n;
  mret (hash8 canonical).

(** ** Strict base64 *)

Definition b64_alphabet (c : ascii) : bool :=
  in_range 65 90 c || in_range 97 122 c || in_range 48 57 c ||
  bool_decide (c = "+"%char) || bool_decide (c = "/"%char) || bool_decide (c = "="%char).

(** The position of the first character outside the alphabet. *)
Fixpoint bad_b64_at (i : nat) (s : string) : option (ascii * nat) :=
  match s with
  | EmptyString => None
  | String c s' => if b64_alphabet c then bad_b64_at (S i) s' else Some (c, i)
  end.

(** The byte offset in the decoder's own message is not modelled. *)
Definition decodeStrictB64 (s : string) : result string :=
  match bad_b64_at 0 s with
  | Some (c, i) =>
    inl (ENew ("invalid base64 character " +:+ QuoteByte c +:+ " at index " +:+ itoa_nat i))
  | None =>
    match b64_decode s with
    | Some msg => inr msg
    | None => inl (ENew "illegal base64 data")
    end
  end.
End stream.

(** ** What the rules mean *)

Definition seqs (frames : list StreamFrame) : list Z := f_seq <$> frames.

Definition all_seqs (p : StreamPair) : list Z :=
  seqs (rq_frames (p_req p)) ++ seqs (rs_frames (p_resp p)) ++
  match rq_half_close (p_req p) with Some h => [ev_seq h] | None => [] end ++
  [ev_seq (rs_end (p_resp p))].

(** A well-formed pair: a known type; one numbering without negatives or
    repetitions over frames, half-close and end; frames in order on each side;
    the end last. *)
Definition well_formed (p : StreamPair) : Prop :=
  known_type (rq_type (p_req p)) ∧ Forall (Z.le 0) (all_seqs p) ∧ NoDup (all_seqs p) ∧
  StronglySorted Z.lt (seqs (rq_frames (p_req p))) ∧
  StronglySorted Z.lt (seqs (rs_frames (p_resp p))) ∧
  Forall (λ s, s ≤ ev_seq (rs_end (p_resp p)))%Z (all_seqs p).

(** The closure's state after the numbers [l]. *)
Definition st_of (l : list Z) (st : seen_state) : Prop :=
  (∀ s, s ∈ seen st ↔ s ∈ l) ∧ (∀ s, s ∈ l → s ≤ max_seq st)%Z ∧
  (max_seq st = -1 ∨ max_seq st ∈ l)%Z.

Lemma st_of_perm l l' st : l ≡ₚ l' → st_of l st → st_of l' st.
Proof.
  intros Hp (H1 & H2 & H3). split_and!.
  - intros s. by rewrite H1, Hp.
  - intros s. rewrite <-Hp. apply H2.
  - by rewrite <-Hp.
Qed.

(** A result is as [ok] says: a value with [Q], or an error. *)
Definition decides {A} (r : result A) (ok : Prop) (Q : A → Prop) : Prop :=
  match r with inr a => ok ∧ Q a | inl _ => ¬ ok end.

Lemma add_spec l st s what :
  st_of l st → decides (add st s what) (0 ≤ s ∧ s ∉ l)%Z (st_of (s :: l)).
Proof.
  intros (H1 & H2 & H3). unfold add, decides.
  destruct (s <? 0)%Z eqn:Hs; [lia|]. case_bool_decide as Hd; rewrite H1 in Hd.
  { naive_solver. }
  split; [split; [lia|done]|]. split_and!; simpl.
  - intros x. rewrite elem_of_union, elem_of_singleton, elem_of_cons, H1. done.
  - intros x [->|Hx%H2]%elem_of_cons; destruct (s >? max_seq st)%Z eqn:E; lia.
  - destruct (s >? max_seq st)%Z eqn:E; [right; by left|].
    destruct H3 as [H3|H3]; [lia|right; by right].
Qed.

Lemma addFrames_spec l st prev i frames side :
  st_of l st →
  decides (addFrames st prev i frames side)
    (Forall (Z.le 0) (seqs frames) ∧ (∀ s, s ∈ seqs frames → s ∉ l) ∧
     StronglySorted Z.lt (prev :: seqs frames))
    (st_of (seqs frames ++ l)).
Proof.
  revert l st prev i. induction frames as [|f frames IH]; intros l st prev i Hst; simpl.
  { split; [|done]. split_and!; [constructor|intros s ?%elem_of_nil; done|by repeat constructor]. }
  pose proof (add_spec l st (f_seq f) (side +:+ " frame " +:+ itoa_nat i) Hst) as Ha.
  destruct (add _ _ _) as [e|st']; simpl in *.
  { intros (H1%Forall_cons & H2 & _). apply Ha. split; [tauto|]. apply H2. by left. }
  destruct Ha as [[Hf Hl] Hst']. destruct (f_seq f <=? prev)%Z eqn:Hlt; simpl.
  { intros (_ & _ & Hs). apply StronglySorted_inv in Hs as [_ Hs].
    apply Forall_cons in Hs as [? _]. lia. }
  specialize (IH (f_seq f :: l) st' (f_seq f) (S i) Hst').
  destruct (addFrames _ _ _ _ _) as [e|st2]; simpl in *.
  - intros (H1 & H2 & H3). apply StronglySorted_inv in H3 as [H3 _].
    apply IH. split_and!; [by apply Forall_cons in H1 as [_ ?]| |done].
    intros s Hs. apply not_elem_of_cons. split; [|apply H2; by right].
    apply StronglySorted_inv in H3 as [_ H3]. rewrite Forall_forall in H3.
    specialize (H3 s Hs). lia.
  - destruct IH as [(H1 & H2 & H3) Hst2]. split.
    + split_and!; [by constructor| |].
      * intros s [->|Hs]%elem_of_cons; [done|]. specialize (H2 s Hs). set_solver.
      * constructor; [done|]. constructor; [lia|].
        apply StronglySorted_inv in H3 as [_ H3]. eapply Forall_impl; [exact H3|]. simpl. lia.
    + eapply st_of_perm; [|exact Hst2]. by rewrite Permutation_middle.
Qed.

Lemma strict_sorted_NoDup (l : list Z) : StronglySorted Z.lt l → NoDup l.
Proof.
  induction 1 as [|x l _ IH Hx]; constructor; [|done].
  intros Hin. rewrite Forall_forall in Hx. specialize (Hx x Hin). lia.
Qed.

(** The end of the check: an optional half-close, the end, and its rank. *)
Lemma end_spec l st3 e :
  st_of l st3 →
  decides
    (st4 ← add st3 (ev_seq e) "end";
     if bool_decide (ev_seq e = max_seq st4) then inr tt
     else inl (ENew ("xrr: end.seq " +:+ itoa (ev_seq e) +:+ " is not the maximum seq " +:+
                     itoa (max_seq st4))))
    ((0 ≤ ev_seq e)%Z ∧ ev_seq e ∉ l ∧ Forall (λ s, s ≤ ev_seq e)%Z l) (λ _, True).
Proof.
  intros Hst. pose proof (add_spec l st3 (ev_seq e) "end" Hst) as He.
  destruct (add _ _ _) as [?|st4]; simpl in *; [tauto|]. destruct He as [[He1 He2] (_ & Hm & Hr)].
  case_bool_decide as Hz; simpl.
  - split; [|done]. split_and!; [done..|]. apply Forall_forall. intros s Hs.
    rewrite Hz. apply Hm. by right.
  - intros (_ & _ & Hall). rewrite Forall_forall in Hall.
    specialize (Hm (ev_seq e) ltac:(by left)).
    destruct Hr as [Hr|[Hr|Hr]%elem_of_cons]; [lia|done|].
    specialize (Hall _ Hr). lia.
Qed.

Lemma tail_spec l st h e :
  st_of l st →
  decides
    (st3 ← match h with Some h => add st (ev_seq h) "half_close" | None => inr st end;
     st4 ← add st3 (ev_seq e) "end";
     if bool_decide (ev_seq e = max_seq st4) then inr tt
     else inl (ENew ("xrr: end.seq " +:+ itoa (ev_seq e) +:+ " is not the maximum seq " +:+
                     itoa (max_seq st4))))
    (let t := match h with Some h => [ev_seq h] | None => [] end ++ [ev_seq e] in
     Forall (Z.le 0) t ∧ NoDup t ∧ (∀ s, s ∈ t → s ∉ l) ∧
     Forall (λ s, s ≤ ev_seq e)%Z (l ++ t))
    (λ _, True).
Proof.
  intros Hst. destruct h as [h|]; simpl.
  - pose proof (add_spec l st (ev_seq h) "half_close" Hst) as Hh.
    destruct (add _ _ _) as [?|st3]; simpl in *.
    + intros ([? _]%Forall_cons & _ & Hn & _). apply Hh. split; [done|]. apply Hn. by left.
    + destruct Hh as [[Hh1 Hh2] Hst3].
      pose proof (end_spec _ st3 e Hst3) as Hend.
      destruct (add st3 _ _ ≫= _) as [?|[]]; simpl in *.
      * intros (Hp & Hnd & Hn & Hall). apply Hend. rewrite Forall_app in Hall.
        destruct Hall as [Hall1 Hall2].
        apply Forall_cons in Hp as [_ [? _]%Forall_cons].
        apply Forall_cons in Hall2 as [? _].
        apply NoDup_cons in Hnd as [Hnd _]. split_and!; [done| |by constructor].
        intros [Heq|Hin]%elem_of_cons; [apply Hnd; rewrite Heq; by left|].
        apply (Hn (ev_seq e)); [right; by left|done].
      * destruct Hend as [(He1 & He2 & He3) _]. apply Forall_cons in He3 as [He3 He4].
        apply not_elem_of_cons in He2 as [He2 He5]. split; [|done]. split_and!.
        -- by repeat constructor.
        -- constructor; [|by apply NoDup_singleton]. by rewrite list_elem_of_singleton.
        -- intros s [->|[->|?%elem_of_nil]%elem_of_cons]%elem_of_cons; done.
        -- apply Forall_app. split; [done|]. repeat constructor; [done|lia].
  - pose proof (end_spec _ st e Hst) as Hend.
    destruct (add st _ _ ≫= _) as [?|[]]; simpl in *.
    + intros (Hp & _ & Hn & Hall). apply Hend. apply Forall_app in Hall as [Hall _].
      apply Forall_cons in Hp as [? _]. split_and!; [done| |done]. apply Hn. by left.
    + destruct Hend as [(He1 & He2 & He3) _]. split; [|done]. split_and!.
      * by repeat constructor.
      * apply NoDup_singleton.
      * by intros s ->%list_elem_of_singleton.
      * apply Forall_app. split; [done|]. repeat constructor. lia.
Qed.

Lemma validate_spec {U : Unicode} p : ValidateStreamPair p = inr tt ↔ well_formed p.
Proof.
  assert (∀ r : result unit, decides r (well_formed p) (λ _, True) → r = inr tt ↔ well_formed p)
    as Hd.
  { intros [e|[]]; simpl; naive_solver. }
  apply Hd. clear Hd. unfold ValidateStreamPair, well_formed, all_seqs.
  destruct (known_type _); simpl; [|naive_solver].
  assert (st_of [] {| seen := ∅; max_seq := -1 |}) as H0.
  { split_and!; simpl; [set_solver|intros s ?%elem_of_nil; done|by left]. }
  pose proof (addFrames_spec [] _ (-1) 0 (rq_frames (p_req p)) "req" H0) as H1.
  destruct (addFrames _ _ _ (rq_frames _) _) as [e|st1]; simpl in *.
  { rewrite !Forall_app. intros (_ & [Hp _] & _ & Hs & _). apply H1. split_and!; [done|set_solver|].
    constructor; [done|]. eapply Forall_impl; [exact Hp|]. simpl. lia. }
  destruct H1 as [(Hp1 & _ & Hs1) H1]. rewrite app_nil_r in H1.
  apply StronglySorted_inv in Hs1 as [Hs1 _].
  pose proof (addFrames_spec _ _ (-1) 0 (rs_frames (p_resp p)) "resp" H1) as H2.
  destruct (addFrames _ _ _ (rs_frames _) _) as [e|st2]; simpl in *.
  { rewrite !Forall_app, !NoDup_app. intros (_ & (_ & Hp & _) & (_ & Hn & _) & _ & Hs & _).
    apply H2. split_and!; [done|set_solver|].
    constructor; [done|]. eapply Forall_impl; [exact Hp|]. simpl. lia. }
  destruct H2 as [(Hp2 & Hn2 & Hs2) H2]. apply StronglySorted_inv in Hs2 as [Hs2 _].
  pose proof (tail_spec _ st2 (rq_half_close (p_req p)) (rs_end (p_resp p)) H2) as Ht.
  set (t := _ ++ [ev_seq (rs_end (p_resp p))]) in *. cbv zeta in Ht. clearbody t.
  set (q := seqs (rq_frames (p_req p))) in *. set (r := seqs (rs_frames (p_resp p))) in *.
  clearbody q r. assert (∀ s, s ∈ r → s ∉ q) as Hqr by done.
  destruct (mbind _ _) as [e|[]]; simpl in *.
  - intros (_ & Hp & Hnd & _ & _ & Hall). apply Ht.
    rewrite !Forall_app in Hp. rewrite !NoDup_app in Hnd. rewrite !Forall_app in Hall.
    rewrite !Forall_app.
    destruct Hnd as (_ & Hn1 & _ & Hn3 & ?). split_and!; try tauto.
    intros s Hs [Hx|Hx]%elem_of_app; [by apply (Hn3 s)|].
    apply (Hn1 s); [done|]. apply elem_of_app. by right.
  - destruct Ht as [(Ht1 & Ht2 & Ht3 & Ht4) _]. split; [|done].
    rewrite !Forall_app in Ht4. rewrite !Forall_app, !NoDup_app.
    split_and!; try tauto; try (by apply strict_sorted_NoDup).
    + intros s Hs [Hx|Hx]%elem_of_app; [by apply (Hqr s)|].
      apply (Ht3 s); [done|]. apply elem_of_app. by right.
    + intros s Hs Hx. apply (Ht3 s); [done|]. apply elem_of_app. by left.
Qed.

(** ** Fingerprint inputs *)

Section fingerprint.
Context {U : Unicode} {F : FloatFormat}.

Lemma reserved_in_None m : reserved_in m = None ↔ m !! "stream" = None ∧ m !! "n" = None.
Proof.
  assert (∀ k, k ∈ (map_to_list m).*1 ↔ is_Some (m !! k)) as Hk.
  { intros k. rewrite list_elem_of_fmap. split.
    - intros ([k' v] & -> & H%elem_of_map_to_list). by exists v.
    - intros [v Hv]. exists (k, v). by rewrite elem_of_map_to_list. }
  unfold reserved_in. rewrite head_None. split.
  - intros Hnil. assert (∀ k, reserved_key k → m !! k = None) as Hr.
    { intros k Hr. apply eq_None_not_Some. intros Hs%Hk.
      assert (k ∈ filter (λ k, reserved_key k) (map_to_list m).*1) as Hin
        by (by apply list_elem_of_filter).
      rewrite Hnil in Hin. by apply elem_of_nil in Hin. }
    split; by apply Hr.
  - intros [Hs Hn]. destruct (filter _ _) as [|k l] eqn:E; [done|].
    assert (k ∈ filter (λ k, reserved_key k) (map_to_list m).*1) as Hin by (rewrite E; by left).
    apply list_elem_of_filter in Hin as [Hr Hin%Hk]. unfold reserved_key in Hr.
    apply orb_True in Hr as [Hr|Hr]; apply bool_decide_unpack in Hr as ->;
      rewrite ?Hs, ?Hn in Hin; by destruct Hin.
Qed.

Lemma streamCanonical_inr o n a :
  streamCanonical o n = inr a ↔
  known_type (o_type o) ∧ o_identity o !! "stream" = None ∧ o_identity o !! "n" = None ∧
  CanonicalJSON (of_gomap (stream_inputs o n)) = inr a.
Proof.
  unfold streamCanonical. destruct (known_type _); simpl; [|naive_solver].
  destruct (reserved_in _) eqn:E.
  - assert (¬ (o_identity o !! "stream" = None ∧ o_identity o !! "n" = None)).
    { rewrite <-reserved_in_None. by rewrite E. }
    naive_solver.
  - apply reserved_in_None in E. rewrite wrap_err_inr. naive_solver.
Qed.

Lemma known_type_valid t : known_type t → utf8_valid t.
Proof.
  unfold known_type. rewrite !orb_True.
  intros [[H|H]|H]; apply bool_decide_unpack in H as ->; done.
Qed.

Lemma stream_inputs_canon o n :
  known_type (o_type o) → canon_gomap (o_identity o) → canon_gomap (stream_inputs o n).
Proof.
  intros Ht%known_type_valid Hi. unfold stream_inputs, canon_gomap.
  destruct (0 <=? n)%Z; repeat (apply map_Forall_insert_2; [split; [done|by constructor]|]); done.
Qed.

(** The identity, the type and the ordinal can be read off the inputs. *)
Lemma stream_inputs_inj o o' n n' :
  o_identity o !! "stream" = None → o_identity o !! "n" = None →
  o_identity o' !! "stream" = None → o_identity o' !! "n" = None →
  stream_inputs o n = stream_inputs o' n' →
  o_type o = o_type o' ∧ o_identity o = o_identity o' ∧ (n = n' ∨ n < 0 ∧ n' < 0)%Z.
Proof.
  intros Hs Hn Hs' Hn' Heq.
  assert (∀ k, stream_inputs o n !! k = stream_inputs o' n' !! k) as Hk by (by rewrite Heq).
  unfold stream_inputs in Hk. clear Heq.
  assert (o_type o = o_type o') as Ht.
  { specialize (Hk "stream"). destruct (0 <=? n)%Z, (0 <=? n')%Z; by simplify_map_eq. }
  split; [done|]. split.
  - apply map_eq. intros k. destruct (decide (k = "stream")) as [->|H1]; [by rewrite Hs, Hs'|].
    destruct (decide (k = "n")) as [->|H2]; [by rewrite Hn, Hn'|].
    specialize (Hk k). destruct (0 <=? n)%Z, (0 <=? n')%Z; by simplify_map_eq.
  - specialize (Hk "n"). destruct (0 <=? n)%Z eqn:E, (0 <=? n')%Z eqn:E';
      rewrite ?lookup_insert_eq, ?(lookup_insert_ne _ "stream"), ?Hn, ?Hn' in Hk by done;
      simplify_eq; first [by left|right; lia].
Qed.

Lemma streamCanonical_inj o o' n n' a :
  canon_gomap (o_identity o) → canon_gomap (o_identity o') →
  streamCanonical o n = inr a → streamCanonical o' n' = inr a →
  o_type o = o_type o' ∧ o_identity o = o_identity o' ∧ (n = n' ∨ n < 0 ∧ n' < 0)%Z.
Proof.
  intros Hc Hc' (Ht & Hs & Hn & Ha)%streamCanonical_inr (Ht' & Hs' & Hn' & Ha')%streamCanonical_inr.
  apply stream_inputs_inj; try done.
  eapply CanonicalJSON_gomap_inj; [..|exact Ha|exact Ha']; by apply stream_inputs_canon.
Qed.
End fingerprint.

(** ** Base64 *)

Lemma b64_alphabet_char x : b64_alphabet (b64_char x).
Proof. destruct x as [[] [] [] [] [] []]; done. Qed.

Lemma bad_b64_at_None i s : bad_b64_at i s = None ↔ sall b64_alphabet s.
Proof.
  revert i. induction s as [|c s IH]; intros i; simpl; [done|].
  rewrite andb_True. destruct (b64_alphabet c); [|naive_solver]. rewrite IH. naive_solver.
Qed.

Lemma b64_encode_alphabet s : sall b64_alphabet (b64_encode s).
Proof.
  induction s as [|[]|[] []|[] [] [] s IH] using string_ind3; [done|..];
    unfold str2, str1; cbn [b64_encode]; unfold str4, str3, str2, str1; rewrite ?sapp_cons, ?sapp_nil_l;
    cbn [sall]; rewrite ?andb_True;
    repeat match goal with |- _ ∧ _ => split end; auto using b64_alphabet_char.
Qed.

Lemma decodeStrictB64_inr {U : Unicode} t s : decodeStrictB64 t = inr s ↔ t = b64_encode s.
Proof.
  unfold decodeStrictB64. rewrite <-b64_decode_Some.
  destruct (bad_b64_at 0 t) as [[c i]|] eqn:E.
  - split; [done|]. intros H%b64_decode_Some. subst t.
    pose proof (proj2 (bad_b64_at_None 0 _) (b64_encode_alphabet s)). congruence.
  - destruct (b64_decode t); naive_solver.
Qed.

(** ** Properties *)

Section properties.
Context {U : Unicode} {F : FloatFormat}.

(** C21. The validator accepts exactly the well-formed pairs: one numbering of
    non-negative, pairwise distinct sequence numbers over both files, ascending
    frames on each side, and the end event last. *)
Theorem ValidateStreamPair_spec p : ValidateStreamPair p = inr tt ↔ well_formed p.
Proof. apply validate_spec. Qed.

(** The canonical JSON of an open determines its type, its identity and its
    occurrence ordinal, so distinct opens hash distinct bytes; in particular a
    counter-addressed open never shares them with a content-addressed one. *)
Theorem streamCanonical_identifies o o' n n' a :
  canon_gomap (o_identity o) → canon_gomap (o_identity o') →
  streamCanonical o n = inr a → streamCanonical o' n' = inr a →
  o_type o = o_type o' ∧ o_identity o = o_identity o' ∧ (n = n' ∨ n < 0 ∧ n' < 0)%Z.
Proof. apply streamCanonical_inj. Qed.

(** When a streamed open has a fingerprint: a known type, no reserved
    identity key, an ordinal that is not negative for counter-addressed opens;
    the fingerprint is then eight hexadecimal digits. *)
Theorem StreamFingerprint_defined o n :
  canon_gomap (o_identity o) →
  (∃ fp, StreamFingerprint o n = inr fp ∧ fingerprint_shape fp) ↔
  known_type (o_type o) ∧ o_identity o !! "stream" = None ∧ o_identity o !! "n" = None ∧
  (o_counter o → 0 ≤ n)%Z.
Proof.
  intros Hc. unfold StreamFingerprint. split.
  - intros (fp & H & _). apply bind_inr in H as (m & Hm & H).
    apply bind_inr in H as (a & Ha & _). apply streamCanonical_inr in Ha as (? & ? & ? & _).
    split_and!; [done..|]. destruct (o_counter o); [|done].
    destruct (n <? 0)%Z eqn:E; [done|]. lia.
  - intros (Ht & Hs & Hn & Hle).
    assert (∀ m, ∃ fp, (canonical ← streamCanonical o m; mret (hash8 canonical)) = inr (A := err) fp
      ∧ fingerprint_shape fp) as Hcan.
    { intros m. destruct (canon_gomap_encodes (stream_inputs o m)) as [a Ha];
        [by apply stream_inputs_canon|].
      exists (hash8 a). split; [|apply hash8_shape].
      by rewrite (proj2 (streamCanonical_inr o m a)). }
    destruct (o_counter o); [|apply Hcan]. specialize (Hle I).
    destruct (n <? 0)%Z eqn:E; [lia|apply Hcan].
Qed.

(** The strict reader accepts exactly what the standard encoder writes: no
    white space, no missing or misplaced padding, no stray trailing bits. *)
Theorem decodeStrictB64_spec t s : decodeStrictB64 t = inr s ↔ t = b64_encode s.
Proof. apply decodeStrictB64_inr. Qed.
End properties.

(** ** Closed instances *)

Section witnesses.
Local Existing Instance ascii_only.
Local Existing Instance integral_floats.

Definition demo_open : StreamOpen :=
  {| o_adapter := "grpc"; o_type := StreamBidi;
     o_identity := {[ "service" := VString "pkg.Chat"; "method" := VString "Talk" ]};
     o_counter := true; o_payload := ∅ |}.

Lemma demo_open_canon : canon_gomap (o_identity demo_open).
Proof.
  apply map_Forall_insert_2; [by repeat constructor|].
  apply map_Forall_singleton. by repeat constructor.
Qed.

Lemma streamCanonical_identifies_witness :
  (∃ a, streamCanonical demo_open 3 = inr a) ∧ o_identity demo_open = o_identity demo_open.
Proof.
  assert (∃ a, streamCanonical demo_open 3 = inr a) as [a Ha] by (eexists; vm_compute; reflexivity).
  split; [eauto|].
  apply (streamCanonical_identifies demo_open demo_open 3 3 a demo_open_canon demo_open_canon Ha Ha).
Defined.

Lemma StreamFingerprint_defined_witness :
  ∃ fp, StreamFingerprint demo_open 0 = inr fp ∧ fingerprint_shape fp.
Proof. apply (StreamFingerprint_defined demo_open 0 demo_open_canon). done. Defined.
End witnesses.
