(* ===== verification/StreamCassette.v ===== *)
(** go/stream_cassette.go: the streamed cassette, the same two files with a
    [stream] field in each envelope. *)

From S2P Require Import Prelude GoStrings Values Yaml Redact Os CanonicalJson Stream Cassette.

(** ** The wire structs, as decoded *)

(** A [yaml.Node] field is [None] when the key is absent ([Kind == 0]). *)
Record wireFrame := {
  wf_seq : option Z;
  wf_b64 : option ynode;
  wf_text : option ynode;
  wf_at : option Z;
}.

Record wireEvent := { we_seq : option Z; we_at : option Z }.

Record wireStream := {
  ws_type : option string;
  ws_frames : list wireFrame;
  ws_half_close : option wireEvent;
  ws_end : option wireEvent;
}.

Record streamFile := {
  sf_payload : gmap string any;
  sf_recorded_at : string;
  sf_recorded_err : string;
  sf_stream : option wireStream;
}.

(** ** The wire structs, as encoded *)

Record wireFrameOut := {
  wo_seq : Z;
  wo_b64 : option string;
  wo_text : option string;
  wo_at : option Z;
}.

Record wireEventOut := { weo_seq : Z; weo_at : option Z }.

Record wireReqStreamOut := {
  wro_type : string;
  wro_frames : list wireFrameOut;
  wro_half_close : option wireEventOut;
}.

Record wireRespStreamOut := { wso_frames : list wireFrameOut; wso_end : wireEventOut }.

(** A field with [omitempty] behind a pointer. *)
Definition omit {A} (name : string) (f : A → any) (x : option A) : list (string * any) :=
  match x with Some a => [(name, f a)] | None => [] end.

Definition event_any (e : wireEventOut) : any :=
  VStruct (("seq", VInt KInt (weo_seq e)) :: omit "at_ms" (VInt KInt64) (weo_at e)).

Definition frame_any (f : wireFrameOut) : any :=
  VStruct ([("seq", VInt KInt (wo_seq f))] ++ omit "message_b64" VQuoted (wo_b64 f) ++
           omit "message_text" VQuoted (wo_text f) ++ omit "at_ms" (VInt KInt64) (wo_at f)).

Definition req_stream_any (s : wireReqStreamOut) : any :=
  VStruct ([("type", VString (wro_type s)); ("frames", VSlice (frame_any <$> wro_frames s))] ++
           omit "half_close" event_any (wro_half_close s)).

Definition resp_stream_any (s : wireRespStreamOut) : any :=
  VStruct [("frames", VSlice (frame_any <$> wso_frames s)); ("end", event_any (wso_end s))].

(** [streamEnvelope]. *)
Definition stream_envelope_fields (aid fp at_ e : string) (payload stream : any)
    : list (string * any) :=
  [("xrr", VString "1"); ("adapter", VString aid); ("fingerprint", VQuoted fp);
   ("recorded_at", VQuoted at_)] ++
  (if bool_decide (e = "") then [] else [("error", VString e)]) ++
  [("payload", payload); ("stream", stream)].

(** ** Decoding the stream field

    [node.Decode(&ws)], and its documented behaviour on what the encoder
    writes: keys are matched to fields, a pointer is nil when its key is
    absent, integers of 64 bits and text are read back. *)
Class YamlStreamLib := { yDecodeStream : ynode → result wireStream }.

Definition int64 (z : Z) : Prop := (- 2 ^ 63 ≤ z < 2 ^ 63)%Z.

Definition text_ok (s : option string) : Prop := from_option (λ s, Is_true (utf8_valid s)) True s.
Definition at_ok (a : option Z) : Prop := from_option int64 True a.
Definition event_ok (e : wireEventOut) : Prop := int64 (weo_seq e) ∧ at_ok (weo_at e).
Definition frame_ok (f : wireFrameOut) : Prop :=
  int64 (wo_seq f) ∧ text_ok (wo_b64 f) ∧ text_ok (wo_text f) ∧ at_ok (wo_at f).

Definition wire_event (e : wireEventOut) : wireEvent :=
  {| we_seq := Some (weo_seq e); we_at := weo_at e |}.
Definition wire_frame (f : wireFrameOut) : wireFrame :=
  {| wf_seq := Some (wo_seq f); wf_b64 := str_node true <$> wo_b64 f;
     wf_text := str_node true <$> wo_text f; wf_at := wo_at f |}.

Class YamlStreamLaws {Y : YamlLib} {S : YamlStreamLib} := {
  decode_req_stream s n :
    utf8_valid (wro_type s) → Forall frame_ok (wro_frames s) →
    from_option event_ok True (wro_half_close s) →
    yEncode (req_stream_any s) = inr n →
    yDecodeStream n = inr {| ws_type := Some (wro_type s); ws_frames := wire_frame <$> wro_frames s;
                             ws_half_close := wire_event <$> wro_half_close s; ws_end := None |};
  decode_resp_stream s n :
    Forall frame_ok (wso_frames s) → event_ok (wso_end s) →
    yEncode (resp_stream_any s) = inr n →
    yDecodeStream n = inr {| ws_type := None; ws_frames := wire_frame <$> wso_frames s;
                             ws_half_close := None; ws_end := Some (wire_event (wso_end s)) |};
}.

Section stream_cassette.
Context {U : Unicode} {Y : YamlLib} {YS : YamlStreamLib} {O : Faults}.

(** ** Reading *)

Definition parse_message (i : nat) (side : string) (wf : wireFrame) (seq : Z)
    : result StreamFrame :=
  let frame := side +:+ " frame " +:+ itoa_nat i in
  match wf_b64 wf, wf_text wf with
  | Some _, Some _ | None, None =>
    inl (ENew ("xrr: " +:+ frame +:+ " must have exactly one of message_b64/message_text"))
  | Some b, None =>
    if bool_decide (y_kind b ≠ YScalar)
    then inl (ENew ("xrr: " +:+ frame +:+ " message_b64 is not a scalar"))
    else
      msg ← wrap_err ("xrr: " +:+ frame +:+ " message_b64: ") (decodeStrictB64 (y_value b));
      mret {| f_seq := seq; f_message := msg; f_text := false; f_at := wf_at wf |}
  | None, Some t =>
    if bool_decide (y_kind t ≠ YScalar)
    then inl (ENew ("xrr: " +:+ frame +:+ " message_text is not a scalar"))
    else mret {| f_seq := seq; f_message := y_value t; f_text := true; f_at := wf_at wf |}
  end.

Fixpoint parseWireFrames_go (i : nat) (frames : list wireFrame) (side : string)
    : result (list StreamFrame) :=
  match frames with
  | [] => inr []
  | wf :: frames' =>
    match wf_seq wf with
    | None => inl (ENew ("xrr: " +:+ side +:+ " frame " +:+ itoa_nat i +:+ " missing seq"))
    | Some seq =>
      frame ← parse_message i side wf seq;
      out ← parseWireFrames_go (S i) frames' side;
      mret (frame :: out)
    end
  end.

Definition parseWireFrames (frames : list wireFrame) (side : string) : result (list StreamFrame) :=
  parseWireFrames_go 0 frames side.

Definition parseWireEvent (we : option wireEvent) (what : string) (required : bool)
    : result (option StreamEvent) :=
  match we with
  | None => if required then inl (ENew ("xrr: stream missing " +:+ what)) else inr None
  | Some we =>
    match we_seq we with
    | None => inl (ENew ("xrr: " +:+ what +:+ " missing seq"))
    | Some seq => inr (Some {| ev_seq := seq; ev_at := we_at we |})
    end
  end.

(** The value of a scalar field, whatever its tag resolves to. *)
Definition scalar_value (n : option ynode) : string :=
  match n with
  | Some (YNode YScalar _ _ v _) => v
  | _ => ""
  end.

Definition error_value (n : option ynode) : string :=
  match n with
  | Some (YNode YScalar _ tag v _) => if bool_decide (tag = "!!null") then "" else v
  | _ => ""
  end.

Definition readStreamFile (c : FileCassette) (adapterID fingerprint kind : string)
    : io streamFile := λ σ,
  match ReadFile (file_path c adapterID fingerprint kind) σ with
  | (σ, inl e) =>
    (σ, inl (if IsNotExist e then ErrCassetteMiss else EWrap ("xrr: read " +:+ kind +:+ ": ") e))
  | (σ, inr data) =>
    (σ, raw ← wrap_err ("xrr: unmarshal envelope " +:+ kind +:+ ": ") (yUnmarshalMap data);
        match raw !! "payload" with
        | None => inl (ENew ("xrr: missing payload in " +:+ kind))
        | Some payloadNode =>
          payload ← wrap_err ("xrr: decode payload " +:+ kind +:+ ": ") (yDecodeMap payloadNode);
          stream ← match raw !! "stream" with
                   | None => inr None
                   | Some node =>
                     ws ← wrap_err ("xrr: decode stream " +:+ kind +:+ ": ") (yDecodeStream node);
                     inr (Some ws)
                   end;
          mret {| sf_payload := default ∅ payload;
                  sf_recorded_at := scalar_value (raw !! "recorded_at");
                  sf_recorded_err := error_value (raw !! "error");
                  sf_stream := stream |}
        end)
  end.

(** The part of [LoadStream] after the two files are read. *)
Definition assemble (reqFile respFile : streamFile) : result StreamPair :=
  match sf_stream reqFile, sf_stream respFile with
  | None, None =>
    inl (EWrap "xrr: unary cassette pair in streaming code path: " ErrShapeMismatch)
  | None, Some _ | Some _, None =>
    inl (ENew "xrr: stream field present on one file of the pair but not the other")
  | Some rq, Some rs =>
    match ws_type rq with
    | None => inl (ENew "xrr: req stream missing type")
    | Some t =>
      reqFrames ← parseWireFrames (ws_frames rq) "req";
      halfClose ← parseWireEvent (ws_half_close rq) "half_close" false;
      respFrames ← parseWireFrames (ws_frames rs) "resp";
      end_ ← parseWireEvent (ws_end rs) "end" true;
      match end_ with
      | None => inl (EPanic "nil pointer dereference")
      | Some end_ =>
        let pair :=
          {| p_req := {| rq_type := t; rq_frames := reqFrames; rq_half_close := halfClose |};
             p_resp := {| rs_frames := respFrames; rs_end := end_ |};
             p_req_payload := Some (sf_payload reqFile);
             p_resp_payload := Some (sf_payload respFile);
             p_recorded_at := sf_recorded_at reqFile;
             p_recorded_err := sf_recorded_err respFile |} in
        ValidateStreamPair pair;; mret pair
      end
    end
  end.

Definition LoadStream (c : FileCassette) (adapterID fingerprint : string) : io StreamPair :=
  reqFile ← readStreamFile c adapterID fingerprint "req";
  respFile ← readStreamFile c adapterID fingerprint "resp";
  lift (assemble reqFile respFile).

(** ** Writing *)

Definition frameOut (f : StreamFrame) : wireFrameOut :=
  if f_text f && utf8_valid (f_message f)
  then {| wo_seq := f_seq f; wo_b64 := None; wo_text := Some (f_message f); wo_at := f_at f |}
  else {| wo_seq := f_seq f; wo_b64 := Some (b64_encode (f_message f)); wo_text := None;
          wo_at := f_at f |}.

Definition framesOut (frames : list StreamFrame) : list wireFrameOut := frameOut <$> frames.

Definition eventOut (e : StreamEvent) : wireEventOut :=
  {| weo_seq := ev_seq e; weo_at := ev_at e |}.

Definition eventOutPtr (e : option StreamEvent) : option wireEventOut := eventOut <$> e.

Definition writeStreamFile (c : FileCassette) (adapterID fingerprint kind : string)
    (env : list (string * any)) : io unit :=
  data ← lift (wrap_err ("xrr: marshal " +:+ kind +:+ ": ") (yMarshal (VStruct env)));
  WriteFile (file_path c adapterID fingerprint kind) data.

(** A nil payload map is written as an empty mapping. *)
Definition payload_any (m : option (gmap string any)) : any := of_gomap (default ∅ m).

Definition SaveStream (c : FileCassette) (now : Z) (adapterID fingerprint : string)
    (pair : option StreamPair) : io unit :=
  match pair with
  | None => throw (ENew "xrr: nil stream pair")
  | Some p =>
    lift (ValidateStreamPair p);;
    let recordedAt :=
      if bool_decide (p_recorded_at p = "") then RFC3339 now else p_recorded_at p in
    writeStreamFile c adapterID fingerprint "req"
      (stream_envelope_fields adapterID fingerprint recordedAt ""
         (normalizePayload (payload_any (p_req_payload p)))
         (req_stream_any {| wro_type := rq_type (p_req p);
                            wro_frames := framesOut (rq_frames (p_req p));
                            wro_half_close := eventOutPtr (rq_half_close (p_req p)) |}));;
    writeStreamFile c adapterID fingerprint "resp"
      (stream_envelope_fields adapterID fingerprint recordedAt (p_recorded_err p)
         (normalizePayload (payload_any (p_resp_payload p)))
         (resp_stream_any {| wso_frames := framesOut (rs_frames (p_resp p));
                             wso_end := eventOut (rs_end (p_resp p)) |}))
  end.
End stream_cassette.

(** ** What survives the disk *)

Definition filled_at (now : Z) (p : StreamPair) : string :=
  if bool_decide (p_recorded_at p = "") then RFC3339 now else p_recorded_at p.

Definition normal_frame (f : StreamFrame) : StreamFrame :=
  {| f_seq := f_seq f; f_message := f_message f;
     f_text := f_text f && utf8_valid (f_message f); f_at := f_at f |}.

(** The pair that is read back: the advisory text flag settled, the time stamp
    filled in, nil payloads empty, everything else as it was. *)
Definition reloaded (now : Z) (p : StreamPair) : StreamPair :=
  {| p_req := {| rq_type := rq_type (p_req p);
                 rq_frames := normal_frame <$> rq_frames (p_req p);
                 rq_half_close := rq_half_close (p_req p) |};
     p_resp := {| rs_frames := normal_frame <$> rs_frames (p_resp p);
                  rs_end := rs_end (p_resp p) |};
     p_req_payload := Some (default ∅ (p_req_payload p));
     p_resp_payload := Some (default ∅ (p_resp_payload p));
     p_recorded_at := filled_at now p;
     p_recorded_err := p_recorded_err p |}.

(** Every number of the pair is a Go integer. *)
Definition frame_range (f : StreamFrame) : Prop := int64 (f_seq f) ∧ at_ok (f_at f).
Definition event_range (e : StreamEvent) : Prop := int64 (ev_seq e) ∧ at_ok (ev_at e).
Definition pair_range (p : StreamPair) : Prop :=
  Forall frame_range (rq_frames (p_req p)) ∧ Forall frame_range (rs_frames (p_resp p)) ∧
  from_option event_range True (rq_half_close (p_req p)) ∧ event_range (rs_end (p_resp p)).

(** Texts that YAML keeps. *)
Definition pair_text (p : StreamPair) : Prop :=
  utf8_valid (p_recorded_at p) ∧ utf8_valid (p_recorded_err p) ∧
  map_Forall (λ _ v, yaml_value v) (default ∅ (p_req_payload p)) ∧
  map_Forall (λ _ v, yaml_value v) (default ∅ (p_resp_payload p)).

(** ** Lemmas *)

Section lemmas.
Context {U : Unicode} {Y : YamlLib} {YS : YamlStreamLib} {O : Faults}.

Lemma b64_encode_valid s : utf8_valid (b64_encode s).
Proof.
  apply ascii_valid. pose proof (b64_encode_alphabet s) as H.
  induction (b64_encode s) as [|c t IH]; simpl in *; [done|].
  apply andb_True in H as [Hc Ht]. apply andb_True. split; [|auto].
  clear -Hc. revert Hc. byte_cases; done.
Qed.

Lemma frameOut_ok f : frame_range f → frame_ok (frameOut f).
Proof.
  intros [H1 H2]. unfold frameOut, frame_ok.
  destruct (f_text f && utf8_valid (f_message f)) eqn:E; simpl; split_and!; try done.
  - by apply andb_true_iff in E as [_ ->].
  - apply b64_encode_valid.
Qed.

Lemma parse_frameOut i side f :
  parse_message i side (wire_frame (frameOut f)) (f_seq f) = inr (normal_frame f).
Proof.
  unfold frameOut, parse_message, normal_frame.
  destruct (f_text f && utf8_valid (f_message f)); simpl; [done|].
  by rewrite (proj2 (decodeStrictB64_inr _ (f_message f)) eq_refl).
Qed.

Lemma parse_framesOut i side fs :
  parseWireFrames_go i (wire_frame <$> framesOut fs) side = inr (normal_frame <$> fs).
Proof.
  unfold framesOut. revert i. induction fs as [|f fs IH]; intros i; [done|].
  rewrite !fmap_cons. cbn [parseWireFrames_go].
  assert (wf_seq (wire_frame (frameOut f)) = Some (f_seq f)) as ->.
  { unfold frameOut. by case_match. }
  rewrite parse_frameOut. cbn [mbind result_bind]. by rewrite IH.
Qed.

Lemma stream_names_NoDup aid fp at_ e payload stream :
  NoDup (stream_envelope_fields aid fp at_ e payload stream).*1.
Proof.
  unfold stream_envelope_fields. case_bool_decide; simpl;
    repeat (apply NoDup_cons; split; [set_solver by done|]); apply NoDup_nil_2.
Qed.

(** What [readStreamFile] makes of a file that [writeStreamFile] produced. *)
Lemma read_stream_written {L : YamlLaws} c aid fp kind at_ e (m : gmap string any) stream data ws σ :
  utf8_valid at_ → utf8_valid e → map_Forall (λ _ v, yaml_value v) m →
  yMarshal (VStruct (stream_envelope_fields aid fp at_ e (of_gomap m) stream)) = inr data →
  (∀ n, yEncode stream = inr n → yDecodeStream n = inr ws) →
  σ !! file_path c aid fp kind = Some (FFile data) → read_fault (file_path c aid fp kind) = None →
  readStreamFile c aid fp kind σ =
  (σ, inr {| sf_payload := m; sf_recorded_at := at_; sf_recorded_err := e;
             sf_stream := Some ws |}).
Proof.
  intros Hat He Hm Hd Hws Hf Hr. unfold readStreamFile.
  rewrite (ReadFile_file _ data) by done. f_equal.
  destruct (unmarshal_marshal _ _ (stream_names_NoDup _ _ _ _ _ _) Hd) as (raw & ns & Hraw & Hns & Hl).
  rewrite Hraw. cbn [wrap_err mbind result_bind].
  rewrite !Hl. clear Hl Hraw.
  unfold stream_envelope_fields in Hns. simpl in Hns.
  apply Forall2_cons_inv_l in Hns as ([k1 v1] & r1 & [K1 V1] & Hns & ->).
  apply Forall2_cons_inv_l in Hns as ([k2 v2] & r2 & [K2 V2] & Hns & ->).
  apply Forall2_cons_inv_l in Hns as ([k3 v3] & r3 & [K3 V3] & Hns & ->).
  apply Forall2_cons_inv_l in Hns as ([k4 v4] & r4 & [K4 V4] & Hns & ->).
  simpl in *. subst.
  assert (∃ l, Forall2 (λ f kn, f.1 = kn.1 ∧ yEncode f.2 = inr kn.2)
      [("payload", of_gomap m); ("stream", stream)] l ∧
    (r4 = l ∧ e = "" ∨ e ≠ "" ∧ ∃ n, r4 = ("error", n) :: l ∧ yEncode (VString e) = inr n))
    as (l & Hl & Hx).
  { case_bool_decide as Hz; simpl in Hns; [by eauto|].
    apply Forall2_cons_inv_l in Hns as ([? n] & l & [? ?] & Hns & ->). simpl in *. subst. eauto 10. }
  apply Forall2_cons_inv_l in Hl as ([? np] & ? & [? Hp] & Hl & ->).
  apply Forall2_cons_inv_l in Hl as ([? nst] & ? & [? Hst] & Hl & ->).
  apply Forall2_nil_inv_l in Hl as ->. simpl in *. subst.
  pose proof (encode_quoted _ _ Hat V4) as ->.
  destruct Hx as [[-> ->]|(Hz & n & -> & Hn)]; simpl; simplify_map_eq;
    rewrite (decode_map _ _ Hm Hp); cbn [wrap_err mbind result_bind]; rewrite (Hws _ Hst); simpl;
    [done|].
  by destruct (encode_string _ _ He Hn) as [dq ->].
Qed.

(** A successful save, write by write. *)
Lemma SaveStream_inr c now aid fp p σ σ' :
  SaveStream c now aid fp (Some p) σ = (σ', inr tt) →
  well_formed p ∧ ∃ d1 d2,
    yMarshal (VStruct (stream_envelope_fields aid fp (filled_at now p) ""
      (payload_any (p_req_payload p))
      (req_stream_any {| wro_type := rq_type (p_req p);
                         wro_frames := framesOut (rq_frames (p_req p));
                         wro_half_close := eventOutPtr (rq_half_close (p_req p)) |}))) = inr d1 ∧
    yMarshal (VStruct (stream_envelope_fields aid fp (filled_at now p) (p_recorded_err p)
      (payload_any (p_resp_payload p))
      (resp_stream_any {| wso_frames := framesOut (rs_frames (p_resp p));
                          wso_end := eventOut (rs_end (p_resp p)) |}))) = inr d2 ∧
    σ' = <[file_path c aid fp "resp" := FFile d2]> (<[file_path c aid fp "req" := FFile d1]> σ).
Proof.
  unfold SaveStream, writeStreamFile. intros (σ0 & [] & Hv & H)%io_bind_inr.
  injection Hv as -> Hv. apply validate_spec in Hv.
  apply io_bind_inr in H as (σ1 & [] & H1 & H2).
  apply io_bind_inr in H1 as (? & d1 & Hd1 & Hw1). injection Hd1 as -> Hd1.
  apply io_bind_inr in H2 as (? & d2 & Hd2 & Hw2). injection Hd2 as -> Hd2.
  apply wrap_err_inr in Hd1, Hd2. apply WriteFile_inr in Hw1 as ->, Hw2 as ->.
  eauto 10.
Qed.

Lemma validate_normal p now : well_formed p → well_formed (reloaded now p).
Proof.
  unfold well_formed, all_seqs, reloaded, seqs. simpl.
  by rewrite <-!list_fmap_compose.
Qed.

Lemma writeStreamFile_frame c aid fp kind env σ p :
  p ≠ file_path c aid fp kind → (writeStreamFile c aid fp kind env σ).1 !! p = σ !! p.
Proof.
  intros Hp. unfold writeStreamFile, mbind, io_bind, lift.
  destruct (wrap_err _ _) as [?|d]; [done|]. by apply WriteFile_frame.
Qed.

Lemma load_after_save_stream {L : YamlLaws} {LS : YamlStreamLaws} c now aid fp p σ σ' :
  fileable aid fp → pair_range p → pair_text p →
  read_fault (file_path c aid fp "req") = None → read_fault (file_path c aid fp "resp") = None →
  SaveStream c now aid fp (Some p) σ = (σ', inr tt) →
  LoadStream c aid fp σ' = (σ', inr (reloaded now p)).
Proof.
  intros [Ha Hf] (Hr1 & Hr2 & Hr3 & Hr4) (Ht1 & Ht2 & Ht3 & Ht4) Hread1 Hread2 Hs.
  apply SaveStream_inr in Hs as (Hwf & d1 & d2 & Hd1 & Hd2 & ->).
  pose proof (req_resp_paths c aid fp Ha Hf) as Hne.
  assert (utf8_valid (filled_at now p)) as Hat.
  { unfold filled_at. case_bool_decide; [apply RFC3339_valid|done]. }
  assert (∀ fs, Forall frame_range fs → Forall frame_ok (framesOut fs)) as Hfs.
  { intros fs Hfs. apply Forall_fmap. eapply Forall_impl; [exact Hfs|]. apply frameOut_ok. }
  assert (known_type (rq_type (p_req p))) as Hty by apply Hwf.
  set (σ' := <[_ := _]> (<[_ := _]> σ)).
  unfold LoadStream, mbind, io_bind, lift.
  rewrite (read_stream_written c aid fp "req" (filled_at now p) "" _ _ d1
    {| ws_type := Some (rq_type (p_req p));
       ws_frames := wire_frame <$> framesOut (rq_frames (p_req p));
       ws_half_close := wire_event <$> eventOutPtr (rq_half_close (p_req p)); ws_end := None |} σ'
    Hat I Ht3 Hd1); [| |unfold σ'; by rewrite lookup_insert_ne, lookup_insert_eq|done].
  2: { intros n Hn. apply decode_req_stream in Hn; simpl in *; auto using known_type_valid.
       by destruct (rq_half_close (p_req p)). }
  rewrite (read_stream_written c aid fp "resp" (filled_at now p) (p_recorded_err p) _ _ d2
    {| ws_type := None; ws_frames := wire_frame <$> framesOut (rs_frames (p_resp p));
       ws_half_close := None; ws_end := Some (wire_event (eventOut (rs_end (p_resp p)))) |} σ'
    Hat Ht2 Ht4 Hd2); [| |unfold σ'; by rewrite lookup_insert_eq|done].
  2: { intros n Hn. by apply decode_resp_stream in Hn; simpl in *; auto. }
  f_equal. unfold assemble, parseWireFrames. cbn [sf_stream ws_type ws_frames ws_half_close ws_end].
  rewrite !parse_framesOut. cbn [mbind result_bind].
  assert (parseWireEvent (wire_event <$> eventOutPtr (rq_half_close (p_req p))) "half_close" false =
    inr (rq_half_close (p_req p))) as ->.
  { by destruct (rq_half_close (p_req p)) as [[]|]. }
  assert (parseWireEvent (Some (wire_event (eventOut (rs_end (p_resp p))))) "end" true =
    inr (Some (rs_end (p_resp p)))) as ->.
  { by destruct (rs_end (p_resp p)). }
  cbn [mbind result_bind sf_payload sf_recorded_at sf_recorded_err].
  change {| p_req := _ |} with (reloaded now p).
  by rewrite (proj2 (validate_spec (reloaded now p)) (validate_normal p now Hwf)).
Qed.
End lemmas.

(** ** A concrete decoder *)

Module ReferenceStream.
Import ReferenceYaml.

Definition field (k : string) (n : ynode) : option ynode :=
  match n with YNode YMapping _ _ _ c => pairs_map c !! k | _ => None end.

Definition int_field (k : string) (n : ynode) : option Z :=
  x ← field k n; match x with YNode YScalar _ _ v _ => parse_int v | _ => None end.

Definition frame (n : ynode) : wireFrame :=
  {| wf_seq := int_field "seq" n; wf_b64 := field "message_b64" n;
     wf_text := field "message_text" n; wf_at := int_field "at_ms" n |}.

Definition event (n : ynode) : wireEvent :=
  {| we_seq := int_field "seq" n; we_at := int_field "at_ms" n |}.

Definition stream (n : ynode) : wireStream :=
  {| ws_type := y_value <$> field "type" n;
     ws_frames := match field "frames" n with
                  | Some (YNode YSequence _ _ _ c) => frame <$> c
                  | _ => []
                  end;
     ws_half_close := event <$> field "half_close" n;
     ws_end := event <$> field "end" n |}.

Definition slib : YamlStreamLib := {| yDecodeStream n := inr (stream n) |}.

Lemma field_struct k fs :
  field k (encode (VStruct fs)) = (list_to_map (prod_map id encode <$> fs) : gmap string ynode) !! k.
Proof.
  simpl. unfold pairs_map. rewrite pairs_of_pairs. f_equal. f_equal.
  apply list_fmap_ext. by intros ? [].
Qed.

Lemma frame_encode f : frame (encode (frame_any f)) = wire_frame f.
Proof.
  destruct f as [s b t a]. unfold frame, int_field, frame_any, wire_frame.
  rewrite !field_struct.
  destruct b, t, a; cbn -[parse_int itoa]; simplify_map_eq; cbn -[parse_int itoa];
    by rewrite ?parse_int_itoa.
Qed.

Lemma event_encode e : event (encode (event_any e)) = wire_event e.
Proof.
  destruct e as [s a]. unfold event, int_field, event_any, wire_event. rewrite !field_struct.
  destruct a; cbn -[parse_int itoa]; simplify_map_eq; cbn -[parse_int itoa];
    by rewrite ?parse_int_itoa.
Qed.

Lemma frames_encode fs : frame <$> (map encode (frame_any <$> fs)) = wire_frame <$> fs.
Proof.
  induction fs as [|f fs IH]; [done|].
  change (frame (encode (frame_any f)) :: (frame <$> map encode (frame_any <$> fs)) =
          wire_frame f :: (wire_frame <$> fs)).
  by rewrite frame_encode, IH.
Qed.

Lemma stream_encode_req s :
  stream (encode (req_stream_any s)) =
  {| ws_type := Some (wro_type s); ws_frames := wire_frame <$> wro_frames s;
     ws_half_close := wire_event <$> wro_half_close s; ws_end := None |}.
Proof.
  destruct s as [t fs h]. unfold stream, req_stream_any. rewrite !field_struct.
  destruct h as [e|]; cbn -[encode frame_any event_any event]; simplify_map_eq;
    cbn -[frame_any event_any event]; rewrite frames_encode; [by rewrite <-event_encode|done].
Qed.

Lemma stream_encode_resp s :
  stream (encode (resp_stream_any s)) =
  {| ws_type := None; ws_frames := wire_frame <$> wso_frames s;
     ws_half_close := None; ws_end := Some (wire_event (wso_end s)) |}.
Proof.
  destruct s as [fs e]. unfold stream, resp_stream_any. rewrite !field_struct.
  cbn -[encode frame_any event_any event]; simplify_map_eq; cbn -[frame_any event_any event].
  by rewrite frames_encode, <-event_encode.
Qed.

Definition slaws : @YamlStreamLaws lib slib.
Proof.
  split.
  - intros s n _ _ _ H. assert (n = encode (req_stream_any s)) as -> by (by injection H).
    exact (f_equal inr (stream_encode_req s)).
  - intros s n _ _ H. assert (n = encode (resp_stream_any s)) as -> by (by injection H).
    exact (f_equal inr (stream_encode_resp s)).
Defined.
End ReferenceStream.

(** ** Properties *)

Section properties.
Context {U : Unicode} {Y : YamlLib} {YS : YamlStreamLib} {O : Faults}.

(** Round trip of a streamed pair: what a successful save wrote is loaded
    back frame for frame, byte for byte and number for number, with the events,
    the payloads, the recorded error and the time stamp. *)
Theorem SaveStream_LoadStream {L : YamlLaws} {LS : YamlStreamLaws} c now aid fp p σ σ' :
  fileable aid fp → pair_range p → pair_text p →
  read_fault (file_path c aid fp "req") = None → read_fault (file_path c aid fp "resp") = None →
  SaveStream c now aid fp (Some p) σ = (σ', inr tt) →
  LoadStream c aid fp σ' = (σ', inr (reloaded now p)).
Proof. apply load_after_save_stream. Qed.

(** Whatever the files hold, a pair that loads is well-formed, and loading
    changes nothing. *)
Theorem LoadStream_well_formed c aid fp σ σ' p :
  LoadStream c aid fp σ = (σ', inr p) → σ' = σ ∧ well_formed p.
Proof.
  assert (∀ kind σ, (readStreamFile c aid fp kind σ).1 = σ) as Hr.
  { intros kind σ0. unfold readStreamFile, ReadFile. by repeat case_match; simplify_eq. }
  unfold LoadStream, mbind, io_bind, lift.
  pose proof (Hr "req" σ) as H1. destruct (readStreamFile _ _ _ "req" _) as [σ1 [?|rq]]; [done|].
  simpl in H1. subst σ1. pose proof (Hr "resp" σ) as H2.
  destruct (readStreamFile _ _ _ "resp" _) as [σ2 [?|rs]]; [done|]. simpl in H2. subst σ2.
  intros [= <- Ha]. split; [done|]. unfold assemble in Ha.
  destruct (sf_stream rq), (sf_stream rs) as [w2|]; try done. destruct (ws_type _); [|done].
  apply bind_inr in Ha as (f1 & _ & Ha). apply bind_inr in Ha as (h & _ & Ha).
  apply bind_inr in Ha as (f2 & _ & Ha). apply bind_inr in Ha as ([e|] & _ & Ha); [|done].
  apply bind_inr in Ha as ([] & Hv & Ha). injection Ha as <-. by apply validate_spec in Hv.
Qed.

(** An invalid pair is refused before anything is written, and a save
    touches the two files of its pair only, on every outcome. *)
Theorem SaveStream_safe c now aid fp p σ :
  (¬ well_formed p → ∃ e, SaveStream c now aid fp (Some p) σ = (σ, inl e)) ∧
  (∀ q, q ≠ file_path c aid fp "req" → q ≠ file_path c aid fp "resp" →
    (SaveStream c now aid fp (Some p) σ).1 !! q = σ !! q).
Proof.
  split.
  - intros Hn. rewrite <-validate_spec in Hn. unfold SaveStream, mbind, io_bind, lift.
    destruct (ValidateStreamPair p) as [e|[]]; [eauto|done].
  - intros q H1 H2. unfold SaveStream, mbind, io_bind, lift.
    destruct (ValidateStreamPair p) as [e|[]]; [done|].
    set (env1 := stream_envelope_fields _ _ _ _ _ (req_stream_any _)).
    set (env2 := stream_envelope_fields _ _ _ _ _ (resp_stream_any _)).
    pose proof (writeStreamFile_frame c aid fp "req" env1 σ q H1) as Hw.
    destruct (writeStreamFile _ _ _ "req" _ _) as [σ1 [?|[]]]; simpl in *; [done|].
    by rewrite writeStreamFile_frame.
Qed.

(** Shapes never cross: what a streamed save wrote is a shape mismatch for
    the unary loader, not a miss and not a payload. *)
Theorem SaveStream_not_unary {L : YamlLaws} c now aid fp p σ σ' :
  fileable aid fp → read_fault (file_path c aid fp "req") = None →
  SaveStream c now aid fp (Some p) σ = (σ', inr tt) →
  ∃ e, Load c aid fp σ' = (σ', inl e) ∧ errors_is e SShapeMismatch ∧
    errors_is e SCassetteMiss = false.
Proof.
  intros [Ha Hf] Hr (_ & d1 & d2 & Hd1 & _ & ->)%SaveStream_inr.
  pose proof (req_resp_paths c aid fp Ha Hf) as Hne.
  unfold Load, Load_into, mbind, io_bind, read_into.
  rewrite (ReadFile_file _ d1); [|done|by rewrite lookup_insert_ne, lookup_insert_eq].
  destruct (unmarshal_marshal _ _ (stream_names_NoDup _ _ _ _ _ _) Hd1) as (raw & ns & -> & Hns & Hl).
  cbn [wrap_err mbind result_bind]. rewrite Hl.
  unfold stream_envelope_fields in Hns. simpl in Hns.
  assert (ns.*1 = ["xrr"; "adapter"; "fingerprint"; "recorded_at"; "payload"; "stream"]) as Hk.
  { do 6 (apply Forall2_cons_inv_l in Hns as ([? ?] & ? & [? ?] & Hns & ->); simpl in *; subst).
    by apply Forall2_nil_inv_l in Hns as ->. }
  destruct (list_to_map (M := gmap string ynode) ns !! "stream") eqn:E; [eauto|].
  apply not_elem_of_list_to_map in E. rewrite Hk in E. set_solver.
Qed.

(** ... and what a unary save wrote is a shape mismatch for the streaming
    loader, as soon as its payloads decode. *)
Theorem Save_not_streamed {L : YamlLaws} env c now aid fp req resp e σ σ' nq np mq mp :
  fileable aid fp →
  read_fault (file_path c aid fp "req") = None → read_fault (file_path c aid fp "resp") = None →
  Save env c now aid fp req resp e σ = (σ', inr tt) →
  yEncode (normalizePayload req) = inr nq →
  yDecodeMap (redactNode nq (activeRedactor env c) "payload") = inr mq →
  yEncode (normalizePayload resp) = inr np →
  yDecodeMap (redactNode np (activeRedactor env c) "payload") = inr mp →
  ∃ e, LoadStream c aid fp σ' = (σ', inl e) ∧ errors_is e SShapeMismatch ∧
    errors_is e SCassetteMiss = false.
Proof.
  intros [Ha Hf] Hr1 Hr2 (n1 & d1 & n2 & d2 & Hn1 & Hd1 & Hn2 & Hd2 & ->)%Save_inr Hq Hmq Hp Hmp.
  pose proof (req_resp_paths c aid fp Ha Hf) as Hne.
  set (σ' := <[_ := _]> (<[_ := _]> σ)).
  assert (∀ kind e1 v n d np1 m, encoded aid fp (RFC3339 now) e1 v = inr n →
    yMarshalNode (redactNode n (activeRedactor env c) "") = inr d → yEncode v = inr np1 →
    yDecodeMap (redactNode np1 (activeRedactor env c) "payload") = inr m →
    σ' !! file_path c aid fp kind = Some (FFile d) → read_fault (file_path c aid fp kind) = None →
    ∃ f, readStreamFile c aid fp kind σ' = (σ', inr f) ∧ sf_stream f = None) as Hread.
  { clear -L. intros kind e1 v n d np1 m Hn Hd Hnp Hm Hf Hr. unfold readStreamFile.
    rewrite (ReadFile_file _ d) by done.
    destruct (written_envelope _ _ _ _ _ _ _ _ _ Hn Hd Hnp) as (raw & -> & Hs & Hp).
    cbn [wrap_err mbind result_bind]. rewrite Hs, Hp, Hm. cbn [wrap_err mbind result_bind]. eauto. }
  destruct (Hread "req" _ _ _ _ _ _ Hn1 Hd1 Hq Hmq) as (f1 & H1 & Hs1);
    [unfold σ'; by rewrite lookup_insert_ne, lookup_insert_eq|done|].
  destruct (Hread "resp" _ _ _ _ _ _ Hn2 Hd2 Hp Hmp) as (f2 & H2 & Hs2);
    [unfold σ'; by rewrite lookup_insert_eq|done|].
  unfold LoadStream, mbind, io_bind, lift. rewrite H1, H2. unfold assemble. rewrite Hs1, Hs2. eauto.
Qed.
End properties.

(** ** Closed instances *)

Section witnesses.
Local Existing Instance ascii_only.
Local Existing Instance ReferenceYaml.lib.
Local Existing Instance ReferenceYaml.laws.
Local Existing Instance ReferenceStream.slib.
Local Existing Instance ReferenceStream.slaws.
Local Existing Instance no_faults.

Definition demo_frame (seq : Z) (msg : string) (text : bool) : StreamFrame :=
  {| f_seq := seq; f_message := msg; f_text := text; f_at := Some 5%Z |}.

(** Two sends, a receive between them, half-close, end. *)
Definition demo_pair : StreamPair :=
  {| p_req := {| rq_type := StreamBidi;
                 rq_frames := [demo_frame 0 "ab" false; demo_frame 2 "null" true];
                 rq_half_close := Some {| ev_seq := 3; ev_at := None |} |};
     p_resp := {| rs_frames := [demo_frame 1 "c" false];
                  rs_end := {| ev_seq := 4; ev_at := Some 9%Z |} |};
     p_req_payload := Some {[ "service" := VString "pkg.Chat" ]};
     p_resp_payload := None;
     p_recorded_at := ""; p_recorded_err := "boom" |}.

(** With the reference YAML and no faults, a valid pair is saved into an existing
    directory. *)
Lemma demo_save_stream_ok aid fp p :
  ValidateStreamPair p = inr tt →
  let req := file_path demo_cassette aid fp "req" in
  let resp := file_path demo_cassette aid fp "resp" in
  demo_fs !! filepath_Dir req = Some FDir → bool_decide (filepath_Dir resp = req) = false →
  bool_decide (req = resp) = false →
  demo_fs !! filepath_Dir resp = Some FDir →
  bool_decide (req ∈ ["cas"]) || bool_decide (resp ∈ ["cas"]) = false →
  ∃ σ, SaveStream demo_cassette 0 aid fp (Some p) demo_fs = (σ, inr tt).
Proof.
  intros Hv req resp Hd1 Hne1%bool_decide_eq_false Hne2%bool_decide_eq_false Hd2 Hne3.
  assert (∀ path, path ∉ ["cas"] → demo_fs !! path = None) as Hnone.
  { intros path Hp. unfold demo_fs. apply lookup_singleton_ne. set_solver. }
  apply orb_false_iff in Hne3 as [H1%bool_decide_eq_false%Hnone H2%bool_decide_eq_false%Hnone].
  unfold SaveStream, mbind, io_bind, lift. rewrite Hv.
  assert (∀ kind env (σ : fsys),
    σ !! filepath_Dir (file_path demo_cassette aid fp kind) = Some FDir →
    σ !! file_path demo_cassette aid fp kind = None →
    ∃ d, writeStreamFile demo_cassette aid fp kind env σ =
      (<[file_path demo_cassette aid fp kind := FFile d]> σ, inr tt)) as Hw.
  { clear. intros kind env σ Hd Hp. unfold writeStreamFile, mbind, io_bind, lift.
    cbn [wrap_err yMarshal ReferenceYaml.lib]. unfold WriteFile. rewrite Hd, Hp. by eexists. }
  edestruct (Hw "req") as [d1 ->]; [done|done|]. fold req.
  edestruct (Hw "resp") as [d2 ->];
    [rewrite lookup_insert_ne by done; done|rewrite lookup_insert_ne by done; done|].
  eauto.
Qed.

Lemma demo_saved_stream :
  ∃ σ, SaveStream demo_cassette 0 "grpc" "0011aabb" (Some demo_pair) demo_fs = (σ, inr tt).
Proof. apply demo_save_stream_ok; [vm_compute; reflexivity|reflexivity..]. Qed.

Lemma demo_pair_range : pair_range demo_pair.
Proof.
  unfold pair_range, frame_range, event_range, at_ok, int64. simpl.
  repeat constructor; simpl; lia.
Qed.

Lemma demo_pair_text : pair_text demo_pair.
Proof.
  split_and!; [done|done|by apply map_Forall_singleton|apply map_Forall_empty].
Qed.

Lemma SaveStream_LoadStream_witness :
  ∃ σ, LoadStream demo_cassette "grpc" "0011aabb" σ = (σ, inr (reloaded 0 demo_pair)).
Proof.
  destruct demo_saved_stream as [σ Hs]. exists σ.
  exact (SaveStream_LoadStream demo_cassette 0 "grpc" "0011aabb" demo_pair demo_fs σ
    (conj eq_refl eq_refl) demo_pair_range demo_pair_text eq_refl eq_refl Hs).
Defined.

Lemma LoadStream_well_formed_witness : well_formed (reloaded 0 demo_pair).
Proof.
  destruct demo_saved_stream as [σ Hs].
  apply (LoadStream_well_formed demo_cassette "grpc" "0011aabb" σ σ).
  exact (load_after_save_stream demo_cassette 0 "grpc" "0011aabb" demo_pair demo_fs σ
    (conj eq_refl eq_refl) demo_pair_range demo_pair_text eq_refl eq_refl Hs).
Defined.

Lemma SaveStream_not_unary_witness :
  ∃ σ e, Load demo_cassette "grpc" "0011aabb" σ = (σ, inl e) ∧ errors_is e SShapeMismatch.
Proof.
  destruct demo_saved_stream as [σ Hs].
  destruct (SaveStream_not_unary (O := no_faults) demo_cassette 0 "grpc" "0011aabb" demo_pair demo_fs σ
    (conj eq_refl eq_refl) eq_refl Hs) as (e & ? & ? & _). eauto.
Defined.

Lemma Save_not_streamed_witness :
  ∃ σ e, LoadStream demo_cassette "exec" "0011aabb" σ = (σ, inl e) ∧ errors_is e SShapeMismatch.
Proof.
  destruct (demo_save_ok "hunter2" None) as [σ Hs].
  destruct (Save_not_streamed (O := no_faults) no_env demo_cassette 0 "exec" "0011aabb"
    (of_gomap (demo_req "hunter2")) (of_gomap demo_resp) None demo_fs σ _ _ _ _
    (conj eq_refl eq_refl) eq_refl eq_refl Hs eq_refl eq_refl eq_refl eq_refl) as (e & ? & ? & _).
  eauto.
Defined.
End witnesses.
