(* ===== verification/Session.v ===== *)
(** go/xrr.go, go/session.go and go/env.go: the adapter interface, the session
    that dispatches on its mode, and its construction from the environment. *)

From S2P Require Import Prelude GoStrings Values Sha256 Yaml Redact Os Stream Cassette.

(** ** xrr.go *)

Definition ModeRecord : string := "record".
Definition ModeReplay : string := "replay".
Definition ModePassthrough : string := "passthrough".

(** What an adapter gives the session: its id, the fingerprint of a request and
    the values the cassette encodes. *)
Class Adapter (Req Resp : Type) := {
  ID : string;
  Fingerprint : Req → result string;
  req_any : Req → any;
  resp_any : Resp → any;
}.

(** What the session relies on: an id that can stand in a file name, and
    fingerprints of eight hexadecimal digits. *)
Class AdapterLaws (Req Resp : Type) {A : Adapter Req Resp} := {
  ID_plain : contains_char ID slash = false;
  Fingerprint_hex q fp : Fingerprint q = inr fp → fingerprint_shape fp;
}.

(** ** session.go *)

(** One session object: its mode, cassette, streamed-open counters and frame
    scrub hook. *)
Record FileSession := {
  mode : string;
  cassette : option FileCassette;
  streamN : gmap string Z;
  streamScrub : option StreamScrubFunc;
}.

Definition NewSession (m : string) (c : option FileCassette) : FileSession :=
  {| mode := m; cassette := c; streamN := ∅; streamScrub := None |}.

Definition NewSessionWithStreamScrub (m : string) (c : option FileCassette)
    (f : option StreamScrubFunc) : FileSession :=
  {| mode := m; cassette := c; streamN := ∅; streamScrub := f |}.

(** What [Record] returns: a live response, a replayed payload, or nil. *)
Inductive response (Resp : Type) : Type :=
| RLive (r : Resp)
| RRaw (adapterID : string) (payload : option (gmap string any)).
Arguments RLive {_} _.
Arguments RRaw {_} _ _.

(** A call that returns a pair of a possibly nil value and a possibly nil
    error. *)
Definition outcome (A : Type) : Type := (option A * option err)%type.
Definition call (A : Type) : Type := fsys → fsys * outcome A.

Section session.
Context {U : Unicode} {Y : YamlLib} {O : Faults} (env : string → string).
Context {Req Resp : Type} {A : Adapter Req Resp}.

Definition nil_cassette : err := EPanic "nil pointer dereference".

Definition record (s : FileSession) (now : Z) (req : Req) (do : call Resp)
    : call (response Resp) := λ σ,
  let '(σ1, (resp, doErr)) := do σ in
  match Fingerprint req with
  | inl e => (σ1, (None, Some (EWrap "xrr: fingerprint: " e)))
  | inr fp =>
    match cassette s with
    | None => (σ1, (None, Some nil_cassette))
    | Some c =>
      match Save env c now ID fp (req_any req) (from_option resp_any VNil resp) doErr σ1 with
      | (σ2, inl e) => (σ2, (None, Some (EWrap "xrr: save: " e)))
      | (σ2, inr _) => (σ2, (RLive <$> resp, doErr))
      end
    end
  end.

Definition replay (s : FileSession) (req : Req) : call (response Resp) := λ σ,
  match Fingerprint req with
  | inl e => (σ, (None, Some (EWrap "xrr: fingerprint: " e)))
  | inr fp =>
    match cassette s with
    | None => (σ, (None, Some nil_cassette))
    | Some c =>
      match Load c ID fp σ with
      | (σ1, inl e) => (σ1, (None, Some e))
      | (σ1, inr (recordedErr, _, respPayload)) =>
        (σ1, (Some (RRaw ID respPayload),
              if bool_decide (recordedErr = "") then None else Some (ENew recordedErr)))
      end
    end
  end.

Definition Record_ (s : FileSession) (now : Z) (req : Req) (do : call Resp)
    : call (response Resp) :=
  if bool_decide (mode s = ModeRecord) then record s now req do else
  if bool_decide (mode s = ModeReplay) then replay s req else
  if bool_decide (mode s = ModePassthrough) then
    λ σ, let '(σ1, (resp, e)) := do σ in (σ1, (RLive <$> resp, e))
  else λ σ, (σ, (None, Some (ENew ("xrr: unknown mode " +:+ Quote (mode s))))).
End session.

(** ** env.go *)

Definition EnvMode : string := "XRR_MODE".
Definition EnvCassetteDir : string := "XRR_CASSETTE_DIR".

Definition known_mode (m : string) : bool :=
  bool_decide (m = ModeRecord) || bool_decide (m = ModeReplay) || bool_decide (m = ModePassthrough).

Section environment.
Context {U : Unicode} {O : Faults} (env : string → string).

(** The directory check of each mode. *)
Definition not_a_directory (d : string) : err :=
  ENew ("xrr: " +:+ EnvCassetteDir +:+ "=" +:+ Quote d +:+ " is not a directory").

Definition check_record_dir (d : string) : io unit := λ σ,
  match Stat d σ with
  | (σ, inr isdir) => if isdir then (σ, inr tt) else (σ, inl (not_a_directory d))
  | (σ, inl e) =>
    if IsNotExist e then
      io_wrap ("xrr: failed to create " +:+ EnvCassetteDir +:+ "=" +:+ Quote d +:+ ": ") (MkdirAll d) σ
    else
      (σ, inl (EWrap ("xrr: failed to stat " +:+ EnvCassetteDir +:+ "=" +:+ Quote d +:+ ": ") e))
  end.

Definition check_replay_dir (d : string) : io unit := λ σ,
  match Stat d σ with
  | (σ, inr isdir) => if isdir then (σ, inr tt) else (σ, inl (not_a_directory d))
  | (σ, inl e) =>
    if IsNotExist e then
      (σ, inl (ENew ("xrr: " +:+ EnvCassetteDir +:+ "=" +:+ Quote d +:+
         " does not exist (replay mode requires an existing cassette directory)")))
    else
      (σ, inl (EWrap ("xrr: failed to stat " +:+ EnvCassetteDir +:+ "=" +:+ Quote d +:+ ": ") e))
  end.

Definition SessionFromEnv : io (option FileSession) :=
  let m := env EnvMode in
  if bool_decide (m = "") then mret None else
  if negb (known_mode m) then
    throw (ENew ("xrr: " +:+ EnvMode +:+ "=" +:+ Quote m +:+
                 " is not a valid mode (want record|replay|passthrough)"))
  else
  if bool_decide (m = ModePassthrough) then mret (Some (NewSession m None)) else
  let d := env EnvCassetteDir in
  if bool_decide (d = "") then
    throw (ENew ("xrr: " +:+ EnvMode +:+ "=" +:+ Quote m +:+ " requires " +:+ EnvCassetteDir +:+
                 " to be set"))
  else
    (if bool_decide (m = ModeRecord) then check_record_dir d else check_replay_dir d);;
    mret (Some (NewSession m (Some (NewFileCassette d)))).
End environment.

(** ** Properties *)

Section properties.
Context {U : Unicode} {Y : YamlLib} {O : Faults} (env : string → string).
Context {Req Resp : Type} {A : Adapter Req Resp}.

Lemma hex_no_slash fp : fingerprint_shape fp → contains_char fp slash = false.
Proof.
  intros [_ H]. induction fp as [|c fp IH]; simpl in *; [done|].
  apply andb_True in H as [Hc H]. rewrite (IH H), orb_false_r.
  apply bool_decide_eq_false_2. intros ->. done.
Qed.

Lemma fingerprint_fileable {AL : AdapterLaws Req Resp} q fp :
  Fingerprint q = inr fp → fileable ID fp.
Proof. intros H. split; [apply ID_plain|]. by eapply hex_no_slash, Fingerprint_hex. Qed.

(** C10. Record then replay: the caller of a recording session sees the result
    of the real call unchanged; a replaying session on the same directory then
    returns, for the same request, what decoding makes of the redacted response
    and an error with the recorded text - without making the call. *)
Theorem Record_replay {L : YamlLaws} {AL : AdapterLaws Req Resp}
    s s' c now now' req fp do do' σ σ1 σ2 resp e nq np mq mp :
  mode s = ModeRecord → cassette s = Some c → mode s' = ModeReplay → cassette s' = Some c →
  (∀ p, read_fault p = None) → utf8_valid (recorded_text e) →
  do σ = (σ1, (resp, e)) → Fingerprint req = inr fp →
  Save env c now ID fp (req_any req) (from_option resp_any VNil resp) e σ1 = (σ2, inr tt) →
  yEncode (normalizePayload (req_any req)) = inr nq →
  yDecodeMap (redactNode nq (activeRedactor env c) "payload") = inr mq →
  yEncode (normalizePayload (from_option resp_any VNil resp)) = inr np →
  yDecodeMap (redactNode np (activeRedactor env c) "payload") = inr mp →
  Record_ env s now req do σ = (σ2, (RLive <$> resp, e)) ∧
  Record_ env s' now' req do' σ2 =
    (σ2, (Some (RRaw ID mp),
          if bool_decide (recorded_text e = "") then None else Some (ENew (recorded_text e)))).
Proof.
  intros Hm Hc Hm' Hc' Hf He Hdo Hfp Hs Hnq Hmq Hnp Hmp. unfold Record_. rewrite Hm, Hm'.
  rewrite bool_decide_eq_true_2 by done. split.
  - unfold record. by rewrite Hdo, Hfp, Hc, Hs.
  - rewrite bool_decide_eq_false_2, bool_decide_eq_true_2 by done.
    unfold replay. rewrite Hfp, Hc'.
    destruct (Load_after_Save env c now ID fp _ _ e σ1 σ2 (fingerprint_fileable req fp Hfp) He
      (Hf _) (Hf _) Hs) as (nq' & np' & Hq & Hp & ->).
    rewrite Hnq in Hq. injection Hq as <-. rewrite Hnp in Hp. injection Hp as <-.
    by rewrite Hmq, Hmp.
Qed.

(** Only recording and passing through make the call, and only recording
    writes: a replay never calls and changes no file, passing through is the
    call itself, an unknown mode does neither. *)
Theorem Record_modes s now req do do' σ :
  (mode s = ModeReplay →
    Record_ env s now req do σ = Record_ env s now req do' σ ∧
    (Record_ env s now req do σ).1 = σ) ∧
  (mode s = ModePassthrough →
    Record_ env s now req do σ = ((do σ).1, (RLive <$> (do σ).2.1, (do σ).2.2))) ∧
  (known_mode (mode s) = false →
    ∃ e, Record_ env s now req do σ = (σ, (None, Some e))).
Proof.
  unfold Record_, known_mode. split_and!.
  - intros ->. split; [done|]. rewrite bool_decide_eq_false_2, bool_decide_eq_true_2 by done.
    unfold replay. destruct (Fingerprint req) as [|fp]; [done|].
    destruct (cassette s) as [c|]; [|done].
    assert (∀ kind, (read_into yDecodeMap c ID fp kind σ).1 = σ) as Hr.
    { intros kind. unfold read_into, ReadFile. by repeat case_match; simplify_eq. }
    unfold Load, Load_into, mbind, io_bind.
    pose proof (Hr "req") as H1. destruct (read_into _ _ _ _ "req" _) as [σ1 [?|q]]; simpl in *; [done|].
    subst. pose proof (Hr "resp") as H2.
    destruct (read_into _ _ _ _ "resp" _) as [σ2 [?|p]]; by simpl in *.
  - intros ->. rewrite bool_decide_eq_false_2, bool_decide_eq_false_2, bool_decide_eq_true_2 by done.
    by destruct (do σ) as [? [??]].
  - rewrite !orb_false_iff. intros [[-> ->] ->]. eauto.
Qed.

(** A session from the environment is usable: no mode, no session; a mode
    it returns is a valid one, and unless it is passthrough the session has a
    cassette whose directory exists - created on the way when recording, never
    when replaying. *)
Theorem SessionFromEnv_usable σ σ' os :
  SessionFromEnv env σ = (σ', inr os) →
  match os with
  | None => env EnvMode = "" ∧ σ' = σ
  | Some s =>
    known_mode (mode s) ∧ mode s = env EnvMode ∧
    (mode s = ModePassthrough → cassette s = None ∧ σ' = σ) ∧
    (mode s ≠ ModePassthrough →
      ∃ d, cassette s = Some (NewFileCassette d) ∧ d ≠ "" ∧ σ' !! d = Some FDir) ∧
    (mode s = ModeReplay → σ' = σ)
  end.
Proof.
  unfold SessionFromEnv. set (m := env EnvMode). set (d := env EnvCassetteDir).
  case_bool_decide as Hm; [by intros [= <- <-]|].
  destruct (known_mode m) eqn:Hk; simpl; [|done].
  case_bool_decide as Hp.
  { intros [= <- <-]. simpl. rewrite Hk, Hp. split_and!; try done. }
  case_bool_decide as Hd; [done|].
  intros (σ1 & [] & Hc & H)%io_bind_inr. injection H as <- <-. simpl. rewrite Hk.
  assert (σ1 !! d = Some FDir ∧ (m = ModeReplay → σ1 = σ)) as [Hdir Hre];
    [|split_and!; [done|done|by intros ?|intros _; by exists d|done]].
  case_bool_decide as Hr.
  - unfold check_record_dir, Stat in Hc. split; [|by rewrite Hr].
    destruct (read_fault d); [done|]. destruct (σ !! d) as [[]|] eqn:E; simpl in Hc;
      [done|by simplify_eq|].
    apply io_wrap_inr in Hc. unfold MkdirAll in Hc. rewrite E in Hc.
    destruct (mkdir_fault d); [done|]. injection Hc as <-. by rewrite lookup_insert_eq.
  - unfold check_replay_dir, Stat in Hc.
    destruct (read_fault d); [done|]. destruct (σ !! d) as [[]|] eqn:E; simpl in Hc; [done| |done].
    by simplify_eq.
Qed.
End properties.

(** ** Closed instances *)

Section witnesses.
Local Existing Instance ascii_only.
Local Existing Instance ReferenceYaml.lib.
Local Existing Instance ReferenceYaml.laws.
Local Existing Instance no_faults.

(** An adapter for the examples: requests and responses are maps. *)
Definition demo_adapter : Adapter (gmap string any) (gmap string any) :=
  {| ID := "exec"; Fingerprint _ := inr "0011aabb"; req_any := of_gomap; resp_any := of_gomap |}.
Local Existing Instance demo_adapter.

Definition demo_adapter_laws : AdapterLaws (gmap string any) (gmap string any).
Proof.
  split; [done|]. intros q fp H. assert (fp = "0011aabb") as -> by (by injection H). done.
Defined.
Local Existing Instance demo_adapter_laws.

Definition demo_session (m : string) : FileSession := NewSession m (Some demo_cassette).
Definition demo_do : call (gmap string any) := λ σ, (σ, (Some demo_resp, Some (ENew "boom"))).
Definition never : call (gmap string any) := λ σ, (∅, (None, None)).

Lemma Record_replay_witness :
  ∃ σ, Record_ no_env (demo_session ModeReplay) 7 (demo_req "hunter2") never σ =
    (σ, (Some (RRaw "exec" (Some demo_resp)), Some (ENew "boom"))).
Proof.
  destruct (demo_save_ok "hunter2" (Some (ENew "boom"))) as [σ Hs]. exists σ.
  destruct (Record_replay (O := no_faults) (A := demo_adapter) no_env (demo_session ModeRecord)
    (demo_session ModeReplay) demo_cassette 0 7 (demo_req "hunter2") "0011aabb" demo_do never
    demo_fs demo_fs σ (Some demo_resp) (Some (ENew "boom"))
    (ReferenceYaml.encode (of_gomap (demo_req "hunter2"))) (ReferenceYaml.encode (of_gomap demo_resp))
    (Some (demo_req "<redacted:TOKEN>")) (Some demo_resp)) as [_ H];
    [done|done|done|done|done|done|done|done|exact Hs|done| |done| |exact H];
    vm_compute; reflexivity.
Defined.

Definition demo_env (k : string) : string :=
  if bool_decide (k = EnvMode) then ModeRecord else
  if bool_decide (k = EnvCassetteDir) then "new" else "".

Lemma SessionFromEnv_usable_witness :
  ∃ d, (SessionFromEnv demo_env demo_fs).1 !! d = Some FDir ∧ d ≠ "".
Proof.
  destruct (SessionFromEnv_usable demo_env demo_fs (SessionFromEnv demo_env demo_fs).1
    (Some (NewSession ModeRecord (Some (NewFileCassette "new"))))) as (_ & _ & _ & H & _);
    [vm_compute; reflexivity|].
  destruct H as (d & _ & Hd & Hdir); [done|]. by exists d.
Defined.
End witnesses.
