(* ===== verification/StreamSession.v ===== *)
(** go/stream_session.go and go/stream_scrub.go: occurrence counters, the
    recording of a live stream and the replay of a recorded one, with the frame
    scrub hook on both sides. *)

From S2P Require Import Prelude GoStrings Sha256 Values Yaml Redact Os CanonicalJson CanonicalInj Stream Cassette StreamCassette Session.

(** ** Scrubbing *)

(** [scrubFrame], and [ScrubStreamFrame] on a session's hook. *)
Definition scrubFrame (scrub : option StreamScrubFunc) (d : StreamDirection)
    (info : StreamScrubInfo) (data : string) : string :=
  match scrub with None => data | Some f => f d info data end.

Definition ScrubStreamFrame (s : FileSession) (d : StreamDirection) (info : StreamScrubInfo)
    (data : string) : string := scrubFrame (streamScrub s) d info data.

(** ** Occurrence counters *)

Definition nul : string := str1 "000".

Definition set_streamN (s : FileSession) (m : gmap string Z) : FileSession :=
  {| mode := mode s; cassette := cassette s; streamN := m; streamScrub := streamScrub s |}.

Definition nextStreamN (s : FileSession) (key : string) : FileSession * Z :=
  let n := default 0%Z (streamN s !! key) in
  (set_streamN s (<[key := (n + 1)%Z]> (streamN s)), n).

Section opens.
Context {U : Unicode} {F : FloatFormat}.

(** The fingerprint with the ordinal, [-1] for content-addressed opens. *)
Definition streamOpenFingerprint (s : FileSession) (o : StreamOpen)
    : FileSession * result (string * Z) :=
  if o_counter o then
    match streamCanonical o (-1) with
    | inl e => (s, inl e)
    | inr base =>
      let '(s', n) := nextStreamN s (o_adapter o +:+ nul +:+ base) in
      (s', fp ← StreamFingerprint o n; mret (fp, n))
    end
  else (s, fp ← StreamFingerprint o (-1); mret (fp, (-1)%Z)).

Definition checkStreamOpen (s : FileSession) (o : StreamOpen) (want verb : string)
    : result FileCassette :=
  if bool_decide (mode s ≠ want) then
    inl (ENew ("xrr: " +:+ verb +:+ " requires " +:+ want +:+ " mode (session is " +:+
               Quote (mode s) +:+ ")"))
  else match cassette s with
       | None => inl (ENew ("xrr: " +:+ verb +:+ " requires a cassette"))
       | Some c =>
         if bool_decide (o_adapter o = "")
         then inl (ENew ("xrr: " +:+ verb +:+ " requires an adapter id"))
         else inr c
       end.

(** ** Recording *)

Record StreamRecording := {
  rec_cassette : FileCassette;
  rec_adapter : string;
  rec_fp : string;
  rec_type : string;
  rec_payload : gmap string any;
  rec_opened : Z;
  rec_scrub : option StreamScrubFunc;
  rec_seq : Z;
  rec_sends : list StreamFrame;
  rec_recvs : list StreamFrame;
  rec_half : option StreamEvent;
  rec_finished : bool;
}.

(** [opened] is the monotonic clock in milliseconds. *)
Definition OpenStreamRecord (s : FileSession) (o : StreamOpen) (opened : Z)
    : FileSession * result StreamRecording :=
  match checkStreamOpen s o ModeRecord "OpenStreamRecord" with
  | inl e => (s, inl e)
  | inr c =>
    let '(s', r) := streamOpenFingerprint s o in
    (s', '(fp, n) ← r;
         mret {| rec_cassette := c; rec_adapter := o_adapter o; rec_fp := fp;
                 rec_type := o_type o;
                 rec_payload := if (0 <=? n)%Z then <["n" := VInt KInt n]> (o_payload o)
                                else o_payload o;
                 rec_opened := opened; rec_scrub := streamScrub s;
                 rec_seq := 0; rec_sends := []; rec_recvs := []; rec_half := None;
                 rec_finished := false |})
  end.
End opens.

Definition scrubInfo (r : StreamRecording) : StreamScrubInfo :=
  {| si_adapter := rec_adapter r; si_type := rec_type r |}.

Definition elapsedMs (r : StreamRecording) (now : Z) : Z :=
  let ms := (now - rec_opened r)%Z in if (ms <? 0)%Z then 0%Z else ms.

(** The event log after one more event. *)
Definition with_log (r : StreamRecording) (seq : Z) (sends recvs : list StreamFrame)
    (half : option StreamEvent) (finished : bool) : StreamRecording :=
  {| rec_cassette := rec_cassette r; rec_adapter := rec_adapter r; rec_fp := rec_fp r;
     rec_type := rec_type r; rec_payload := rec_payload r; rec_opened := rec_opened r;
     rec_scrub := rec_scrub r; rec_seq := seq; rec_sends := sends; rec_recvs := recvs;
     rec_half := half; rec_finished := finished |}.

Definition RecordSend (r : StreamRecording) (now : Z) (message : string) : StreamRecording :=
  if rec_finished r then r else
  let msg := scrubFrame (rec_scrub r) StreamSend (scrubInfo r) message in
  let f := {| f_seq := rec_seq r; f_message := msg; f_text := false;
              f_at := Some (elapsedMs r now) |} in
  with_log r (rec_seq r + 1) (rec_sends r ++ [f]) (rec_recvs r) (rec_half r) false.

Definition RecordRecv (r : StreamRecording) (now : Z) (message : string) : StreamRecording :=
  if rec_finished r then r else
  let msg := scrubFrame (rec_scrub r) StreamRecv (scrubInfo r) message in
  let f := {| f_seq := rec_seq r; f_message := msg; f_text := false;
              f_at := Some (elapsedMs r now) |} in
  with_log r (rec_seq r + 1) (rec_sends r) (rec_recvs r ++ [f]) (rec_half r) false.

Definition RecordHalfClose (r : StreamRecording) (now : Z) : StreamRecording :=
  if rec_finished r then r else
  match rec_half r with
  | Some _ => r
  | None =>
    with_log r (rec_seq r + 1) (rec_sends r) (rec_recvs r)
      (Some {| ev_seq := rec_seq r; ev_at := Some (elapsedMs r now) |}) false
  end.

(** The pair that [Finish] hands to the cassette. *)
Definition recorded_pair (r : StreamRecording) (now : Z) (respPayload : option (gmap string any))
    (terminalErr : option err) : StreamPair :=
  {| p_req := {| rq_type := rec_type r; rq_frames := rec_sends r; rq_half_close := rec_half r |};
     p_resp := {| rs_frames := rec_recvs r;
                  rs_end := {| ev_seq := rec_seq r; ev_at := Some (elapsedMs r now) |} |};
     p_req_payload := Some (rec_payload r);
     p_resp_payload := Some (default ∅ respPayload);
     p_recorded_at := "";
     p_recorded_err := recorded_text terminalErr |}.

Section io.
Context {U : Unicode} {Y : YamlLib} {YS : YamlStreamLib} {O : Faults} {F : FloatFormat}.

(** [wall] is the clock's reading in seconds. *)
Definition Finish (r : StreamRecording) (wall now : Z) (respPayload : option (gmap string any))
    (terminalErr : option err) (σ : fsys) : fsys * (StreamRecording * result unit) :=
  if rec_finished r then (σ, (r, inl (ENew "xrr: stream already finished"))) else
  let r' := with_log r (rec_seq r + 1) (rec_sends r) (rec_recvs r) (rec_half r) true in
  let '(σ', res) := SaveStream (rec_cassette r) wall (rec_adapter r) (rec_fp r)
                      (Some (recorded_pair r now respPayload terminalErr)) σ in
  (σ', (r', wrap_err "xrr: save stream: " res)).

(** ** Replaying *)

Record StreamReplay := {
  rep_fp : string;
  rep_pair : StreamPair;
  rep_scrub : option StreamScrubFunc;
  rep_info : StreamScrubInfo;
  rep_send : nat;
  rep_recv : nat;
  rep_mismatch : option err;
}.

Definition OpenStreamReplay (s : FileSession) (o : StreamOpen) (σ : fsys)
    : fsys * (FileSession * result StreamReplay) :=
  match checkStreamOpen s o ModeReplay "OpenStreamReplay" with
  | inl e => (σ, (s, inl e))
  | inr c =>
    match streamOpenFingerprint s o with
    | (s', inl e) => (σ, (s', inl e))
    | (s', inr (fp, _)) =>
      match LoadStream c (o_adapter o) fp σ with
      | (σ', inl e) => (σ', (s', inl e))
      | (σ', inr pr) =>
        (σ', (s',
          if bool_decide (rq_type (p_req pr) ≠ o_type o) then
            inl (EWrap ("xrr: recorded stream type " +:+ Quote (rq_type (p_req pr)) +:+
                        ", requested " +:+ Quote (o_type o) +:+ ": ") ErrShapeMismatch)
          else
            inr {| rep_fp := fp; rep_pair := pr; rep_scrub := streamScrub s;
                   rep_info := {| si_adapter := o_adapter o; si_type := o_type o |};
                   rep_send := 0; rep_recv := 0; rep_mismatch := None |}))
      end
    end
  end.
End io.

Definition terminalErr (r : StreamReplay) : err :=
  if bool_decide (p_recorded_err (rep_pair r) = "") then EOF else ENew (p_recorded_err (rep_pair r)).

Definition with_pos (r : StreamReplay) (send recv : nat) (m : option err) : StreamReplay :=
  {| rep_fp := rep_fp r; rep_pair := rep_pair r; rep_scrub := rep_scrub r; rep_info := rep_info r;
     rep_send := send; rep_recv := recv; rep_mismatch := m |}.

Definition fail (r : StreamReplay) (m : err) : StreamReplay * option err :=
  (with_pos r (rep_send r) (rep_recv r) (Some m), Some m).

Definition send_mismatch (i : nat) (recorded message : string) : err :=
  EMismatch "send" i ("expected sha256 " +:+ hash_hex recorded +:+ ", got sha256 " +:+
                      hash_hex message).

Definition half_close_mismatch (i s : nat) : err :=
  EMismatch "half_close" i ("half-close after " +:+ itoa_nat i +:+ " sends, recording has " +:+
                            itoa_nat s).

Definition Send (r : StreamReplay) (message : string) : StreamReplay * option err :=
  match rep_mismatch r with
  | Some m => (r, Some m)
  | None =>
    match rq_frames (p_req (rep_pair r)) !! rep_send r with
    | None => (r, Some (terminalErr r))
    | Some f =>
      let message := scrubFrame (rep_scrub r) StreamSend (rep_info r) message in
      if bool_decide (message = f_message f)
      then (with_pos r (S (rep_send r)) (rep_recv r) None, None)
      else fail r (send_mismatch (rep_send r) (f_message f) message)
    end
  end.

Definition HalfClose (r : StreamReplay) : StreamReplay * option err :=
  match rep_mismatch r with
  | Some m => (r, Some m)
  | None =>
    let s := length (rq_frames (p_req (rep_pair r))) in
    if (rep_send r <? s) then fail r (half_close_mismatch (rep_send r) s) else (r, None)
  end.

Definition Recv (r : StreamReplay) : StreamReplay * result string :=
  match rep_mismatch r with
  | Some m => (r, inl m)
  | None =>
    match rs_frames (p_resp (rep_pair r)) !! rep_recv r with
    | None => (r, inl (terminalErr r))
    | Some f => (with_pos r (rep_send r) (S (rep_recv r)) None, inr (f_message f))
    end
  end.

(** ** Logs of events *)

Inductive rec_event : Type :=
| LogSend (now : Z) (msg : string)
| LogRecv (now : Z) (msg : string)
| LogHalfClose (now : Z).

Definition log_event (r : StreamRecording) (e : rec_event) : StreamRecording :=
  match e with
  | LogSend now m => RecordSend r now m
  | LogRecv now m => RecordRecv r now m
  | LogHalfClose now => RecordHalfClose r now
  end.

Definition log_events (r : StreamRecording) (evs : list rec_event) : StreamRecording :=
  foldl log_event r evs.

Definition sends_of (evs : list rec_event) : list string :=
  omap (λ e, match e with LogSend _ m => Some m | _ => None end) evs.
Definition recvs_of (evs : list rec_event) : list string :=
  omap (λ e, match e with LogRecv _ m => Some m | _ => None end) evs.

Definition messages (fs : list StreamFrame) : list string := f_message <$> fs.

(** ** A client's operations on a replay *)

Inductive client_op : Type := OpSend (m : string) | OpHalfClose | OpRecv.

(** The reply: [inl] for a send or half-close, [inr] for a receive. *)
Definition reply : Type := (option err + result string)%type.

Definition replay_op (r : StreamReplay) (op : client_op) : StreamReplay * reply :=
  match op with
  | OpSend m => let '(r', e) := Send r m in (r', inl e)
  | OpHalfClose => let '(r', e) := HalfClose r in (r', inl e)
  | OpRecv => let '(r', x) := Recv r in (r', inr x)
  end.

Fixpoint replay_ops (r : StreamReplay) (ops : list client_op) : StreamReplay * list reply :=
  match ops with
  | [] => (r, [])
  | op :: ops' =>
    let '(r1, x) := replay_op r op in
    let '(r2, xs) := replay_ops r1 ops' in (r2, x :: xs)
  end.

(** ** The specification of a replay: two queues

    What is still to be sent, in order, and what is still to be delivered; past
    either the terminal, forever; and a poison once the client diverged. *)
Record script := {
  sc_done : nat;
  sc_sends : list string;
  sc_recvs : list string;
  sc_terminal : err;
  sc_dead : option err;
}.

Definition script_op (sc : script) (op : client_op) : script * reply :=
  let advance done sends recvs dead :=
    {| sc_done := done; sc_sends := sends; sc_recvs := recvs;
       sc_terminal := sc_terminal sc; sc_dead := dead |} in
  let die e := advance (sc_done sc) (sc_sends sc) (sc_recvs sc) (Some e) in
  match op, sc_dead sc with
  | OpRecv, Some e => (sc, inr (inl e))
  | _, Some e => (sc, inl (Some e))
  | OpSend m, None =>
    match sc_sends sc with
    | [] => (sc, inl (Some (sc_terminal sc)))
    | x :: xs =>
      if bool_decide (m = x) then (advance (S (sc_done sc)) xs (sc_recvs sc) None, inl None)
      else let e := send_mismatch (sc_done sc) x m in (die e, inl (Some e))
    end
  | OpHalfClose, None =>
    match sc_sends sc with
    | [] => (sc, inl None)
    | xs => let e := half_close_mismatch (sc_done sc) (sc_done sc + length xs) in
            (die e, inl (Some e))
    end
  | OpRecv, None =>
    match sc_recvs sc with
    | [] => (sc, inr (inl (sc_terminal sc)))
    | x :: xs => (advance (sc_done sc) (sc_sends sc) xs None, inr (inr x))
    end
  end.

Fixpoint script_ops (sc : script) (ops : list client_op) : script * list reply :=
  match ops with
  | [] => (sc, [])
  | op :: ops' =>
    let '(s1, x) := script_op sc op in
    let '(s2, xs) := script_ops s1 ops' in (s2, x :: xs)
  end.

(** The queues a handle stands for. *)
Definition script_of (r : StreamReplay) : script :=
  {| sc_done := rep_send r;
     sc_sends := drop (rep_send r) (messages (rq_frames (p_req (rep_pair r))));
     sc_recvs := drop (rep_recv r) (messages (rs_frames (p_resp (rep_pair r))));
     sc_terminal := terminalErr r;
     sc_dead := rep_mismatch r |}.

(** The client's bytes as the recording would have kept them. *)
Definition scrub_op (r : StreamReplay) (op : client_op) : client_op :=
  match op with
  | OpSend m => OpSend (scrubFrame (rep_scrub r) StreamSend (rep_info r) m)
  | _ => op
  end.

(** A client that does what was recorded: the recorded sends in order, possibly
    not all of them, half-closing only after the last; receiving at any time. *)
Inductive follows : list string → list client_op → Prop :=
| follows_nil todo : follows todo []
| follows_send m todo ops : follows todo ops → follows (m :: todo) (OpSend m :: ops)
| follows_half_close ops : follows [] ops → follows [] (OpHalfClose :: ops)
| follows_recv todo ops : follows todo ops → follows todo (OpRecv :: ops).

(** The replies such a client gets. *)
Fixpoint expected (recvs : list string) (terminal : err) (ops : list client_op) : list reply :=
  match ops with
  | [] => []
  | OpRecv :: ops' =>
    match recvs with
    | [] => inr (inl terminal) :: expected [] terminal ops'
    | x :: xs => inr (inr x) :: expected xs terminal ops'
    end
  | _ :: ops' => inl None :: expected recvs terminal ops'
  end.

(** The identifying tuple of an open. *)
Definition same_open (o o' : StreamOpen) : Prop :=
  o_adapter o = o_adapter o' ∧ o_type o = o_type o' ∧ o_identity o = o_identity o'.

(** ** The recording's invariant *)

Definition half_seqs (r : StreamRecording) : list Z :=
  match rec_half r with Some h => [ev_seq h] | None => [] end.

Definition log_seqs (r : StreamRecording) : list Z :=
  seqs (rec_sends r) ++ seqs (rec_recvs r) ++ half_seqs r.

(** The log numbers its events [0, 1, ...] in arrival order. *)
Record rec_inv (r : StreamRecording) : Prop := {
  ri_type : known_type (rec_type r);
  ri_seq : (0 ≤ rec_seq r)%Z;
  ri_dense : log_seqs r ≡ₚ seqZ 0 (rec_seq r);
  ri_sends : StronglySorted Z.lt (seqs (rec_sends r));
  ri_recvs : StronglySorted Z.lt (seqs (rec_recvs r));
}.

Lemma rec_inv_bound r : rec_inv r → Forall (λ s, 0 ≤ s < rec_seq r)%Z (log_seqs r).
Proof.
  intros H. rewrite (ri_dense _ H). apply Forall_forall. intros s. rewrite elem_of_seqZ. lia.
Qed.

Lemma sorted_snoc (l : list Z) n :
  StronglySorted Z.lt l → Forall (λ s, s < n)%Z l → StronglySorted Z.lt (l ++ [n]).
Proof.
  induction 1 as [|x l Hl IH Hx]; intros Hn; simpl; [by repeat constructor|].
  apply Forall_cons in Hn as [Hxn Hn]. constructor; [auto|].
  apply Forall_app. split; [done|]. by constructor.
Qed.

Lemma seqZ_snoc n : (0 ≤ n)%Z → seqZ 0 (n + 1) = seqZ 0 n ++ [n].
Proof. intros Hn. rewrite seqZ_app by lia. done. Qed.

Lemma log_event_inv r e : rec_inv r → rec_inv (log_event r e).
Proof.
  intros Hr. pose proof (rec_inv_bound r Hr) as Hb. destruct Hr as [Ht Hs Hd Hss Hsr].
  unfold log_seqs in *. rewrite !Forall_app in Hb. destruct Hb as (Hb1 & Hb2 & _).
  assert (∀ l : list Z, Forall (λ s, 0 ≤ s < rec_seq r)%Z l → Forall (λ s, s < rec_seq r)%Z l) as Hlt.
  { intros l H. eapply Forall_impl; [exact H|]. simpl. lia. }
  destruct e as [now m|now m|now]; simpl.
  - unfold RecordSend. destruct (rec_finished r); [by constructor|].
    constructor; simpl; [done|lia| | |done].
    + unfold log_seqs, seqs, half_seqs in *. simpl. rewrite fmap_app, seqZ_snoc, <-Hd by done. simpl.
      rewrite <-!app_assoc. apply Permutation_app_head. rewrite (Permutation_app_comm [_]).
      by rewrite <-!app_assoc.
    + unfold seqs in *. rewrite fmap_app. by apply sorted_snoc; [|apply Hlt].
  - unfold RecordRecv. destruct (rec_finished r); [by constructor|].
    constructor; simpl; [done|lia| |done|].
    + unfold log_seqs, seqs, half_seqs in *. simpl. rewrite fmap_app, seqZ_snoc, <-Hd by done. simpl.
      rewrite <-!app_assoc. do 2 apply Permutation_app_head. apply Permutation_app_comm.
    + unfold seqs in *. rewrite fmap_app. by apply sorted_snoc; [|apply Hlt].
  - unfold RecordHalfClose. destruct (rec_finished r); [by constructor|].
    destruct (rec_half r) eqn:E; [by constructor|].
    constructor; simpl; [done|lia| |done|done].
    unfold log_seqs, half_seqs in *. simpl. rewrite E in Hd. rewrite seqZ_snoc, <-Hd by done.
    by rewrite app_nil_r, app_assoc.
Qed.

Lemma log_events_inv r evs : rec_inv r → rec_inv (log_events r evs).
Proof.
  unfold log_events. revert r. induction evs as [|e evs IH]; simpl; auto using log_event_inv.
Qed.

Lemma rec_inv_well_formed r now payload e :
  rec_inv r →
  well_formed (recorded_pair r now payload e) ∧
  all_seqs (recorded_pair r now payload e) ≡ₚ seqZ 0 (rec_seq r + 1).
Proof.
  intros Hr. pose proof (rec_inv_bound r Hr) as Hb.
  assert (all_seqs (recorded_pair r now payload e) = log_seqs r ++ [rec_seq r]) as Hall.
  { unfold all_seqs, log_seqs, half_seqs. simpl. by rewrite <-!app_assoc. }
  pose proof (ri_seq _ Hr) as Hpos.
  assert (all_seqs (recorded_pair r now payload e) ≡ₚ seqZ 0 (rec_seq r + 1)) as Hp.
  { rewrite Hall, seqZ_snoc by done. by rewrite (ri_dense _ Hr). }
  split; [|done]. unfold well_formed. split_and!.
  - apply (ri_type _ Hr).
  - rewrite Hp. apply Forall_forall. intros s. rewrite elem_of_seqZ. lia.
  - rewrite Hp. apply NoDup_seqZ.
  - apply (ri_sends _ Hr).
  - apply (ri_recvs _ Hr).
  - rewrite Hp. apply Forall_forall. intros s. rewrite elem_of_seqZ. simpl. lia.
Qed.

(** ** What the log holds *)

(** The parts of a recording no event changes. *)
Definition same_stream (r r' : StreamRecording) : Prop :=
  rec_cassette r' = rec_cassette r ∧ rec_adapter r' = rec_adapter r ∧ rec_fp r' = rec_fp r ∧
  rec_type r' = rec_type r ∧ rec_payload r' = rec_payload r ∧ rec_scrub r' = rec_scrub r ∧
  rec_finished r' = rec_finished r.

Definition scrub_send (r : StreamRecording) : string → string :=
  scrubFrame (rec_scrub r) StreamSend (scrubInfo r).
Definition scrub_recv (r : StreamRecording) : string → string :=
  scrubFrame (rec_scrub r) StreamRecv (scrubInfo r).

Lemma log_event_spec r e :
  rec_finished r = false →
  same_stream r (log_event r e) ∧
  messages (rec_sends (log_event r e)) =
    messages (rec_sends r) ++ (scrub_send r <$> sends_of [e]) ∧
  messages (rec_recvs (log_event r e)) =
    messages (rec_recvs r) ++ (scrub_recv r <$> recvs_of [e]).
Proof.
  intros Hf. unfold same_stream, messages.
  destruct e as [now m|now m|now]; simpl; unfold RecordSend, RecordRecv, RecordHalfClose;
    rewrite ?Hf; try destruct (rec_half r); simpl; rewrite ?fmap_app, ?app_nil_r;
    split_and!; done.
Qed.

Lemma log_events_spec r evs :
  rec_finished r = false →
  same_stream r (log_events r evs) ∧
  messages (rec_sends (log_events r evs)) =
    messages (rec_sends r) ++ (scrub_send r <$> sends_of evs) ∧
  messages (rec_recvs (log_events r evs)) =
    messages (rec_recvs r) ++ (scrub_recv r <$> recvs_of evs).
Proof.
  unfold log_events. revert r. induction evs as [|e evs IH]; intros r Hf; simpl.
  { rewrite !app_nil_r. by split_and!. }
  destruct (log_event_spec r e Hf) as (Hsame & Hs & Hr).
  destruct Hsame as (H1 & H2 & H3 & H4 & H5 & H6 & H7).
  destruct (IH (log_event r e)) as (Hsame' & Hs' & Hr'); [by rewrite H7|].
  destruct Hsame' as (G1 & G2 & G3 & G4 & G5 & G6 & G7).
  assert (scrub_send (log_event r e) = scrub_send r ∧ scrub_recv (log_event r e) = scrub_recv r)
    as [Ess Esr].
  { unfold scrub_send, scrub_recv, scrubInfo. by rewrite H2, H4, H6. }
  rewrite Hs', Hr', Hs, Hr, Ess, Esr. split_and!; [split_and!; congruence| |].
  - destruct e; simpl; rewrite <-?app_assoc, ?app_nil_r; done.
  - destruct e; simpl; rewrite <-?app_assoc, ?app_nil_r; done.
Qed.

(** ** The handle implements the two queues *)

Lemma drop_lookup_cons {A} (l : list A) i x : l !! i = Some x → drop i l = x :: drop (S i) l.
Proof. intros H. by apply drop_S. Qed.

Lemma replay_op_refines r op :
  script_op (script_of r) (scrub_op r op) =
  (script_of (replay_op r op).1, (replay_op r op).2).
Proof.
  destruct op as [m| |]; simpl.
  - unfold Send, script_op. cbn [script_of sc_dead sc_sends].
    destruct (rep_mismatch r) as [e|] eqn:Em; [done|].
    destruct (rq_frames (p_req (rep_pair r)) !! rep_send r) as [f|] eqn:E.
    + rewrite (drop_lookup_cons (messages _) (rep_send r) (f_message f))
        by (unfold messages; by rewrite list_lookup_fmap, E).
      case_bool_decide; [done|]. unfold fail, script_of. simpl.
      by rewrite (drop_lookup_cons (messages _) (rep_send r) (f_message f))
        by (unfold messages; by rewrite list_lookup_fmap, E).
    + assert (length (messages (rq_frames (p_req (rep_pair r)))) ≤ rep_send r).
      { apply lookup_ge_None_1. unfold messages. by rewrite list_lookup_fmap, E. }
      by rewrite (drop_ge (messages (rq_frames _))) by done.
  - unfold HalfClose, script_op. cbn [script_of sc_dead sc_sends sc_done].
    destruct (rep_mismatch r) as [e|] eqn:Em; [done|].
    assert (length (messages (rq_frames (p_req (rep_pair r)))) =
            length (rq_frames (p_req (rep_pair r)))) as Hlen by (unfold messages; apply length_fmap).
    destruct (Nat.ltb_spec (rep_send r) (length (rq_frames (p_req (rep_pair r))))) as [Hlt|Hge].
    + pose proof (length_drop (messages (rq_frames (p_req (rep_pair r)))) (rep_send r)) as Hd.
      unfold fail, script_of. simpl.
      destruct (drop (rep_send r) (messages (rq_frames (p_req (rep_pair r))))) as [|x xs] eqn:E;
        simpl in Hd; [lia|].
      rewrite Hd, Hlen. by replace (rep_send r + _) with (length (rq_frames (p_req (rep_pair r)))) by lia.
    + by rewrite (drop_ge (messages (rq_frames _))) by lia.
  - unfold Recv, script_op. cbn [script_of sc_dead sc_recvs].
    destruct (rep_mismatch r) as [e|] eqn:Em; [done|].
    destruct (rs_frames (p_resp (rep_pair r)) !! rep_recv r) as [f|] eqn:E.
    + by rewrite (drop_lookup_cons (messages _) (rep_recv r) (f_message f))
        by (unfold messages; by rewrite list_lookup_fmap, E).
    + assert (length (messages (rs_frames (p_resp (rep_pair r)))) ≤ rep_recv r).
      { apply lookup_ge_None_1. unfold messages. by rewrite list_lookup_fmap, E. }
      by rewrite (drop_ge (messages (rs_frames _))) by done.
Qed.

(** No operation changes what the client's bytes are compared under. *)
Lemma replay_op_frame r op : ∃ i j m, (replay_op r op).1 = with_pos r i j m.
Proof.
  assert (∃ i j m, r = with_pos r i j m) as Hr by (destruct r; by do 3 eexists).
  destruct op; simpl; unfold Send, HalfClose, Recv, fail;
    repeat case_match; simplify_eq/=; eauto.
Qed.

Lemma scrub_op_with_pos r i j m : scrub_op (with_pos r i j m) = scrub_op r.
Proof. done. Qed.

Lemma replay_ops_refines r ops :
  script_ops (script_of r) (scrub_op r <$> ops) =
  (script_of (replay_ops r ops).1, (replay_ops r ops).2).
Proof.
  revert r. induction ops as [|op ops IH]; intros r; [done|].
  rewrite fmap_cons. cbn [script_ops replay_ops].
  rewrite replay_op_refines. specialize (IH (replay_op r op).1).
  destruct (replay_op_frame r op) as (i & j & m & Hframe).
  assert (scrub_op (replay_op r op).1 = scrub_op r) as He by (by rewrite Hframe).
  rewrite He in IH. destruct (replay_op r op) as [r1 x]. simpl in *. rewrite IH.
  by destruct (replay_ops r1 ops).
Qed.

(** Two queues fed what they expect. *)
Lemma script_follows sc ops :
  sc_dead sc = None → follows (sc_sends sc) ops →
  (script_ops sc ops).2 = expected (sc_recvs sc) (sc_terminal sc) ops.
Proof.
  intros Hd Hf. remember (sc_sends sc) as todo eqn:Et. revert sc Hd Et.
  induction Hf as [todo|m todo ops Hf IH|ops Hf IH|todo ops Hf IH]; intros sc Hd Et;
    cbn [script_ops expected]; [done|..].
  - unfold script_op. rewrite Hd, <-Et, bool_decide_eq_true_2 by done.
    match goal with |- context [script_ops ?s ops] => specialize (IH s eq_refl eq_refl) end.
    destruct (script_ops _ ops). simpl in *. by rewrite IH.
  - unfold script_op. rewrite Hd, <-Et. specialize (IH sc Hd Et).
    destruct (script_ops _ ops). simpl in *. by rewrite IH.
  - unfold script_op. rewrite Hd. destruct (sc_recvs sc) as [|x xs] eqn:Er.
    + specialize (IH sc Hd Et). destruct (script_ops _ ops). simpl in *. by rewrite IH, Er.
    + match goal with |- context [script_ops ?s ops] => specialize (IH s eq_refl Et) end.
      destruct (script_ops _ ops). simpl in *. by rewrite IH.
Qed.

Lemma follows_fmap (g : string → string) r todo ops :
  (∀ m, scrub_op r (OpSend m) = OpSend (g m)) →
  follows todo ops → follows (g <$> todo) (scrub_op r <$> ops).
Proof.
  intros Hg. induction 1; rewrite ?fmap_cons, ?Hg; by constructor.
Qed.

Lemma expected_scrub r recvs t ops :
  expected recvs t (scrub_op r <$> ops) = expected recvs t ops.
Proof.
  revert recvs. induction ops as [|[] ops IH]; intros recvs; simpl; [done|by rewrite IH..|].
  destruct recvs; by rewrite IH.
Qed.

(** ** Opens *)

Section open_lemmas.
Context {U : Unicode} {F : FloatFormat}.

(** The counter key of an open; [None] when no counter is consumed. *)
Definition key_of (o : StreamOpen) : option string :=
  if o_counter o then
    match streamCanonical o (-1) with
    | inr base => Some (o_adapter o +:+ nul +:+ base)
    | inl _ => None
    end
  else None.

(** The session after a list of opens. *)
Definition open_all (s : FileSession) (os : list StreamOpen) : FileSession :=
  foldl (λ s o, (streamOpenFingerprint s o).1) s os.

(** Opening looks at the counters and changes the counters, nothing else. *)
Lemma streamOpenFingerprint_counters s s' o :
  streamN s' = streamN s →
  streamOpenFingerprint s' o =
  (set_streamN s' (streamN (streamOpenFingerprint s o).1), (streamOpenFingerprint s o).2).
Proof.
  intros H. assert (∀ m, m = streamN s' → s' = set_streamN s' m) as Hid by (intros ? ->; by destruct s').
  unfold streamOpenFingerprint, nextStreamN. rewrite H.
  destruct (o_counter o); [|simpl; f_equal; by apply Hid].
  destruct (streamCanonical o (-1)); simpl; [f_equal; by apply Hid|done].
Qed.

Lemma streamOpenFingerprint_streamN s o :
  streamN (streamOpenFingerprint s o).1 =
  match key_of o with
  | Some k => <[k := (default 0 (streamN s !! k) + 1)%Z]> (streamN s)
  | None => streamN s
  end.
Proof.
  unfold streamOpenFingerprint, key_of, nextStreamN.
  destruct (o_counter o); [|done]. by destruct (streamCanonical o (-1)).
Qed.

Lemma StreamFingerprint_shape o n fp : StreamFingerprint o n = inr fp → fingerprint_shape fp.
Proof.
  unfold StreamFingerprint. intros (m & _ & H)%bind_inr. apply bind_inr in H as (a & _ & H).
  injection H as <-. apply hash8_shape.
Qed.

Lemma streamOpenFingerprint_inr s o s1 fp n :
  streamOpenFingerprint s o = (s1, inr (fp, n)) → fingerprint_shape fp ∧ known_type (o_type o).
Proof.
  assert (∀ m, (fp ← StreamFingerprint o m; mret (fp, m)) = inr (fp, n) →
    fingerprint_shape fp ∧ known_type (o_type o)) as Hm.
  { intros m H. apply bind_inr in H as (fp' & Hfp & [= <- <-]). split; [by eapply StreamFingerprint_shape|].
    unfold StreamFingerprint in Hfp. apply bind_inr in Hfp as (k & _ & Hfp).
    apply bind_inr in Hfp as (a & Ha & _). by apply streamCanonical_inr in Ha as (? & _). }
  unfold streamOpenFingerprint. destruct (o_counter o).
  - destruct (streamCanonical o (-1)) as [|base]; [done|]. intros [= _ H]. by apply (Hm _ H).
  - intros [= _ H]. by apply (Hm _ H).
Qed.

Lemma checkStreamOpen_inr s o want verb c :
  checkStreamOpen s o want verb = inr c ↔
  mode s = want ∧ cassette s = Some c ∧ o_adapter o ≠ "".
Proof.
  unfold checkStreamOpen. case_bool_decide; [naive_solver|].
  destruct (cassette s); [|naive_solver]. case_bool_decide; naive_solver.
Qed.

(** A freshly opened recording. *)
Lemma OpenStreamRecord_inr s o opened s1 r :
  OpenStreamRecord s o opened = (s1, inr r) →
  rec_inv r ∧ rec_finished r = false ∧ rec_sends r = [] ∧ rec_recvs r = [] ∧
  rec_adapter r = o_adapter o ∧ rec_type r = o_type o ∧ rec_scrub r = streamScrub s ∧
  (∃ n, streamOpenFingerprint s o = (s1, inr (rec_fp r, n))) ∧
  mode s = ModeRecord ∧ cassette s = Some (rec_cassette r) ∧ o_adapter o ≠ "".
Proof.
  unfold OpenStreamRecord. destruct (checkStreamOpen _ _ _ _) as [|c] eqn:E; [done|].
  apply checkStreamOpen_inr in E as (Hm & Hc & Ha).
  destruct (streamOpenFingerprint s o) as [s2 [|[fp n]]] eqn:Ef; [done|].
  intros [= <- <-]. apply streamOpenFingerprint_inr in Ef as [_ Ht]. simpl.
  split_and!; try done; [|by exists n].
  constructor; simpl; [done|done|done|constructor|constructor].
Qed.
End open_lemmas.

(** ** Properties *)

Section properties.
Context {U : Unicode} {F : FloatFormat}.

(** C33. Whatever the live stream does, the pair it is recorded as is
    well-formed, its events are numbered 0, 1, 2, ... with the terminal last,
    and its frames are the scrubbed messages of each side in the order they were
    observed: the cassette's validation never rejects a recording. *)
Theorem recording_well_formed s o opened s1 r evs now payload e :
  OpenStreamRecord s o opened = (s1, inr r) →
  let pair := recorded_pair (log_events r evs) now payload e in
  well_formed pair ∧ all_seqs pair ≡ₚ seqZ 0 (rec_seq (log_events r evs) + 1) ∧
  messages (rq_frames (p_req pair)) = scrub_send r <$> sends_of evs ∧
  messages (rs_frames (p_resp pair)) = scrub_recv r <$> recvs_of evs.
Proof.
  intros (Hinv & Hf & Hs & Hr & _)%OpenStreamRecord_inr pair.
  destruct (rec_inv_well_formed (log_events r evs) now payload e) as [Hw Hp];
    [by apply log_events_inv|].
  destruct (log_events_spec r evs Hf) as (_ & Hms & Hmr).
  rewrite Hs in Hms. rewrite Hr in Hmr. done.
Qed.

(** What reaches the disk depends on the scrubbed messages only: two live
    streams whose messages the hook maps to the same bytes, event by event,
    leave the same recording, so a secret the hook removes cannot be written. *)
Theorem recording_noninterference r evs evs' :
  Forall2 (λ e e',
    match e, e' with
    | LogSend t m, LogSend t' m' => t = t' ∧ scrub_send r m = scrub_send r m'
    | LogRecv t m, LogRecv t' m' => t = t' ∧ scrub_recv r m = scrub_recv r m'
    | LogHalfClose t, LogHalfClose t' => t = t'
    | _, _ => False
    end) evs evs' →
  log_events r evs = log_events r evs'.
Proof.
  intros H. unfold log_events.
  assert (∀ r0, rec_scrub r0 = rec_scrub r → scrubInfo r0 = scrubInfo r →
    foldl log_event r0 evs = foldl log_event r0 evs') as Hgen; [|by apply Hgen].
  induction H as [|e e' evs evs' He _ IH]; intros r0 Hs Hi; [done|]. simpl.
  assert (log_event r0 e = log_event r0 e') as ->.
  { destruct e, e'; try done; simpl; unfold scrub_send, scrub_recv in He;
      rewrite <-?Hs, <-?Hi in He.
    - destruct He as [-> He]. unfold RecordSend. by rewrite He.
    - destruct He as [-> He]. unfold RecordRecv. by rewrite He.
    - by subst. }
  assert (∀ e, rec_scrub (log_event r0 e) = rec_scrub r0 ∧ scrubInfo (log_event r0 e) = scrubInfo r0)
    as Hk.
  { intros []; simpl; unfold RecordSend, RecordRecv, RecordHalfClose; repeat case_match; done. }
  destruct (Hk e') as [Hk1 Hk2]. apply IH; congruence.
Qed.

(** A recording is finished once: after [Finish] - whether or not the save
    succeeded - further events change nothing and a second [Finish] is an error
    that writes nothing. *)
Theorem Finish_once {Y : YamlLib} {YS : YamlStreamLib} {O : Faults} r wall now payload e σ σ' r' res :
  Finish r wall now payload e σ = (σ', (r', res)) →
  (∀ evs, log_events r' evs = r') ∧
  ∀ wall' now' payload' e' σ'', ∃ x, Finish r' wall' now' payload' e' σ'' = (σ'', (r', inl x)).
Proof.
  intros H. assert (rec_finished r' = true) as Hf.
  { unfold Finish in H. destruct (rec_finished r) eqn:E; [by injection H as <- <- <-|].
    destruct (SaveStream _ _ _ _ _ _). by injection H as <- <- <-. }
  split.
  - unfold log_events. intros evs. induction evs as [|[] evs IH]; simpl; [done|..];
      unfold RecordSend, RecordRecv, RecordHalfClose; by rewrite Hf.
  - intros. unfold Finish. rewrite Hf. eauto.
Qed.

(** C30. Refinement: on every sequence of client operations the replay handle
    gives the replies of two independent queues - sends checked, scrubbed,
    against the recorded ones in order, receives served without waiting for
    sends, the terminal past either end, one poison for every operation after a
    divergence. *)
Theorem StreamReplay_refines r ops :
  script_ops (script_of r) (scrub_op r <$> ops) =
  (script_of (replay_ops r ops).1, (replay_ops r ops).2).
Proof. apply replay_ops_refines. Qed.

(** A mismatch is terminal: once an operation has diverged, every later
    operation of any kind fails with that same mismatch, which [errors.Is]
    recognises as [ErrStreamMismatch]. *)
Theorem StreamReplay_mismatch_sticky r op m ops :
  rep_mismatch r = None → rep_mismatch (replay_op r op).1 = Some m →
  errors_is m SStreamMismatch ∧
  Forall (λ x, x = inl (Some m) ∨ x = inr (inl m)) (replay_ops (replay_op r op).1 ops).2.
Proof.
  intros Hn Hm. split.
  - destruct op; simpl in Hm; unfold Send, HalfClose, Recv, fail in Hm; rewrite Hn in Hm;
      repeat case_match; simplify_eq/=; done.
  - clear Hn. revert Hm. generalize (replay_op r op).1 as r1. clear r op.
    induction ops as [|op ops IH]; intros r Hm; simpl; [constructor|].
    assert (replay_op r op = (r, match op with OpRecv => inr (inl m) | _ => inl (Some m) end)) as ->.
    { destruct op; simpl; unfold Send, HalfClose, Recv; by rewrite Hm. }
    specialize (IH r Hm). destruct (replay_ops r ops). simpl. constructor; [|done].
    destruct op; auto.
Qed.

(** Occurrence ordinals count: in a session, a counter-addressed open gets
    as its ordinal the number of earlier opens with the same key, whatever other
    opens came between and whether or not they were served. *)
Theorem open_ordinal s os o k :
  streamN s = ∅ → key_of o = Some k →
  (streamOpenFingerprint (open_all s os) o).2 =
  (let n := Z.of_nat (length (filter (λ o', key_of o' = Some k) os)) in
   fp ← StreamFingerprint o n; mret (fp, n)).
Proof.
  intros Hs Hk.
  assert (∀ os s, default 0%Z (streamN (open_all s os) !! k) =
    (default 0 (streamN s !! k) + Z.of_nat (length (filter (λ o', key_of o' = Some k) os)))%Z) as Hcount.
  { clear. induction os as [|o os IH]; intros s; [simpl; lia|].
    change (open_all s (o :: os)) with (open_all (streamOpenFingerprint s o).1 os).
    rewrite IH, streamOpenFingerprint_streamN, filter_cons.
    destruct (key_of o) as [k'|]; [|by rewrite decide_False].
    destruct (decide (Some k' = Some k)) as [[= ->]|Hne].
    - rewrite lookup_insert_eq. simpl. lia.
    - rewrite lookup_insert_ne by congruence. done. }
  specialize (Hcount os s). rewrite Hs, lookup_empty in Hcount. simpl in Hcount.
  unfold key_of in Hk. unfold streamOpenFingerprint, nextStreamN.
  destruct (o_counter o); [|done]. destruct (streamCanonical o (-1)) as [|base]; [done|].
  injection Hk as Hk. simpl. rewrite Hk, Hcount. done.
Qed.

(** The counter key is the identifying tuple: two counter-addressed opens
    share a counter exactly when adapter, type and identity agree. *)
Theorem counter_key_identifies o o' k :
  canon_gomap (o_identity o) → canon_gomap (o_identity o') →
  contains_char (o_adapter o) "000" = false → contains_char (o_adapter o') "000" = false →
  o_counter o' → key_of o = Some k → key_of o' = Some k ↔ same_open o o'.
Proof.
  intros Hc Hc' Ha Ha' Hn Hk. unfold key_of in *. rewrite (Is_true_true_1 _ Hn). clear Hn.
  destruct (o_counter o); [|done]. destruct (streamCanonical o (-1)) as [|b] eqn:E; [done|].
  injection Hk as <-. split.
  - destruct (streamCanonical o' (-1)) as [|b'] eqn:E'; [done|]. intros [= Heq].
    apply (first_word "000") in Heq as [Hadapter Heq]; [|done|done|apply other_self|apply other_self].
    change (nul +:+ ?x) with (String "000" x) in Heq. injection Heq as ->.
    destruct (streamCanonical_inj o o' (-1) (-1) b Hc Hc' E E') as (? & ? & _).
    by split_and!.
  - intros (Had & Hty & Hid).
    assert (streamCanonical o' (-1) = streamCanonical o (-1)) as ->.
    { unfold streamCanonical, stream_inputs. by rewrite Hty, Hid. }
    by rewrite E, Had.
Qed.

(** Recording and replaying sessions count alike: if their counters agree,
    an open leaves them agreeing and addresses the same cassette, also when the
    replay misses. *)
Theorem counters_in_step {Y : YamlLib} {YS : YamlStreamLib} {O : Faults} s s' o opened r s1 σ :
  streamN s' = streamN s → mode s' = ModeReplay → cassette s' = cassette s →
  OpenStreamRecord s o opened = (s1, inr r) →
  streamN (OpenStreamReplay s' o σ).2.1 = streamN s1 ∧
  ∀ rep, (OpenStreamReplay s' o σ).2.2 = inr rep → rep_fp rep = rec_fp r.
Proof.
  intros Hn Hm Hc (_ & _ & _ & _ & _ & _ & _ & (n & Hf) & _ & Hc1 & Ha)%OpenStreamRecord_inr.
  unfold OpenStreamReplay.
  rewrite (proj2 (checkStreamOpen_inr s' o ModeReplay "OpenStreamReplay" (rec_cassette r)))
    by (split_and!; congruence).
  rewrite (streamOpenFingerprint_counters s s' o Hn), Hf. simpl.
  destruct (LoadStream _ _ _ _) as [σ1 [e|p]]; simpl; [done|].
  split; [done|]. intros rep. case_bool_decide; [done|]. by intros [= <-].
Qed.
End properties.

(** ** Record, then replay *)

Section record_replay.
Context {U : Unicode} {F : FloatFormat} {Y : YamlLib} {YS : YamlStreamLib} {O : Faults}.
Context {L : YamlLaws} {LS : YamlStreamLaws}.

(** A handle on a reloaded pair answers a faithful client as expected. *)
Lemma replay_follows rep p raw ops :
  rep_mismatch rep = None → rep_send rep = 0 → rep_recv rep = 0 → rep_pair rep = p →
  messages (rq_frames (p_req p)) =
    scrubFrame (rep_scrub rep) StreamSend (rep_info rep) <$> raw →
  follows raw ops →
  (replay_ops rep ops).2 = expected (messages (rs_frames (p_resp p))) (terminalErr rep) ops.
Proof.
  intros Hm Hs Hr Hp Hraw Hf.
  pose proof (replay_ops_refines rep ops) as Href.
  assert ((replay_ops rep ops).2 = (script_ops (script_of rep) (scrub_op rep <$> ops)).2) as ->
    by (by rewrite Href).
  rewrite script_follows.
  - rewrite expected_scrub. unfold script_of. simpl. by rewrite Hr, Hp, drop_0.
  - done.
  - unfold script_of. simpl. rewrite Hs, Hp, drop_0, Hraw. by apply follows_fmap.
Qed.

Lemma messages_normal fs : messages (normal_frame <$> fs) = messages fs.
Proof. unfold messages. by rewrite <-list_fmap_compose. Qed.

(** A finished recording, opened for replay by a session whose counters, cassette
    and hook are the recording one's. *)
Lemma reopen_recorded s s' o opened s1 r evs wall now payload e σ σ' r' :
  OpenStreamRecord s o opened = (s1, inr r) →
  mode s' = ModeReplay → cassette s' = cassette s → streamN s' = streamN s →
  streamScrub s' = streamScrub s →
  contains_char (o_adapter o) slash = false → (∀ p, read_fault p = None) →
  pair_range (recorded_pair (log_events r evs) now payload e) →
  pair_text (recorded_pair (log_events r evs) now payload e) →
  Finish (log_events r evs) wall now payload e σ = (σ', (r', inr tt)) →
  ∃ rep, OpenStreamReplay s' o σ' = (σ', (set_streamN s' (streamN s1), inr rep)) ∧
    p_resp_payload (rep_pair rep) = Some (default ∅ payload) ∧
    terminalErr rep = (if bool_decide (recorded_text e = "") then EOF else ENew (recorded_text e)) ∧
    ∀ ops, follows (sends_of evs) ops →
      (replay_ops rep ops).2 = expected (scrub_recv r <$> recvs_of evs) (terminalErr rep) ops.
Proof.
  intros Hopen Hm Hc Hn Hscrub Hslash Hfault Hrange Htext Hfin.
  apply OpenStreamRecord_inr in Hopen
    as (Hinv & Hnf & Hs0 & Hr0 & Had & Hty & Hsc & (n & Hfp) & _ & Hc1 & Hne).
  destruct (log_events_spec r evs Hnf) as ((G1 & G2 & G3 & G4 & G5 & G6 & G7) & Hms & Hmr).
  unfold Finish in Hfin. rewrite G7, Hnf in Hfin.
  destruct (SaveStream _ _ _ _ _ _) as [σ1 res] eqn:Esave.
  injection Hfin as <- <- Hres. apply wrap_err_inr in Hres as ->.
  rewrite G1, G2, G3, Had in Esave.
  destruct (streamOpenFingerprint_inr _ _ _ _ _ Hfp) as [Hshape _].
  assert (fileable (o_adapter o) (rec_fp r)) as Hfl by (split; [done|by apply hex_no_slash]).
  pose proof (load_after_save_stream _ _ _ _ _ _ _ Hfl Hrange Htext (Hfault _) (Hfault _) Esave)
    as Hload.
  unfold OpenStreamReplay.
  rewrite (proj2 (checkStreamOpen_inr s' o ModeReplay "OpenStreamReplay" (rec_cassette r)))
    by (split_and!; congruence).
  rewrite (streamOpenFingerprint_counters s s' o Hn), Hfp. cbn [fst snd].
  rewrite Hload, bool_decide_eq_false_2
    by (intros Hx; apply Hx; simpl; by rewrite G4).
  eexists. split; [done|]. split; [done|]. split; [done|]. intros ops Hops.
  set (rep := {| rep_fp := _ |}).
  rewrite (replay_follows rep (rep_pair rep) (sends_of evs) ops); try done.
  - simpl. rewrite messages_normal, Hmr, Hr0. done.
  - simpl. rewrite messages_normal, Hms, Hs0. unfold scrub_send, scrubInfo.
    by rewrite Hscrub, Hsc, Had, Hty.
Qed.
(** C1. Record then replay, end to end: a live stream is recorded under a scrub
    hook and finished; a replaying session with the same hook and counters opens
    the same open, is given the recorded pair, and a client that repeats the raw
    traffic - at any interleaving of sends and receives - has every send and the
    half-close accepted, receives the scrubbed messages in order and then the
    recorded terminal for ever. *)
Theorem stream_record_replay s s' o opened s1 r evs wall now payload e σ σ' r' :
  OpenStreamRecord s o opened = (s1, inr r) →
  mode s' = ModeReplay → cassette s' = cassette s → streamN s' = streamN s →
  streamScrub s' = streamScrub s →
  contains_char (o_adapter o) slash = false → (∀ p, read_fault p = None) →
  pair_range (recorded_pair (log_events r evs) now payload e) →
  pair_text (recorded_pair (log_events r evs) now payload e) →
  Finish (log_events r evs) wall now payload e σ = (σ', (r', inr tt)) →
  ∃ s1' rep, OpenStreamReplay s' o σ' = (σ', (s1', inr rep)) ∧ streamN s1' = streamN s1 ∧
    ∀ ops, follows (sends_of evs) ops →
      (replay_ops rep ops).2 =
      expected (scrub_recv r <$> recvs_of evs)
        (if bool_decide (recorded_text e = "") then EOF else ENew (recorded_text e)) ops.
Proof.
  intros Hopen Hm Hc Hn Hscrub Hslash Hfault Hrange Htext Hfin.
  destruct (reopen_recorded _ _ _ _ _ _ _ _ _ _ _ _ _ _ Hopen Hm Hc Hn Hscrub Hslash Hfault
    Hrange Htext Hfin) as (rep & Hrep & _ & Ht & Hops).
  exists (set_streamN s' (streamN s1)), rep. rewrite <-Ht. auto.
Qed.
End record_replay.

(** ** Closed instances *)

Section witnesses.
Local Existing Instance ascii_only.
Local Existing Instance integral_floats.
Local Existing Instance ReferenceYaml.lib.
Local Existing Instance ReferenceYaml.laws.
Local Existing Instance ReferenceStream.slib.
Local Existing Instance ReferenceStream.slaws.
Local Existing Instance no_faults.

(** A hook that blanks the message ["key"]. *)
Definition demo_scrub : StreamScrubFunc := λ _ _ m, if bool_decide (m = "key") then "***" else m.

Definition demo_stream_session (m : string) : FileSession :=
  NewSessionWithStreamScrub m (Some demo_cassette) (Some demo_scrub).

Definition demo_rec : StreamRecording :=
  {| rec_cassette := demo_cassette; rec_adapter := "grpc"; rec_fp := "252318ea";
     rec_type := StreamBidi; rec_payload := {[ "n" := VInt KInt 0 ]}; rec_opened := 0;
     rec_scrub := Some demo_scrub; rec_seq := 0; rec_sends := []; rec_recvs := [];
     rec_half := None; rec_finished := false |}.

Definition demo_events : list rec_event :=
  [LogSend 1 "key"; LogRecv 2 "key"; LogSend 3 "b"; LogHalfClose 4; LogRecv 5 "d"].

Definition demo_opened : FileSession :=
  set_streamN (demo_stream_session ModeRecord)
    (streamN (streamOpenFingerprint (demo_stream_session ModeRecord) demo_open).1).

Lemma demo_open_record :
  OpenStreamRecord (demo_stream_session ModeRecord) demo_open 0 = (demo_opened, inr demo_rec).
Proof. vm_compute. reflexivity. Qed.

Lemma recording_well_formed_witness :
  messages (rec_sends (log_events demo_rec demo_events)) = ["***"; "b"].
Proof.
  apply (recording_well_formed (demo_stream_session ModeRecord) demo_open 0 demo_opened demo_rec
    demo_events 6 None None demo_open_record).
Defined.

Lemma recording_noninterference_witness :
  log_events demo_rec [LogSend 1 "key"; LogHalfClose 2] =
  log_events demo_rec [LogSend 1 "***"; LogHalfClose 2].
Proof. apply recording_noninterference. by repeat constructor. Defined.

Lemma demo_finish_ok : ∃ σ, Finish (log_events demo_rec demo_events) 0 6 None None demo_fs =
  (σ, (with_log (log_events demo_rec demo_events) 6
         (rec_sends (log_events demo_rec demo_events)) (rec_recvs (log_events demo_rec demo_events))
         (rec_half (log_events demo_rec demo_events)) true, inr tt)).
Proof.
  unfold Finish.
  destruct (demo_save_stream_ok "grpc" "252318ea"
    (recorded_pair (log_events demo_rec demo_events) 6 None None)) as [σ Hs];
    [vm_compute; reflexivity|reflexivity|reflexivity|reflexivity|reflexivity|reflexivity|].
  exists σ. change (rec_finished (log_events demo_rec demo_events)) with false. cbv iota.
  change (rec_cassette (log_events demo_rec demo_events)) with demo_cassette.
  change (rec_adapter (log_events demo_rec demo_events)) with "grpc".
  change (rec_fp (log_events demo_rec demo_events)) with "252318ea".
  rewrite Hs. reflexivity.
Qed.

Lemma Finish_once_witness : ∃ r, log_events r demo_events = r.
Proof.
  destruct demo_finish_ok as [σ H]. eexists.
  exact (proj1 (Finish_once (log_events demo_rec demo_events) 0 6 None None demo_fs σ _ _ H)
    demo_events).
Defined.

Definition demo_replay : StreamReplay :=
  {| rep_fp := "252318ea"; rep_pair := demo_pair; rep_scrub := Some demo_scrub;
     rep_info := {| si_adapter := "grpc"; si_type := StreamBidi |};
     rep_send := 0; rep_recv := 0; rep_mismatch := None |}.

Lemma StreamReplay_mismatch_sticky_witness :
  ∃ m, (replay_ops demo_replay [OpSend "zz"; OpRecv]).2 = [inl (Some m); inr (inl m)].
Proof.
  destruct (rep_mismatch (replay_op demo_replay (OpSend "zz")).1) as [m|] eqn:E;
    [|vm_compute in E; discriminate].
  destruct (StreamReplay_mismatch_sticky demo_replay (OpSend "zz") m [OpRecv] eq_refl E) as [_ H].
  exists m. apply Forall_cons in H as [[H|H] _]; [discriminate H|].
  assert ((replay_ops demo_replay [OpSend "zz"; OpRecv]).2 =
    [inl (rep_mismatch (replay_op demo_replay (OpSend "zz")).1);
     (replay_op (replay_op demo_replay (OpSend "zz")).1 OpRecv).2]) as -> by reflexivity.
  rewrite E. do 2 f_equal. exact H.
Defined.

Lemma open_ordinal_witness :
  (streamOpenFingerprint (open_all (demo_stream_session ModeReplay) [demo_open; demo_open]) demo_open).2
  = (fp ← StreamFingerprint demo_open 2; mret (fp, 2%Z)).
Proof.
  destruct (key_of demo_open) as [k|] eqn:E; [|vm_compute in E; discriminate].
  rewrite (open_ordinal (demo_stream_session ModeReplay) [demo_open; demo_open] demo_open k eq_refl E).
  rewrite !filter_cons, filter_nil, !decide_True by done. reflexivity.
Defined.

Lemma counter_key_identifies_witness : same_open demo_open demo_open.
Proof.
  destruct (key_of demo_open) as [k|] eqn:E; [|vm_compute in E; discriminate].
  exact (proj1 (counter_key_identifies demo_open demo_open k demo_open_canon demo_open_canon
    eq_refl eq_refl I E) E).
Defined.

Lemma counters_in_step_witness :
  streamN (OpenStreamReplay (demo_stream_session ModeReplay) demo_open demo_fs).2.1 =
  streamN demo_opened.
Proof.
  exact (proj1 (counters_in_step (demo_stream_session ModeRecord) (demo_stream_session ModeReplay)
    demo_open 0 demo_rec demo_opened demo_fs eq_refl eq_refl eq_refl demo_open_record)).
Defined.

Lemma stream_record_replay_witness :
  ∃ σ s' rep, OpenStreamReplay (demo_stream_session ModeReplay) demo_open σ = (σ, (s', inr rep)) ∧
    (replay_ops rep [OpRecv; OpSend "key"; OpSend "b"; OpHalfClose; OpRecv; OpRecv]).2 =
    [inr (inr "***"); inl None; inl None; inl None; inr (inr "d"); inr (inl EOF)].
Proof.
  destruct demo_finish_ok as [σ H]. exists σ.
  assert (pair_range (recorded_pair (log_events demo_rec demo_events) 6 None None)) as Hr.
  { unfold pair_range, frame_range, event_range, at_ok, int64. simpl.
    repeat match goal with
           | |- _ ∧ _ => split
           | |- Forall _ [] => constructor
           | |- Forall _ (_ :: _) => constructor
           end; simpl; try (change (elapsedMs ?r ?t) with t); lia. }
  assert (pair_text (recorded_pair (log_events demo_rec demo_events) 6 None None)) as Ht.
  { split_and!; [done|done|by apply map_Forall_singleton|simpl; apply map_Forall_empty]. }
  destruct (stream_record_replay (O := no_faults) (demo_stream_session ModeRecord)
    (demo_stream_session ModeReplay) demo_open 0 demo_opened demo_rec demo_events 0 6 None None
    demo_fs σ _ demo_open_record eq_refl eq_refl eq_refl eq_refl eq_refl (λ _, eq_refl) Hr Ht H)
    as (s1' & rep & Hopen & _ & Hops).
  exists s1', rep. split; [exact Hopen|]. apply Hops. simpl. repeat constructor.
Defined.
End witnesses.
