(* ===== verification/GrpcStream.v ===== *)
(** go/adapters/grpc/stream.go: streamed gRPC calls recorded and replayed
    through a client interceptor, on top of the stream sessions. *)

From S2P Require Import Prelude GoStrings Sha256 Values Yaml Redact Os CanonicalJson CanonicalInj Stream Cassette StreamCassette Session StreamSession.

(** ** google.golang.org/grpc and google.golang.org/protobuf

    [proto] and [proto1] are the values of [proto.Message] and
    [protoadapt.MessageV1]; the unmarshal functions give the message as it is
    left behind; a status code is a [uint32]. *)
Class GrpcLib := {
  proto : Type;
  proto1 : Type;
  proto_Marshal : proto → result string;
  proto_Unmarshal : string → proto → proto * option err;
  MessageV2Of : proto1 → proto;
  v1_Unmarshal : string → proto1 → proto1 * option err;
  codes_String : Z → string;
  status_Code : err → Z;
  status_Error : Z → string → option err;
  (** [int(f)] where the language leaves it to the machine: not-a-number, the
      infinities and what 64 bits cannot hold. *)
  machine_int : float64 → Z;
}.

Definition codes_OK : Z := 0.
Definition codes_Unknown : Z := 2.
Definition codes_FailedPrecondition : Z := 9.

(** [codes.Code(n)]. *)
Definition to_code (n : Z) : Z := (n mod 2 ^ 32)%Z.

(** What a client passes to [SendMsg] and [RecvMsg]; [MOther] is any type the
    adapter does not know, with its name. *)
Inductive message `{GrpcLib} : Type :=
| MProto (v : proto)
| MProto1 (v : proto1)
| MBytesPtr (v : option string)
| MBytes (v : string)
| MOther (type : string).

Section codec.
Context `{GrpcLib}.

Definition type_name (m : message) : string :=
  match m with MBytes _ => "[]uint8" | MOther t => t | _ => "" end.

Definition nil_bytes : err := ENew "grpc: nil *[]byte message".

Definition marshalMessage (m : message) : result string :=
  match m with
  | MProto v => proto_Marshal v
  | MProto1 v => proto_Marshal (MessageV2Of v)
  | MBytesPtr None => inl nil_bytes
  | MBytesPtr (Some b) => inr b
  | MBytes b => inr b
  | MOther _ =>
    inl (ENew ("grpc: cannot marshal message type " +:+ type_name m +:+ " to wire bytes"))
  end.

Definition unmarshalMessage (data : string) (m : message) : message * option err :=
  match m with
  | MProto v => let '(v', e) := proto_Unmarshal data v in (MProto v', e)
  | MProto1 v => let '(v', e) := v1_Unmarshal data v in (MProto1 v', e)
  | MBytesPtr None => (m, Some nil_bytes)
  | MBytesPtr (Some _) => (MBytesPtr (Some data), None)
  | _ => (m, Some (ENew ("grpc: cannot unmarshal wire bytes into message type " +:+ type_name m)))
  end.
End codec.

(** The live [grpc.ClientStream] under a recorder; a receive fills in the
    caller's message. *)
Class LiveStream `{GrpcLib} := {
  live : Type;
  live_SendMsg : live → message → live * option err;
  live_RecvMsg : live → message → live * (message * option err);
  live_CloseSend : live → live * option err;
}.

(** ** Opens *)

Record StreamDesc := { StreamName : string; ServerStreams : bool; ClientStreams : bool }.

Section opens.
Context {U : Unicode} {F : FloatFormat}.

Definition adapterID : string := "grpc".

Definition streamTypeOf (desc : StreamDesc) : result string :=
  if ClientStreams desc && ServerStreams desc then inr StreamBidi else
  if ServerStreams desc then inr StreamServer else
  if ClientStreams desc then inr StreamClient else
  inl (ENew ("grpc: " +:+ Quote (StreamName desc) +:+
    " is unary-shaped (no stream direction); unary RPCs use the unary adapter path")).

Definition streamOpen (s : FileSession) (typ service method msg : string) : StreamOpen :=
  let base := {[ "service" := VString service; "method" := VString method ]} in
  if bool_decide (typ = StreamServer) then
    let scrubbed := ScrubStreamFrame s StreamSend {| si_adapter := adapterID; si_type := typ |} msg in
    {| o_adapter := adapterID; o_type := typ;
       o_identity := <["msg_hash" := VString (hash8 scrubbed)]> base;
       o_counter := false; o_payload := base |}
  else
    {| o_adapter := adapterID; o_type := typ; o_identity := base;
       o_counter := true; o_payload := base |}.

Definition splitFullMethod (full : string) : result (string * string) :=
  let malformed :=
    ENew ("grpc: malformed full method " +:+ Quote full +:+ " (want /service/method)") in
  match CutLast1 (TrimPrefix full "/") slash with
  | Some (service, method) =>
    if bool_decide (service = "") || bool_decide (method = "") then inl malformed
    else inr (service, method)
  | None => inl malformed
  end.
End opens.

(** The clock readings of one call: when a deferred open happens, when an event
    is logged, when the recording ends (monotonic, in milliseconds), and the
    wall clock of the save, in seconds. *)
Record ticks := { t_open : Z; t_log : Z; t_end : Z; t_wall : Z }.

(** ** Recording *)

Section record.
Context {U : Unicode} {F : FloatFormat} {Y : YamlLib} {YS : YamlStreamLib} {O : Faults}.
Context `{LS : LiveStream}.

Record recordStream := {
  r_live : live;
  r_typ : string;
  r_service : string;
  r_method : string;
  r_serverStreams : bool;
  r_rec : option StreamRecording;
  r_finished : bool;
}.

Definition set_live (rs : recordStream) (l : live) : recordStream :=
  {| r_live := l; r_typ := r_typ rs; r_service := r_service rs; r_method := r_method rs;
     r_serverStreams := r_serverStreams rs; r_rec := r_rec rs; r_finished := r_finished rs |}.
Definition set_rec (rs : recordStream) (rec : option StreamRecording) (fin : bool) : recordStream :=
  {| r_live := r_live rs; r_typ := r_typ rs; r_service := r_service rs; r_method := r_method rs;
     r_serverStreams := r_serverStreams rs; r_rec := rec; r_finished := fin |}.

(** [streamer] is the interceptor's argument, the context and call options
    applied. *)
Definition newRecordStream (s : FileSession) (desc : StreamDesc) (method : string)
    (streamer : StreamDesc → string → result live) (opened : Z)
    : FileSession * result recordStream :=
  match typ ← streamTypeOf desc; sm ← splitFullMethod method; mret (typ, sm) with
  | inl e => (s, inl e)
  | inr (typ, (service, mth)) =>
    let start rec :=
      l ← streamer desc method;
      mret {| r_live := l; r_typ := typ; r_service := service; r_method := mth;
              r_serverStreams := ServerStreams desc; r_rec := rec; r_finished := false |} in
    if bool_decide (typ = StreamServer) then (s, start None)
    else
      let '(s', r) := OpenStreamRecord s (streamOpen s typ service mth "") opened in
      (s', rec ← r; start (Some rec))
  end.

Definition ensureOpen_record (s : FileSession) (rs : recordStream) (openMsg : string) (t : Z)
    : FileSession * (recordStream * result StreamRecording) :=
  match r_rec rs with
  | Some rec => (s, (rs, inr rec))
  | None =>
    match OpenStreamRecord s (streamOpen s (r_typ rs) (r_service rs) (r_method rs) openMsg) t with
    | (s', inl e) => (s', (rs, inl e))
    | (s', inr rec) => (s', (set_rec rs (Some rec) (r_finished rs), inr rec))
    end
  end.

Definition finish (rs : recordStream) (code : Z) (terminalErr : option err) (t : ticks)
    (σ : fsys) : fsys * (recordStream * result unit) :=
  match r_finished rs, r_rec rs with
  | true, _ | _, None => (σ, (rs, inr tt))
  | false, Some rec =>
    let code := if bool_decide (terminalErr ≠ None) && (code =? codes_OK)%Z
                then codes_Unknown else code in
    let '(σ', (rec', r)) := Finish rec (t_wall t) (t_end t)
                              (Some {[ "status_code" := VInt KInt code ]}) terminalErr σ in
    (σ', (set_rec rs (Some rec') true, r))
  end.

Definition SendMsg_record (s : FileSession) (rs : recordStream) (m : message) (t : ticks)
    : FileSession * (recordStream * option err) :=
  match marshalMessage m with
  | inl e => (s, (rs, Some e))
  | inr b =>
    match ensureOpen_record s rs b (t_open t) with
    | (s', (rs1, inl e)) => (s', (rs1, Some e))
    | (s', (rs1, inr rec)) =>
      match live_SendMsg (r_live rs1) m with
      | (l, Some e) => (s', (set_live rs1 l, Some e))
      | (l, None) =>
        (s', (set_rec (set_live rs1 l) (Some (RecordSend rec (t_log t) b)) (r_finished rs1), None))
      end
    end
  end.

(** [e] if the save failed, the live result otherwise. *)
Definition loudly (r : result unit) (e : option err) : option err :=
  match r with inl fErr => Some fErr | inr _ => e end.

Definition RecvMsg_record (rs : recordStream) (m : message) (t : ticks) (σ : fsys)
    : fsys * (recordStream * (message * option err)) :=
  let '(l, (m', e)) := live_RecvMsg (r_live rs) m in
  let rs := set_live rs l in
  match e with
  | None =>
    match r_rec rs with
    | None => (σ, (rs, (m', None)))
    | Some rec =>
      match marshalMessage m' with
      | inl mErr => (σ, (rs, (m', Some mErr)))
      | inr b =>
        let rs := set_rec rs (Some (RecordRecv rec (t_log t) b)) (r_finished rs) in
        if r_serverStreams rs then (σ, (rs, (m', None)))
        else
          let '(σ', (rs', r)) := finish rs codes_OK None t σ in
          (σ', (rs', (m', loudly r None)))
      end
    end
  | Some e =>
    let '(σ', (rs', r)) :=
      if errors_is e SEOF then finish rs codes_OK None t σ
      else finish rs (status_Code e) (Some e) t σ in
    (σ', (rs', (m', loudly r (Some e))))
  end.

Definition CloseSend_record (rs : recordStream) (t : ticks) : recordStream * option err :=
  let '(l, e) := live_CloseSend (r_live rs) in
  let rs := set_live rs l in
  match e, r_rec rs with
  | None, Some rec => (set_rec rs (Some (RecordHalfClose rec (t_log t))) (r_finished rs), None)
  | _, _ => (rs, e)
  end.

(** ** Replaying *)

Record replayStream := {
  q_typ : string;
  q_service : string;
  q_method : string;
  q_rp : option StreamReplay;
  q_openErr : option err;
}.

Definition set_rp (q : replayStream) (rp : option StreamReplay) (e : option err) : replayStream :=
  {| q_typ := q_typ q; q_service := q_service q; q_method := q_method q; q_rp := rp;
     q_openErr := e |}.

Definition newReplayStream (s : FileSession) (desc : StreamDesc) (method : string) (σ : fsys)
    : fsys * (FileSession * result replayStream) :=
  match typ ← streamTypeOf desc; sm ← splitFullMethod method; mret (typ, sm) with
  | inl e => (σ, (s, inl e))
  | inr (typ, (service, mth)) =>
    let rs rp := {| q_typ := typ; q_service := service; q_method := mth; q_rp := rp;
                    q_openErr := None |} in
    if bool_decide (typ = StreamServer) then (σ, (s, inr (rs None)))
    else
      let '(σ', (s', r)) := OpenStreamReplay s (streamOpen s typ service mth "") σ in
      (σ', (s', rp ← r; mret (rs (Some rp))))
  end.

Definition ensureOpen_replay (s : FileSession) (q : replayStream) (openMsg : string) (σ : fsys)
    : fsys * (FileSession * (replayStream * result StreamReplay)) :=
  match q_openErr q, q_rp q with
  | Some e, _ => (σ, (s, (q, inl e)))
  | None, Some rp => (σ, (s, (q, inr rp)))
  | None, None =>
    match OpenStreamReplay s (streamOpen s (q_typ q) (q_service q) (q_method q) openMsg) σ with
    | (σ', (s', inl e)) => (σ', (s', (set_rp q None (Some e), inl e)))
    | (σ', (s', inr rp)) => (σ', (s', (set_rp q (Some rp) None, inr rp)))
    end
  end.

Definition too_early : string :=
  "xrr: server-stream operation before the request message (replay locates the cassette by the open message)".

(** The outcome is an error or the open handle; [status.Error] of a failure code
    is never nil. *)
Definition replay_handle (q : replayStream) : option err + StreamReplay :=
  match q_openErr q, q_rp q with
  | Some e, _ => inl (Some e)
  | None, None => inl (status_Error codes_FailedPrecondition too_early)
  | None, Some rp => inr rp
  end.

(** [int(f)] truncates towards zero. *)
Definition float_int (f : float64) : Z :=
  match f with
  | FNum m e =>
    let z := if (0 <=? e)%Z then (m * 2 ^ e)%Z else Z.quot m (2 ^ - e) in
    if (- 2 ^ 63 <=? z)%Z && (z <? 2 ^ 63)%Z then z else machine_int f
  | _ => machine_int f
  end.

Definition statusCodeFrom (payload : gmap string any) : Z :=
  match payload !! "status_code" with
  | Some (VInt KInt v) | Some (VInt KInt64 v) => v
  | Some (VInt KUint64 v) => if (v <? 2 ^ 63)%Z then v else (v - 2 ^ 64)%Z
  | Some (VFloat f) => float_int f
  | _ => codes_Unknown
  end.

Definition status_prefix (code : Z) : string :=
  "rpc error: code = " +:+ codes_String code +:+ " desc = ".

Definition recordedStatusErr (rp : StreamReplay) (msg : string) : option err :=
  let code := to_code (statusCodeFrom (default ∅ (p_resp_payload (rep_pair rp)))) in
  let code := if (code =? codes_OK)%Z then codes_Unknown else code in
  status_Error code (default msg (CutPrefix msg (status_prefix code))).

Definition mapErr (rp : StreamReplay) (e : option err) : option err :=
  match e with
  | None => None
  | Some e =>
    if errors_is e SEOF then Some EOF else
    if errors_is e SStreamMismatch then Some e else
    recordedStatusErr rp (error_text e)
  end.

Definition SendMsg_replay (s : FileSession) (q : replayStream) (m : message) (σ : fsys)
    : fsys * (FileSession * (replayStream * option err)) :=
  match marshalMessage m with
  | inl e => (σ, (s, (q, Some e)))
  | inr b =>
    match ensureOpen_replay s q b σ with
    | (σ', (s', (q', inl e))) => (σ', (s', (q', Some e)))
    | (σ', (s', (q', inr rp))) =>
      let '(rp', e) := Send rp b in
      (σ', (s', (set_rp q' (Some rp') None, mapErr rp' e)))
    end
  end.

Definition RecvMsg_replay (q : replayStream) (m : message) : replayStream * (message * option err) :=
  match replay_handle q with
  | inl e => (q, (m, e))
  | inr rp =>
    let '(rp', r) := Recv rp in
    let q' := set_rp q (Some rp') None in
    match r with
    | inl e => (q', (m, mapErr rp' (Some e)))
    | inr b => (q', unmarshalMessage b m)
    end
  end.

Definition CloseSend_replay (q : replayStream) : replayStream * option err :=
  match replay_handle q with
  | inl e => (q, e)
  | inr rp =>
    let '(rp', e) := HalfClose rp in (set_rp q (Some rp') None, mapErr rp' e)
  end.

(** ** The interceptor: a client stream in one of the three modes *)

Inductive clientStream : Type :=
| CSLive (l : live)
| CSRecord (rs : recordStream)
| CSReplay (q : replayStream).

Record world := { w_fs : fsys; w_session : FileSession }.

Definition StreamClientInterceptor (w : world) (desc : StreamDesc) (method : string)
    (streamer : StreamDesc → string → result live) (t : ticks) : world * result clientStream :=
  let s := w_session w in
  if bool_decide (mode s = ModePassthrough) then (w, l ← streamer desc method; mret (CSLive l)) else
  if bool_decide (mode s = ModeRecord) then
    let '(s', r) := newRecordStream s desc method streamer (t_open t) in
    ({| w_fs := w_fs w; w_session := s' |}, rs ← r; mret (CSRecord rs))
  else if bool_decide (mode s = ModeReplay) then
    let '(σ', (s', r)) := newReplayStream s desc method (w_fs w) in
    ({| w_fs := σ'; w_session := s' |}, q ← r; mret (CSReplay q))
  else (w, inl (ENew ("grpc: unknown session mode " +:+ Quote (mode s)))).

(** A client's calls and what it gets back; a message that a failed receive
    leaves behind is nobody's. *)
Inductive call : Type := CallSend (m : message) | CallRecv (m : message) | CallClose.
Inductive answer : Type :=
| ASend (e : option err)
| ARecv (r : result message)
| AClose (e : option err).

Definition received (x : message * option err) : result message :=
  match x.2 with Some e => inl e | None => inr x.1 end.

Definition live_call (l : live) (c : call) : live * answer :=
  match c with
  | CallSend m => let '(l', e) := live_SendMsg l m in (l', ASend e)
  | CallRecv m => let '(l', x) := live_RecvMsg l m in (l', ARecv (received x))
  | CallClose => let '(l', e) := live_CloseSend l in (l', AClose e)
  end.

Definition record_call (w : world) (rs : recordStream) (c : call) (t : ticks)
    : world * (recordStream * answer) :=
  match c with
  | CallSend m =>
    let '(s', (rs', e)) := SendMsg_record (w_session w) rs m t in
    ({| w_fs := w_fs w; w_session := s' |}, (rs', ASend e))
  | CallRecv m =>
    let '(σ', (rs', x)) := RecvMsg_record rs m t (w_fs w) in
    ({| w_fs := σ'; w_session := w_session w |}, (rs', ARecv (received x)))
  | CallClose => let '(rs', e) := CloseSend_record rs t in (w, (rs', AClose e))
  end.

Definition replay_call (w : world) (q : replayStream) (c : call) : world * (replayStream * answer) :=
  match c with
  | CallSend m =>
    let '(σ', (s', (q', e))) := SendMsg_replay (w_session w) q m (w_fs w) in
    ({| w_fs := σ'; w_session := s' |}, (q', ASend e))
  | CallRecv m => let '(q', x) := RecvMsg_replay q m in (w, (q', ARecv (received x)))
  | CallClose => let '(q', e) := CloseSend_replay q in (w, (q', AClose e))
  end.

Fixpoint record_calls (w : world) (rs : recordStream) (cs : list (call * ticks))
    : world * (recordStream * list answer) :=
  match cs with
  | [] => (w, (rs, []))
  | (c, t) :: cs' =>
    let '(w1, (rs1, a)) := record_call w rs c t in
    let '(w2, (rs2, l)) := record_calls w1 rs1 cs' in (w2, (rs2, a :: l))
  end.

Fixpoint replay_calls (w : world) (q : replayStream) (cs : list call)
    : world * (replayStream * list answer) :=
  match cs with
  | [] => (w, (q, []))
  | c :: cs' =>
    let '(w1, (q1, a)) := replay_call w q c in
    let '(w2, (q2, l)) := replay_calls w1 q1 cs' in (w2, (q2, a :: l))
  end.
End record.

(** ** What the libraries promise *)

(** A status error renders its code and description; the code is read back. *)
Class StatusLaws `{GrpcLib} := {
  status_Error_fail c d :
    (0 < c < 2 ^ 32)%Z → status_Error c d = Some (EStatus c d (status_prefix c +:+ d));
  status_Code_status c d t : status_Code (EStatus c d t) = c;
}.

(** A live receive decodes the wire bytes of the message it delivers. *)
Class LiveLaws `{LiveStream} := {
  live_recv_decodes l m l' m' b :
    live_RecvMsg l m = (l', (m', None)) → marshalMessage m' = inr b →
    unmarshalMessage b m = (m', None);
}.

(** ** Methods, types and status *)

Section basics.
Context {U : Unicode} {F : FloatFormat} `{SL : StatusLaws}.

Lemma splitFullMethod_inr full service method :
  splitFullMethod full = inr (service, method) ↔
  service ≠ "" ∧ method ≠ "" ∧ contains_char method slash = false ∧
  TrimPrefix full "/" = service +:+ "/" +:+ method.
Proof.
  unfold splitFullMethod. pose proof (CutLast1_spec (TrimPrefix full "/") slash service method) as Hc.
  change (String slash method) with ("/" +:+ method) in Hc. split.
  - destruct (CutLast1 _ _) as [[a b]|] eqn:E; [|done].
    destruct (bool_decide (a = "") || bool_decide (b = "")) eqn:Eb; [done|]. intros [= -> ->].
    apply orb_false_iff in Eb as [Ea%bool_decide_eq_false Eb%bool_decide_eq_false].
    destruct Hc as [Hc _]. destruct (Hc eq_refl). done.
  - intros (Hs & Hm & Hn & He). destruct Hc as [_ Hc]. rewrite Hc by done.
    by rewrite !bool_decide_eq_false_2.
Qed.

(** The terminal a client sees is never success. *)
Lemma recordedStatusErr_some rp msg :
  ∃ c d, recordedStatusErr rp msg = Some (EStatus c d (status_prefix c +:+ d)) ∧ (0 < c < 2 ^ 32)%Z.
Proof.
  unfold recordedStatusErr.
  set (code := if (to_code _ =? codes_OK)%Z then _ else _).
  assert (0 < code < 2 ^ 32)%Z as Hr.
  { unfold code, codes_OK, codes_Unknown, to_code.
    destruct (Z.eqb_spec (statusCodeFrom (default ∅ (p_resp_payload (rep_pair rp))) mod 2 ^ 32) 0);
      [lia|]. pose proof (Z.mod_pos_bound (statusCodeFrom (default ∅ (p_resp_payload (rep_pair rp))))
                            (2 ^ 32)). lia. }
  rewrite status_Error_fail by done. eauto.
Qed.

(** A status error survives the cassette: its text and its code rebuild it. *)
Lemma recordedStatusErr_again rp c d :
  (0 < c < 2 ^ 32)%Z →
  p_resp_payload (rep_pair rp) = Some {[ "status_code" := VInt KInt c ]} →
  recordedStatusErr rp (status_prefix c +:+ d) = Some (EStatus c d (status_prefix c +:+ d)).
Proof.
  intros Hc Hp. unfold recordedStatusErr, statusCodeFrom. rewrite Hp. simpl.
  rewrite lookup_singleton_eq. unfold to_code. rewrite Z.mod_small by lia.
  destruct (Z.eqb_spec c codes_OK) as [E|_]; [unfold codes_OK in E; lia|].
  rewrite CutPrefix_app. simpl. by apply status_Error_fail.
Qed.
End basics.

(** ** A recorded conversation as an event log *)

Section conversations.
Context {U : Unicode} {F : FloatFormat} {Y : YamlLib} {YS : YamlStreamLib} {O : Faults}.
Context `{LS : LiveStream} {SL : StatusLaws} {LL : LiveLaws}.

(** Calls that succeeded, what they were answered, and what was logged. *)
Inductive teed : list (call * ticks) → list answer → list rec_event → Prop :=
| teed_nil : teed [] [] []
| teed_send m t b cs l evs :
    marshalMessage m = inr b → teed cs l evs →
    teed ((CallSend m, t) :: cs) (ASend None :: l) (LogSend (t_log t) b :: evs)
| teed_recv m t m' b cs l evs :
    marshalMessage m' = inr b → unmarshalMessage b m = (m', None) → teed cs l evs →
    teed ((CallRecv m, t) :: cs) (ARecv (inr m') :: l) (LogRecv (t_log t) b :: evs)
| teed_close t cs l evs :
    teed cs l evs → teed ((CallClose, t) :: cs) (AClose None :: l) (LogHalfClose (t_log t) :: evs).

Definition succeeded (a : answer) : Prop :=
  match a with ASend e | AClose e => e = None | ARecv r => ∃ m, r = inr m end.

Definition is_recv (c : call) : bool := match c with CallRecv _ => true | _ => false end.
Definition is_send (c : call) : bool := match c with CallSend _ => true | _ => false end.

(** No message is sent after a half-close. *)
Fixpoint disciplined (cs : list call) : Prop :=
  match cs with
  | [] => True
  | CallClose :: cs' => Forall (λ c, is_send c = false) cs' ∧ disciplined cs'
  | _ :: cs' => disciplined cs'
  end.

(** One successful call, as seen by the recording; [more] receives may follow
    only on a stream of responses. *)
Lemma record_call_teed w rs rec c t w' rs' a :
  r_rec rs = Some rec → r_serverStreams rs = true ∨ is_recv c = false →
  record_call w rs c t = (w', (rs', a)) → succeeded a →
  ∃ l ev, teed [(c, t)] [a] [ev] ∧
    w' = w ∧ rs' = set_rec (set_live rs l) (Some (log_event rec ev)) (r_finished rs).
Proof.
  intros Hrec Hss. destruct c as [m|m|]; simpl.
  - unfold SendMsg_record, ensureOpen_record. rewrite Hrec.
    destruct (marshalMessage m) as [e|b] eqn:Eb; [by intros [= <- <- <-]|].
    destruct (live_SendMsg (r_live rs) m) as [l [e|]]; intros [= <- <- <-]; [done|]. intros _.
    exists l, (LogSend (t_log t) b). split; [by repeat constructor|]. by destruct w.
  - destruct Hss as [Hss|]; [|done]. unfold RecvMsg_record.
    destruct (live_RecvMsg (r_live rs) m) as [l [m' [e|]]] eqn:El.
    { destruct (if errors_is e SEOF then _ else _) as [σ' [rs'' r]]. intros [= <- <- <-].
      by destruct r; intros [? [=]]. }
    simpl. rewrite Hrec. destruct (marshalMessage m') as [e|b] eqn:Eb.
    { intros [= <- <- <-]. by intros [? [=]]. }
    rewrite Hss. intros [= <- <- <-] _. exists l, (LogRecv (t_log t) b).
    split; [|by destruct w]. apply teed_recv; [done| |constructor].
    by eapply live_recv_decodes.
  - unfold CloseSend_record. destruct (live_CloseSend (r_live rs)) as [l [e|]]; simpl; rewrite ?Hrec;
      intros [= <- <- <-]; [done|]. intros _.
    exists l, (LogHalfClose (t_log t)). split; [by repeat constructor|done].
Qed.

Lemma teed_cons c t a ev cs l evs :
  teed [(c, t)] [a] [ev] → teed cs l evs → teed ((c, t) :: cs) (a :: l) (ev :: evs).
Proof. intros Ht. by inversion Ht; subst; constructor. Qed.

Lemma teed_app cs1 l1 evs1 cs2 l2 evs2 :
  teed cs1 l1 evs1 → teed cs2 l2 evs2 → teed (cs1 ++ cs2) (l1 ++ l2) (evs1 ++ evs2).
Proof. by induction 1; intros; simpl; [|constructor; auto..]. Qed.

(** A whole run of successful calls. *)
Lemma record_calls_teed cs w rs rec w' rs' l :
  r_rec rs = Some rec → r_serverStreams rs = true ∨ Forall (λ c, is_recv c = false) cs.*1 →
  record_calls w rs cs = (w', (rs', l)) → Forall succeeded l →
  ∃ lv evs, teed cs l evs ∧
    w' = w ∧ rs' = set_rec (set_live rs lv) (Some (log_events rec evs)) (r_finished rs).
Proof.
  revert w rs rec l. induction cs as [|[c t] cs IH]; intros w rs rec l Hrec Hss; simpl.
  { intros [= <- <- <-] _. exists (r_live rs), []. split_and!; [constructor|done|].
    destruct rs; simpl in *; by subst. }
  destruct (record_call w rs c t) as [w1 [rs1 a]] eqn:E1.
  destruct (record_calls w1 rs1 cs) as [w2 [rs2 l2]] eqn:E2. intros [= <- <- <-].
  intros [Ha Hl]%Forall_cons.
  destruct (record_call_teed w rs rec c t w1 rs1 a) as (lv & ev & Ht & -> & ->); try done.
  { destruct Hss as [|Hss]; [by left|]. right. simpl in Hss. by apply Forall_cons in Hss as [? _]. }
  assert (r_serverStreams rs = true ∨ Forall (λ c, is_recv c = false) cs.*1) as Hss'.
  { destruct Hss as [|Hss]; [by left|]. right. simpl in Hss. by apply Forall_cons in Hss as [_ ?]. }
  destruct (λ Hr, IH w (set_rec (set_live rs lv) (Some (log_event rec ev)) (r_finished rs))
    (log_event rec ev) l2 Hr Hss' E2 Hl) as (lv2 & evs & Hts & -> & ->); [done|].
  exists lv2, (ev :: evs). split; [by apply teed_cons|]. done.
Qed.

(** ** The replay of a log *)

(** What a call asks of the core handle, and how its reply is answered. *)
Definition op_of (c : call) : option client_op :=
  match c with
  | CallSend m => match marshalMessage m with inr b => Some (OpSend b) | inl _ => None end
  | CallRecv _ => Some OpRecv
  | CallClose => Some OpHalfClose
  end.

Definition answer_of (rp : StreamReplay) (c : call) (x : reply) : answer :=
  match c, x with
  | CallSend _, inl e => ASend (mapErr rp e)
  | CallRecv m, inr (inr b) => ARecv (received (unmarshalMessage b m))
  | CallRecv m, inr (inl e) => ARecv (received (m, mapErr rp (Some e)))
  | _, inl e => AClose (mapErr rp e)
  | _, _ => AClose None
  end.

Lemma mapErr_with_pos rp i j k : mapErr (with_pos rp i j k) = mapErr rp.
Proof. done. Qed.

Lemma answer_of_with_pos rp i j k : answer_of (with_pos rp i j k) = answer_of rp.
Proof. done. Qed.

(** One call on an open handle is one operation of the core replay. *)
Lemma replay_call_op w q rp c op :
  q_rp q = Some rp → q_openErr q = None → op_of c = Some op →
  replay_call w q c =
  (w, (set_rp q (Some (replay_op rp op).1) None, answer_of rp c (replay_op rp op).2)).
Proof.
  intros Hq He Hop. destruct (replay_op_frame rp op) as (i & j & k & Hf).
  destruct c as [m|m|]; simpl in *.
  - unfold SendMsg_replay, ensureOpen_replay. destruct (marshalMessage m) as [|b]; [done|].
    injection Hop as <-. rewrite He, Hq. simpl in *. destruct (Send rp b) as [rp' e].
    simpl in *. subst. by destruct w.
  - injection Hop as <-. unfold RecvMsg_replay, replay_handle. rewrite He, Hq. simpl in *.
    destruct (Recv rp) as [rp' [e|b]]; simpl in *; by subst.
  - injection Hop as <-. unfold CloseSend_replay, replay_handle. rewrite He, Hq. simpl in *.
    destruct (HalfClose rp) as [rp' e]; simpl in *; by subst.
Qed.

(** A client's calls on an open handle are the core replay's operations. *)
Lemma replay_calls_ops cs ops w q rp :
  q_rp q = Some rp → q_openErr q = None → op_of <$> cs = Some <$> ops →
  (replay_calls w q cs).2.2 = zip_with (answer_of rp) cs (replay_ops rp ops).2.
Proof.
  revert ops w q rp. induction cs as [|c cs IH]; intros [|op ops] w q rp Hq He Hops; try done.
  rewrite !fmap_cons in Hops. injection Hops as Hop Hops.
  cbn [replay_calls replay_ops]. rewrite (replay_call_op w q rp c op) by done.
  specialize (IH ops w (set_rp q (Some (replay_op rp op).1) None) (replay_op rp op).1
    eq_refl eq_refl Hops).
  destruct (replay_op_frame rp op) as (i & j & k & Hf).
  rewrite Hf in IH at 2. rewrite answer_of_with_pos in IH.
  destruct (replay_op rp op) as [rp1 x]. simpl in *.
  destruct (replay_calls w _ cs) as [w2 [q2 l]]. destruct (replay_ops rp1 ops).
  simpl in *. by rewrite IH.
Qed.

Definition op_of_event (ev : rec_event) : client_op :=
  match ev with LogSend _ b => OpSend b | LogRecv _ _ => OpRecv | LogHalfClose _ => OpHalfClose end.

Lemma teed_ops cs l evs :
  teed cs l evs → op_of <$> cs.*1 = Some <$> (op_of_event <$> evs).
Proof.
  induction 1 as [|m t b cs l evs Hb Ht IH|m t m' b cs l evs Hb Hu Ht IH|t cs l evs Ht IH];
    [done|..]; rewrite !fmap_cons, IH; [|done..]. simpl. by rewrite Hb.
Qed.

(** The replies to the logged operations, turned into answers, are the answers
    of the recorded run. *)
Lemma teed_replay rp cs l evs rest T ops cs' :
  teed cs l evs →
  zip_with (answer_of rp) (cs.*1 ++ cs')
    (expected (recvs_of evs ++ rest) T ((op_of_event <$> evs) ++ ops)) =
  l ++ zip_with (answer_of rp) cs' (expected rest T ops).
Proof.
  induction 1 as [|m t b cs l evs Hb Ht IH|m t m' b cs l evs Hb Hu Ht IH|t cs l evs Ht IH];
    simpl; [done|f_equal; exact IH|rewrite Hu; f_equal; exact IH|f_equal; exact IH].
Qed.

Lemma teed_follows cs l evs tail :
  teed cs l evs → disciplined cs.*1 → Forall (λ op, op = OpRecv) tail →
  follows (sends_of evs) ((op_of_event <$> evs) ++ tail).
Proof.
  intros Ht Hd Htail. induction Ht as [|m t b cs l evs Hb Ht IH|m t m' b cs l evs Hb Hu Ht IH|t cs l evs Ht IH];
    simpl in *; [|constructor; by apply IH..|].
  - induction Htail as [|op tail -> Htail IH]; constructor; done.
  - destruct Hd as [Hns Hd]. assert (sends_of evs = []) as E.
    { clear IH Hd. induction Ht; simpl in *; [done|..]; apply Forall_cons in Hns as [Hc Hns];
        [done|by apply IHHt..]. }
    specialize (IH Hd). change (sends_of (LogHalfClose (t_log t) :: evs)) with (sends_of evs).
    rewrite E in *. by constructor.
Qed.

(** ** Ranges and payloads *)

Definition log_fits (r : StreamRecording) : Prop :=
  Forall frame_range (rec_sends r) ∧ Forall frame_range (rec_recvs r) ∧
  from_option event_range True (rec_half r) ∧ (0 ≤ rec_seq r)%Z ∧ (0 ≤ rec_opened r)%Z.

Definition event_time (ev : rec_event) : Z :=
  match ev with LogSend t _ | LogRecv t _ | LogHalfClose t => t end.

Lemma elapsedMs_fits r now : (0 ≤ rec_opened r)%Z → (now < 2 ^ 63)%Z → int64 (elapsedMs r now).
Proof. unfold elapsedMs, int64. intros. case_match eqn:E; lia. Qed.

Lemma log_events_fits r evs :
  log_fits r → (rec_seq r + Z.of_nat (length evs) < 2 ^ 63)%Z →
  Forall (λ ev, event_time ev < 2 ^ 63)%Z evs →
  log_fits (log_events r evs) ∧ (rec_seq (log_events r evs) <= rec_seq r + Z.of_nat (length evs))%Z.
Proof.
  unfold log_events. revert r. induction evs as [|ev evs IH]; intros r Hr Hn Ht; [split; [done|simpl; lia]|].
  apply Forall_cons in Ht as [Htev Ht]. cbn [foldl length] in *.
  assert (log_fits (log_event r ev) ∧ (rec_seq (log_event r ev) <= rec_seq r + 1)%Z) as [Hf Hs].
  { destruct Hr as (Hs & Hrv & Hh & Hseq & Ho). unfold log_fits.
    pose proof (elapsedMs_fits r (event_time ev) Ho Htev) as He.
    destruct ev as [t m|t m|t]; simpl in *; unfold RecordSend, RecordRecv, RecordHalfClose;
      repeat case_match; simpl; split_and!; try done; try lia;
      try (apply Forall_app; split; [done|]; constructor; [|done]);
      try (split; simpl; [unfold int64; lia|done]). by match goal with E : rec_half r = _ |- _ => rewrite E end. }
  destruct (IH (log_event r ev) Hf) as [IH1 IH2]; [lia|done|]. split; [done|lia].
Qed.

Lemma recorded_pair_range r now payload e :
  log_fits r → (rec_seq r < 2 ^ 63)%Z → (now < 2 ^ 63)%Z → pair_range (recorded_pair r now payload e).
Proof.
  intros (Hs & Hr & Hh & Hseq & Ho) Hb Hnow. split_and!; try done.
  split; simpl; [unfold int64; lia|by apply elapsedMs_fits].
Qed.

(** What an open puts in a new recording. *)
Lemma OpenStreamRecord_fields s o opened s1 r :
  OpenStreamRecord s o opened = (s1, inr r) →
  rec_opened r = opened ∧ rec_seq r = 0%Z ∧ rec_half r = None ∧
  (map_Forall (λ _ v, yaml_value v) (o_payload o) → map_Forall (λ _ v, yaml_value v) (rec_payload r)).
Proof.
  unfold OpenStreamRecord. destruct (checkStreamOpen _ _ _ _); [done|].
  destruct (streamOpenFingerprint s o) as [s2 [|[fp n]]]; [done|]. intros [= <- <-]. simpl.
  split_and!; try done. intros Hp. case_match; [|done]. by apply map_Forall_insert_2.
Qed.

(** ** The end of a conversation *)

(** How a call ends: a delivered message, the end of the stream, or a status. *)
Definition terminal (r : result message) : Prop :=
  match r with
  | inr _ => True
  | inl e => e = EOF ∨
      ∃ c d, e = EStatus c d (status_prefix c +:+ d) ∧ (0 < c < 2 ^ 32)%Z ∧
             utf8_valid (status_prefix c +:+ d)
  end.

(** The code and the error that [finish] records for it. *)
Definition terminal_code (r : result message) : Z :=
  match r with inl (EStatus c _ _) => c | _ => codes_OK end.
Definition terminal_err (r : result message) : option err :=
  match r with inl (EStatus c d t) => Some (EStatus c d t) | _ => None end.

(** A failed save is never mistaken for one of them. *)
Lemma Finish_error rec wall now payload e σ σ' rec' f :
  Finish rec wall now payload e σ = (σ', (rec', inl f)) →
  f ≠ EOF ∧ ∀ c d t, f ≠ EStatus c d t.
Proof.
  unfold Finish. case_match; [by intros [= <- <- <-]|].
  destruct (SaveStream _ _ _ _ _ _) as [σ1 [e'|[]]]; simpl; [|done]. by intros [= <- <- <-].
Qed.

Definition finished_with (rec : StreamRecording) (r : result message) (t : ticks) (w w' : world) : Prop :=
  ∃ rec', Finish rec (t_wall t) (t_end t) (Some {[ "status_code" := VInt KInt (terminal_code r) ]})
            (terminal_err r) (w_fs w) = (w_fs w', (rec', inr tt)).

(** The receive that completes a recording. *)
Lemma final_call w rs rec m t w' rs' r :
  r_rec rs = Some rec → r_finished rs = false →
  record_call w rs (CallRecv m) t = (w', (rs', ARecv r)) → terminal r → r_finished rs' = true →
  match r with
  | inl _ => finished_with rec r t w w'
  | inr m' => ∃ b, teed [(CallRecv m, t)] [ARecv r] [LogRecv (t_log t) b] ∧
                   finished_with (RecordRecv rec (t_log t) b) r t w w'
  end.
Proof.
  intros Hrec Hfin. simpl. unfold RecvMsg_record.
  destruct (live_RecvMsg (r_live rs) m) as [l [m' [e|]]] eqn:El.
  - intros Hc Hterm _.
    assert (finish (set_live rs l) (if errors_is e SEOF then codes_OK else status_Code e)
      (if errors_is e SEOF then None else Some e) t (w_fs w) =
      (if errors_is e SEOF then finish (set_live rs l) codes_OK None t (w_fs w)
       else finish (set_live rs l) (status_Code e) (Some e) t (w_fs w))) as Hif.
    { by destruct (errors_is e SEOF). }
    rewrite <-Hif in Hc. clear Hif. unfold finish in Hc. simpl in Hc. rewrite Hfin, Hrec in Hc.
    destruct (Finish _ _ _ _ _ _) as [σ' [rec' [f|[]]]] eqn:Ef; injection Hc as <- <- <-; simpl in *.
    + exfalso. apply Finish_error in Ef as [Hne Hns]. destruct Hterm as [|(c & d & -> & _)]; [done|].
      by eapply Hns.
    + exists rec'. destruct Hterm as [->|(c & d & -> & Hcr & _)]; simpl in *; [done|].
      rewrite status_Code_status in Ef. simpl in Ef.
      destruct (Z.eqb_spec c codes_OK) as [E|_]; [unfold codes_OK in E; lia|]. done.
  - simpl. rewrite Hrec. destruct (marshalMessage m') as [e|b] eqn:Eb.
    { intros [= <- <- <-] _. simpl. by rewrite Hfin. }
    destruct (r_serverStreams rs); [by intros [= <- <- <-]; simpl; rewrite Hfin|].
    unfold finish. simpl. rewrite Hfin.
    destruct (Finish _ _ _ _ _ _) as [σ' [rec' [f|[]]]] eqn:Ef; intros [= <- <- <-] Hterm _; simpl in *.
    + exfalso. apply Finish_error in Ef as [Hne Hns]. destruct Hterm as [|(c & d & -> & _)]; [done|].
      by eapply Hns.
    + exists b. split; [|by exists rec']. apply teed_recv; [done| |constructor].
      by eapply live_recv_decodes.
Qed.

(** ** Opening on both sides *)

Definition open_payload (service method : string) : gmap string any :=
  {[ "service" := VString service; "method" := VString method ]}.

Lemma streamOpen_fields s typ service mth b :
  let o := streamOpen s typ service mth b in
  o_adapter o = adapterID ∧ o_type o = typ ∧ o_payload o = open_payload service mth.
Proof. unfold streamOpen. by case_bool_decide. Qed.

Lemma streamOpen_scrub s s' typ service mth b :
  streamScrub s' = streamScrub s → streamOpen s' typ service mth b = streamOpen s typ service mth b.
Proof. intros Hs. unfold streamOpen, ScrubStreamFrame. by rewrite Hs. Qed.

Lemma streamTypeOf_server desc typ :
  streamTypeOf desc = inr typ → typ = StreamServer ↔ ServerStreams desc = true ∧ ClientStreams desc = false.
Proof.
  unfold streamTypeOf. destruct (ServerStreams desc), (ClientStreams desc); intros; simplify_eq/=;
    split; try done; by intros [].
Qed.

(** A replay that finds its pair - at once, or at the request of a server stream -
    runs as one that was open from the start. *)
Lemma newReplayStream_opened s' desc method typ service mth b σ s2 rp cs :
  streamTypeOf desc = inr typ → splitFullMethod method = inr (service, mth) →
  (typ = StreamServer → ∃ m cs', cs = CallSend m :: cs' ∧ marshalMessage m = inr b) →
  OpenStreamReplay s' (streamOpen s' typ service mth b) σ = (σ, (s2, inr rp)) →
  ∃ s1 q, newReplayStream s' desc method σ = (σ, (s1, inr q)) ∧
    ∃ q', q_rp q' = Some rp ∧ q_openErr q' = None ∧
    (replay_calls {| w_fs := σ; w_session := s1 |} q cs).2.2 =
    (replay_calls {| w_fs := σ; w_session := s2 |} q' cs).2.2.
Proof.
  intros Hty Hsp Hreq Hopen. unfold newReplayStream. rewrite Hty, Hsp. cbn. case_bool_decide as Hserver.
  - destruct (Hreq Hserver) as (m & cs' & -> & Hb). do 2 eexists. split; [done|].
    exists {| q_typ := typ; q_service := service; q_method := mth; q_rp := Some rp; q_openErr := None |}.
    split_and!; try done. cbn [replay_calls replay_call].
    unfold SendMsg_replay, ensureOpen_replay. cbn [q_rp q_openErr q_typ q_service q_method w_session w_fs].
    by rewrite Hb, Hopen.
  - assert (streamOpen s' typ service mth "" = streamOpen s' typ service mth b) as ->.
    { unfold streamOpen. by rewrite bool_decide_eq_false_2. }
    rewrite Hopen. do 2 eexists. split; [done|]. eexists. split; [|split; [|reflexivity]]; done.
Qed.

(** Wherever the core open happens - in the interceptor, or at the first message
    of a server stream - the run is that of a stream that was already open. *)
Lemma opened_first s desc method streamer opened s1 rs cs w' rs' l σ service mth :
  newRecordStream s desc method streamer opened = (s1, inr rs) →
  splitFullMethod method = inr (service, mth) →
  record_calls {| w_fs := σ; w_session := s1 |} rs cs = (w', (rs', l)) →
  (ServerStreams desc = true ∧ ClientStreams desc = false →
    ∃ m t cs', cs = (CallSend m, t) :: cs' ∧ head l = Some (ASend None)) →
  ∃ typ b t0 s2 rec rs0,
    streamTypeOf desc = inr typ ∧
    (typ = StreamServer → ∃ m t cs', cs = (CallSend m, t) :: cs' ∧ marshalMessage m = inr b) ∧
    OpenStreamRecord s (streamOpen s typ service mth b) t0 = (s2, inr rec) ∧
    (t0 = opened ∨ ∃ c t, (c, t) ∈ cs ∧ t0 = t_open t) ∧
    r_rec rs0 = Some rec ∧ r_finished rs0 = false ∧ r_serverStreams rs0 = ServerStreams desc ∧
    record_calls {| w_fs := σ; w_session := s2 |} rs0 cs = (w', (rs', l)).
Proof.
  unfold newRecordStream. intros Hnew Hsp Hrun Hserver.
  rewrite Hsp in *. destruct (streamTypeOf desc) as [|typ] eqn:Ety; [done|]. cbn in Hnew.
  pose proof (streamTypeOf_server _ _ Ety) as Htyp.
  case_bool_decide as Eserver.
  - destruct (streamer desc method) as [|lv]; [done|]. injection Hnew as <- <-.
    destruct (Hserver (proj1 Htyp Eserver)) as (m & t & cs' & -> & Hhead).
    cbn [record_calls record_call] in Hrun. unfold SendMsg_record, ensureOpen_record in Hrun.
    cbn [r_rec r_typ r_service r_method r_live w_session w_fs] in Hrun.
    destruct (marshalMessage m) as [e|b] eqn:Eb.
    { destruct (record_calls _ _ _) as [? [? ?]]. simplify_eq/=. }
    destruct (OpenStreamRecord s _ _) as [s2 [e|rec]] eqn:Eo.
    { destruct (record_calls _ _ _) as [? [? ?]]. simplify_eq/=. }
    exists typ, b, (t_open t), s2, rec.
    eexists {| r_live := lv; r_typ := typ; r_service := service; r_method := mth;
               r_serverStreams := ServerStreams desc; r_rec := Some rec; r_finished := false |}.
    split_and!; try done.
    + by exists m, t, cs'.
    + right. exists (CallSend m), t. split; [by constructor|done].
    + cbn [record_calls record_call]. unfold SendMsg_record, ensureOpen_record. rewrite Eb. done.
  - destruct (OpenStreamRecord s _ _) as [s2 [e|rec]] eqn:Eo; [done|].
    destruct (streamer desc method) as [|lv]; [done|]. injection Hnew as <- <-.
    exists typ, "", opened, s2, rec. eexists. split_and!; try done; [by left|..]; done.
Qed.

(** ** Record, then replay *)

Definition clock_ok (t : ticks) : Prop :=
  (0 ≤ t_open t)%Z ∧ (t_log t < 2 ^ 63)%Z ∧ (t_end t < 2 ^ 63)%Z.

(** A conversation recorded to its end: the calls [cs], every one of which
    succeeded with the answers [l], then a receive answered [r] at which the
    recording finished.  The client half-closes after its last send, opens a
    server stream by sending its request, and receives once on a stream without
    streamed responses. *)
Record recorded_run (s : FileSession) (desc : StreamDesc) (method : string)
    (streamer : StreamDesc → string → result live) (opened : Z) (σ : fsys)
    (cs : list (call * ticks)) (m : message) (t : ticks)
    (w' : world) (l : list answer) (r : result message) : Prop := {
  rr_run : ∃ s1 rs rs', newRecordStream s desc method streamer opened = (s1, inr rs) ∧
    record_calls {| w_fs := σ; w_session := s1 |} rs (cs ++ [(CallRecv m, t)]) =
      (w', (rs', l ++ [ARecv r])) ∧ r_finished rs' = true;
  rr_succeeded : Forall succeeded l;
  rr_terminal : terminal r;
  rr_disciplined : disciplined cs.*1;
  rr_request : ServerStreams desc = true ∧ ClientStreams desc = false →
    ∃ m0 t0 cs', cs = (CallSend m0, t0) :: cs';
  rr_responses : ServerStreams desc = true ∨ Forall (λ c, is_recv c = false) cs.*1;
  rr_clock : (0 ≤ opened)%Z ∧ Forall (λ ct, clock_ok ct.2) (cs ++ [(CallRecv m, t)]);
  rr_length : (Z.of_nat (length cs) + 1 < 2 ^ 63)%Z;
  rr_text : ∃ service mth, splitFullMethod method = inr (service, mth) ∧
    utf8_valid service ∧ utf8_valid mth;
}.

(** A session that replays what the other recorded. *)
Definition replays (s s' : FileSession) : Prop :=
  mode s' = ModeReplay ∧ cassette s' = cassette s ∧ streamN s' = streamN s ∧
  streamScrub s' = streamScrub s.

Lemma record_calls_app cs1 cs2 w rs w' rs' l1 l2 :
  length l1 = length cs1 → record_calls w rs (cs1 ++ cs2) = (w', (rs', l1 ++ l2)) →
  ∃ w1 rs1, record_calls w rs cs1 = (w1, (rs1, l1)) ∧ record_calls w1 rs1 cs2 = (w', (rs', l2)).
Proof.
  revert w rs l1. induction cs1 as [|[c t] cs1 IH]; intros w rs [|a l1] Hlen Hrun; try done.
  { by exists w, rs. }
  simpl in *. destruct (record_call w rs c t) as [w1 [rs1 a1]].
  destruct (record_calls w1 rs1 (cs1 ++ cs2)) as [w2 [rs2 l]] eqn:E. injection Hrun as -> -> -> ->.
  destruct (IH w1 rs1 l1) as (w3 & rs3 & H3 & H4); [lia|done|].
  exists w3, rs3. rewrite H3. done.
Qed.

Lemma record_calls_length cs w rs w' rs' l :
  record_calls w rs cs = (w', (rs', l)) → length l = length cs.
Proof.
  revert w rs l. induction cs as [|[c t] cs IH]; intros w rs l; simpl; [by intros [= <- <- <-]|].
  destruct (record_call w rs c t) as [w1 [rs1 a]].
  destruct (record_calls w1 rs1 cs) as [w2 [rs2 l2]] eqn:E. intros [= <- <- <-].
  simpl. f_equal. by eapply IH.
Qed.

Lemma teed_length cs l evs : teed cs l evs → length evs = length cs.
Proof. induction 1; simpl; congruence. Qed.

Lemma teed_times cs l evs :
  teed cs l evs → Forall (λ ct, clock_ok ct.2) cs → Forall (λ ev, event_time ev < 2 ^ 63)%Z evs.
Proof.
  induction 1; intros Hc; [constructor|..]; apply Forall_cons in Hc as [(_ & ? & _) ?];
    constructor; auto.
Qed.

Lemma first_send_answer w rs m t cs w' rs' a l :
  record_calls w rs ((CallSend m, t) :: cs) = (w', (rs', a :: l)) → succeeded a → a = ASend None.
Proof.
  simpl. destruct (SendMsg_record _ rs m t) as [? [? e]]. destruct (record_calls _ _ cs) as [? [? ?]].
  intros [= _ _ <- _]. simpl. by intros ->.
Qed.

Lemma fresh_log_fits s o opened s1 rec :
  OpenStreamRecord s o opened = (s1, inr rec) → (0 ≤ opened)%Z → log_fits rec ∧ rec_seq rec = 0%Z.
Proof.
  intros Hopen H0. destruct (OpenStreamRecord_inr _ _ _ _ _ Hopen) as (_ & _ & Hs & Hr & _).
  destruct (OpenStreamRecord_fields _ _ _ _ _ Hopen) as (Hop & Hq & Hh & _).
  split; [|done]. unfold log_fits. by rewrite Hs, Hr, Hh, Hq, Hop.
Qed.

(** The events that a last receive [m], answered [r], adds. *)
Definition final_events (r : result message) (m : message) (t : ticks) (tail : list rec_event) : Prop :=
  tail = [] ∧ (∃ e, r = inl e) ∨
  ∃ m' b, r = inr m' ∧ tail = [LogRecv (t_log t) b] ∧ marshalMessage m' = inr b ∧ unmarshalMessage b m = (m', None).

Lemma final_events_length r m t tail :
  final_events r m t tail → length tail ≤ 1 ∧ Forall (λ ev, event_time ev = t_log t) tail.
Proof. intros [[-> _]|(? & ? & _ & -> & _)]; simpl; split; try lia; by repeat constructor. Qed.

(** The events a last receive adds, and the file they are finished into. *)
Lemma final_tail rec evs r m t w w' :
  match r with
  | inl _ => finished_with (log_events rec evs) r t w w'
  | inr m' => ∃ b, teed [(CallRecv m, t)] [ARecv r] [LogRecv (t_log t) b] ∧
                   finished_with (RecordRecv (log_events rec evs) (t_log t) b) r t w w'
  end →
  ∃ tail rec', Finish (log_events rec (evs ++ tail)) (t_wall t) (t_end t)
      (Some {[ "status_code" := VInt KInt (terminal_code r) ]}) (terminal_err r) (w_fs w) =
      (w_fs w', (rec', inr tt)) ∧
    final_events r m t tail.
Proof.
  destruct r as [e|m'].
  - intros [rec' Hend]. exists [], rec'. rewrite app_nil_r. split; [done|left; eauto].
  - intros (b & Htd & rec' & Hend). exists [LogRecv (t_log t) b], rec'.
    unfold log_events. rewrite foldl_app. split; [done|]. right. inversion Htd; subst. eauto 10.
Qed.

(** What the recorded run comes to: an open recording, an event log, a finished
    pair, and a replay handle that any opening of the same stream leads to. *)
Lemma recorded_run_log s desc method streamer opened σ cs m t w' l r :
  recorded_run s desc method streamer opened σ cs m t w' l r →
  ∃ typ service mth b t0 s2 rec evs tail rec',
    streamTypeOf desc = inr typ ∧ splitFullMethod method = inr (service, mth) ∧
    (typ = StreamServer → head (sends_of evs) = Some b) ∧
    let o := streamOpen s typ service mth b in
    OpenStreamRecord s o t0 = (s2, inr rec) ∧
    let all := evs ++ tail in
    Finish (log_events rec all) (t_wall t) (t_end t)
      (Some {[ "status_code" := VInt KInt (terminal_code r) ]}) (terminal_err r) σ =
      (w_fs w', (rec', inr tt)) ∧
    teed cs l evs ∧
    final_events r m t tail ∧
    pair_range (recorded_pair (log_events rec all) (t_end t)
      (Some {[ "status_code" := VInt KInt (terminal_code r) ]}) (terminal_err r)) ∧
    map_Forall (λ _ v, yaml_value v) (rec_payload rec) ∧
    ∀ s' s2' rp, streamScrub s' = streamScrub s →
      OpenStreamReplay s' o (w_fs w') = (w_fs w', (s2', inr rp)) →
      ∃ s1' q, newReplayStream s' desc method (w_fs w') = (w_fs w', (s1', inr q)) ∧
        ∃ q', q_rp q' = Some rp ∧ q_openErr q' = None ∧
        (replay_calls {| w_fs := w_fs w'; w_session := s1' |} q (cs.*1 ++ [CallRecv m])).2.2 =
        (replay_calls {| w_fs := w_fs w'; w_session := s2' |} q' (cs.*1 ++ [CallRecv m])).2.2.
Proof.
  intros [(s1 & rs & rs' & Hnew & Hrun & Hfin) Hok Hterm Hdisc Hreq Hresp [Ho Hclk] Hlen
    (service & mth & Hsp & Hu1 & Hu2)].
  pose proof (record_calls_length _ _ _ _ _ _ Hrun) as Hll. rewrite !length_app in Hll. simpl in Hll.
  destruct (opened_first _ _ _ _ _ _ _ _ _ _ _ _ _ _ Hnew Hsp Hrun) as
    (typ & b & t0 & s2 & rec & rs0 & Hty & Hreq0 & Hopen & Ht0 & Hrec & Hf0 & Hss & Hrun0).
  { intros Hsv. destruct (Hreq Hsv) as (m0 & t1 & cs' & ->). do 3 eexists. split; [done|].
    destruct l as [|a l]; [simpl in Hll; lia|]. apply Forall_cons in Hok as [Ha _].
    simpl. f_equal. by apply (first_send_answer _ _ _ _ _ _ _ _ _ Hrun). }
  destruct (record_calls_app cs _ _ _ _ _ l _ ltac:(lia) Hrun0) as (w1 & rs1 & Hrun1 & Hrun2).
  rewrite <-Hss in Hresp.
  destruct (record_calls_teed cs _ rs0 rec w1 rs1 l Hrec Hresp Hrun1 Hok) as (lv & evs & Ht & -> & ->).
  cbn [record_calls] in Hrun2. destruct (record_call _ _ (CallRecv m) t) as [w2 [rs2 a]] eqn:Ec.
  injection Hrun2 as -> -> ->.
  assert (0 ≤ t0)%Z as Ht0'.
  { destruct Ht0 as [->|(c & t' & Hin & ->)]; [done|].
    rewrite Forall_forall in Hclk. by destruct (Hclk _ Hin). }
  destruct (fresh_log_fits _ _ _ _ _ Hopen Ht0') as [Hfit Hseq0].
  assert (map_Forall (λ _ v, yaml_value v) (rec_payload rec)) as Htext.
  { destruct (OpenStreamRecord_fields _ _ _ _ _ Hopen) as (_ & _ & _ & Hp). apply Hp.
    destruct (streamOpen_fields s typ service mth b) as (_ & _ & ->).
    apply map_Forall_insert_2; [done|]. by apply map_Forall_singleton. }
  apply Forall_app in Hclk as [Hclk Hclk1]. apply Forall_cons in Hclk1 as [(Hk1 & Hk2 & Hk3) _].
  pose proof (teed_length _ _ _ Ht) as Hle. pose proof (teed_times _ _ _ Ht Hclk) as Htm.
  pose proof Ec as Hend. apply (final_call _ _ (log_events rec evs)) in Hend; [|done..].
  destruct (final_tail rec evs _ _ _ _ _ Hend) as (tail & rec' & Hfinish & Htail).
  exists typ, service, mth, b, t0, s2, rec, evs, tail, rec'. cbv zeta. split_and!; try done.
  - intros Hs. destruct (Hreq0 Hs) as (m0 & t1 & cs' & Hcs & Hb).
    destruct cs as [|[c0 t2] cs]; [done|]. injection Hcs as -> -> _. inversion Ht; subst. simpl. congruence.
  - destruct (final_events_length _ _ _ _ Htail) as [Htl Htt].
    destruct (log_events_fits rec (evs ++ tail)) as [Hf Hs]; [done|..].
    + rewrite length_app. lia.
    + apply Forall_app. split; [done|]. eapply Forall_impl; [done|]. by intros ev ->.
    + apply recorded_pair_range; [done| |done]. rewrite length_app in Hs.
      lia.
  - intros s' s2' rp Hsc Hop. rewrite <-(streamOpen_scrub s s') in Hop by done.
    eapply newReplayStream_opened; [done..| |done]. intros Hs.
    destruct (Hreq0 Hs) as (m0 & t1 & cs' & Hcs & Hb). destruct cs as [|[c0 t2] cs]; [done|].
    injection Hcs as -> -> _. by exists m0, (cs.*1 ++ [CallRecv m]).
Qed.

(** The last answer of a replay is the recorded one. *)
Lemma answer_terminal rp m r rest :
  terminal r →
  terminalErr rp = (if bool_decide (recorded_text (terminal_err r) = "") then EOF
                    else ENew (recorded_text (terminal_err r))) →
  p_resp_payload (rep_pair rp) = Some {[ "status_code" := VInt KInt (terminal_code r) ]} →
  (rest = [] ∧ (∃ e, r = inl e) ∨
   ∃ m' b, r = inr m' ∧ rest = [b] ∧ unmarshalMessage b m = (m', None)) →
  zip_with (answer_of rp) [CallRecv m] (expected rest (terminalErr rp) [OpRecv]) = [ARecv r].
Proof.
  intros Hterm HT Hp [[-> [e ->]]|(m' & b & -> & -> & Hu)]; simpl; [|by rewrite Hu].
  f_equal. destruct Hterm as [->|(c & d & -> & Hc & _)]; simpl in *; rewrite HT; [done|].
  pose proof (recordedStatusErr_again rp c d Hc Hp) as Hst. unfold received. simpl in *.
  by rewrite Hst.
Qed.

Context {YL : YamlLaws} {YSL : YamlStreamLaws}.

(** A recorded run opens again, as a handle that takes what was sent, hands out what
    was received and ends as the run did; the interceptor's replay stream leads to it. *)
Lemma recorded_run_reopened s s' desc method streamer opened σ cs m t w' l r :
  recorded_run s desc method streamer opened σ cs m t w' l r → replays s s' →
  (∀ i b, scrubFrame (streamScrub s) StreamRecv i b = b) → (∀ p, read_fault p = None) →
  ∃ typ service mth b s2 rp evs tail,
    streamTypeOf desc = inr typ ∧ splitFullMethod method = inr (service, mth) ∧
    (typ = StreamServer → head (sends_of evs) = Some b) ∧
    teed cs l evs ∧ final_events r m t tail ∧
    OpenStreamReplay s' (streamOpen s typ service mth b) (w_fs w') = (w_fs w', (s2, inr rp)) ∧
    p_resp_payload (rep_pair rp) = Some {[ "status_code" := VInt KInt (terminal_code r) ]} ∧
    terminalErr rp = (if bool_decide (recorded_text (terminal_err r) = "") then EOF
                      else ENew (recorded_text (terminal_err r))) ∧
    (∀ ops, follows (sends_of (evs ++ tail)) ops →
      (replay_ops rp ops).2 = expected (recvs_of (evs ++ tail)) (terminalErr rp) ops) ∧
    ∃ s1' q, newReplayStream s' desc method (w_fs w') = (w_fs w', (s1', inr q)) ∧
      ∃ q', q_rp q' = Some rp ∧ q_openErr q' = None ∧
      (replay_calls {| w_fs := w_fs w'; w_session := s1' |} q (cs.*1 ++ [CallRecv m])).2.2 =
      (replay_calls {| w_fs := w_fs w'; w_session := s2 |} q' (cs.*1 ++ [CallRecv m])).2.2.
Proof.
  intros Hrun (Hm & Hc & Hn & Hsc) Hid Hfault.
  destruct (recorded_run_log _ _ _ _ _ _ _ _ _ _ _ _ Hrun) as
    (typ & service & mth & b & t0 & s2 & rec & evs & tail & rec' & Hd & Hsp & Hb & Hopen & Hfin & Ht & Htail &
     Hrange & Hpay & Hrep).
  pose proof (rr_terminal _ _ _ _ _ _ _ _ _ _ _ _ Hrun) as Hterm.
  destruct (OpenStreamRecord_inr _ _ _ _ _ Hopen) as (_ & Hnf & _ & _ & _ & _ & Hscr & _).
  destruct (log_events_spec rec (evs ++ tail) Hnf) as ((_ & _ & _ & _ & Hpl & _) & _).
  assert (pair_text (recorded_pair (log_events rec (evs ++ tail)) (t_end t)
    (Some {[ "status_code" := VInt KInt (terminal_code r) ]}) (terminal_err r))) as Htext.
  { split_and!; [done| |simpl; by rewrite Hpl|by apply map_Forall_singleton].
    destruct r as [e|]; [|done]. by destruct Hterm as [->|(c & d & -> & _ & Hu)]. }
  assert (contains_char (o_adapter (streamOpen s typ service mth b)) slash = false) as Hslash
    by (by destruct (streamOpen_fields s typ service mth b) as (-> & _)).
  destruct (reopen_recorded _ _ _ _ _ _ _ _ _ _ _ _ _ _ Hopen Hm Hc Hn Hsc Hslash Hfault Hrange
    Htext Hfin) as (rp & Hrp & Hpp & HT & Hops).
  do 5 eexists. exists rp, evs, tail. split_and!; [done..| |by eapply Hrep].
  intros ops Hf. rewrite Hops by done. f_equal.
  rewrite (list_fmap_ext _ id); [by apply list_fmap_id|]. intros ? ? _. unfold scrub_recv. by rewrite Hscr.
Qed.

(** C2. A streamed gRPC call replays as it ran. Record a conversation over a
    live stream to its end - messages sent, messages received, a half-close, and
    a last receive answered with a message, the end of the stream or a gRPC
    status; then give a replaying session the same method and the same calls,
    whatever their interleaving. Each call gets the answer it got live: the same
    messages decoded into the caller's, and the same terminal error, status code
    and description included. *)
Theorem grpc_record_replay s s' desc method streamer opened σ cs m t w' l r :
  recorded_run s desc method streamer opened σ cs m t w' l r → replays s s' →
  (∀ i b, scrubFrame (streamScrub s) StreamRecv i b = b) → (∀ p, read_fault p = None) →
  ∃ s1' q, newReplayStream s' desc method (w_fs w') = (w_fs w', (s1', inr q)) ∧
    (replay_calls {| w_fs := w_fs w'; w_session := s1' |} q (cs.*1 ++ [CallRecv m])).2.2 =
    l ++ [ARecv r].
Proof.
  intros Hrun Hreps Hid Hfault.
  destruct (recorded_run_reopened _ _ _ _ _ _ _ _ _ _ _ _ _ Hrun Hreps Hid Hfault) as
    (typ & service & mth & b0 & s2 & rp & evs & tail & _ & _ & _ & Ht & Htail & _ & Hpp & HT & Hops &
     s1' & q & Hq & q' & Hqr & Hqe & Hans).
  pose proof (rr_terminal _ _ _ _ _ _ _ _ _ _ _ _ Hrun) as Hterm.
  exists s1', q. split; [done|]. rewrite Hans.
  pose proof (teed_ops _ _ _ Ht) as Hcalls.
  rewrite (replay_calls_ops _ ((op_of_event <$> evs) ++ [OpRecv]) _ q' rp Hqr Hqe)
    by (by rewrite !fmap_app, Hcalls).
  assert (sends_of (evs ++ tail) = sends_of evs) as Hsends.
  { unfold sends_of. rewrite omap_app. destruct Htail as [[-> _]|(? & ? & _ & -> & _)]; simpl;
      by rewrite app_nil_r. }
  rewrite Hops.
  - unfold recvs_of. rewrite omap_app.
    rewrite (teed_replay rp cs l evs (recvs_of tail) _ _ _ Ht). f_equal.
    apply answer_terminal; [done|done|done|].
    destruct Htail as [[-> ?]|(m' & b & -> & -> & _ & Hu)]; [by left|right; eauto 10].
  - rewrite Hsends. apply (teed_follows cs l evs [OpRecv] Ht); [|by repeat constructor].
    apply (rr_disciplined _ _ _ _ _ _ _ _ _ _ _ _ Hrun).
Qed.

(** C27. The recorder does not disturb the call it records: every call on a
    recording stream reaches the live stream and gives the live answer - or it
    fails with an error of the recorder's own, which is then a message that
    cannot be marshalled, a recording that cannot be opened (both before
    anything is sent), or a cassette that cannot be saved. *)
Theorem recorder_transparent w rs c t w' rs' a :
  record_call w rs c t = (w', (rs', a)) →
  let '(l, a0) := live_call (r_live rs) c in
  r_live rs' = l ∧ a = a0 ∨
  match c with
  | CallSend m => ∃ e, a = ASend (Some e) ∧ r_live rs' = r_live rs ∧
      (marshalMessage m = inl e ∨
       r_rec rs = None ∧ ∃ b o, marshalMessage m = inr b ∧
         o = streamOpen (w_session w) (r_typ rs) (r_service rs) (r_method rs) b ∧
         (OpenStreamRecord (w_session w) o (t_open t)).2 = inl e)
  | CallRecv _ => ∃ e, a = ARecv (inl e) ∧ r_live rs' = l ∧
      ((∃ m', a0 = ARecv (inr m') ∧ marshalMessage m' = inl e) ∨
       ∃ rs1 code te, (finish rs1 code te t (w_fs w)).2.2 = inl e)
  | CallClose => False
  end.
Proof.
  destruct c as [m|m|]; simpl.
  - unfold SendMsg_record, ensureOpen_record. destruct (live_SendMsg (r_live rs) m) as [l e0] eqn:El.
    destruct (marshalMessage m) as [e|b] eqn:Eb; [intros [= <- <- <-]; right; eauto 10|].
    destruct (r_rec rs) as [rec|] eqn:Er.
    { rewrite El. destruct e0; intros [= <- <- <-]; by left. }
    destruct (OpenStreamRecord _ _ _) as [s' [e|rec]] eqn:Eo.
    { intros [= <- <- <-]. right. exists e. split_and!; try done. right. split; [done|].
      do 2 eexists. split_and!; [done..|]. by rewrite Eo. }
    simpl. rewrite El. destruct e0; intros [= <- <- <-]; by left.
  - unfold RecvMsg_record. destruct (live_RecvMsg (r_live rs) m) as [l [m' e0]] eqn:El.
    assert (∀ rs1 code te e, finish rs1 code te t (w_fs w) =
      ((finish rs1 code te t (w_fs w)).1, ((finish rs1 code te t (w_fs w)).2.1, inl e)) →
      (finish rs1 code te t (w_fs w)).2.2 = inl e) as Hf by (intros ???? ->; done).
    assert (∀ rs1 code te, r_live (finish rs1 code te t (w_fs w)).2.1 = r_live rs1) as Hl.
    { intros rs1 code te. unfold finish. destruct (r_finished rs1), (r_rec rs1); try done.
      by destruct (Finish _ _ _ _ _ _) as [? [? ?]]. }
    destruct e0 as [e|]; simpl.
    + destruct (errors_is e SEOF);
        match goal with |- context [finish ?r ?c ?x t (w_fs w)] =>
          pose proof (Hl r c x) as Hlv; destruct (finish r c x t (w_fs w)) as [σ' [rs1 [f|[]]]] eqn:Ef end;
        intros [= <- <- <-]; simpl in *; [right|by left|right|by left];
        exists f; (split_and!; [done..|right; do 3 eexists; by rewrite Ef]).
    + destruct (r_rec rs) as [rec|]; [|intros [= <- <- <-]; by left].
      destruct (marshalMessage m') as [e|b] eqn:Eb; [intros [= <- <- <-]; right; eauto 10|].
      destruct (r_serverStreams rs); [intros [= <- <- <-]; by left|].
      match goal with |- context [finish ?r ?c ?x t (w_fs w)] =>
        pose proof (Hl r c x) as Hlv; destruct (finish r c x t (w_fs w)) as [σ' [rs1 [f|[]]]] eqn:Ef end;
        intros [= <- <- <-]; simpl in *; [right|by left].
      exists f; (split_and!; [done..|right; do 3 eexists; by rewrite Ef]).
  - unfold CloseSend_record. destruct (live_CloseSend (r_live rs)) as [l [e|]]; simpl;
      [|destruct (r_rec rs)]; intros [= <- <- <-]; by left.
Qed.

Lemma finish_frame rs code te t σ σ' rs' r :
  finish rs code te t σ = (σ', (rs', r)) →
  σ' = σ ∧ r_finished rs' = r_finished rs ∨ r_finished rs = false ∧ r_finished rs' = true.
Proof.
  unfold finish. destruct (r_finished rs) eqn:Ef, (r_rec rs); try (intros [= <- <- <-]; by left).
  destruct (Finish _ _ _ _ _ _) as [? [? ?]]. intros [= <- <- <-]. by right.
Qed.

Lemma record_call_frame w rs c t w' rs' a :
  record_call w rs c t = (w', (rs', a)) →
  w_fs w' = w_fs w ∧ r_finished rs' = r_finished rs ∨ r_finished rs = false ∧ r_finished rs' = true.
Proof.
  destruct c as [m|m|]; simpl.
  - unfold SendMsg_record, ensureOpen_record.
    repeat case_match; simplify_eq/=; intros [= <- <- <-]; by left.
  - unfold RecvMsg_record. destruct (live_RecvMsg (r_live rs) m) as [l [m' [e|]]]; simpl.
    + destruct (errors_is e SEOF); destruct (finish _ _ _ _ _) as [σ' [rs1 r]] eqn:Ef;
        apply finish_frame in Ef; by intros [= <- <- <-].
    + destruct (r_rec rs); [|intros [= <- <- <-]; by left].
      destruct (marshalMessage m'); [intros [= <- <- <-]; by left|].
      destruct (r_serverStreams rs); [intros [= <- <- <-]; by left|].
      destruct (finish _ _ _ _ _) as [σ' [rs1 r]] eqn:Ef; apply finish_frame in Ef.
      by intros [= <- <- <-].
  - unfold CloseSend_record. repeat case_match; simplify_eq/=; intros [= <- <- <-]; by left.
Qed.

(** No terminal, no cassette; one terminal, one cassette. Calls on a
    recording stream touch the disk only in the step from unfinished to
    finished: a stream abandoned before its end leaves the disk as it was, and
    nothing is ever written again after the end. *)
Theorem cassette_at_terminal cs w rs w' rs' l :
  record_calls w rs cs = (w', (rs', l)) → r_finished rs' = r_finished rs → w_fs w' = w_fs w.
Proof.
  assert (∀ cs w rs w' rs' l, record_calls w rs cs = (w', (rs', l)) →
    w_fs w' = w_fs w ∧ r_finished rs' = r_finished rs ∨ r_finished rs = false ∧ r_finished rs' = true)
    as Hgen.
  { clear. induction cs as [|[c t] cs IH]; intros w rs w' rs' l; simpl; [intros [= <- <- <-]; by left|].
    destruct (record_call w rs c t) as [w1 [rs1 a]] eqn:E1.
    destruct (record_calls w1 rs1 cs) as [w2 [rs2 l2]] eqn:E2. intros [= <- <- <-].
    apply record_call_frame in E1. apply IH in E2.
    destruct E1 as [[? ?]|[? ?]], E2 as [[? ?]|[? ?]];
      first [left; split; congruence|right; split; congruence]. }
  intros Hr Hf. apply Hgen in Hr as [[-> _]|[H1 H2]]; [done|congruence].
Qed.

(** A replayed stream implements the recorded script: on an open handle,
    calls whose messages marshal get what the two queues of the recording give
    for the scrubbed bytes, messages decoded into the caller's and errors mapped
    to what a live stream surfaces; neither the disk nor the session is
    touched. *)
Theorem replayStream_refines w q rp cs ops :
  q_rp q = Some rp → q_openErr q = None → op_of <$> cs = Some <$> ops →
  (replay_calls w q cs).1 = w ∧
  (replay_calls w q cs).2.2 =
    zip_with (answer_of rp) cs (script_ops (script_of rp) (scrub_op rp <$> ops)).2.
Proof.
  intros Hq He Hops. split.
  - revert ops q rp Hq He Hops. induction cs as [|c cs IH]; intros [|op ops] q rp Hq He Hops; try done.
    rewrite !fmap_cons in Hops. injection Hops as Hop Hops. cbn [replay_calls].
    rewrite (replay_call_op w q rp c op) by done.
    specialize (IH ops (set_rp q (Some (replay_op rp op).1) None) (replay_op rp op).1 eq_refl eq_refl Hops).
    by destruct (replay_calls w _ cs) as [w2 [q2 l]].
  - by rewrite (replay_calls_ops cs ops w q rp), replay_ops_refines by done.
Qed.

(** An error of a replay stays one: the end of the stream is [io.EOF], a
    divergence is the mismatch itself, and a recorded error terminal becomes a
    status error with a code other than OK, whatever the cassette says - never
    success. *)
Theorem mapErr_faithful rp e :
  match mapErr rp (Some e) with
  | None => False
  | Some e' =>
    if errors_is e SEOF then e' = EOF else
    if errors_is e SStreamMismatch then e' = e else
    ∃ c d, e' = EStatus c d (status_prefix c +:+ d) ∧ (0 < c < 2 ^ 32)%Z
  end.
Proof.
  unfold mapErr. destruct (errors_is e SEOF); [done|]. destruct (errors_is e SStreamMismatch); [done|].
  destruct (recordedStatusErr_some rp (error_text e)) as (c & d & -> & Hc). eauto.
Qed.

(** A server stream whose cassette could not be opened fails for good: from
    then on every call that reaches the handle is answered with the error of the
    open, and no other cassette is looked for. *)
Theorem open_error_sticky w q e cs :
  q_openErr q = Some e → Forall (λ c, op_of c ≠ None) cs →
  replay_calls w q cs =
  (w, (q, (λ c, match c with
                | CallSend _ => ASend (Some e)
                | CallRecv _ => ARecv (inl e)
                | CallClose => AClose (Some e)
                end) <$> cs)).
Proof.
  intros He. induction cs as [|c cs IH]; intros Hops; [done|].
  apply Forall_cons in Hops as [Hc Hops]. cbn [replay_calls].
  assert (replay_call w q c = (w, (q, match c with CallSend _ => ASend (Some e)
    | CallRecv _ => ARecv (inl e) | CallClose => AClose (Some e) end))) as ->.
  { destruct c as [m|m|]; simpl in *; unfold SendMsg_replay, RecvMsg_replay, CloseSend_replay,
      ensureOpen_replay, replay_handle; rewrite He; [|done|done].
    destruct (marshalMessage m); [done|]. by destruct w. }
  by rewrite IH.
Qed.

(** The interceptor splits [/service/method] at the last slash: it accepts
    exactly the names made of a non-empty service and a non-empty method without
    slashes, with or without the leading slash, and loses nothing of either. *)
Theorem splitFullMethod_spec full service method :
  splitFullMethod full = inr (service, method) ↔
  service ≠ "" ∧ method ≠ "" ∧ contains_char method slash = false ∧
  TrimPrefix full "/" = service +:+ "/" +:+ method.
Proof. apply splitFullMethod_inr. Qed.
End conversations.

(** ** A concrete library and a scripted live stream *)

Section witnesses.
Local Existing Instance ascii_only.
Local Existing Instance integral_floats.
Local Existing Instance ReferenceYaml.lib.
Local Existing Instance ReferenceYaml.laws.
Local Existing Instance ReferenceStream.slib.
Local Existing Instance ReferenceStream.slaws.
Local Existing Instance no_faults.

#[local] Instance demo_grpc : GrpcLib := {|
  proto := string;
  proto1 := string;
  proto_Marshal v := inr v;
  proto_Unmarshal b _ := (b, None);
  MessageV2Of v := v;
  v1_Unmarshal b _ := (b, None);
  codes_String := itoa;
  status_Code e := match e with EStatus c _ _ => c | _ => codes_Unknown end;
  status_Error c d :=
    if (c =? codes_OK)%Z then None
    else Some (EStatus c d ("rpc error: code = " +:+ itoa c +:+ " desc = " +:+ d));
  machine_int _ := 0%Z;
|}.

#[local] Instance demo_status : StatusLaws.
Proof.
  split; [|done]. intros c d Hc. simpl.
  destruct (Z.eqb_spec c codes_OK) as [->|_]; [unfold codes_OK in Hc; lia|].
  do 2 f_equal. unfold status_prefix. by rewrite !sapp_assoc.
Qed.

(** The responses still to come, then a [NotFound] status. *)
Definition demo_status_err : err :=
  EStatus 5 "gone" ("rpc error: code = " +:+ itoa 5 +:+ " desc = " +:+ "gone").

#[local] Instance demo_live : LiveStream := {|
  live := list string;
  live_SendMsg l _ := (l, None);
  live_RecvMsg l m :=
    match l with
    | [] => ([], (m, Some demo_status_err))
    | b :: l' => (l', unmarshalMessage b m)
    end;
  live_CloseSend l := (l, None);
|}.

#[local] Instance demo_live_laws : LiveLaws.
Proof.
  split. intros [|b l] m l' m' b'; simpl; [done|].
  destruct m as [v|v|[v|]|v|v]; simpl; intros [= <- <-] [= <-]; done.
Qed.

Definition demo_desc : StreamDesc :=
  {| StreamName := "Chat"; ServerStreams := true; ClientStreams := true |}.
Definition demo_ticks (n : Z) : ticks := {| t_open := n; t_log := n; t_end := n; t_wall := 0 |}.
Definition demo_calls : list (call * ticks) :=
  [(CallSend (MProto "hi"), demo_ticks 1); (CallRecv (MProto ""), demo_ticks 2);
   (CallSend (MBytes "bye"), demo_ticks 3); (CallClose, demo_ticks 4);
   (CallRecv (MBytesPtr (Some "")), demo_ticks 5)].
Definition demo_session (m : string) : FileSession := NewSession m (Some demo_cassette).
Definition demo_streamer (_ : StreamDesc) (_ : string) : result live := inr ["one"; "two"].

Definition demo_method : string := "/p.S/M".
Definition demo_opening : FileSession * result recordStream :=
  newRecordStream (demo_session ModeRecord) demo_desc demo_method demo_streamer 0.
Definition demo_rs : recordStream :=
  match demo_opening.2 with
  | inr rs => rs
  | inl _ => {| r_live := []; r_typ := ""; r_service := ""; r_method := ""; r_serverStreams := false;
                r_rec := None; r_finished := false |}
  end.
Definition demo_target : message := MProto "".
Definition demo_ran : world * (recordStream * list answer) :=
  record_calls {| w_fs := demo_fs; w_session := demo_opening.1 |} demo_rs
    (demo_calls ++ [(CallRecv demo_target, demo_ticks 6)]).
Definition demo_world : world := demo_ran.1.
Definition demo_answers : list answer :=
  [ASend None; ARecv (inr (MProto "one")); ASend None; AClose None;
   ARecv (inr (MBytesPtr (Some "two")))].

Lemma demo_recorded_run :
  recorded_run (demo_session ModeRecord) demo_desc demo_method demo_streamer 0 demo_fs
    demo_calls demo_target (demo_ticks 6) demo_world demo_answers (inl demo_status_err).
Proof.
  constructor.
  - exists demo_opening.1, demo_rs, demo_ran.2.1. split_and!.
    + assert (demo_opening.2 = inr demo_rs) as E.
      { unfold demo_rs. destruct demo_opening.2 eqn:E; [vm_compute in E; discriminate|done]. }
      rewrite <-E. apply surjective_pairing.
    + assert (demo_ran.2.2 = demo_answers ++ [ARecv (inl demo_status_err)]) as E
        by (vm_compute; reflexivity).
      rewrite <-E. change (record_calls _ _ _) with demo_ran. unfold demo_world.
      destruct demo_ran as [? [? ?]]. reflexivity.
    + vm_compute. reflexivity.
  - unfold demo_answers. repeat (apply Forall_cons; split; [by simpl; eauto|]). apply Forall_nil_2.
  - right. exists 5%Z, "gone". split_and!; [vm_compute; reflexivity|lia|lia|vm_compute; exact I].
  - simpl. split; [|done]. by repeat constructor.
  - intros [_ [=]].
  - by left.
  - split; [done|]. unfold demo_calls, clock_ok. simpl. repeat constructor; simpl; lia.
  - simpl. lia.
  - exists "p.S", "M". split_and!; [vm_compute; reflexivity|exact I|exact I].
Qed.

Lemma grpc_record_replay_witness :
  ∃ s1' q, newReplayStream (demo_session ModeReplay) demo_desc demo_method (w_fs demo_world) =
      (w_fs demo_world, (s1', inr q)) ∧
    (replay_calls {| w_fs := w_fs demo_world; w_session := s1' |} q
       (demo_calls.*1 ++ [CallRecv demo_target])).2.2 =
    demo_answers ++ [ARecv (inl demo_status_err)].
Proof.
  apply (grpc_record_replay (demo_session ModeRecord) (demo_session ModeReplay) demo_desc demo_method
    demo_streamer 0 demo_fs demo_calls demo_target (demo_ticks 6) demo_world demo_answers
    (inl demo_status_err) demo_recorded_run).
  - split_and!; reflexivity.
  - intros i b. reflexivity.
  - intros p. reflexivity.
Defined.

Lemma recorder_transparent_witness :
  ∃ w' rs', record_call {| w_fs := demo_fs; w_session := demo_opening.1 |} demo_rs
      (CallRecv demo_target) (demo_ticks 1) = (w', (rs', ARecv (inr (MProto "one")))) ∧
    r_live rs' = ["two"].
Proof.
  destruct (record_call {| w_fs := demo_fs; w_session := demo_opening.1 |} demo_rs
    (CallRecv demo_target) (demo_ticks 1)) as [w' [rs' a]] eqn:E.
  assert (a = ARecv (inr (MProto "one"))) as Ha.
  { apply (f_equal (λ x, x.2.2)) in E. simpl in E. rewrite <-E. vm_compute. reflexivity. }
  pose proof (recorder_transparent _ _ _ _ _ _ _ E) as H.
  exists w', rs'. split; [by rewrite Ha|]. subst a.
  destruct (live_call (r_live demo_rs) (CallRecv demo_target)) as [l a0] eqn:El.
  destruct H as [[-> _]|(e & He & _)]; [|discriminate He].
  change l with (l, a0).1. rewrite <-El. vm_compute. reflexivity.
Defined.

Lemma cassette_at_terminal_witness :
  ∃ w' rs' l, record_calls {| w_fs := demo_fs; w_session := demo_opening.1 |} demo_rs demo_calls =
    (w', (rs', l)) ∧ w_fs w' = demo_fs.
Proof.
  destruct (record_calls {| w_fs := demo_fs; w_session := demo_opening.1 |} demo_rs demo_calls)
    as [w' [rs' l]] eqn:E.
  exists w', rs', l. split; [done|].
  apply (cassette_at_terminal demo_calls _ demo_rs _ rs' l E).
  apply (f_equal (λ x, r_finished x.2.1)) in E. simpl in E. rewrite <-E. vm_compute. reflexivity.
Defined.

Definition demo_handle : replayStream :=
  {| q_typ := StreamBidi; q_service := "p.S"; q_method := "M"; q_rp := Some demo_replay;
     q_openErr := None |}.

Lemma replayStream_refines_witness :
  (replay_calls {| w_fs := demo_fs; w_session := demo_session ModeReplay |} demo_handle
     [CallSend (MBytes "zz"); CallRecv demo_target]).2.2 =
  let e := send_mismatch 0 "ab" "zz" in [ASend (Some e); ARecv (inl e)].
Proof.
  rewrite (proj2 (replayStream_refines {| w_fs := demo_fs; w_session := demo_session ModeReplay |}
    demo_handle demo_replay [CallSend (MBytes "zz"); CallRecv demo_target] [OpSend "zz"; OpRecv]
    eq_refl eq_refl eq_refl)).
  reflexivity.
Defined.

Lemma open_error_sticky_witness :
  (replay_calls {| w_fs := demo_fs; w_session := demo_session ModeReplay |}
     (set_rp demo_handle None (Some ErrCassetteMiss)) [CallClose; CallRecv demo_target]).2.2 =
  [AClose (Some ErrCassetteMiss); ARecv (inl ErrCassetteMiss)].
Proof.
  rewrite (open_error_sticky {| w_fs := demo_fs; w_session := demo_session ModeReplay |}
    (set_rp demo_handle None (Some ErrCassetteMiss)) ErrCassetteMiss [CallClose; CallRecv demo_target]);
    [reflexivity|reflexivity|by repeat constructor].
Defined.
Lemma mapErr_faithful_witness :
  ∃ c d, mapErr demo_replay (Some (ENew "boom")) = Some (EStatus c d (status_prefix c +:+ d)).
Proof.
  pose proof (mapErr_faithful demo_replay (ENew "boom")) as H. simpl in H.
  destruct H as (c & d & H & _). exists c, d. simpl. by rewrite H.
Defined.
End witnesses.
