(* ===== verification/Demux.v ===== *)
(** go/adapters/grpctransport/headers.go and demux.go: what one direction of an
    HTTP/2 connection says about the gRPC calls on it - header semantics,
    sanitization, and the reassembly of messages from interleaved frames. *)

From S2P Require Import Prelude GoStrings Values Redact Os GrpcStream.

(** ** Headers *)

(** [hpack.HeaderField]. *)
Record HeaderField := { h_name : string; h_value : string; h_sensitive : bool }.

Section headers.
Context {U : Unicode}.

Definition sanitize_field (r : Redactor) (f : HeaderField) : HeaderField :=
  if HasPrefix (h_name f) ":" then f else
  let '(v, redacted) := RedactField r (h_name f) (h_value f) in
  if redacted then {| h_name := h_name f; h_value := v; h_sensitive := h_sensitive f |} else f.

Definition sanitizeHeaders (r : Redactor) (fields : list HeaderField) : list HeaderField :=
  map (sanitize_field r) fields.
End headers.

Fixpoint headerValue (fields : list HeaderField) (name : string) : string :=
  match fields with
  | [] => ""
  | f :: fs => if bool_decide (h_name f = name) then h_value f else headerValue fs name
  end.

Definition hasHeader (fields : list HeaderField) (name : string) : bool :=
  existsb (λ f, bool_decide (h_name f = name)) fields.

Definition splitPath (path : string) : option (string * string) :=
  match CutLast1 (TrimPrefix path "/") slash with
  | Some (service, method) =>
    if bool_decide (service = "") || bool_decide (method = "") then None else Some (service, method)
  | None => None
  end.

(** [strconv.Atoi]: an optional sign, then decimal digits, within 64 bits. *)
Definition digit_val (c : ascii) : Z := Z.of_N (byte_val c) - 48.

Fixpoint digits_val (acc : Z) (s : string) : option Z :=
  match s with
  | EmptyString => Some acc
  | String c s' => if is_digit c then digits_val (10 * acc + digit_val c) s' else None
  end.

Definition Atoi (s : string) : option Z :=
  let '(sign, digits) :=
    match s with
    | String "-" s' => ((-1)%Z, s')
    | String "+" s' => (1%Z, s')
    | _ => (1%Z, s)
    end in
  if bool_decide (digits = "") then None else
  match digits_val 0 digits with
  | Some n =>
    let z := (sign * n)%Z in
    if (- 2 ^ 63 <=? z)%Z && (z <? 2 ^ 63)%Z then Some z else None
  | None => None
  end.

(** [strconv.ParseUint(s, 16, 8)] of a two-byte string. *)
Definition hex_digit_val (c : ascii) : option N :=
  if in_range 48 57 c then Some (byte_val c - 48)%N else
  if in_range 65 70 c then Some (byte_val c - 55)%N else
  if in_range 97 102 c then Some (byte_val c - 87)%N else None.

Definition ParseHex2 (a b : ascii) : option ascii :=
  match hex_digit_val a, hex_digit_val b with
  | Some h, Some l => Some (byte_of (16 * h + l))
  | _, _ => None
  end.

Definition percent : ascii := "%"%char.

(** The loop over the bytes. *)
Fixpoint percent_decode (s : string) : string :=
  match s with
  | EmptyString => ""
  | String c s' =>
    match bool_decide (c = percent), s' with
    | true, String a (String b rest) =>
      match ParseHex2 a b with
      | Some v => String v (percent_decode rest)
      | None => String c (percent_decode s')
      end
    | _, _ => String c (percent_decode s')
    end
  end.

Definition decodeGRPCMessage (s : string) : string :=
  if negb (contains_char s percent) then s else percent_decode s.

(** [Some (code, msg)] when the block is a terminal. *)
Definition grpcStatus (fields : list HeaderField) : option (Z * string) :=
  let raw := headerValue fields "grpc-status" in
  if bool_decide (raw = "") && negb (hasHeader fields "grpc-status") then None else
  match Atoi raw with
  | None => Some (codes_Unknown, headerValue fields "grpc-message")
  | Some n => Some (to_code n, decodeGRPCMessage (headerValue fields "grpc-message"))
  end.

Definition isCompressed (fields : list HeaderField) : bool :=
  let enc := headerValue fields "grpc-encoding" in
  negb (bool_decide (enc = "")) && negb (bool_decide (enc = "identity")).

(** ** Messages from DATA payloads *)

Definition grpcMsgPrefixLen : nat := 5.
Definition maxGRPCMessageSize : N := N.shiftl 64 20.

(** [binary.BigEndian.Uint32]. *)
Definition be_uint32 (a b c d : ascii) : N :=
  (byte_val a * 2 ^ 24 + byte_val b * 2 ^ 16 + byte_val c * 2 ^ 8 + byte_val d)%N.

Definition too_long (n : N) : err :=
  ENew ("grpctransport: gRPC message length " +:+ itoa (Z.of_N n) +:+ " exceeds cap " +:+
        itoa (Z.of_N maxGRPCMessageSize)).

(** The loop of [feed]; each turn takes at least the five bytes of a prefix off
    the buffer, so its length bounds the turns. *)
Fixpoint drain (fuel : nat) (buf : string) (out : list string) : string * result (list string) :=
  match fuel with
  | O => (buf, inr out)
  | S fuel' =>
    match buf with
    | String _ (String a (String b (String c (String d rest)))) =>
      let n := be_uint32 a b c d in
      if (maxGRPCMessageSize <? n)%N then (buf, inl (too_long n)) else
      if (slen rest <? N.to_nat n)%nat then (buf, inr out)
      else drain fuel' (sdrop (N.to_nat n) rest) (out ++ [stake (N.to_nat n) rest])
    | _ => (buf, inr out)
    end
  end.

(** A [streamDecoder] is its buffer. *)
Definition feed (buf data : string) : string * result (list string) :=
  drain (slen (buf +:+ data)) (buf +:+ data) [].

(** ** One direction of a connection *)

(** The frames that [http2.Framer] reads, headers and continuations merged and
    decompressed. *)
Inductive frame : Type :=
| FMetaHeaders (stream : N) (fields : list HeaderField) (ended : bool)
| FData (stream : N) (data : string) (ended : bool)
| FRSTStream (stream : N)
| FGoAway
| FSettings (ack : bool)
| FPing (ack : bool) (data : string)
| FOther.

Inductive wireEventKind : Type := wireHeaders | wireMessage | wireReset | wireGoAway.

(** A nil message is [None]. *)
Record wireEvent := {
  we_stream : N;
  we_kind : wireEventKind;
  we_headers : list HeaderField;
  we_message : option string;
  we_end : bool;
}.

Record pendingMsgs := { pm_stream : N; pm_msgs : list string; pm_end : bool }.

(** [cd_in] is what the framer will return, read by read, and [cd_end] its error
    after that. *)
Record connDecoder := {
  cd_in : list (result frame);
  cd_end : err;
  cd_streams : gmap N string;
  cd_redact : Redactor;
  cd_queued : pendingMsgs;
}.

Definition no_pending : pendingMsgs := {| pm_stream := 0; pm_msgs := []; pm_end := false |}.

Definition newConnDecoder (ins : list (result frame)) (last : err) (r : Redactor) : connDecoder :=
  {| cd_in := ins; cd_end := last; cd_streams := ∅; cd_redact := r; cd_queued := no_pending |}.

Definition set_state (c : connDecoder) (ins : list (result frame)) (m : gmap N string)
    (q : pendingMsgs) : connDecoder :=
  {| cd_in := ins; cd_end := cd_end c; cd_streams := m; cd_redact := cd_redact c; cd_queued := q |}.

Definition message_event (stream : N) (msg : option string) (ended : bool) : wireEvent :=
  {| we_stream := stream; we_kind := wireMessage; we_headers := []; we_message := msg; we_end := ended |}.

Definition feedData (c : connDecoder) (stream : N) (data : string) (ended : bool)
    : connDecoder * result (option wireEvent) :=
  let '(buf, r) := feed (default "" (cd_streams c !! stream)) data in
  let m := <[stream := buf]> (cd_streams c) in
  match r with
  | inl e => (set_state c (cd_in c) m (cd_queued c), inl e)
  | inr [] => (set_state c (cd_in c) m (cd_queued c), inr None)
  | inr (msg :: msgs) =>
    (set_state c (cd_in c) m {| pm_stream := stream; pm_msgs := msgs; pm_end := ended |},
     inr (Some (message_event stream (Some msg)
                  (match msgs with [] => ended | _ => false end))))
  end.

Definition drainQueued (c : connDecoder) : connDecoder * option wireEvent :=
  match pm_msgs (cd_queued c) with
  | [] => (c, None)
  | msg :: msgs =>
    let q := cd_queued c in
    (set_state c (cd_in c) (cd_streams c)
       {| pm_stream := pm_stream q; pm_msgs := msgs; pm_end := pm_end q |},
     Some (message_event (pm_stream q) (Some msg) (match msgs with [] => pm_end q | _ => false end)))
  end.

Section next.
Context {U : Unicode}.

(** The loop of [next], by the frames left to read. *)
Fixpoint next_loop (ins : list (result frame)) (c : connDecoder) : connDecoder * result wireEvent :=
  match drainQueued c with
  | (c, Some ev) => (c, inr ev)
  | (c, None) =>
    match ins with
    | [] => (set_state c [] (cd_streams c) (cd_queued c), inl (cd_end c))
    | inl e :: ins' => (set_state c ins' (cd_streams c) (cd_queued c), inl e)
    | inr f :: ins' =>
      let c := set_state c ins' (cd_streams c) (cd_queued c) in
      match f with
      | FMetaHeaders stream fields ended =>
        (c, inr {| we_stream := stream; we_kind := wireHeaders;
                   we_headers := sanitizeHeaders (cd_redact c) fields; we_message := None;
                   we_end := ended |})
      | FData stream data ended =>
        match feedData c stream data ended with
        | (c, inl e) => (c, inl e)
        | (c, inr (Some ev)) => (c, inr ev)
        | (c, inr None) =>
          if ended then (c, inr (message_event stream None true)) else next_loop ins' c
        end
      | FRSTStream stream =>
        (set_state c ins' (delete stream (cd_streams c)) (cd_queued c),
         inr {| we_stream := stream; we_kind := wireReset; we_headers := []; we_message := None;
                we_end := false |})
      | FGoAway =>
        (c, inr {| we_stream := 0; we_kind := wireGoAway; we_headers := []; we_message := None;
                   we_end := false |})
      | FSettings _ | FPing _ _ | FOther => next_loop ins' c
      end
    end
  end.

Definition next (c : connDecoder) : connDecoder * result wireEvent := next_loop (cd_in c) c.

(** A reader of the decoder: the events up to the first error. *)
Fixpoint read_all (fuel : nat) (c : connDecoder) : list wireEvent * option err :=
  match fuel with
  | O => ([], None)
  | S fuel' =>
    match next c with
    | (_, inl e) => ([], Some e)
    | (c', inr ev) => let '(l, e) := read_all fuel' c' in (ev :: l, e)
    end
  end.
End next.

(** ** The gRPC wire format *)

(** Four big-endian bytes. *)
Definition put_uint32 (n : N) : string :=
  str4 (byte_of (n / 2 ^ 24)) (byte_of (n / 2 ^ 16 mod 256)) (byte_of (n / 2 ^ 8 mod 256))
       (byte_of (n mod 256)).

(** A length-prefixed message under a compression flag. *)
Definition frame_message (fm : ascii * string) : string :=
  String fm.1 (put_uint32 (N.of_nat (slen fm.2)) +:+ fm.2).

(** Percent-encoding of a status message (replay.go). *)
Definition hexDigits : string := "0123456789ABCDEF".
Definition hex_upper (n : N) : ascii := default "0"%char (String.get (N.to_nat n) hexDigits).
Definition unencoded (c : ascii) : bool := in_range 32 126 c && negb (bool_decide (c = percent)).

Fixpoint encodeGRPCMessage (s : string) : string :=
  match s with
  | EmptyString => ""
  | String c s' =>
    if unencoded c then String c (encodeGRPCMessage s')
    else String percent (String (hex_upper (N.shiftr (byte_val c) 4))
           (String (hex_upper (N.land (byte_val c) 15)) (encodeGRPCMessage s')))
  end.

(** ** Reassembly *)

(** What [drain] does on a buffer, whatever fuel is left over. *)
Definition drained (buf : string) : string * result (list string) := drain (slen buf) buf [].

Definition prepend (l : list string) (x : string * result (list string)) : string * result (list string) :=
  (x.1, m ← x.2; mret (l ++ m)).

Lemma prepend_prepend l1 l2 x : prepend l1 (prepend l2 x) = prepend (l1 ++ l2) x.
Proof. destruct x as [b [e|m]]; [done|]. unfold prepend. simpl. by rewrite app_assoc. Qed.

Lemma prepend_nil x : prepend [] x = x.
Proof. by destruct x as [b [e|m]]. Qed.

Lemma prepend_eq l b m : (b, inr (l ++ m)) = prepend l (b, inr m).
Proof. done. Qed.

Lemma drain_out fuel buf out : drain fuel buf out = prepend out (drain fuel buf []).
Proof.
  revert buf out. induction fuel as [|fuel IH]; intros buf out; simpl.
  { unfold prepend. simpl. by rewrite app_nil_r. }
  do 5 (destruct buf as [|? buf]; [by unfold prepend; simpl; rewrite app_nil_r|]).
  destruct (maxGRPCMessageSize <? _)%N; [done|].
  destruct (slen buf <? _)%nat; [by unfold prepend; simpl; rewrite app_nil_r|].
  by rewrite IH, (IH _ [_]), prepend_prepend.
Qed.

(** One turn of the loop. *)
Lemma drain_step fuel f a b c d rest :
  drain (S fuel) (String f (String a (String b (String c (String d rest))))) [] =
  let n := be_uint32 a b c d in
  if (maxGRPCMessageSize <? n)%N
  then (String f (String a (String b (String c (String d rest)))), inl (too_long n)) else
  if (slen rest <? N.to_nat n)%nat
  then (String f (String a (String b (String c (String d rest)))), inr [])
  else prepend [stake (N.to_nat n) rest] (drain fuel (sdrop (N.to_nat n) rest) []).
Proof. cbn [drain]. cbv zeta. case_match; [done|]. case_match; [done|]. apply drain_out. Qed.

Lemma drain_fuel fuel buf : slen buf ≤ fuel → drain fuel buf [] = drained buf.
Proof.
  unfold drained. revert fuel. induction buf as [buf IH] using string_len_ind. intros fuel Hf.
  destruct fuel as [|fuel]; [by rewrite (slen_zero buf) by lia|].
  do 5 (destruct buf as [|? buf]; [done|]).
  change (slen (String a (String a0 (String a1 (String a2 (String a3 buf)))))) with
    (S (4 + slen buf)) in *.
  rewrite !drain_step. cbv zeta. case_match; [done|]. case_match; [done|]. f_equal.
  pose proof (slen_sdrop (N.to_nat (be_uint32 a0 a1 a2 a3)) buf) as Hl.
  set (rest := sdrop _ buf) in *.
  assert (slen rest < S (4 + slen buf)) as Hlt by lia.
  rewrite (IH rest Hlt fuel), (IH rest Hlt (4 + slen buf)) by lia. done.
Qed.

Lemma drained_message f a b c d rest :
  drained (String f (String a (String b (String c (String d rest))))) =
  let n := be_uint32 a b c d in
  if (maxGRPCMessageSize <? n)%N
  then (String f (String a (String b (String c (String d rest)))), inl (too_long n)) else
  if (slen rest <? N.to_nat n)%nat
  then (String f (String a (String b (String c (String d rest)))), inr [])
  else prepend [stake (N.to_nat n) rest] (drained (sdrop (N.to_nat n) rest)).
Proof.
  unfold drained at 1. change (slen (String f _)) with (S (4 + slen rest)). rewrite drain_step.
  cbv zeta. case_match; [done|]. case_match; [done|]. f_equal. apply drain_fuel.
  rewrite slen_sdrop. lia.
Qed.

Lemma drained_short buf : slen buf < 5 → drained buf = (buf, inr []).
Proof.
  intros H. unfold drained. do 5 (destruct buf as [|? buf]; [done|]). simpl in H. lia.
Qed.

Lemma stake_app_le n (s t : string) : n ≤ slen s → stake n (s +:+ t) = stake n s.
Proof.
  revert n. induction s as [|c s IH]; intros [|n] Hn; simpl in Hn; [by destruct t|lia|done|].
  rewrite sapp_cons. simpl. by rewrite IH by lia.
Qed.

Lemma sdrop_app_le n (s t : string) : n ≤ slen s → sdrop n (s +:+ t) = sdrop n s +:+ t.
Proof.
  revert n. induction s as [|c s IH]; intros [|n] Hn; simpl in Hn; [by destruct t|lia|done|].
  rewrite sapp_cons. simpl. by rewrite IH by lia.
Qed.

(** Bytes arriving later are bytes that could have been there already. *)
Lemma drained_app buf b1 l1 t :
  drained buf = (b1, inr l1) → drained (buf +:+ t) = prepend l1 (drained (b1 +:+ t)).
Proof.
  revert l1 b1. induction buf as [buf IH] using string_len_ind. intros l1 b1 Hd.
  destruct (decide (slen buf < 5)) as [Hs|Hs].
  { rewrite drained_short in Hd by done. injection Hd as <- <-. by rewrite prepend_nil. }
  do 5 (destruct buf as [|? buf]; [simpl in Hs; lia|]).
  rewrite drained_message in Hd. rewrite !sapp_cons. cbv zeta in *.
  set (n := N.to_nat (be_uint32 a0 a1 a2 a3)) in *.
  destruct (maxGRPCMessageSize <? be_uint32 a0 a1 a2 a3)%N eqn:E1; [done|].
  destruct (slen buf <? n)%nat eqn:E2.
  { injection Hd as <- <-. rewrite prepend_nil, !sapp_cons. done. }
  rewrite drained_message. cbv zeta. fold n. rewrite E1, slen_app.
  destruct (slen buf + slen t <? n)%nat eqn:E3; [lia|].
  rewrite stake_app_le, sdrop_app_le by lia.
  destruct (drained (sdrop n buf)) as [b2 [e|l2]] eqn:E4; [done|].
  injection Hd as <- <-. rewrite (IH (sdrop n buf)) with (2 := E4).
  - by rewrite prepend_prepend.
  - rewrite slen_sdrop. simpl. lia.
Qed.

(** Framed messages come out of an empty buffer. *)
Lemma be_put_uint32 n : (n < 2 ^ 32)%N →
  be_uint32 (byte_of (n / 2 ^ 24)) (byte_of (n / 2 ^ 16 mod 256)) (byte_of (n / 2 ^ 8 mod 256))
    (byte_of (n mod 256)) = n.
Proof.
  intros H. unfold be_uint32.
  assert (n / 2 ^ 24 < 256)%N as H0 by (apply N.Div0.div_lt_upper_bound; lia).
  assert (∀ x, x mod 256 < 256)%N as Hm by (intros; by apply N.mod_lt).
  rewrite !N_ascii_embedding by auto. clear H H0 Hm.
  replace (n / 2 ^ 24)%N with (n / 256 / 256 / 256)%N by (by rewrite !N.Div0.div_div).
  replace (n / 2 ^ 16)%N with (n / 256 / 256)%N by (by rewrite !N.Div0.div_div).
  change (2 ^ 24)%N with 16777216%N. change (2 ^ 16)%N with 65536%N. change (2 ^ 8)%N with 256%N.
  pose proof (N.div_mod' n 256). pose proof (N.div_mod' (n / 256) 256).
  pose proof (N.div_mod' (n / 256 / 256) 256). lia.
Qed.

Lemma drained_frames ms :
  Forall (λ fm, N.of_nat (slen fm.2) <= maxGRPCMessageSize)%N ms →
  drained (sconcat (frame_message <$> ms)) = ("", inr ms.*2).
Proof.
  induction ms as [|[f m] ms IH]; intros Hl; [by rewrite drained_short by (simpl; lia)|].
  apply Forall_cons in Hl as [Hm Hl]. rewrite fmap_cons. cbn [sconcat].
  unfold frame_message at 1. cbn [fst snd] in *. unfold put_uint32, str4, str3, str2, str1.
  rewrite !sapp_cons, sapp_nil_l. rewrite drained_message. cbv zeta.
  rewrite be_put_uint32 by (change maxGRPCMessageSize with 67108864%N in Hm; change (2 ^ 32)%N with 4294967296%N; lia).
  destruct (N.ltb_spec maxGRPCMessageSize (N.of_nat (slen m))); [lia|].
  rewrite Nnat.Nat2N.id, slen_app.
  destruct (slen m + slen (sconcat (frame_message <$> ms)) <? slen m)%nat eqn:E; [lia|].
  rewrite stake_app_exact, sdrop_app_exact, IH by done. done.
Qed.

(** The four bytes of a length are its digits. *)
Lemma put_be_uint32 a b c d : put_uint32 (be_uint32 a b c d) = str4 a b c d.
Proof.
  unfold put_uint32, be_uint32.
  pose proof (N_ascii_bounded a). pose proof (N_ascii_bounded b).
  pose proof (N_ascii_bounded c). pose proof (N_ascii_bounded d).
  change (2 ^ 24)%N with 16777216%N. change (2 ^ 16)%N with 65536%N. change (2 ^ 8)%N with 256%N.
  set (n := (_ + _)%N).
  assert (n / 16777216 = byte_val a ∧ (n / 65536) mod 256 = byte_val b ∧
    (n / 256) mod 256 = byte_val c ∧ n mod 256 = byte_val d)%N as (-> & -> & -> & ->).
  { subst n. zify. Z.to_euclidean_division_equations. lia. }
  by rewrite !ascii_N_embedding.
Qed.

(** A buffer that [feed] has to wait on, and one it gives up on. *)
Definition waiting (buf : string) : Prop :=
  match buf with
  | String _ (String a (String b (String c (String d rest)))) =>
    (be_uint32 a b c d <= maxGRPCMessageSize)%N ∧ slen rest < N.to_nat (be_uint32 a b c d)
  | _ => True
  end.
Definition oversized (buf : string) (e : err) : Prop :=
  match buf with
  | String _ (String a (String b (String c (String d _)))) =>
    (maxGRPCMessageSize < be_uint32 a b c d)%N ∧ e = too_long (be_uint32 a b c d)
  | _ => False
  end.

Lemma drained_spec buf :
  ∃ ms rest, buf = sconcat (frame_message <$> ms) +:+ rest ∧ (drained buf).1 = rest ∧
    match (drained buf).2 with
    | inr out => out = ms.*2 ∧ waiting rest
    | inl e => oversized rest e
    end.
Proof.
  induction buf as [buf IH] using string_len_ind.
  destruct (decide (slen buf < 5)) as [Hs|Hs].
  { exists [], buf. rewrite drained_short by done. split_and!; try done.
    do 5 (destruct buf as [|? buf]; [done|]). simpl in Hs. lia. }
  do 5 (destruct buf as [|? buf]; [simpl in Hs; lia|]). rewrite drained_message. cbv zeta.
  set (n := be_uint32 a0 a1 a2 a3).
  destruct (maxGRPCMessageSize <? n)%N eqn:E1; [|destruct (slen buf <? N.to_nat n) eqn:E2].
  - exists []. eexists. split_and!; [done|done|]. cbn [snd oversized]. split; [|done].
    by apply N.ltb_lt.
  - exists []. eexists. split_and!; [done|done|]. cbn [snd fst waiting]. split; [done|].
    split; [by apply N.ltb_ge|by apply Nat.ltb_lt].
  - apply Nat.ltb_ge in E2.
    destruct (IH (sdrop (N.to_nat n) buf)) as (ms & rest & Hb & Hr & Hres); [rewrite slen_sdrop; simpl; lia|].
    exists ((a, stake (N.to_nat n) buf) :: ms), rest. split_and!.
    + rewrite fmap_cons. cbn [sconcat]. unfold frame_message at 1. cbn [fst snd].
      rewrite slen_stake, Nat.min_l, Nnat.N2Nat.id by lia. unfold n at 1. rewrite put_be_uint32.
      unfold str4, str3, str2, str1. rewrite !sapp_cons, sapp_nil_l. do 5 f_equal.
      by rewrite sapp_assoc, <-Hb, stake_sdrop.
    + done.
    + destruct (drained (sdrop _ _)) as [b2 [e|l]]; simpl in *; [done|]. by destruct Hres as [-> ?].
Qed.

(** C20. [feed] ends, whatever arrives: its loop needs no more turns than the buffer has bytes,
    and when it stops the bytes so far are the wire form of some messages followed by what is
    kept - an incomplete message, every message before it returned, or a message over the
    cap, reported with its length. *)
Theorem feed_terminates buf data :
  (∀ fuel, slen (buf +:+ data) ≤ fuel → drain fuel (buf +:+ data) [] = feed buf data) ∧
  ∃ ms rest, buf +:+ data = sconcat (frame_message <$> ms) +:+ rest ∧ (feed buf data).1 = rest ∧
    match (feed buf data).2 with
    | inr out => out = ms.*2 ∧ waiting rest
    | inl e => oversized rest e
    end.
Proof. split; [intros fuel H; exact (drain_fuel fuel _ H)|exact (drained_spec (buf +:+ data))]. Qed.

(** ** The events of a connection, frame by frame *)

Fixpoint msg_events (stream : N) (msgs : list string) (ended : bool) : list wireEvent :=
  match msgs with
  | [] => []
  | [m] => [message_event stream (Some m) ended]
  | m :: msgs' => message_event stream (Some m) false :: msg_events stream msgs' ended
  end.

Section events.
Context {U : Unicode}.

(** What a frame makes of the buffers, and the events it completes. *)
Definition frame_events (r : Redactor) (m : gmap N string) (f : frame)
    : gmap N string * result (list wireEvent) :=
  let event stream kind fields ended :=
    {| we_stream := stream; we_kind := kind; we_headers := fields; we_message := None; we_end := ended |} in
  match f with
  | FMetaHeaders s fields ended => (m, inr [event s wireHeaders (sanitizeHeaders r fields) ended])
  | FData s data ended =>
    let '(buf, res) := feed (default "" (m !! s)) data in
    (<[s := buf]> m,
     msgs ← res;
     mret match msgs with
          | [] => if ended then [message_event s None true] else []
          | _ => msg_events s msgs ended
          end)
  | FRSTStream s => (delete s m, inr [event s wireReset [] false])
  | FGoAway => (m, inr [event 0%N wireGoAway [] false])
  | FSettings _ | FPing _ _ | FOther => (m, inr [])
  end.

(** All events, and the error that ends the direction. *)
Fixpoint all_events (r : Redactor) (m : gmap N string) (ins : list (result frame)) (last : err)
    : list wireEvent * err :=
  match ins with
  | [] => ([], last)
  | inl e :: _ => ([], e)
  | inr f :: ins' =>
    match frame_events r m f with
    | (_, inl e) => ([], e)
    | (m', inr evs) => let '(l, e) := all_events r m' ins' last in (evs ++ l, e)
    end
  end.

Definition events_left (c : connDecoder) (ins : list (result frame)) : list wireEvent * err :=
  let '(l, e) := all_events (cd_redact c) (cd_streams c) ins (cd_end c) in
  (msg_events (pm_stream (cd_queued c)) (pm_msgs (cd_queued c)) (pm_end (cd_queued c)) ++ l, e).

Lemma msg_events_cons s msg msgs ended :
  msg_events s (msg :: msgs) ended =
  message_event s (Some msg) (match msgs with [] => ended | _ => false end) :: msg_events s msgs ended.
Proof. by destruct msgs. Qed.

(** A frame that is transport noise leaves the events of the rest. *)
Ltac noise_frame IH Eq :=
  match goal with
  | c : connDecoder, ins : list (result frame) |- _ =>
      specialize (IH (set_state c ins (cd_streams c) (cd_queued c)) eq_refl);
      unfold events_left in IH;
      cbn [set_state cd_streams cd_queued cd_redact cd_end cd_in] in IH;
      rewrite Eq in IH; cbn [pm_stream pm_msgs pm_end msg_events] in IH;
      destruct (all_events _ _ _ _) as [? ?]; rewrite ?Eq; exact IH
  end.

(** [next] takes the first of them. *)
Lemma next_loop_spec ins c :
  cd_in c = ins →
  match events_left c ins with
  | ([], e) => (next_loop ins c).2 = inl e
  | (ev :: l, e) => ∃ c', next_loop ins c = (c', inr ev) ∧ events_left c' (cd_in c') = (l, e)
  end.
Proof.
  revert c. induction ins as [|[e|f] ins IH]; intros c Hin; unfold events_left;
    destruct (cd_queued c) as [ps pms pe] eqn:Eq; cbn [pm_stream pm_msgs pm_end];
    (destruct pms as [|msg msgs];
     [cbn [msg_events]
     |rewrite msg_events_cons; destruct (all_events _ _ _ _) as [l e0] eqn:El; cbn [app];
      eexists; split; [cbn [next_loop]; unfold drainQueued; rewrite Eq; reflexivity|];
      unfold events_left; cbn [set_state cd_in cd_streams cd_redact cd_end cd_queued pm_stream pm_msgs pm_end];
      by rewrite Hin, El]).
  - cbn [all_events next_loop]. unfold drainQueued. by rewrite Eq.
  - cbn [all_events next_loop]. unfold drainQueued. by rewrite Eq.
  - cbn [all_events next_loop]. unfold drainQueued. rewrite Eq. cbn [pm_msgs].
    destruct f as [s fs ended|s data ended|s| |ack|ack data|]; cbn [frame_events].
    + destruct (all_events _ _ _ _) as [l e0] eqn:El. cbn [app]. eexists. split; [done|].
      unfold events_left. cbn. by rewrite El, Eq.
    + unfold feedData. cbn [cd_streams set_state].
      destruct (feed _ data) as [buf [e|[|msg msgs]]]; [done| |].
      * cbn [mbind result_bind mret result_ret]. destruct ended.
        -- destruct (all_events _ _ _ _) as [l e0] eqn:El. cbn [app]. eexists. split; [done|].
           unfold events_left. cbn. by rewrite El, Eq.
        -- specialize (IH (set_state (set_state c ins (cd_streams c) (cd_queued c)) ins
                             (<[s := buf]> (cd_streams c)) (cd_queued c)) eq_refl).
           unfold events_left in IH. cbn [set_state cd_streams cd_queued cd_redact cd_end cd_in] in IH.
           rewrite Eq in IH. cbn [pm_stream pm_msgs pm_end msg_events] in IH. 
           destruct (all_events _ _ _ _) as [l e0]. rewrite ?Eq. exact IH.
      * cbn [mbind result_bind mret result_ret]. rewrite msg_events_cons.
        destruct (all_events _ _ _ _) as [l e0] eqn:El. cbn [app]. eexists. split; [done|].
        unfold events_left. cbn [set_state cd_streams cd_queued cd_redact cd_end cd_in pm_stream pm_msgs pm_end].
        by rewrite El.
    + destruct (all_events _ _ _ _) as [l e0] eqn:El. cbn [app]. eexists. split; [done|].
      unfold events_left. cbn. by rewrite El, Eq.
    + destruct (all_events _ _ _ _) as [l e0] eqn:El. cbn [app]. eexists. split; [done|].
      unfold events_left. cbn. by rewrite El, Eq.
    + noise_frame IH Eq.
    + noise_frame IH Eq.
    + noise_frame IH Eq.
Qed.

Lemma read_all_left fuel c :
  length (events_left c (cd_in c)).1 < fuel →
  read_all fuel c = ((events_left c (cd_in c)).1, Some (events_left c (cd_in c)).2).
Proof.
  revert c. induction fuel as [|fuel IH]; intros c Hf; [lia|].
  cbn [read_all]. unfold next. pose proof (next_loop_spec (cd_in c) c eq_refl) as Hn.
  destruct (events_left c (cd_in c)) as [[|ev l] e]; simpl in *.
  - destruct (next_loop (cd_in c) c) as [c' x]. simpl in Hn. by subst.
  - destruct Hn as (c' & -> & Hl). rewrite (IH c') by (rewrite Hl; simpl; lia). by rewrite Hl.
Qed.

Lemma read_all_Some fuel c evs e :
  read_all fuel c = (evs, Some e) → events_left c (cd_in c) = (evs, e).
Proof.
  revert c evs. induction fuel as [|fuel IH]; intros c evs; [done|].
  cbn [read_all]. unfold next. pose proof (next_loop_spec (cd_in c) c eq_refl) as Hn.
  destruct (events_left c (cd_in c)) as [[|ev l] e']; simpl in *.
  - destruct (next_loop (cd_in c) c) as [c' x]. simpl in Hn. subst. by intros [= <- <-].
  - destruct Hn as (c' & -> & Hl). destruct (read_all fuel c') as [l2 e2] eqn:E.
    intros [= <- ->]. apply IH in E. rewrite Hl in E. by injection E as <- <-.
Qed.

(** ** One stream among many *)

(** The messages of a stream, and the bytes of its DATA frames. *)
Definition messages_of (s : N) (evs : list wireEvent) : list string :=
  omap (λ ev, match we_kind ev with
              | wireMessage => if bool_decide (we_stream ev = s) then we_message ev else None
              | _ => None
              end) evs.

Definition data_of (s : N) (frames : list frame) : string :=
  sconcat (omap (λ f, match f with
                      | FData s' data _ => if bool_decide (s' = s) then Some data else None
                      | _ => None
                      end) frames).

Lemma messages_of_app s l1 l2 : messages_of s (l1 ++ l2) = messages_of s l1 ++ messages_of s l2.
Proof. apply omap_app. Qed.

Lemma messages_of_msg_events s s' msgs ended :
  messages_of s (msg_events s' msgs ended) = if bool_decide (s' = s) then msgs else [].
Proof.
  induction msgs as [|m msgs IH]; [by case_bool_decide|].
  rewrite msg_events_cons.
  match goal with |- messages_of s (?ev :: ?evs) = _ => change (ev :: evs) with ([ev] ++ evs) end.
  rewrite messages_of_app, IH. unfold messages_of. simpl.
  by case_bool_decide.
Qed.

Lemma drained_error buf b e : drained buf = (b, inl e) → ∃ n, e = too_long n.
Proof.
  revert b e. induction buf as [buf IH] using string_len_ind. intros b e Hd.
  destruct (decide (slen buf < 5)) as [Hs|Hs]; [by rewrite drained_short in Hd|].
  do 5 (destruct buf as [|? buf]; [simpl in Hs; lia|]).
  rewrite drained_message in Hd. cbv zeta in Hd. case_match; [injection Hd as _ <-; eauto|].
  case_match; [done|]. set (n := N.to_nat _) in *. pose proof (slen_sdrop n buf).
  destruct (drained (sdrop n buf)) as [b2 [e2|l2]] eqn:E; [|done].
  injection Hd as _ <-. eapply (IH (sdrop n buf)); [simpl; lia|done].
Qed.

(** What is left in a buffer holds no message. *)
Lemma drained_residue buf b l : drained buf = (b, inr l) → drained b = (b, inr []).
Proof.
  intros Hd. pose proof (drained_app _ _ _ "" Hd) as Ha. rewrite !sapp_nil_r, Hd in Ha.
  destruct (drained b) as [b' [e|l']]; [done|]. injection Ha as <- Hl. do 2 f_equal.
  apply (f_equal length) in Hl. rewrite length_app in Hl. destruct l'; [done|simpl in Hl; lia].
Qed.

Lemma all_events_stream s r frames m last l :
  all_events r m (inr <$> frames) last = (l, last) → (∀ n, last ≠ too_long n) →
  FRSTStream s ∉ frames →
  drained (default "" (m !! s)) = (default "" (m !! s), inr []) →
  ∃ rest, drained (default "" (m !! s) +:+ data_of s frames) = (rest, inr (messages_of s l)).
Proof.
  intros Hall Hlast. revert m l Hall.
  induction frames as [|f frames IH]; intros m l Hall Hrst Hb.
  { injection Hall as <-. exists (default "" (m !! s)). by rewrite sapp_nil_r. }
  apply not_elem_of_cons in Hrst as [Hf Hrst]. rewrite fmap_cons in Hall. cbn [all_events] in Hall.
  assert (∀ m' evs, frame_events r m f = (m', inr evs) →
    default "" (m' !! s) = default "" (m !! s) → messages_of s evs = [] →
    data_of s (f :: frames) = data_of s frames →
    ∃ rest, drained (default "" (m !! s) +:+ data_of s (f :: frames)) = (rest, inr (messages_of s l)))
    as Hother.
  { intros m' evs Hfe Hm He Hd. rewrite Hfe in Hall.
    destruct (all_events r m' (inr <$> frames) last) as [l' e'] eqn:El. injection Hall as <- ->.
    rewrite Hd, messages_of_app, He, <-Hm. apply (IH m' l' El Hrst). by rewrite Hm. }
  destruct f as [s' fs ended|s' data ended|s'| |ack|ack data|];
    try (eapply Hother; [reflexivity|reflexivity|reflexivity|reflexivity]).
  2:{ eapply Hother; [reflexivity| |reflexivity|reflexivity]. rewrite lookup_delete_ne; [done|congruence]. }
  cbn [frame_events] in Hall. destruct (feed _ data) as [buf [e|msgs]] eqn:Ef.
  { injection Hall as <- ->. apply drained_error in Ef as [n ->]. by destruct (Hlast n). }
  cbn [mbind result_bind mret result_ret] in Hall.
  destruct (all_events r _ (inr <$> frames) last) as [l' e'] eqn:El. injection Hall as <- ->.
  assert (messages_of s (match msgs with [] => if ended then [message_event s' None true] else []
                         | _ => msg_events s' msgs ended end) = if bool_decide (s' = s) then msgs else [])
    as Hmsgs.
  { destruct msgs as [|x msgs].
    - destruct ended; [|by case_bool_decide]. unfold messages_of. simpl. by case_bool_decide.
    - apply messages_of_msg_events. }
  rewrite messages_of_app, Hmsgs. unfold data_of. cbn [omap list_omap]. fold (data_of s frames).
  case_bool_decide as Hs.
  - subst s'. cbn [sconcat]. rewrite <-sapp_assoc. unfold feed in Ef. fold (drained (default "" (m !! s) +:+ data)) in Ef.
    destruct (IH _ l' El Hrst) as [rest Hrest].
    { rewrite lookup_insert_eq. simpl. by eapply drained_residue. }
    rewrite lookup_insert_eq in Hrest. simpl in Hrest. exists rest.
    rewrite (drained_app _ _ _ _ Ef). fold (data_of s frames). by rewrite Hrest.
  - destruct (IH _ l' El Hrst) as [rest Hrest].
    { by rewrite lookup_insert_ne by done. }
    rewrite lookup_insert_ne in Hrest by done. by exists rest.
Qed.
End events.

(** ** Percent-encoding *)

Lemma hex_upper_val n : (n < 16)%N → hex_digit_val (hex_upper n) = Some n.
Proof.
  intros H. assert (n ∈ N.of_nat <$> seq 0 16) as Hin.
  { apply list_elem_of_fmap. exists (N.to_nat n). rewrite elem_of_seq. lia. }
  clear H. revert n Hin. apply Forall_forall. vm_compute. repeat constructor.
Qed.

Lemma ParseHex2_upper c :
  ParseHex2 (hex_upper (N.shiftr (byte_val c) 4)) (hex_upper (N.land (byte_val c) 15)) = Some c.
Proof. byte_cases; vm_compute; reflexivity. Qed.

Lemma percent_decode_cons c s : c ≠ percent → percent_decode (String c s) = String c (percent_decode s).
Proof. intros H. cbn [percent_decode]. by rewrite bool_decide_eq_false_2. Qed.

Lemma percent_decode_encode s : percent_decode (encodeGRPCMessage s) = s.
Proof.
  induction s as [|c s IH]; [done|]. cbn [encodeGRPCMessage].
  destruct (unencoded c) eqn:E.
  - rewrite percent_decode_cons, IH; [done|]. intros ->. by vm_compute in E.
  - cbn [percent_decode]. rewrite bool_decide_eq_true_2, ParseHex2_upper, IH by done. done.
Qed.

Lemma percent_decode_plain s : contains_char s percent = false → percent_decode s = s.
Proof.
  induction s as [|c s IH]; [done|]. cbn [contains_char]. intros [Hc Hs]%orb_false_iff.
  apply bool_decide_eq_false in Hc. by rewrite percent_decode_cons, IH.
Qed.

Lemma status_message_kept s : decodeGRPCMessage (encodeGRPCMessage s) = s.
Proof.
  unfold decodeGRPCMessage. destruct (contains_char (encodeGRPCMessage s) percent) eqn:E; simpl.
  - apply percent_decode_encode.
  - rewrite <-(percent_decode_plain _ E). apply percent_decode_encode.
Qed.

(** ** Properties *)

Section properties.
Context {U : Unicode}.

(** C19. Messages are the unit, not frames. However the length-prefixed
    messages of a stream are cut into DATA frames, and however the frames of
    other streams, headers and transport noise come in between, reading the
    direction to its end yields exactly that stream's messages, each once and in
    order. *)
Theorem demux_roundtrip frames last r fuel evs s ms :
  read_all fuel (newConnDecoder (inr <$> frames) last r) = (evs, Some last) →
  (∀ n, last ≠ too_long n) → FRSTStream s ∉ frames →
  data_of s frames = sconcat (frame_message <$> ms) →
  Forall (λ fm, N.of_nat (slen fm.2) <= maxGRPCMessageSize)%N ms →
  messages_of s evs = ms.*2.
Proof.
  intros Hread Hlast Hrst Hdata Hms. apply read_all_Some in Hread.
  unfold events_left in Hread. cbn in Hread.
  destruct (all_events r ∅ (inr <$> frames) last) as [l e] eqn:El. injection Hread as -> ->.
  destruct (all_events_stream s r frames ∅ last evs El Hlast Hrst) as [rest Hrest]; [done|].
  rewrite lookup_empty in Hrest. simpl in Hrest.
  rewrite sapp_nil_l, Hdata, drained_frames in Hrest by done. by injection Hrest.
Qed.

(** [next] with its queue of leftover messages implements the frame-by-frame
    specification: repeated calls give every event of every frame in order - a
    frame of several messages as several events, the end of the stream on the
    last one - and then the error the direction ended with, and they come to an
    end. *)
Theorem next_refines ins last r fuel :
  length (all_events r ∅ ins last).1 < fuel →
  read_all fuel (newConnDecoder ins last r) =
  ((all_events r ∅ ins last).1, Some (all_events r ∅ ins last).2).
Proof.
  intros Hf. assert (events_left (newConnDecoder ins last r) ins = all_events r ∅ ins last) as He.
  { unfold events_left. cbn. by destruct (all_events r ∅ ins last). }
  rewrite <-He in *. by apply read_all_left.
Qed.

(** Frame boundaries mean nothing: feeding a payload in two parts gives the
    messages and the buffer of feeding it at once. *)
Theorem feed_split buf x y b1 l1 :
  feed buf x = (b1, inr l1) → feed buf (x +:+ y) = prepend l1 (feed b1 y).
Proof.
  unfold feed. intros H. rewrite <-sapp_assoc. by apply (drained_app (buf +:+ x)).
Qed.

(** Header credentials are gone before anything sees them: two header blocks
    that differ only in the values of secret-named fields decode to the same
    sanitized block, pseudo-headers untouched. *)
Theorem sanitizeHeaders_noninterference r fs fs' :
  disabled r = false →
  Forall2 (λ f f',
    h_name f = h_name f' ∧ h_sensitive f = h_sensitive f' ∧
    (h_value f = h_value f' ∨
     HasPrefix (h_name f) ":" = false ∧ IsSecretKey r (h_name f) ∧
     normalizeKey (h_name f) ∉ allow r ∧ h_value f ≠ "" ∧ h_value f' ≠ "")) fs fs' →
  sanitizeHeaders r fs = sanitizeHeaders r fs'.
Proof.
  intros Hd H. induction H as [|[n v b] [n' v' b'] fs fs' (Hn & Hb & Hv) _ IH]; [done|].
  simpl in *. subst n' b'. unfold sanitizeHeaders in *. simpl. f_equal; [|done].
  destruct Hv as [->|(Hp & Hk & Ha & Hv & Hv')]; [done|].
  unfold sanitize_field, RedactField. simpl. rewrite Hp, Hd.
  rewrite !bool_decide_eq_false_2 by done. simpl. by rewrite (Is_true_true_1 _ Hk).
Qed.

(** A status message survives its trailer: decoding undoes gRPC's
    percent-encoding for every byte string. *)
Theorem decodeGRPCMessage_encode s : decodeGRPCMessage (encodeGRPCMessage s) = s.
Proof. apply status_message_kept. Qed.
End properties.

(** The transport and the interceptor name a call alike. *)
Lemma splitPath_splitFullMethod {U : Unicode} p sm : splitPath p = Some sm ↔ splitFullMethod p = inr sm.
Proof. unfold splitPath, splitFullMethod. split; repeat case_match; naive_solver. Qed.

(** ** Closed instances *)

Section witnesses.
Local Existing Instance ascii_only.

Definition demo_redactor : Redactor := {| disabled := false; allow := ∅; deny := ∅ |}.

(** Two streams interleaved, a message of stream 1 split over two frames. *)
Definition demo_ms : list (ascii * string) := [("000"%char, "hi"); ("000"%char, "")].
Definition demo_wire : string := sconcat (frame_message <$> demo_ms).
Definition demo_frames : list frame :=
  [FMetaHeaders 1 [] false; FData 1 (stake 4 demo_wire) false; FOther; FMetaHeaders 3 [] false;
   FData 3 (sconcat (frame_message <$> [("000"%char, "x")])) true;
   FData 1 (sdrop 4 demo_wire) true; FGoAway].

Lemma demux_roundtrip_witness :
  messages_of 1 (read_all 10 (newConnDecoder (inr <$> demo_frames) EOF demo_redactor)).1 = ["hi"; ""].
Proof.
  apply (demux_roundtrip demo_frames EOF demo_redactor 10 _ 1 demo_ms).
  - vm_compute. reflexivity.
  - intros n. discriminate.
  - unfold demo_frames. rewrite !not_elem_of_cons. split_and!; try done. apply not_elem_of_nil.
  - vm_compute. reflexivity.
  - repeat constructor; vm_compute; discriminate.
Defined.

Lemma next_refines_witness :
  (read_all 10 (newConnDecoder (inr <$> demo_frames) EOF demo_redactor)).2 = Some EOF.
Proof.
  rewrite (next_refines (inr <$> demo_frames) EOF demo_redactor 10); vm_compute; [reflexivity|].
  repeat constructor.
Defined.

Lemma feed_split_witness :
  feed "" demo_wire = prepend [] (feed (stake 4 demo_wire) (sdrop 4 demo_wire)).
Proof.
  rewrite <-(feed_split "" (stake 4 demo_wire) (sdrop 4 demo_wire) (stake 4 demo_wire) []);
    [by rewrite stake_sdrop|vm_compute; reflexivity].
Defined.

Lemma sanitizeHeaders_noninterference_witness :
  let block v := [{| h_name := ":path"; h_value := "/s/m"; h_sensitive := false |};
                  {| h_name := "authorization"; h_value := v; h_sensitive := false |}] in
  sanitizeHeaders demo_redactor (block "one") = sanitizeHeaders demo_redactor (block "two").
Proof.
  apply sanitizeHeaders_noninterference; [reflexivity|].
  constructor; [split_and!; [done|done|by left]|]. constructor; [|constructor].
  split_and!; [done|done|]. right. split_and!; [done|vm_compute; exact I|apply not_elem_of_empty|done|done].
Defined.
End witnesses.
