(* ===== verification/TransportRecord.v ===== *)
(** go/adapters/grpctransport/record.go: a tapped connection - the mirror of its
    two directions, the decoders' loops, and the per-stream tracker that writes a
    cassette pair when a call reaches its terminal. *)

From S2P Require Import Prelude GoStrings Sha256 Values Yaml Redact Os CanonicalJson CanonicalInj Stream Cassette StreamCassette Session StreamSession GrpcStream Demux.

Inductive direction : Type := dirClientToServer | dirServerToClient.

Global Instance direction_eq_dec : EqDecision direction.
Proof. solve_decision. Defined.

Definition codes_Canceled : Z := 1.

(** ** The recording state of one stream *)

Inductive recEvent : Type :=
| evSend (msg : string)
| evRecv (msg : string)
| evHalfClose.

Record recStream := {
  s_service : string;
  s_method : string;
  s_events : list recEvent;
  s_sends : list string;
  s_sentCount : Z;
  s_recvCount : Z;
  s_sawHalfClose : bool;
  s_halfCloseAfterFirstSend : bool;
  s_compressed : bool;
  s_finished : bool;
}.

Definition new_recStream : recStream :=
  {| s_service := ""; s_method := ""; s_events := []; s_sends := []; s_sentCount := 0;
     s_recvCount := 0; s_sawHalfClose := false; s_halfCloseAfterFirstSend := false;
     s_compressed := false; s_finished := false |}.

Definition set_names (s : recStream) (service method : string) (compressed : bool) : recStream :=
  {| s_service := service; s_method := method; s_events := s_events s; s_sends := s_sends s;
     s_sentCount := s_sentCount s; s_recvCount := s_recvCount s;
     s_sawHalfClose := s_sawHalfClose s;
     s_halfCloseAfterFirstSend := s_halfCloseAfterFirstSend s;
     s_compressed := s_compressed s || compressed; s_finished := s_finished s |}.

Definition note_send (s : recStream) (m : string) : recStream :=
  {| s_service := s_service s; s_method := s_method s; s_events := s_events s ++ [evSend m];
     s_sends := s_sends s ++ [m]; s_sentCount := s_sentCount s + 1;
     s_recvCount := s_recvCount s; s_sawHalfClose := s_sawHalfClose s;
     s_halfCloseAfterFirstSend := s_halfCloseAfterFirstSend s;
     s_compressed := s_compressed s; s_finished := s_finished s |}.

Definition note_recv (s : recStream) (m : string) : recStream :=
  {| s_service := s_service s; s_method := s_method s; s_events := s_events s ++ [evRecv m];
     s_sends := s_sends s; s_sentCount := s_sentCount s; s_recvCount := s_recvCount s + 1;
     s_sawHalfClose := s_sawHalfClose s;
     s_halfCloseAfterFirstSend := s_halfCloseAfterFirstSend s;
     s_compressed := s_compressed s; s_finished := s_finished s |}.

Definition noteHalfClose (s : recStream) : recStream :=
  if s_sawHalfClose s then s else
  {| s_service := s_service s; s_method := s_method s; s_events := s_events s ++ [evHalfClose];
     s_sends := s_sends s; s_sentCount := s_sentCount s; s_recvCount := s_recvCount s;
     s_sawHalfClose := true; s_halfCloseAfterFirstSend := (s_sentCount s =? 1)%Z;
     s_compressed := s_compressed s; s_finished := s_finished s |}.

Definition firstOrNil (msgs : list string) : string :=
  match msgs with [] => "" | m :: _ => m end.

Definition inferStreamType (s : recStream) : string :=
  if (s_sentCount s =? 1)%Z && s_sawHalfClose s && s_halfCloseAfterFirstSend s then StreamServer
  else if (s_recvCount s <=? 1)%Z then StreamClient
  else StreamBidi.

(** ** The tracker *)

Record streamTracker := { t_session : FileSession; t_streams : gmap N recStream }.

Definition newStreamTracker (s : FileSession) : streamTracker :=
  {| t_session := s; t_streams := ∅ |}.

Definition get (t : streamTracker) (id : N) : recStream :=
  default new_recStream (t_streams t !! id).

Definition put (t : streamTracker) (id : N) (s : recStream) : streamTracker :=
  {| t_session := t_session t; t_streams := <[id := s]> (t_streams t) |}.

Definition abandonAll (t : streamTracker) : streamTracker :=
  {| t_session := t_session t; t_streams := ∅ |}.

(** The clock readings of one [finish]: the open, each replayed event, the end
    (monotonic, in milliseconds) and the wall clock of the save. *)
Record readings := { rd_open : Z; rd_event : nat → Z; rd_end : Z; rd_wall : Z }.

Section tracker.
Context {U : Unicode} {F : FloatFormat} {Y : YamlLib} {YS : YamlStreamLib} {O : Faults}.
Context `{G : GrpcLib}.

Definition transport_adapterID : string := "grpc".

Definition msgHash (b : string) : string := hex_encode (stake 4 (Sum256 b)).

Definition streamOpenFor (s : FileSession) (typ service method openMsg : string) : StreamOpen :=
  let names := {[ "service" := VString service; "method" := VString method ]} in
  if bool_decide (typ = StreamServer) then
    let scrubbed := ScrubStreamFrame s StreamSend
                      {| si_adapter := transport_adapterID; si_type := typ |} openMsg in
    {| o_adapter := transport_adapterID; o_type := typ;
       o_identity := <["msg_hash" := VString (msgHash scrubbed)]> names;
       o_counter := false; o_payload := names |}
  else
    {| o_adapter := transport_adapterID; o_type := typ; o_identity := names;
       o_counter := true; o_payload := names |}.

(** The logged events, each at its reading of the clock. *)
Definition rec_event_of (rd : readings) (i : nat) (e : recEvent) : rec_event :=
  match e with
  | evSend m => LogSend (rd_event rd i) m
  | evRecv m => LogRecv (rd_event rd i) m
  | evHalfClose => LogHalfClose (rd_event rd i)
  end.

Definition rec_events (rd : readings) (es : list recEvent) : list rec_event :=
  imap (rec_event_of rd) es.

Definition drop_stream (t : streamTracker) (s : FileSession) (id : N) : streamTracker :=
  {| t_session := s; t_streams := delete id (t_streams t) |}.

(** The body of [finish]; what becomes of the save is then discarded. *)
Definition record_stream (ses : FileSession) (s : recStream) (code : Z) (msg : string)
    (rd : readings) (σ : fsys) : fsys * (FileSession * result unit) :=
  let typ := inferStreamType s in
  let open := streamOpenFor ses typ (s_service s) (s_method s) (firstOrNil (s_sends s)) in
  match OpenStreamRecord ses open (rd_open rd) with
  | (ses, inl e) => (σ, (ses, inl e))
  | (ses, inr rec) =>
    let rec := log_events rec (rec_events rd (s_events s)) in
    let termErr := if (code =? codes_OK)%Z then None else status_Error code msg in
    let '(σ', (_, r)) := Finish rec (rd_wall rd) (rd_end rd)
                           (Some {[ "status_code" := VInt KInt code ]}) termErr σ in
    (σ', (ses, r))
  end.

Definition finish (t : streamTracker) (id : N) (s : recStream) (code : Z) (msg : string)
    (rd : readings) (σ : fsys) : fsys * streamTracker :=
  if s_finished s || bool_decide (s_service s = "") || s_compressed s
  then (σ, drop_stream t (t_session t) id) else
  let '(σ', (ses, _)) := record_stream (t_session t) s code msg rd σ in
  (σ', drop_stream t ses id).

Definition compressed_request (service method enc : string) : err :=
  ENew ("grpctransport: " +:+ service +:+ "/" +:+ method +:+ " negotiates grpc-encoding " +:+
        Quote enc +:+
        "; transport capture records decoded message bytes and cannot record compressed streams").

Definition compressed_response (service method enc : string) : err :=
  ENew ("grpctransport: " +:+ service +:+ "/" +:+ method +:+ " response negotiates grpc-encoding " +:+
        Quote enc +:+ "; cannot record compressed streams").

Definition handle (t : streamTracker) (dir : direction) (ev : wireEvent) (rd : readings) (σ : fsys)
    : fsys * (streamTracker * option err) :=
  let id := we_stream ev in
  match we_kind ev with
  | wireGoAway => (σ, (t, None))
  | kind =>
    if (id =? 0)%N then (σ, (t, None)) else
    let s := get t id in
    let t := put t id s in
    match kind, dir with
    | wireReset, _ =>
      let '(σ', t') := finish t id s codes_Canceled "stream reset" rd σ in (σ', (t', None))
    | wireHeaders, dirClientToServer =>
      match splitPath (headerValue (we_headers ev) ":path") with
      | None => (σ, (t, None))
      | Some (service, method) =>
        let s := set_names s service method (isCompressed (we_headers ev)) in
        if isCompressed (we_headers ev) then
          (σ, (put t id s,
               Some (compressed_request service method (headerValue (we_headers ev) "grpc-encoding"))))
        else (σ, (put t id (if we_end ev then noteHalfClose s else s), None))
      end
    | wireMessage, dirClientToServer =>
      if bool_decide (s_service s = "") then (σ, (t, None)) else
      let s := match we_message ev with Some m => note_send s m | None => s end in
      (σ, (put t id (if we_end ev then noteHalfClose s else s), None))
    | wireHeaders, dirServerToClient =>
      if bool_decide (s_service s = "") then (σ, (t, None)) else
      if isCompressed (we_headers ev) then
        (σ, (t, Some (compressed_response (s_service s) (s_method s)
                        (headerValue (we_headers ev) "grpc-encoding"))))
      else
        match grpcStatus (we_headers ev) with
        | Some (code, msg) => let '(σ', t') := finish t id s code msg rd σ in (σ', (t', None))
        | None => (σ, (t, None))
        end
    | wireMessage, dirServerToClient =>
      match bool_decide (s_service s = ""), we_message ev with
      | false, Some m => (σ, (put t id (note_recv s m), None))
      | _, _ => (σ, (t, None))
      end
    | wireGoAway, _ => (σ, (t, None))
    end
  end.

(** ** The two decoders of a connection *)

(** [rc_toServer] and [rc_toClient] are the decoders of the directions, [None]
    once their goroutine has returned. *)
Record recordConn := {
  rc_tracker : streamTracker;
  rc_firstErr : option err;
  rc_toServer : option connDecoder;
  rc_toClient : option connDecoder;
}.

Definition decoder_of (c : recordConn) (dir : direction) : option connDecoder :=
  match dir with dirClientToServer => rc_toServer c | dirServerToClient => rc_toClient c end.

Definition set_decoder (c : recordConn) (dir : direction) (d : option connDecoder) : recordConn :=
  {| rc_tracker := rc_tracker c; rc_firstErr := rc_firstErr c;
     rc_toServer := if bool_decide (dir = dirClientToServer) then d else rc_toServer c;
     rc_toClient := if bool_decide (dir = dirServerToClient) then d else rc_toClient c |}.

Definition set_tracker (c : recordConn) (t : streamTracker) : recordConn :=
  {| rc_tracker := t; rc_firstErr := rc_firstErr c; rc_toServer := rc_toServer c;
     rc_toClient := rc_toClient c |}.

Definition noteErr (c : recordConn) (e : err) : recordConn :=
  {| rc_tracker := rc_tracker c;
     rc_firstErr := match rc_firstErr c with Some e0 => Some e0 | None => Some e end;
     rc_toServer := rc_toServer c; rc_toClient := rc_toClient c |}.

(** A direction's input: whether the client preface could be read, the frames
    after it, and the framer's error at the end. *)
Record dir_input := { in_preface : bool; in_frames : list (result frame); in_last : err }.

Definition newRecordConn (s : FileSession) (r : Redactor) (toServer toClient : dir_input) : recordConn :=
  {| rc_tracker := newStreamTracker s; rc_firstErr := None;
     rc_toServer := if in_preface toServer
                    then Some (newConnDecoder (in_frames toServer) (in_last toServer) r) else None;
     rc_toClient := Some (newConnDecoder (in_frames toClient) (in_last toClient) r) |}.

(** A dialer that taps what the given one connects, or a plain TCP dialer when none is
    given; a failed dial is passed on. *)
Definition RecordDialer {conn : Type} (plainDialer : string → result conn) (s : FileSession) (r : Redactor)
    (dial : option (string → result conn)) (addr : string) (toServer toClient : dir_input)
    : result (conn * recordConn) :=
  c ← default plainDialer dial addr; mret (c, newRecordConn s r toServer toClient).

(** One turn of the loop of [decode]. *)
Definition decode_turn (c : recordConn) (dir : direction) (rd : readings) (σ : fsys)
    : fsys * recordConn :=
  match decoder_of c dir with
  | None => (σ, c)
  | Some d =>
    match next d with
    | (_, inl e) =>
      let c := if errors_is e SEOF || errors_is e SClosedPipe then c else noteErr c e in
      (σ, set_decoder c dir None)
    | (d, inr ev) =>
      match handle (rc_tracker c) dir ev rd σ with
      | (σ', (t, Some e)) => (σ', set_decoder (noteErr (set_tracker c t) e) dir None)
      | (σ', (t, None)) => (σ', set_decoder (set_tracker c t) dir (Some d))
      end
    end
  end.

(** Turns of the two goroutines in some order. *)
Fixpoint decode_turns (c : recordConn) (turns : list (direction * readings)) (σ : fsys)
    : fsys * recordConn :=
  match turns with
  | [] => (σ, c)
  | (dir, rd) :: turns' => let '(σ', c') := decode_turn c dir rd σ in decode_turns c' turns' σ'
  end.

(** What [Close] returns once both goroutines are done; [connErr] is the live
    connection's. *)
Definition Close_result (c : recordConn) (already : bool) (connErr : option err) : option err :=
  if already then connErr else
  match connErr, rc_firstErr c with
  | None, Some e => Some (EWrap "grpctransport: recording incomplete: " e)
  | _, _ => connErr
  end.
End tracker.

(** ** What one event does to its stream *)

(** Events that concern no stream. *)
Definition noise (ev : wireEvent) : bool :=
  match we_kind ev with wireGoAway => true | _ => (we_stream ev =? 0)%N end.

Section step.
Context {U : Unicode}.

(** The terminal an event is for a stream, with its code and message. *)
Definition stream_terminal (s : recStream) (dir : direction) (ev : wireEvent) : option (Z * string) :=
  match we_kind ev, dir with
  | wireReset, _ => Some (codes_Canceled, "stream reset")
  | wireHeaders, dirServerToClient =>
    if bool_decide (s_service s = "") || isCompressed (we_headers ev) then None
    else grpcStatus (we_headers ev)
  | _, _ => None
  end.

(** The stream after an event that is no terminal. *)
Definition stream_next (s : recStream) (dir : direction) (ev : wireEvent) : recStream :=
  let half s := if we_end ev then noteHalfClose s else s in
  match we_kind ev, dir with
  | wireHeaders, dirClientToServer =>
    match splitPath (headerValue (we_headers ev) ":path") with
    | None => s
    | Some (service, method) =>
      if isCompressed (we_headers ev) then set_names s service method true
      else half (set_names s service method false)
    end
  | wireMessage, dirClientToServer =>
    if bool_decide (s_service s = "") then s
    else half (match we_message ev with Some m => note_send s m | None => s end)
  | wireMessage, dirServerToClient =>
    if bool_decide (s_service s = "") then s
    else match we_message ev with Some m => note_recv s m | None => s end
  | _, _ => s
  end.

Definition stream_error (s : recStream) (dir : direction) (ev : wireEvent) : option err :=
  match we_kind ev, dir with
  | wireHeaders, dirClientToServer =>
    '(service, method) ← splitPath (headerValue (we_headers ev) ":path");
    if isCompressed (we_headers ev)
    then Some (compressed_request service method (headerValue (we_headers ev) "grpc-encoding"))
    else None
  | wireHeaders, dirServerToClient =>
    if negb (bool_decide (s_service s = "")) && isCompressed (we_headers ev)
    then Some (compressed_response (s_service s) (s_method s)
                 (headerValue (we_headers ev) "grpc-encoding"))
    else None
  | _, _ => None
  end.

(** The entry of a stream after one of its events: gone after a terminal. *)
Definition stream_step (x : option recStream) (dir : direction) (ev : wireEvent) : option recStream :=
  let s := default new_recStream x in
  match stream_terminal s dir ev with
  | Some _ => None
  | None => Some (stream_next s dir ev)
  end.

Definition stream_run (x : option recStream) (evs : list (direction * wireEvent)) : option recStream :=
  foldl (λ x de, stream_step x de.1 de.2) x evs.

(** The events of one stream among all. *)
Definition of_stream (id : N) (evs : list (direction * wireEvent)) : list (direction * wireEvent) :=
  filter (λ de, noise de.2 = false ∧ we_stream de.2 = id) evs.
End step.

Section tracker_lemmas.
Context {U : Unicode} {F : FloatFormat} {Y : YamlLib} {YS : YamlStreamLib} {O : Faults}.
Context `{G : GrpcLib}.

Lemma put_get t id s : get (put t id s) id = s.
Proof. unfold get, put. simpl. by rewrite lookup_insert_eq. Qed.

Lemma handle_spec t dir ev rd σ :
  handle t dir ev rd σ =
  if noise ev then (σ, (t, None)) else
  let id := we_stream ev in
  let s := get t id in
  match stream_terminal s dir ev with
  | Some (code, msg) =>
    let '(σ', t') := finish (put t id s) id s code msg rd σ in (σ', (t', None))
  | None => (σ, (put t id (stream_next s dir ev), stream_error s dir ev))
  end.
Proof.
  unfold handle, noise, stream_terminal, stream_next, stream_error.
  assert (∀ id s s', put (put t id s) id s' = put t id s') as Hpp.
  { intros. unfold put. simpl. by rewrite insert_insert_eq. }
  destruct ev as [id [] hs m e]; cbn [we_stream we_kind we_headers we_message we_end]; try done;
    destruct (id =? 0)%N; try done; cbv zeta; destruct dir; rewrite ?Hpp; try done.
  - destruct (splitPath _) as [[service method]|]; [|done]. simpl.
    by destruct (isCompressed hs); rewrite ?Hpp.
  - destruct (bool_decide _); simpl; [done|]. destruct (isCompressed hs); [done|].
    by destruct (grpcStatus hs) as [[]|].
  - by destruct (bool_decide _); rewrite ?Hpp.
  - by destruct (bool_decide _), m; rewrite ?Hpp.
Qed.

(** [finish] forgets the stream, whatever becomes of the cassette, and touches
    no other. *)
Lemma finish_streams t id s code msg rd σ :
  t_streams (finish t id s code msg rd σ).2 = delete id (t_streams t).
Proof.
  unfold finish. case_match; [done|]. by destruct (record_stream _ _ _ _ _ _) as [? [??]].
Qed.

Lemma handle_streams t dir ev rd σ id :
  t_streams (handle t dir ev rd σ).2.1 !! id =
  if decide (noise ev = false ∧ we_stream ev = id)
  then stream_step (t_streams t !! id) dir ev else t_streams t !! id.
Proof.
  rewrite handle_spec. unfold stream_step. destruct (noise ev) eqn:En; [by rewrite decide_False by naive_solver|].
  cbv zeta. fold (get t (we_stream ev)).
  destruct (stream_terminal (get t (we_stream ev)) dir ev) as [[code msg]|] eqn:Et.
  - destruct (finish _ _ _ _ _ _ _) as [σ' t'] eqn:Ef. simpl.
    replace t' with (finish (put t (we_stream ev) (get t (we_stream ev))) (we_stream ev)
      (get t (we_stream ev)) code msg rd σ).2 by (by rewrite Ef).
    rewrite finish_streams. simpl. rewrite delete_insert_eq.
    case_decide as Hd.
    + destruct Hd as [_ <-]. unfold get in Et. rewrite Et. apply lookup_delete_eq.
    + apply lookup_delete_ne. naive_solver.
  - simpl. case_decide as Hd.
    + destruct Hd as [_ <-]. unfold get in Et. rewrite Et, lookup_insert_eq. done.
    + apply lookup_insert_ne. naive_solver.
Qed.
End tracker_lemmas.

(** ** A run of the tracker *)

Section runs.
Context {U : Unicode} {F : FloatFormat} {Y : YamlLib} {YS : YamlStreamLib} {O : Faults}.
Context `{G : GrpcLib}.

(** Events handled one after another; errors concern the decoders, not the
    tracker. *)
Fixpoint handle_all (t : streamTracker) (evs : list (direction * wireEvent * readings)) (σ : fsys)
    : fsys * streamTracker :=
  match evs with
  | [] => (σ, t)
  | (dir, ev, rd) :: evs' => let '(σ', (t', _)) := handle t dir ev rd σ in handle_all t' evs' σ'
  end.

Lemma handle_all_streams evs t σ id :
  t_streams (handle_all t evs σ).2 !! id = stream_run (t_streams t !! id) (of_stream id evs.*1).
Proof.
  revert t σ. induction evs as [|[[dir ev] rd] evs IH]; intros t σ; [done|].
  cbn [handle_all]. pose proof (handle_streams t dir ev rd σ id) as Hs.
  destruct (handle t dir ev rd σ) as [σ' [t' e]]. simpl in Hs. rewrite IH, Hs.
  unfold of_stream. rewrite fmap_cons, filter_cons. cbn [fst snd].
  by destruct (decide (noise ev = false ∧ we_stream ev = id)).
Qed.
End runs.

(** ** The invariant of a stream's state *)

Definition sent (es : list recEvent) : list string :=
  omap (λ e, match e with evSend m => Some m | _ => None end) es.
Definition recvd (es : list recEvent) : list string :=
  omap (λ e, match e with evRecv m => Some m | _ => None end) es.

(** How many messages preceded the half-close, if there was one. *)
Fixpoint half_after (n : nat) (es : list recEvent) : option nat :=
  match es with
  | [] => None
  | evHalfClose :: _ => Some n
  | evSend _ :: es' => half_after (S n) es'
  | evRecv _ :: es' => half_after n es'
  end.

Lemma half_after_app n es es' :
  half_after n (es ++ es') =
  match half_after n es with Some k => Some k | None => half_after (n + length (sent es)) es' end.
Proof.
  revert n. induction es as [|[m|m|] es IH]; intros n; simpl.
  - by rewrite Nat.add_0_r.
  - rewrite IH. by replace (S n + length (sent es)) with (n + S (length (sent es))) by lia.
  - apply IH.
  - done.
Qed.

Definition halves (es : list recEvent) : nat :=
  length (omap (λ e, match e with evHalfClose => Some tt | _ => None end) es).

(** The counters and flags say what the event log says. *)
Record stream_ok (s : recStream) : Prop := {
  so_sends : s_sends s = sent (s_events s);
  so_sent : s_sentCount s = Z.of_nat (length (sent (s_events s)));
  so_recv : s_recvCount s = Z.of_nat (length (recvd (s_events s)));
  so_half : s_sawHalfClose s = bool_decide (is_Some (half_after 0 (s_events s)));
  so_first : s_halfCloseAfterFirstSend s = bool_decide (half_after 0 (s_events s) = Some 1);
  so_once : halves (s_events s) ≤ 1 ∧ (s_sawHalfClose s = false → halves (s_events s) = 0);
  so_open : s_finished s = false;
  so_anon : s_service s = "" → s_events s = [];
}.

Lemma new_recStream_ok : stream_ok new_recStream.
Proof. split; simpl; try done. split; [unfold halves; simpl; lia|done]. Qed.

Lemma set_names_ok s service method b : stream_ok s → service ≠ "" → stream_ok (set_names s service method b).
Proof. intros [] Hs. by split. Qed.

Lemma note_send_ok s m : stream_ok s → s_service s ≠ "" → stream_ok (note_send s m).
Proof.
  intros [Hs Hn Hr Hh Hf Ho Hfi Ha] Hne. unfold sent, recvd, halves in *. split; simpl;
    rewrite ?half_after_app; unfold sent, recvd, halves; rewrite ?omap_app, ?length_app; simpl;
    rewrite ?app_nil_r, ?Nat.add_0_r; try done.
  - by rewrite Hs.
  - rewrite Hn. lia.
  - rewrite Hh. by destruct (half_after _ _).
  - rewrite Hf. by destruct (half_after _ _).
Qed.

Lemma note_recv_ok s m : stream_ok s → s_service s ≠ "" → stream_ok (note_recv s m).
Proof.
  intros [Hs Hn Hr Hh Hf Ho Hfi Ha] Hne. unfold sent, recvd, halves in *. split; simpl;
    rewrite ?half_after_app; unfold sent, recvd, halves; rewrite ?omap_app, ?length_app; simpl;
    rewrite ?app_nil_r, ?Nat.add_0_r; try done.
  - rewrite Hr. lia.
  - rewrite Hh. by destruct (half_after _ _).
  - rewrite Hf. by destruct (half_after _ _).
Qed.

Lemma noteHalfClose_ok s : stream_ok s → s_service s ≠ "" → stream_ok (noteHalfClose s).
Proof.
  intros Hok Hne. unfold noteHalfClose. destruct (s_sawHalfClose s) eqn:Esaw; [done|].
  destruct Hok as [Hs Hn Hr Hh Hf Ho Hfi Ha]. destruct Ho as [_ Ho]. specialize (Ho Esaw).
  unfold sent, recvd, halves in *. rewrite Esaw in Hh. symmetry in Hh.
  apply bool_decide_eq_false, eq_None_not_Some in Hh. split; simpl;
    rewrite ?half_after_app, ?Hh; unfold sent, recvd, halves; rewrite ?omap_app, ?length_app; simpl;
    rewrite ?app_nil_r, ?Nat.add_0_r; try done; [|lia].
  rewrite Hn. clear Hf. symmetry. case_bool_decide as Hd; [by injection Hd as ->|].
  destruct (Z.eqb_spec (Z.of_nat (length (omap (λ e, match e with evSend m => Some m | _ => None end)
    (s_events s)))) 1); [|done]. destruct Hd. f_equal. lia.
Qed.

Lemma service_kept s b : s_service (if b : bool then noteHalfClose s else s) = s_service s.
Proof. destruct b; [|done]. unfold noteHalfClose. by destruct (s_sawHalfClose s). Qed.

Lemma half_ok s (b : bool) :
  stream_ok s → s_service s ≠ "" → stream_ok (if b then noteHalfClose s else s).
Proof. destruct b; [apply noteHalfClose_ok|done]. Qed.

Create HintDb recstream discriminated.
#[export] Hint Resolve new_recStream_ok set_names_ok note_send_ok note_recv_ok half_ok : recstream.

Lemma splitPath_service {U : Unicode} p service method :
  splitPath p = Some (service, method) → service ≠ "".
Proof.
  unfold splitPath. destruct (CutLast1 _ _) as [[a b]|]; [|done].
  destruct (bool_decide (a = "")) eqn:E; [done|]. apply bool_decide_eq_false in E.
  destruct (bool_decide (b = "")); [done|]. by intros [= -> ->].
Qed.

Lemma stream_next_ok {U : Unicode} s dir ev : stream_ok s → stream_ok (stream_next s dir ev).
Proof.
  intros Hok. unfold stream_next.
  destruct (we_kind ev), dir; try done.
  - destruct (splitPath _) as [[service method]|] eqn:Es; [|done].
    apply splitPath_service in Es. destruct (isCompressed _); auto with recstream.
  - case_bool_decide; [done|]. destruct (we_message ev); auto with recstream.
  - case_bool_decide; [done|]. destruct (we_message ev); auto with recstream.
Qed.

Lemma stream_run_ok {U : Unicode} l s : stream_run None l = Some s → stream_ok s.
Proof.
  assert (∀ l x, from_option stream_ok True x → from_option stream_ok True (stream_run x l)) as Hrun.
  { unfold stream_run. clear l. induction l as [|[dir ev] l IH]; intros x Hx; [done|]. simpl. apply IH.
    unfold stream_step. destruct (stream_terminal _ _ _); [done|]. apply stream_next_ok.
    destruct x; [done|apply new_recStream_ok]. }
  intros Hs. specialize (Hrun l None I). by rewrite Hs in Hrun.
Qed.

(** The type a log amounts to. *)
Definition type_of_log (es : list recEvent) : string :=
  if bool_decide (length (sent es) = 1 ∧ half_after 0 es = Some 1) then StreamServer
  else if bool_decide (length (recvd es) ≤ 1) then StreamClient else StreamBidi.

Lemma inferStreamType_log s : stream_ok s → inferStreamType s = type_of_log (s_events s).
Proof.
  intros [_ Hn Hr Hh Hf _ _ _]. unfold inferStreamType, type_of_log. rewrite Hn, Hr, Hh, Hf.
  replace ((Z.of_nat (length (sent (s_events s))) =? 1)%Z &&
           bool_decide (is_Some (half_after 0 (s_events s))) &&
           bool_decide (half_after 0 (s_events s) = Some 1))
    with (bool_decide (length (sent (s_events s)) = 1 ∧ half_after 0 (s_events s) = Some 1)).
  - case_match; [done|].
    destruct (Z.leb_spec (Z.of_nat (length (recvd (s_events s)))) 1) as [Hl|Hl];
      [rewrite bool_decide_eq_true_2 by lia|rewrite bool_decide_eq_false_2 by lia]; done.
  - destruct (Z.eqb_spec (Z.of_nat (length (sent (s_events s)))) 1) as [H|H]; simpl;
      [|rewrite bool_decide_eq_false_2 by lia; done].
    assert (length (sent (s_events s)) = 1) as -> by lia.
    destruct (half_after 0 (s_events s)) as [k|].
    + rewrite (bool_decide_eq_true_2 (is_Some (Some k))) by eauto. apply bool_decide_ext. naive_solver.
    + rewrite (bool_decide_eq_false_2 (_ ∧ _)) by naive_solver. done.
Qed.

(** ** A saved stream, replayed *)

Section replay.
Context {U : Unicode} {F : FloatFormat} {Y : YamlLib} {YS : YamlStreamLib} {O : Faults}.
Context `{SL : StatusLaws}.

(** The transport addresses a stream as the interceptor does. *)
Lemma streamOpenFor_streamOpen s typ service mth m :
  streamOpenFor s typ service mth m = streamOpen s typ service mth m.
Proof. reflexivity. Qed.

Lemma streamOpenFor_fields s typ service mth m :
  let o := streamOpenFor s typ service mth m in
  o_adapter o = transport_adapterID ∧ o_type o = typ ∧ o_payload o = open_payload service mth.
Proof. unfold streamOpenFor. by case_bool_decide. Qed.

Lemma imap_events rd k es :
  let l := imap (λ i, rec_event_of rd (k + i)) es in
  sends_of l = sent es ∧ recvs_of l = recvd es ∧ length l = length es.
Proof.
  cbv zeta. revert k. induction es as [|e es IH]; intros k; [done|].
  rewrite imap_cons.
  assert (imap ((λ i, rec_event_of rd (k + i)) ∘ S) es = imap (λ i, rec_event_of rd (S k + i)) es) as ->.
  { apply imap_ext. intros i x _. simpl. by rewrite Nat.add_succ_r. }
  destruct (IH (S k)) as (Hs & Hr & Hl).
  destruct e as [m|m|]; split_and!; try exact (f_equal S Hl); try exact Hs; try exact Hr;
    [exact (f_equal (cons m) Hs)|exact (f_equal (cons m) Hr)].
Qed.

Lemma rec_events_spec rd es :
  sends_of (rec_events rd es) = sent es ∧ recvs_of (rec_events rd es) = recvd es ∧
  length (rec_events rd es) = length es.
Proof. exact (imap_events rd 0 es). Qed.

Lemma rec_events_times rd es :
  (∀ i, rd_event rd i < 2 ^ 63)%Z → Forall (λ ev, event_time ev < 2 ^ 63)%Z (rec_events rd es).
Proof.
  intros Ht. apply Forall_lookup. intros i ev. unfold rec_events. rewrite list_lookup_imap.
  destruct (es !! i) as [e|]; [|done]. intros [= <-]. destruct e; apply Ht.
Qed.

Definition readings_ok (rd : readings) : Prop :=
  (0 ≤ rd_open rd)%Z ∧ (∀ i, rd_event rd i < 2 ^ 63)%Z ∧ (rd_end rd < 2 ^ 63)%Z.

(** How a recorded terminal reads back. *)
Definition recorded_terminal (code : Z) (msg : string) : err :=
  if (code =? codes_OK)%Z then EOF else ENew (status_prefix code +:+ msg).

Lemma status_terminal code msg :
  (0 ≤ code < 2 ^ 32)%Z →
  let e := if (code =? codes_OK)%Z then None else status_Error code msg in
  (if bool_decide (recorded_text e = "") then EOF else ENew (recorded_text e)) =
    recorded_terminal code msg ∧
  (utf8_valid (status_prefix code +:+ msg) → utf8_valid (recorded_text e)).
Proof.
  intros Hc. cbv zeta. unfold recorded_terminal.
  destruct (Z.eqb_spec code codes_OK) as [->|Hne]; [done|].
  rewrite status_Error_fail by (unfold codes_OK in Hne; lia). simpl. split; [|done].
  done.
Qed.

Lemma names_text service mth :
  utf8_valid service → utf8_valid mth → map_Forall (λ _ v, yaml_value v) (open_payload service mth).
Proof. intros Hs Hm. apply map_Forall_insert_2; [done|]. by apply map_Forall_singleton. Qed.

Context {YL : YamlLaws} {YSL : YamlStreamLaws}.

Lemma record_stream_replay ses s code msg rd σ σ2 ses2 s' :
  record_stream ses s code msg rd σ = (σ2, (ses2, inr tt)) →
  replays ses s' → (∀ p, read_fault p = None) → readings_ok rd →
  (Z.of_nat (length (s_events s)) < 2 ^ 63)%Z → (0 ≤ code < 2 ^ 32)%Z →
  utf8_valid (s_service s) → utf8_valid (s_method s) → utf8_valid (status_prefix code +:+ msg) →
  let typ := inferStreamType s in
  let info := {| si_adapter := transport_adapterID; si_type := typ |} in
  ∃ rep, OpenStreamReplay s' (streamOpenFor s' typ (s_service s) (s_method s) (firstOrNil (s_sends s))) σ2 =
      (σ2, (set_streamN s' (streamN ses2), inr rep)) ∧
    p_resp_payload (rep_pair rep) = Some {[ "status_code" := VInt KInt code ]} ∧
    terminalErr rep = recorded_terminal code msg ∧
    ∀ ops, follows (sent (s_events s)) ops →
      (replay_ops rep ops).2 =
      expected (scrubFrame (streamScrub ses) StreamRecv info <$> recvd (s_events s))
        (recorded_terminal code msg) ops.
Proof.
  intros Hrec (Hm & Hc & Hn & Hsc) Hfault (Ho & Hev & Hend) Hlen Hcode Hu1 Hu2 Hu3 typ info.
  unfold record_stream in Hrec. fold typ in Hrec.
  set (o := streamOpenFor ses typ (s_service s) (s_method s) (firstOrNil (s_sends s))) in *.
  assert (streamOpenFor s' typ (s_service s) (s_method s) (firstOrNil (s_sends s)) = o) as Hopen'.
  { unfold o, streamOpenFor, ScrubStreamFrame. by rewrite Hsc. }
  destruct (streamOpenFor_fields ses typ (s_service s) (s_method s) (firstOrNil (s_sends s)))
    as (Hoa & Hot & Hop). fold o in Hoa, Hot, Hop.
  destruct (OpenStreamRecord ses o (rd_open rd)) as [s1 [e|rec]] eqn:Hopen; [done|].
  set (evs := rec_events rd (s_events s)) in *.
  destruct (rec_events_spec rd (s_events s)) as (Hse & Hre & Hle). fold evs in Hse, Hre, Hle.
  set (te := if (code =? codes_OK)%Z then None else status_Error code msg) in *.
  destruct (Finish (log_events rec evs) (rd_wall rd) (rd_end rd) _ te σ) as [σ1 [rec' r]] eqn:Hfin.
  injection Hrec as -> -> ->.
  destruct (status_terminal code msg Hcode) as [HT Htxt]. fold te in HT, Htxt.
  destruct (fresh_log_fits _ _ _ _ _ Hopen Ho) as [Hfit Hseq0].
  destruct (OpenStreamRecord_fields _ _ _ _ _ Hopen) as (_ & _ & _ & Hpay).
  destruct (OpenStreamRecord_inr _ _ _ _ _ Hopen) as (_ & Hnf & _ & _ & Had & Hty & Hscr & _).
  destruct (log_events_fits rec evs Hfit) as [Hf Hs]; [lia|by apply rec_events_times|].
  destruct (log_events_spec rec evs Hnf) as ((_ & _ & _ & _ & Hpl & _) & _).
  destruct (reopen_recorded ses s' o (rd_open rd) ses2 rec evs (rd_wall rd) (rd_end rd)
    (Some {[ "status_code" := VInt KInt code ]}) te σ σ2 rec') as (rep & Hrep & Hpp & Ht & Hops);
    try done.
  - by rewrite Hoa.
  - apply recorded_pair_range; [done|lia|done].
  - repeat split; [by apply Htxt|simpl; rewrite Hpl; apply Hpay; rewrite Hop; by apply names_text|].
    by apply map_Forall_singleton.
  - exists rep. rewrite Hopen', <-HT, <-Ht. split_and!; [done|done|done|].
    intros ops Hfo. rewrite Hops by (by rewrite Hse). rewrite Hre. unfold scrub_recv, scrubInfo.
    by rewrite Hscr, Had, Hty, Hoa, Hot.
Qed.
End replay.

(** ** Whole calls *)

Section calls.
Context {U : Unicode}.

(** The headers that name a call, and the events that may follow them before the
    terminal. *)
Definition request (ev : wireEvent) (service method : string) : Prop :=
  we_kind ev = wireHeaders ∧ splitPath (headerValue (we_headers ev) ":path") = Some (service, method) ∧
  isCompressed (we_headers ev) = false.

Definition in_call (de : direction * wireEvent) : Prop :=
  match we_kind de.2, de.1 with
  | wireMessage, _ => True
  | wireHeaders, dirServerToClient =>
    isCompressed (we_headers de.2) = false ∧ grpcStatus (we_headers de.2) = None
  | _, _ => False
  end.

(** The messages of one direction of a call. *)
Definition wire_messages (dir : direction) (l : list (direction * wireEvent)) : list string :=
  omap (λ de, match we_kind de.2 with
              | wireMessage => if bool_decide (de.1 = dir) then we_message de.2 else None
              | _ => None
              end) l.

Lemma noteHalfClose_log s :
  sent (s_events (noteHalfClose s)) = sent (s_events s) ∧
  recvd (s_events (noteHalfClose s)) = recvd (s_events s) ∧
  s_method (noteHalfClose s) = s_method s ∧ s_compressed (noteHalfClose s) = s_compressed s ∧
  length (s_events (noteHalfClose s)) ≤ S (length (s_events s)).
Proof.
  unfold noteHalfClose. destruct (s_sawHalfClose s); [split_and!; try done; lia|]. simpl.
  unfold sent, recvd. rewrite !omap_app, length_app. simpl. rewrite !app_nil_r. split_and!; try done; lia.
Qed.

Lemma half_log (b : bool) s :
  let s' := if b then noteHalfClose s else s in
  sent (s_events s') = sent (s_events s) ∧ recvd (s_events s') = recvd (s_events s) ∧
  s_method s' = s_method s ∧ s_compressed s' = s_compressed s ∧
  length (s_events s') ≤ S (length (s_events s)).
Proof. destruct b; [apply noteHalfClose_log|]. cbv zeta. split_and!; try done; lia. Qed.

(** What a stream's state is after part of a call, relative to before. *)
Definition grown (s s' : recStream) (l : list (direction * wireEvent)) : Prop :=
  s_service s' = s_service s ∧ s_method s' = s_method s ∧ s_compressed s' = s_compressed s ∧
  sent (s_events s') = sent (s_events s) ++ wire_messages dirClientToServer l ∧
  recvd (s_events s') = recvd (s_events s) ++ wire_messages dirServerToClient l ∧
  length (s_events s') ≤ length (s_events s) + 2 * length l.

Lemma stream_step_call s dir ev :
  s_service s ≠ "" → in_call (dir, ev) →
  ∃ s', stream_step (Some s) dir ev = Some s' ∧ grown s s' [(dir, ev)].
Proof.
  intros Hne Hin. unfold stream_step. change (default new_recStream (Some s)) with s.
  unfold stream_terminal, stream_next, in_call, grown in *.
  rewrite (bool_decide_eq_false_2 (s_service s = "")) by done.
  destruct ev as [id [] hs m e], dir;
    cbn [fst snd we_kind we_headers we_message we_end] in *; try done.
  - destruct Hin as [-> ->]. simpl. eexists. split; [done|].
    unfold wire_messages. simpl. rewrite !app_nil_r. split_and!; try done; lia.
  - eexists. split; [done|].
    set (s0 := match m with Some m0 => note_send s m0 | None => s end).
    destruct (half_log e s0) as (H1 & H2 & H3 & H4 & H5). cbv zeta in *.
    rewrite service_kept, H1, H2, H3, H4.
    unfold s0, wire_messages, sent, recvd in *. destruct m as [m|]; simpl in *.
    + rewrite !omap_app, length_app in *. simpl in *. rewrite !app_nil_r. split_and!; try done; lia.
    + rewrite !app_nil_r. split_and!; try done; lia.
  - eexists. split; [done|]. unfold wire_messages, sent, recvd. destruct m as [m|]; simpl.
    + rewrite !omap_app, length_app. simpl. rewrite !app_nil_r. split_and!; try done; lia.
    + rewrite !app_nil_r. split_and!; try done; lia.
Qed.

Lemma stream_run_call l s :
  s_service s ≠ "" → Forall in_call l →
  ∃ s', stream_run (Some s) l = Some s' ∧ grown s s' l.
Proof.
  revert s. induction l as [|[dir ev] l IH]; intros s Hne Hin.
  { exists s. split; [done|]. unfold grown, wire_messages. simpl. rewrite !app_nil_r.
    split_and!; try done; lia. }
  apply Forall_cons in Hin as [Hev Hin].
  destruct (stream_step_call s dir ev Hne Hev) as (s1 & Hs1 & G1 & G2 & G3 & G4 & G5 & G6).
  destruct (IH s1) as (s2 & Hs2 & K1 & K2 & K3 & K4 & K5 & K6); [by rewrite G1|done|].
  exists s2. split; [unfold stream_run in *; simpl; by rewrite Hs1|].
  unfold grown in *. change ((dir, ev) :: l) with ([(dir, ev)] ++ l).
  unfold wire_messages in *. rewrite !omap_app, K4, G4, K5, G5, <-!app_assoc, length_app.
  split_and!; try congruence; lia.
Qed.

(** A call from its headers on. *)
Lemma stream_run_request ev service method l :
  request ev service method → Forall in_call l →
  ∃ s, stream_run None ((dirClientToServer, ev) :: l) = Some s ∧
    s_service s = service ∧ s_method s = method ∧ s_compressed s = false ∧
    sent (s_events s) = wire_messages dirClientToServer l ∧
    recvd (s_events s) = wire_messages dirServerToClient l ∧
    length (s_events s) ≤ 2 * length l + 1 ∧ service ≠ "".
Proof.
  intros (Hk & Hp & Hc) Hin. pose proof (splitPath_service _ _ _ Hp) as Hne.
  set (s0 := if we_end ev then noteHalfClose (set_names new_recStream service method false)
             else set_names new_recStream service method false).
  assert (stream_step None dirClientToServer ev = Some s0) as H0.
  { unfold stream_step, stream_terminal, stream_next. rewrite Hk, Hp, Hc. done. }
  destruct (half_log (we_end ev) (set_names new_recStream service method false)) as
    (H1 & H2 & H3 & H4 & H5). fold s0 in H1, H2, H3, H4, H5. cbv zeta in *.
  assert (s_service s0 = service) as Hs0 by (unfold s0; by rewrite service_kept).
  destruct (stream_run_call l s0) as (s & Hs & K1 & K2 & K3 & K4 & K5 & K6); [by rewrite Hs0|done|].
  exists s. split; [unfold stream_run in *; simpl; by rewrite H0|].
  simpl in *. rewrite K4, K5, H1, H2. split_and!; try congruence; try done. lia.
Qed.

Lemma grpcStatus_code fs code msg : grpcStatus fs = Some (code, msg) → (0 ≤ code < 2 ^ 32)%Z.
Proof.
  unfold grpcStatus. case_match; [done|]. destruct (Atoi _); intros [= <- <-].
  - unfold to_code. by apply Z.mod_pos_bound.
  - done.
Qed.
End calls.

(** ** The goroutines feed the tracker the decoded events, in order *)

Section turns.
Context {U : Unicode} {F : FloatFormat} {Y : YamlLib} {YS : YamlStreamLib} {O : Faults}.
Context `{G : GrpcLib}.

(** The event a turn hands to the tracker. *)
Definition turn_event (c : recordConn) (dir : direction) : option wireEvent :=
  match decoder_of c dir with
  | Some d => match (next d).2 with inr ev => Some ev | inl _ => None end
  | None => None
  end.

Fixpoint turn_events (c : recordConn) (turns : list (direction * readings)) (σ : fsys)
    : list (direction * wireEvent * readings) :=
  match turns with
  | [] => []
  | (dir, rd) :: turns' =>
    let rest := let '(σ', c') := decode_turn c dir rd σ in turn_events c' turns' σ' in
    match turn_event c dir with Some ev => (dir, ev, rd) :: rest | None => rest end
  end.

(** The events of one direction. *)
Definition of_dir (dir : direction) (evs : list (direction * wireEvent * readings)) : list wireEvent :=
  omap (λ x, if bool_decide (x.1.1 = dir) then Some x.1.2 else None) evs.

(** What a direction's decoder has still to give. *)
Definition decoder_events (c : recordConn) (dir : direction) : list wireEvent :=
  match decoder_of c dir with Some d => (events_left d (cd_in d)).1 | None => [] end.

Lemma decoder_of_set c dir dir' d :
  decoder_of (set_decoder c dir d) dir' = if bool_decide (dir' = dir) then d else decoder_of c dir'.
Proof. by destruct dir, dir'. Qed.

Lemma decode_turn_spec c dir rd σ :
  let '(σ', c') := decode_turn c dir rd σ in
  match turn_event c dir with
  | Some ev =>
    σ' = (handle (rc_tracker c) dir ev rd σ).1 ∧
    rc_tracker c' = (handle (rc_tracker c) dir ev rd σ).2.1
  | None => σ' = σ ∧ rc_tracker c' = rc_tracker c
  end ∧
  ∀ dir', decoder_events c dir' =
    (if bool_decide (dir' = dir) then option_list (turn_event c dir) else []) ++
      decoder_events c' dir' ∨
    dir' = dir ∧ decoder_of c' dir = None ∧
    option_list (turn_event c dir) `prefix_of` decoder_events c dir.
Proof.
  unfold decode_turn, turn_event, decoder_events.
  destruct (decoder_of c dir) as [d|] eqn:Ed.
  2:{ split; [done|]. intros dir'. left. case_bool_decide; [subst; by rewrite Ed|done]. }
  pose proof (next_loop_spec (cd_in d) d eq_refl) as Hn. fold (next d) in Hn.
  destruct (events_left d (cd_in d)) as [l e] eqn:El.
  destruct (next d) as [d' [e'|ev]] eqn:En; cbn [snd].
  - split; [by destruct (errors_is e' SEOF || errors_is e' SClosedPipe)|].
    intros dir'. rewrite !decoder_of_set.
    assert (∀ b : bool, decoder_of (if b then c else noteErr c e') dir' = decoder_of c dir') as ->
      by (by intros []; destruct dir').
    destruct (decide (dir' = dir)) as [->|Hne].
    + right. rewrite bool_decide_eq_true_2 by done. split_and!; [done|done|]. apply prefix_nil.
    + left. by rewrite !bool_decide_eq_false_2.
  - destruct l as [|ev0 l]; [done|]. destruct Hn as (c0 & Hc0 & Hl). injection Hc0 as <- <-.
    destruct (handle (rc_tracker c) dir ev rd σ) as [σ' [t [e'|]]]; cbn [fst snd].
    + split; [by destruct dir|]. intros dir'. rewrite !decoder_of_set.
      destruct (decide (dir' = dir)) as [->|Hne].
      * right. rewrite bool_decide_eq_true_2 by done. split_and!; [done|done|].
        by exists l.
      * left. rewrite !bool_decide_eq_false_2 by done. by destruct dir'.
    + split; [by destruct dir|]. intros dir'. left. rewrite !decoder_of_set.
      destruct (decide (dir' = dir)) as [->|Hne].
      * rewrite !bool_decide_eq_true_2 by done. rewrite Ed, El, Hl. done.
      * rewrite !bool_decide_eq_false_2 by done. by destruct dir'.
Qed.

Lemma decode_turns_stopped turns c σ dir : decoder_of c dir = None → of_dir dir (turn_events c turns σ) = [].
Proof.
  revert c σ. induction turns as [|[d rd] turns IH]; intros c σ Hd; [done|].
  cbn [turn_events]. unfold decode_turn, turn_event.
  destruct (decoder_of c d) as [x|] eqn:Ed; [|by apply IH].
  assert (d ≠ dir) as Hne by congruence.
  destruct (next x) as [x' [e|ev]]; cbn [snd].
  - apply IH. rewrite decoder_of_set, bool_decide_eq_false_2 by congruence.
    by destruct (_ || _), dir.
  - destruct (handle _ _ _ _ _) as [σ' [t [e|]]]; unfold of_dir; simpl;
      rewrite (bool_decide_eq_false_2 (d = dir)) by done; apply IH;
      rewrite decoder_of_set, bool_decide_eq_false_2 by congruence; by destruct dir.
Qed.

Lemma decode_turns_handled turns c σ :
  let evs := turn_events c turns σ in
  let '(σ', c') := decode_turns c turns σ in
  (σ', rc_tracker c') = handle_all (rc_tracker c) evs σ ∧
  ∀ dir, of_dir dir evs `prefix_of` decoder_events c dir.
Proof.
  revert c σ. induction turns as [|[d rd] turns IH]; intros c σ.
  { cbv zeta. simpl. split; [done|]. intros dir. apply prefix_nil. }
  cbv zeta. cbn [turn_events decode_turns].
  pose proof (decode_turn_spec c d rd σ) as Hs.
  destruct (decode_turn c d rd σ) as [σ1 c1]. destruct Hs as [Hs Hd].
  specialize (IH c1 σ1). cbv zeta in IH. destruct (decode_turns c1 turns σ1) as [σ' c'] eqn:Et.
  destruct IH as [IH1 IH2]. split.
  - destruct (turn_event c d) as [ev|].
    + cbn [handle_all]. destruct (handle _ _ _ _ _) as [σ2 [t2 e2]]. simpl in Hs.
      destruct Hs as [-> <-]. done.
    + destruct Hs as [-> <-]. done.
  - intros dir.
    assert (of_dir dir (match turn_event c d with
                        | Some ev => (d, ev, rd) :: turn_events c1 turns σ1
                        | None => turn_events c1 turns σ1 end) =
            (if bool_decide (dir = d) then option_list (turn_event c d) else []) ++
            of_dir dir (turn_events c1 turns σ1)) as ->.
    { destruct (turn_event c d) as [ev|]; unfold of_dir; simpl.
      - destruct (decide (d = dir)) as [->|Hne];
          [by rewrite !bool_decide_eq_true_2|by rewrite !bool_decide_eq_false_2 by congruence].
      - by destruct (bool_decide (dir = d)). }
    destruct (Hd dir) as [->|(-> & Hnone & Hpre)].
    + apply prefix_app, IH2.
    + rewrite bool_decide_eq_true_2 by done.
      rewrite (decode_turns_stopped turns c1 σ1 d Hnone), app_nil_r. done.
Qed.
End turns.

(** ** The mirror: an application's calls and the two pipes

    A call of [Read] or [Write] gets its result from the live connection and
    hands the bytes it moved to an [io.Pipe], which holds no bytes of its own: a
    write to it ends when a reader has taken every byte, or when the writing end
    is closed. *)

Section mirror.
Context {U : Unicode} {F : FloatFormat} {Y : YamlLib} {YS : YamlStreamLib} {O : Faults}.
Context `{G : GrpcLib}.

(** The bytes moved and the error. *)
Definition io_result : Type := (string * option err)%type.

(** The call of one direction, its pipe, and the bytes the pipe's writer still
    has to hand over. *)
Record side := { m_call : option io_result; m_rest : string; m_closed : bool }.

Record tap := {
  tp_fs : fsys;
  tp_conn : recordConn;
  tp_toServer : side;
  tp_toClient : side;
}.

Definition side_of (p : tap) (dir : direction) : side :=
  match dir with dirClientToServer => tp_toServer p | dirServerToClient => tp_toClient p end.

Definition set_side (p : tap) (dir : direction) (x : side) : tap :=
  {| tp_fs := tp_fs p; tp_conn := tp_conn p;
     tp_toServer := if bool_decide (dir = dirClientToServer) then x else tp_toServer p;
     tp_toClient := if bool_decide (dir = dirServerToClient) then x else tp_toClient p |}.

Definition set_conn (p : tap) (σ : fsys) (c : recordConn) : tap :=
  {| tp_fs := σ; tp_conn := c; tp_toServer := tp_toServer p; tp_toClient := tp_toClient p |}.

Inductive tap_label : Type :=
| LStart (dir : direction) (r : io_result)
| LConsume (dir : direction)
| LTurn (dir : direction)
| LReturn (dir : direction) (r : io_result)
| LClose.

(** The live call has answered; the mirror write begins, unless nothing was moved
    or the pipe is closed. *)
Definition start_call (x : side) (r : io_result) : side :=
  {| m_call := Some r; m_rest := if m_closed x then "" else r.1; m_closed := m_closed x |}.

(** The call returns; a failed [Read] closes its pipe. *)
Definition end_call (dir : direction) (x : side) (r : io_result) : side :=
  {| m_call := None; m_rest := m_rest x;
     m_closed := m_closed x || bool_decide (dir = dirServerToClient ∧ r.2 ≠ None) |}.

Definition close_side (x : side) : side :=
  {| m_call := m_call x; m_rest := ""; m_closed := true |}.

Inductive tap_step : tap → tap_label → tap → Prop :=
| tap_start p dir r :
    m_call (side_of p dir) = None →
    tap_step p (LStart dir r) (set_side p dir (start_call (side_of p dir) r))
| tap_consume p dir x y :
    m_rest (side_of p dir) = x +:+ y → x ≠ "" → decoder_of (tp_conn p) dir ≠ None →
    tap_step p (LConsume dir)
      (set_side p dir {| m_call := m_call (side_of p dir); m_rest := y;
                         m_closed := m_closed (side_of p dir) |})
| tap_turn p dir rd σ c :
    decode_turn (tp_conn p) dir rd (tp_fs p) = (σ, c) →
    tap_step p (LTurn dir) (set_conn p σ c)
| tap_return p dir r :
    m_call (side_of p dir) = Some r → m_rest (side_of p dir) = "" →
    tap_step p (LReturn dir r) (set_side p dir (end_call dir (side_of p dir) r))
| tap_close p :
    tap_step p LClose
      {| tp_fs := tp_fs p; tp_conn := tp_conn p; tp_toServer := close_side (tp_toServer p);
         tp_toClient := close_side (tp_toClient p) |}.

Inductive tap_steps : tap → list tap_label → tap → Prop :=
| tap_done p : tap_steps p [] p
| tap_more p l p1 ls p2 : tap_step p l p1 → tap_steps p1 ls p2 → tap_steps p (l :: ls) p2.

(** The results the live connection gave to the calls of a direction, and those
    the application saw. *)
Definition started (dir : direction) (ls : list tap_label) : list io_result :=
  omap (λ l, match l with LStart d r => if bool_decide (d = dir) then Some r else None
                        | _ => None end) ls.
Definition returned (dir : direction) (ls : list tap_label) : list io_result :=
  omap (λ l, match l with LReturn d r => if bool_decide (d = dir) then Some r else None
                        | _ => None end) ls.

Lemma side_of_set p dir dir' x :
  side_of (set_side p dir x) dir' = if bool_decide (dir' = dir) then x else side_of p dir'.
Proof. by destruct dir, dir'. Qed.

(** Every result started is returned or still in flight, in order. *)
Lemma tap_step_call p l p' dir :
  tap_step p l p' →
  option_list (m_call (side_of p dir)) ++ started dir [l] =
  returned dir [l] ++ option_list (m_call (side_of p' dir)).
Proof.
  intros Hs. inversion Hs as [? d r Hn|? d x y Hr Hx Hd|? d rd σ c Hturn|? d r Hc Hr|?]; subst;
    unfold started, returned; simpl; rewrite ?side_of_set.
  - destruct (decide (dir = d)) as [->|Hne].
    + rewrite !bool_decide_eq_true_2 by done. by rewrite Hn.
    + rewrite !bool_decide_eq_false_2 by congruence. by rewrite app_nil_r.
  - rewrite app_nil_r. destruct (decide (dir = d)) as [->|Hne];
      [by rewrite bool_decide_eq_true_2|by rewrite bool_decide_eq_false_2].
  - rewrite app_nil_r. by destruct dir.
  - rewrite app_nil_r. destruct (decide (dir = d)) as [->|Hne].
    + rewrite !bool_decide_eq_true_2 by done. by rewrite Hc.
    + rewrite !bool_decide_eq_false_2 by congruence. done.
  - rewrite app_nil_r. by destruct dir.
Qed.

Lemma tap_steps_calls p ls p' dir :
  tap_steps p ls p' →
  option_list (m_call (side_of p dir)) ++ started dir ls =
  returned dir ls ++ option_list (m_call (side_of p' dir)).
Proof.
  induction 1 as [p|p l p1 ls p2 Hs _ IH]; [by rewrite app_nil_r|].
  apply tap_step_call with (dir := dir) in Hs. unfold started, returned in *.
  change (l :: ls) with ([l] ++ ls). by rewrite !omap_app, app_assoc, Hs, <-!app_assoc, IH.
Qed.

Lemma tap_step_decoder p l p' dir :
  tap_step p l p' → decoder_of (tp_conn p) dir = None → decoder_of (tp_conn p') dir = None.
Proof.
  intros Hs Hd. inversion Hs as [| |? d rd σ c Hturn| |]; subst; try done. simpl.
  unfold decode_turn in Hturn. destruct (decoder_of (tp_conn p) d) as [x|] eqn:Ed;
    [|by injection Hturn as <- <-].
  assert (dir ≠ d) as Hne by congruence.
  destruct (next x) as [x' [e|ev]].
  - injection Hturn as <- <-. rewrite decoder_of_set, bool_decide_eq_false_2 by done.
    by destruct (_ || _), dir.
  - destruct (handle _ _ _ _ _) as [σ' [t [e|]]]; injection Hturn as <- <-;
      rewrite decoder_of_set, bool_decide_eq_false_2 by done; by destruct dir.
Qed.

(** Nobody takes the bytes of a pipe whose reader is gone. *)
Lemma tap_step_stuck p l p' dir r :
  tap_step p l p' → l ≠ LClose → decoder_of (tp_conn p) dir = None →
  m_call (side_of p dir) = Some r → m_rest (side_of p dir) ≠ "" →
  side_of p' dir = side_of p dir ∧ ∀ r', l ≠ LReturn dir r'.
Proof.
  intros Hs Hl Hd Hc Hr. inversion Hs as [? d r0 Hn|? d x y Hr0 Hx Hd0|? d rd σ c Hturn|? d r0 Hc0 Hr0|?];
    subst; rewrite ?side_of_set; try done.
  - rewrite bool_decide_eq_false_2 by congruence. done.
  - rewrite bool_decide_eq_false_2 by congruence. done.
  - assert (dir ≠ d) as Hne by congruence. rewrite bool_decide_eq_false_2 by done.
    split; [done|]. congruence.
Qed.

Lemma tap_steps_stuck p ls p' dir r :
  tap_steps p ls p' → LClose ∉ ls → decoder_of (tp_conn p) dir = None →
  m_call (side_of p dir) = Some r → m_rest (side_of p dir) ≠ "" →
  ∀ r', LReturn dir r' ∉ ls.
Proof.
  induction 1 as [p|p l p1 ls p2 Hs _ IH]; intros Hl Hd Hc Hr r'; [apply not_elem_of_nil|].
  apply not_elem_of_cons in Hl as [Hl Hls].
  destruct (tap_step_stuck p l p1 dir r Hs) as [Heq Hne]; [congruence|done..|].
  rewrite not_elem_of_cons. split; [by apply not_eq_sym, Hne|].
  apply IH; [done|by eapply tap_step_decoder|by rewrite Heq|by rewrite Heq].
Qed.
End mirror.

(** ** Properties *)

Section properties.
Context {U : Unicode} {F : FloatFormat} {Y : YamlLib} {YS : YamlStreamLib} {O : Faults}.

(** C16. One connection carries many calls, and each is recorded as if it were
    alone: whatever order the two goroutines handle their events in, what the
    tracker holds for a stream is what that stream's own events make of it, and
    the counters and flags its type is inferred from agree with its event log,
    which has at most one half-close. *)
Theorem tracker_isolated `{G : GrpcLib} ses evs σ id :
  let x := t_streams (handle_all (newStreamTracker ses) evs σ).2 !! id in
  x = stream_run None (of_stream id evs.*1) ∧
  ∀ s, x = Some s → stream_ok s ∧ inferStreamType s = type_of_log (s_events s).
Proof.
  cbv zeta. rewrite handle_all_streams. simpl. rewrite lookup_empty. split; [done|].
  intros s Hs. pose proof (stream_run_ok _ _ Hs) as Hok. split; [done|by apply inferStreamType_log].
Qed.

(** C28. The goroutines hand the tracker what the decoders give, in order: after
    any turns of the two loops of a fresh connection, tracker and files are those
    of handling some interleaving of an initial part of each direction's decoded
    events, in which a direction's events keep their order. *)
Theorem decode_turns_refines `{G : GrpcLib} ses r toServer toClient turns σ :
  let '(σ', c') := decode_turns (newRecordConn ses r toServer toClient) turns σ in
  ∃ evs, (σ', rc_tracker c') = handle_all (newStreamTracker ses) evs σ ∧
    of_dir dirClientToServer evs `prefix_of`
      (if in_preface toServer
       then (all_events r ∅ (in_frames toServer) (in_last toServer)).1 else []) ∧
    of_dir dirServerToClient evs `prefix_of`
      (all_events r ∅ (in_frames toClient) (in_last toClient)).1.
Proof.
  set (c := newRecordConn ses r toServer toClient).
  pose proof (decode_turns_handled turns c σ) as Hh. cbv zeta in Hh.
  destruct (decode_turns c turns σ) as [σ' c']. destruct Hh as [Hh Hd].
  assert (∀ ins last, (events_left (newConnDecoder ins last r) ins).1 = (all_events r ∅ ins last).1)
    as Hleft.
  { intros ins last. unfold events_left. simpl. by destruct (all_events r ∅ ins last). }
  exists (turn_events c turns σ). split_and!; [done| |].
  - specialize (Hd dirClientToServer). unfold decoder_events, c in Hd. simpl in Hd.
    destruct (in_preface toServer); [|done]. by rewrite Hleft in Hd.
  - specialize (Hd dirServerToClient). unfold decoder_events, c in Hd. simpl in Hd.
    by rewrite Hleft in Hd.
Qed.

(** A cassette only at a terminal: handling an event changes no file and
    consumes no occurrence unless it ends a stream that named its call and never
    negotiated compression - a reset, or response headers with a status. *)
Theorem writes_only_at_terminal `{G : GrpcLib} t dir ev rd σ σ' t' e :
  handle t dir ev rd σ = (σ', (t', e)) →
  (σ' = σ ∧ t_session t' = t_session t) ∨
  ∃ s code msg, t_streams t !! we_stream ev = Some s ∧ s_service s ≠ "" ∧ s_compressed s = false ∧
    stream_terminal s dir ev = Some (code, msg) ∧ e = None ∧
    t_streams t' = delete (we_stream ev) (t_streams t) ∧
    (σ', t_session t') = ((record_stream (t_session t) s code msg rd σ).1,
                          (record_stream (t_session t) s code msg rd σ).2.1).
Proof.
  rewrite handle_spec. destruct (noise ev); [intros [= <- <- <-]; by left|]. cbv zeta.
  destruct (stream_terminal _ dir ev) as [[code msg]|] eqn:Et; [|intros [= <- <- <-]; by left].
  pose proof (finish_streams (put t (we_stream ev) (get t (we_stream ev))) (we_stream ev)
    (get t (we_stream ev)) code msg rd σ) as Hf.
  unfold finish in *.
  destruct (s_finished _ || bool_decide _ || s_compressed _) eqn:Eg; [intros [= <- <- <-]; by left|].
  rewrite !orb_false_iff in Eg. destruct Eg as [[_ Es%bool_decide_eq_false] Ec].
  destruct (record_stream _ _ _ _ _ _) as [σ1 [ses r]] eqn:Er. intros [= <- <- <-]. right.
  exists (get t (we_stream ev)), code, msg. simpl in Er. rewrite Er. simpl in *.
  rewrite delete_insert_eq. split_and!; try done.
  unfold get in *. by destruct (t_streams t !! we_stream ev).
Qed.

(** C34. What the transport files a call under. The type inferred from a log gives
    the open the interceptor would make for a declared type exactly when the log
    has that type's shape - one message, half-closed at once: server stream;
    otherwise at most one response: client stream; otherwise bidirectional. So a
    bidirectional call with one response is filed as a client stream, and a unary
    call as a server stream. *)
Theorem inferred_addressing s ses typ :
  stream_ok s →
  (streamOpenFor ses (inferStreamType s) (s_service s) (s_method s) (firstOrNil (s_sends s)) =
     streamOpen ses typ (s_service s) (s_method s) (firstOrNil (sent (s_events s))) ↔
   typ = type_of_log (s_events s)) ∧
  (∀ a b c, s_events s = [evSend a; evRecv b; evSend c; evHalfClose] →
     inferStreamType s = StreamClient) ∧
  (∀ a b, s_events s = [evSend a; evHalfClose; evRecv b] → inferStreamType s = StreamServer).
Proof.
  intros Hok. rewrite (so_sends s Hok), (inferStreamType_log s Hok). split; [|split].
  - split; [|intros ->; apply streamOpenFor_streamOpen].
    assert (∀ ty a b m, o_type (streamOpenFor ses ty a b m) = ty) as Hty
      by (intros; apply streamOpenFor_fields).
    intros Heq%(f_equal o_type). rewrite Hty in Heq. rewrite Heq. symmetry. apply Hty.
  - by intros a b c ->.
  - by intros a b ->.
Qed.

(** The tap changes nothing the application sees: in any run of the two
    directions' calls, their mirrors and the decoders, the results that [Read] and
    [Write] return are those of the live connection, each once and in order; one
    at most, the call in progress, is still to come. *)
Theorem tap_transparent `{G : GrpcLib} p ls p' dir :
  tap_steps p ls p' → m_call (side_of p dir) = None →
  returned dir ls `prefix_of` started dir ls ∧
  length (started dir ls) ≤ length (returned dir ls) + 1.
Proof.
  intros Hs Hn. apply tap_steps_calls with (dir := dir) in Hs. rewrite Hn in Hs. simpl in Hs.
  rewrite Hs. split; [by apply prefix_app_r|]. rewrite length_app.
  destruct (m_call (side_of p' dir)); simpl; lia.
Qed.

(** C24. When a tapped call comes back: a call of [Read] or [Write] that moved
    bytes can return without the connection being closed exactly when somebody
    still reads the mirror - once its direction's decoder has stopped (a
    compressed stream, a message over the limit, a malformed frame), the call
    stays in the mirror's write for ever. *)
Theorem tap_returns `{G : GrpcLib} p dir r :
  m_call (side_of p dir) = Some r → m_rest (side_of p dir) ≠ "" →
  ((∃ ls p', tap_steps p ls p' ∧ LClose ∉ ls ∧ LReturn dir r ∈ ls) ↔
   decoder_of (tp_conn p) dir ≠ None).
Proof.
  intros Hc Hr. split.
  - intros (ls & p' & Hs & Hl & Hin) Hd.
    by apply (tap_steps_stuck p ls p' dir r Hs Hl Hd Hc Hr r).
  - intros Hd. eexists [LConsume dir; LReturn dir r], _. split.
    + econstructor; [by apply (tap_consume p dir (m_rest (side_of p dir)) ""); [by rewrite sapp_nil_r|..]|].
      econstructor; [|constructor].
      apply tap_return; rewrite side_of_set, bool_decide_eq_true_2; done.
    + split; [rewrite !not_elem_of_cons; split_and!; try done; apply not_elem_of_nil|].
      apply list_elem_of_further, list_elem_of_here.
Qed.

(** What [Close] reports is the first failure of either decoder. *)
Theorem decode_turn_firstErr `{G : GrpcLib} c dir rd σ e :
  rc_firstErr c = Some e → rc_firstErr (decode_turn c dir rd σ).2 = Some e.
Proof.
  intros He. unfold decode_turn. destruct (decoder_of c dir) as [d|]; [|done].
  destruct (next d) as [d' [e'|ev]]; simpl.
  - destruct (errors_is e' SEOF || errors_is e' SClosedPipe); simpl; by rewrite He.
  - destruct (handle _ _ _ _ _) as [σ' [t [e'|]]]; simpl; by rewrite He.
Qed.

(** The response headers with the status of a named call: it is saved and forgotten. *)
Lemma handle_terminal `{G : GrpcLib} t id ev code msg rd σ σ2 ses2 res :
  stream_ok (get t id) → s_service (get t id) ≠ "" → s_compressed (get t id) = false →
  we_kind ev = wireHeaders → we_stream ev = id → noise ev = false →
  isCompressed (we_headers ev) = false → grpcStatus (we_headers ev) = Some (code, msg) →
  record_stream (t_session t) (get t id) code msg rd σ = (σ2, (ses2, res)) →
  handle t dirServerToClient ev rd σ = (σ2, (drop_stream (put t id (get t id)) ses2 id, None)).
Proof.
  intros Hok Hne Hc Hk <- Hnoise Hcomp Hst Er. rewrite handle_spec, Hnoise. cbv zeta.
  unfold stream_terminal. rewrite Hk, Hcomp, Hst, bool_decide_eq_false_2 by done. simpl.
  unfold finish. rewrite (so_open _ Hok), Hc, bool_decide_eq_false_2 by done. simpl. by rewrite Er.
Qed.

Context `{SL : StatusLaws} {YL : YamlLaws} {YSL : YamlStreamLaws}.

(** A tapped call replays as it ran. Whatever other streams do in between,
    take the events of one stream: request headers that name a call, messages and
    half-close from the client, headers and messages from the server, and at last
    response headers with a status. If the save the tracker then makes succeeds
    (it tells nobody when it fails), a replaying session that opens the call as
    the interceptor opens a stream of the inferred type is given the pair, and a
    client that repeats the client's messages gets the server's messages in order
    and then the status. *)
Theorem transport_record_replay t evs σ σ1 t1 id ev service method l ev' rd code msg s' :
  t_streams t !! id = None → handle_all t evs σ = (σ1, t1) →
  of_stream id evs.*1 = (dirClientToServer, ev) :: l →
  request ev service method → Forall in_call l →
  we_kind ev' = wireHeaders → we_stream ev' = id → noise ev' = false →
  isCompressed (we_headers ev') = false → grpcStatus (we_headers ev') = Some (code, msg) →
  replays (t_session t1) s' → (∀ p, read_fault p = None) → readings_ok rd →
  (2 * Z.of_nat (length l) + 1 < 2 ^ 63)%Z →
  utf8_valid service → utf8_valid method → utf8_valid (status_prefix code +:+ msg) →
  ∃ s σ2 t2 res, t_streams t1 !! id = Some s ∧
    handle t1 dirServerToClient ev' rd σ1 = (σ2, (t2, None)) ∧ t_streams t2 !! id = None ∧
    record_stream (t_session t1) s code msg rd σ1 = (σ2, (t_session t2, res)) ∧
    (res = inr tt →
     let typ := inferStreamType s in
     ∃ rep, OpenStreamReplay s' (streamOpen s' typ service method (firstOrNil (wire_messages dirClientToServer l))) σ2
         = (σ2, (set_streamN s' (streamN (t_session t2)), inr rep)) ∧
       ∀ ops, follows (wire_messages dirClientToServer l) ops →
         (replay_ops rep ops).2 =
         expected (scrubFrame (streamScrub s') StreamRecv {| si_adapter := adapterID; si_type := typ |}
                     <$> wire_messages dirServerToClient l)
           (if (code =? codes_OK)%Z then EOF else ENew (status_prefix code +:+ msg)) ops).
Proof.
  intros Ht Hall Hof Hreq Hin Hk Hid Hnoise Hcomp Hst Hrep Hfault Hrd Hlen Hu1 Hu2 Hu3.
  pose proof (handle_all_streams evs t σ id) as Hs. rewrite Hall, Ht, Hof in Hs. cbn [snd] in Hs.
  destruct (stream_run_request ev service method l Hreq Hin) as
    (s & Hrun & G1 & G2 & G3 & G4 & G5 & G6 & Hne). rewrite Hrun in Hs.
  pose proof (stream_run_ok _ _ Hrun) as Hok.
  assert (get t1 (we_stream ev') = s) as Hget by (unfold get; by rewrite Hid, Hs).
  destruct (record_stream (t_session t1) s code msg rd σ1) as [σ2 [ses2 res]] eqn:Er.
  exists s, σ2, (drop_stream (put t1 id s) ses2 id), res. split; [done|]. split_and!.
  - rewrite Hid in Hget. rewrite <-Hget in Er, Hok, G1, G3 |- *.
    eapply handle_terminal; try done. by rewrite G1.
  - simpl. apply lookup_delete_eq.
  - done.
  - intros -> typ.
    destruct (record_stream_replay _ s code msg rd σ1 σ2 ses2 s' Er Hrep Hfault Hrd) as
      (rep & Hopen & _ & _ & Hops); try (by rewrite ?G1, ?G2).
    + lia.
    + by eapply grpcStatus_code.
    + exists rep. rewrite G1, G2, (so_sends s Hok), G4 in Hopen. split; [exact Hopen|].
      intros ops Hf. rewrite Hops by (by rewrite G4). rewrite G5.
      destruct Hrep as (_ & _ & _ & Hsc). by rewrite Hsc.
Qed.
End properties.

(** ** Closed instances *)

Section witnesses.
Local Existing Instance ascii_only.
Local Existing Instance integral_floats.
Local Existing Instance ReferenceYaml.lib.
Local Existing Instance ReferenceYaml.laws.
Local Existing Instance ReferenceStream.slib.
Local Existing Instance ReferenceStream.slaws.
Local Existing Instance no_faults.
Local Existing Instance demo_grpc.
Local Existing Instance demo_status.

Definition hf (n v : string) : HeaderField := {| h_name := n; h_value := v; h_sensitive := false |}.
Definition demo_headers (id : N) (fs : list HeaderField) (e : bool) : wireEvent :=
  {| we_stream := id; we_kind := wireHeaders; we_headers := fs; we_message := None; we_end := e |}.
Definition demo_rd : readings := {| rd_open := 1; rd_event _ := 5%Z; rd_end := 9; rd_wall := 0 |}.

Definition demo_request : wireEvent := demo_headers 1 [hf ":path" "/p.S/M"] false.
Definition demo_call : list (direction * wireEvent) :=
  [(dirClientToServer, message_event 1 (Some "hi") false);
   (dirServerToClient, demo_headers 1 [hf ":status" "200"] false);
   (dirServerToClient, message_event 1 (Some "one") false);
   (dirServerToClient, message_event 1 (Some "two") false);
   (dirClientToServer, message_event 1 (Some "bye") true)].
(** With another stream in between. *)
Definition demo_traffic : list (direction * wireEvent * readings) :=
  (dirClientToServer, demo_request, demo_rd) ::
  (dirClientToServer, demo_headers 3 [hf ":path" "/p.S/N"] false, demo_rd) ::
  ((λ de, (de, demo_rd)) <$> demo_call).
Definition demo_trailers : wireEvent :=
  demo_headers 1 [hf "grpc-status" "5"; hf "grpc-message" "gone"] true.

Definition demo_tracked : fsys * streamTracker :=
  handle_all (newStreamTracker (demo_session ModeRecord)) demo_traffic demo_fs.

Lemma demo_record_ok :
  (record_stream (t_session demo_tracked.2) (get demo_tracked.2 1) 5 "gone" demo_rd demo_tracked.1).2.2
  = inr tt.
Proof. vm_compute. reflexivity. Qed.

Lemma transport_record_replay_witness :
  ∃ σ rep s2, OpenStreamReplay (demo_session ModeReplay)
      (streamOpen (demo_session ModeReplay) StreamBidi "p.S" "M" "hi") σ = (σ, (s2, inr rep)) ∧
    (replay_ops rep [OpSend "hi"; OpRecv; OpSend "bye"; OpHalfClose; OpRecv; OpRecv]).2 =
    [inl None; inr (inr "one"); inl None; inl None; inr (inr "two");
     inr (inl (ENew "rpc error: code = 5 desc = gone"))].
Proof.
  destruct (transport_record_replay (O := no_faults) (newStreamTracker (demo_session ModeRecord))
    demo_traffic demo_fs demo_tracked.1 demo_tracked.2 1 demo_request "p.S" "M" demo_call
    demo_trailers demo_rd 5 "gone" (demo_session ModeReplay)) as (s & σ2 & t2 & res & Hs & _ & _ & Hr & Hops);
    try reflexivity.
  - split_and!; vm_compute; reflexivity.
  - unfold demo_call. repeat (apply Forall_cons; split; [vm_compute; auto|]). apply Forall_nil_2.
  - split_and!; vm_compute; reflexivity.
  - unfold readings_ok. simpl. split_and!; lia.
  - assert (get demo_tracked.2 1 = s) as Hg by (unfold get; by rewrite Hs).
    pose proof demo_record_ok as Hok. rewrite Hg, Hr in Hok. specialize (Hops Hok).
    assert (inferStreamType s = StreamBidi) as Ht by (rewrite <-Hg; vm_compute; reflexivity).
    rewrite Ht in Hops. destruct Hops as (rep & Hopen & Hops).
    exists σ2, rep. eexists. split; [exact Hopen|]. apply Hops. vm_compute. repeat constructor.
Defined.

Lemma tracker_isolated_witness :
  stream_ok (get demo_tracked.2 3).
Proof.
  destruct (tracker_isolated (demo_session ModeRecord) demo_traffic demo_fs 3) as [_ H].
  apply H. vm_compute. reflexivity.
Defined.

Lemma writes_only_at_terminal_witness :
  (handle demo_tracked.2 dirServerToClient demo_trailers demo_rd demo_tracked.1).2.2 = None.
Proof.
  destruct (handle demo_tracked.2 dirServerToClient demo_trailers demo_rd demo_tracked.1)
    as [σ [t e]] eqn:E.
  destruct (writes_only_at_terminal demo_tracked.2 dirServerToClient demo_trailers demo_rd
    demo_tracked.1 σ t e E) as [[Hσ _]|(s & code & msg & _ & _ & _ & _ & -> & _)]; [|done].
  exfalso. assert (size σ = size demo_tracked.1) as Hsz by (by rewrite Hσ).
  replace σ with (handle demo_tracked.2 dirServerToClient demo_trailers demo_rd demo_tracked.1).1
    in Hsz by (by rewrite E).
  vm_compute in Hsz. discriminate.
Defined.

Lemma inferred_addressing_witness :
  inferStreamType (note_recv (noteHalfClose (note_send (set_names new_recStream "p.S" "M" false) "q")) "a")
  = StreamServer.
Proof.
  destruct (inferred_addressing
    (note_recv (noteHalfClose (note_send (set_names new_recStream "p.S" "M" false) "q")) "a")
    (demo_session ModeRecord) StreamServer) as (_ & _ & H); [|by apply (H "q" "a")].
  apply note_recv_ok; [|done]. apply noteHalfClose_ok; [|done]. apply note_send_ok; [|done].
  by apply set_names_ok; [apply new_recStream_ok|].
Defined.

(** A tapped connection whose server answers with compressed headers: the reading
    side's decoder stops, and the next read stays in its mirror. *)
Definition demo_conn : recordConn :=
  newRecordConn (demo_session ModeRecord) demo_redactor
    {| in_preface := true;
       in_frames := [inr (FMetaHeaders 1 [hf ":path" "/p.S/M"] false)]; in_last := EOF |}
    {| in_preface := true;
       in_frames := [inr (FMetaHeaders 1 [hf "grpc-encoding" "gzip"] false)]; in_last := EOF |}.
Definition demo_stopped : fsys * recordConn :=
  decode_turns demo_conn [(dirClientToServer, demo_rd); (dirServerToClient, demo_rd)] demo_fs.
Definition demo_tap : tap :=
  {| tp_fs := demo_stopped.1; tp_conn := demo_stopped.2;
     tp_toServer := {| m_call := None; m_rest := ""; m_closed := false |};
     tp_toClient := {| m_call := Some ("data", None); m_rest := "data"; m_closed := false |} |}.

Lemma tap_returns_witness :
  ¬ ∃ ls p', tap_steps demo_tap ls p' ∧ LClose ∉ ls ∧ LReturn dirServerToClient ("data", None) ∈ ls.
Proof.
  intros H. apply (tap_returns demo_tap dirServerToClient ("data", None) eq_refl ltac:(done)) in H.
  apply H. vm_compute. reflexivity.
Defined.

Lemma tap_transparent_witness :
  ∃ p', returned dirClientToServer [LStart dirClientToServer ("x", None)] `prefix_of`
    started dirClientToServer [LStart dirClientToServer ("x", None)] ∧
    m_call (side_of p' dirClientToServer) = Some ("x", None).
Proof.
  exists (set_side demo_tap dirClientToServer
    (start_call (side_of demo_tap dirClientToServer) ("x", None))). split; [|done].
  eapply (tap_transparent demo_tap [LStart dirClientToServer ("x", None)]); [|reflexivity].
  eapply tap_more; [by apply tap_start|apply tap_done].
Defined.
End witnesses.
