(* ===== verification/TransportReplay.v ===== *)
(** go/adapters/grpctransport/replay.go: a connection that answers a gRPC client
    from cassettes - frames in, frames out. *)

From Stdlib Require Import DecimalString DecimalZ.
From S2P Require Import Prelude GoStrings Sha256 Values Yaml Redact Os CanonicalJson CanonicalInj Stream Cassette StreamCassette Session StreamSession GrpcStream Demux TransportRecord.

Definition codes_NotFound : Z := 5.
Definition codes_Unimplemented : Z := 12.
Definition codes_Internal : Z := 13.

(** ** The connection *)

(** The frames written, header blocks as the fields that the HPACK encoder was
    given. *)
Inductive outFrame : Type :=
| OSettings
| OSettingsAck
| OPingAck (data : string)
| OHeaders (stream : N) (fields : list HeaderField) (ended : bool)
| OData (stream : N) (data : string) (ended : bool).

Record replayStream := {
  v_service : string;
  v_method : string;
  v_replay : option StreamReplay;
  v_buffered : list string;
  v_opened : bool;
  v_done : bool;
}.

Record replayConn := {
  k_session : FileSession;
  k_dir : string;
  k_streams : gmap N replayStream;
  k_probeN : gmap string Z;
  k_out : list outFrame;
}.

Definition newReplayConn (s : FileSession) (cassetteDir : string) : replayConn :=
  {| k_session := s; k_dir := cassetteDir; k_streams := ∅; k_probeN := ∅; k_out := [] |}.

(** No network: every address is served, from the cassettes. *)
Definition ReplayDialer (s : FileSession) (cassetteDir addr : string) : result replayConn :=
  inr (newReplayConn s cassetteDir).

Definition set_streams (c : replayConn) (m : gmap N replayStream) : replayConn :=
  {| k_session := k_session c; k_dir := k_dir c; k_streams := m; k_probeN := k_probeN c;
     k_out := k_out c |}.
Definition set_session (c : replayConn) (s : FileSession) : replayConn :=
  {| k_session := s; k_dir := k_dir c; k_streams := k_streams c; k_probeN := k_probeN c;
     k_out := k_out c |}.
Definition set_probeN (c : replayConn) (m : gmap string Z) : replayConn :=
  {| k_session := k_session c; k_dir := k_dir c; k_streams := k_streams c; k_probeN := m;
     k_out := k_out c |}.
Definition put_stream (c : replayConn) (id : N) (s : replayStream) : replayConn :=
  set_streams c (<[id := s]> (k_streams c)).
Definition delete_stream (c : replayConn) (id : N) : replayConn :=
  set_streams c (delete id (k_streams c)).

Definition set_stream (s : replayStream) (rp : option StreamReplay) (buffered : list string)
    (opened : bool) : replayStream :=
  {| v_service := v_service s; v_method := v_method s; v_replay := rp; v_buffered := buffered;
     v_opened := opened; v_done := v_done s |}.

Definition plain_field (name value : string) : HeaderField :=
  {| h_name := name; h_value := value; h_sensitive := false |}.

(** ** Choosing a cassette *)

(** The type, if the stream is addressable yet. *)
Definition inferReplayType (s : replayStream) (halfClosed : bool) (probe : string → string → bool)
    : option string :=
  let n := length (v_buffered s) in
  let openMsg := match v_buffered s with m :: _ => m | [] => "" end in
  if halfClosed then
    if bool_decide (n = 1) && probe StreamServer openMsg then Some StreamServer else
    if probe StreamClient "" then Some StreamClient else
    Some StreamBidi
  else
    if bool_decide (n = 0) then None else
    if probe StreamBidi "" then Some StreamBidi else
    if probe StreamServer openMsg then Some StreamServer else
    None.

(** [fmt]'s verb [%v] is a parameter; an open's identity holds strings. *)
Section addressing.
Context {U : Unicode} {F : FloatFormat} {O : Faults} (fmt_v : any → string).

Definition counterKey (o : StreamOpen) : string :=
  let fields := sort_keys (map_to_list (o_identity o)) in
  o_adapter o +:+ nul +:+ o_type o +:+
  sconcat (map (λ '(k, v), nul +:+ k +:+ "=" +:+ fmt_v v) fields).

(** Whether both files of the pair are there; [os.Stat] changes nothing. *)
Definition cassetteExists (c : replayConn) (typ service method openMsg : string) (σ : fsys) : bool :=
  if bool_decide (k_dir c = "") then false else
  let open := streamOpenFor (k_session c) typ service method openMsg in
  let n := if o_counter open then default 0%Z (k_probeN c !! counterKey open) else (-1)%Z in
  match StreamFingerprint open n with
  | inl _ => false
  | inr fp =>
    forallb (λ kind,
      let path := filepath_Join [k_dir c; transport_adapterID +:+ "-" +:+ fp +:+ "." +:+ kind +:+ ".yaml"] in
      match (Stat path σ).2 with inl _ => false | inr _ => true end) ["req"; "resp"]
  end.
End addressing.

(** ** Statuses and messages *)

(** [codes.Code(f)] truncates towards zero, and leaves what 32 bits cannot hold to
    the machine. *)
Definition float_code (machine_code : float64 → Z) (f : float64) : Z :=
  match f with
  | FNum m e =>
    let z := if (0 <=? e)%Z then (m * 2 ^ e)%Z else Z.quot m (2 ^ - e) in
    if (0 <=? z)%Z && (z <? 2 ^ 32)%Z then z else to_code (machine_code f)
  | _ => to_code (machine_code f)
  end.

Definition terminalOf (machine_code : float64 → Z) (rp : StreamReplay) (e : err) : Z * string :=
  if errors_is e SEOF then (codes_OK, "") else
  let code :=
    match default ∅ (p_resp_payload (rep_pair rp)) !! "status_code" with
    | Some (VInt KInt v) | Some (VInt KInt64 v) | Some (VInt KUint64 v) => to_code v
    | Some (VFloat f) => float_code machine_code f
    | _ => codes_Unknown
    end in
  (if (code =? codes_OK)%Z then codes_Unknown else code, error_text e).

(** [byte(n)]. *)
Definition go_byte (n : N) : ascii := byte_of (n mod 256).

Definition message_payload (msg : string) : string :=
  let n := N.of_nat (slen msg) in
  String (go_byte 0) (str4 (go_byte (N.shiftr n 24)) (go_byte (N.shiftr n 16)) (go_byte (N.shiftr n 8))
                           (go_byte n)) +:+ msg.

Definition chunk : nat := N.to_nat (N.shiftl 16 10).

Definition status_fields (code : Z) (msg : string) : list HeaderField :=
  plain_field "grpc-status" (itoa code) ::
  if bool_decide (msg = "") then [] else [plain_field "grpc-message" (encodeGRPCMessage msg)].

Definition response_fields : list HeaderField :=
  [plain_field ":status" "200"; plain_field "content-type" "application/grpc"].

(** ** Writing frames

    [werr] is the framer: the error, if any, of writing a frame after those
    written before. *)
Section writes.
Context (werr : list outFrame → outFrame → option err).

Definition write (c : replayConn) (f : outFrame) : replayConn * option err :=
  match werr (k_out c) f with
  | Some e => (c, Some e)
  | None =>
    ({| k_session := k_session c; k_dir := k_dir c; k_streams := k_streams c;
        k_probeN := k_probeN c; k_out := k_out c ++ [f] |}, None)
  end.

(** The loop over the chunks; each turn takes at least a byte, so the payload's
    length bounds the turns. *)
Fixpoint write_chunks (fuel : nat) (c : replayConn) (id : N) (payload : string)
    : replayConn * option err :=
  match fuel with
  | 0 => (c, None)
  | S fuel' =>
    if bool_decide (payload = "") then (c, None) else
    let n := slen payload `min` chunk in
    match write c (OData id (stake n payload) false) with
    | (c', Some e) => (c', Some e)
    | (c', None) => write_chunks fuel' c' id (sdrop n payload)
    end
  end.

Definition writeMessage (c : replayConn) (id : N) (msg : string) : replayConn * option err :=
  let payload := message_payload msg in
  write_chunks (slen payload) c id payload.

Definition finishStream (c : replayConn) (id : N) (code : Z) (msg : string) : replayConn * option err :=
  write (delete_stream c id) (OHeaders id (status_fields code msg) true).

Definition writeTrailersOnly (c : replayConn) (id : N) (code : Z) (msg : string)
    : replayConn * option err :=
  write (delete_stream c id) (OHeaders id (response_fields ++ status_fields code msg) true).

(** The stream's handle, which the calls below move. *)
Definition put_replay (c : replayConn) (id : N) (rp : StreamReplay) : replayConn :=
  match k_streams c !! id with
  | Some s => put_stream c id (set_stream s (Some rp) (v_buffered s) (v_opened s))
  | None => c
  end.

Section grpc.
Context {U : Unicode} {F : FloatFormat} {Y : YamlLib} {YS : YamlStreamLib} {O : Faults}.
Context (fmt_v : any → string) (machine_code : float64 → Z).

(** [MetaHeadersFrame.PseudoValue]. *)
Context (PseudoValue : list HeaderField → string → string).

(** The loop over the recorded messages; a message is delivered at most once, so
    their number bounds the turns but the last. *)
Fixpoint deliver_loop (fuel : nat) (c : replayConn) (id : N) (rp : StreamReplay)
    : replayConn * option err :=
  match fuel with
  | 0 => (c, None)
  | S fuel' =>
    match Recv rp with
    | (rp', inl e) =>
      let '(code, text) := terminalOf machine_code rp' e in finishStream (put_replay c id rp') id code text
    | (rp', inr msg) =>
      match writeMessage (put_replay c id rp') id msg with
      | (c', Some e) => (c', Some e)
      | (c', None) => deliver_loop fuel' c' id rp'
      end
    end
  end.

Definition deliver_fuel (rp : StreamReplay) : nat :=
  S (length (rs_frames (p_resp (rep_pair rp))) - rep_recv rp).

Definition deliver (c : replayConn) (id : N) (rp : StreamReplay) : replayConn * option err :=
  match write c (OHeaders id response_fields false) with
  | (c', Some e) => (c', Some e)
  | (c', None) => deliver_loop (deliver_fuel rp) c' id rp
  end.

(** The client's sends against an open handle, until one that ends the call;
    [stop_late] is whether a send after the terminal ends the loop. *)
Fixpoint check_sends (stop_late : bool) (rp : StreamReplay) (msgs : list string)
    : StreamReplay * option err :=
  match msgs with
  | [] => (rp, None)
  | m :: msgs' =>
    match Send rp m with
    | (rp', None) => check_sends stop_late rp' msgs'
    | (rp', Some e) =>
      if errors_is e SStreamMismatch then (rp', Some e)
      else if stop_late then (rp', None) else check_sends stop_late rp' msgs'
    end
  end.

Definition serve_open (c : replayConn) (id : N) (rp : StreamReplay) (msgs : list string)
    (halfClosed : bool) : replayConn * option err :=
  match check_sends true rp msgs with
  | (rp', Some e) => finishStream (put_replay c id rp') id codes_FailedPrecondition (error_text e)
  | (rp', None) =>
    let '(rp', e) := if halfClosed then HalfClose rp' else (rp', None) in
    let c := put_replay c id rp' in
    match e with
    | Some e =>
      if errors_is e SStreamMismatch
      then finishStream c id codes_FailedPrecondition (error_text e) else deliver c id rp'
    | None => deliver c id rp'
    end
  end.

Definition open_code (e : err) : Z :=
  if errors_is e SShapeMismatch then codes_FailedPrecondition else codes_NotFound.

Definition advance (c : replayConn) (id : N) (halfClosed : bool) (σ : fsys)
    : fsys * (replayConn * option err) :=
  match k_streams c !! id with
  | None => (σ, (c, None))
  | Some s =>
    if v_done s then (σ, (c, None)) else
    if v_opened s then
      let c := put_stream c id (set_stream s (v_replay s) [] true) in
      match v_replay s, v_buffered s with
      | _, [] => (σ, (c, None))
      | None, _ => (σ, (c, Some (EPanic "nil pointer dereference")))
      | Some rp, pending =>
        match check_sends false rp pending with
        | (rp', Some e) =>
          (σ, finishStream (put_replay c id rp') id codes_FailedPrecondition (error_text e))
        | (rp', None) => (σ, (put_replay c id rp', None))
        end
      end
    else
      let probe typ openMsg := cassetteExists fmt_v c typ (v_service s) (v_method s) openMsg σ in
      match inferReplayType s halfClosed probe with
      | None => (σ, (c, None))
      | Some typ =>
        let msgs := v_buffered s in
        let c := put_stream c id (set_stream s (v_replay s) [] true) in
        let openMsg := match msgs with m :: _ => m | [] => "" end in
        let o := streamOpenFor (k_session c) typ (v_service s) (v_method s) openMsg in
        let c := if o_counter o
                 then set_probeN c (<[counterKey fmt_v o :=
                        (default 0 (k_probeN c !! counterKey fmt_v o) + 1)%Z]> (k_probeN c))
                 else c in
        match OpenStreamReplay (k_session c) o σ with
        | (σ, (ses, inl e)) =>
          (σ, writeTrailersOnly (set_session c ses) id (open_code e) ("xrr: " +:+ error_text e))
        | (σ, (ses, inr rp)) =>
          (σ, serve_open (put_replay (set_session c ses) id rp) id rp msgs halfClosed)
        end
      end
  end.

Definition onHeaders (c : replayConn) (id : N) (fields : list HeaderField) (ended : bool) (σ : fsys)
    : fsys * (replayConn * option err) :=
  match splitPath (PseudoValue fields "path") with
  | None => (σ, writeTrailersOnly c id codes_Unimplemented "malformed :path")
  | Some (service, method) =>
    let c := put_stream c id {| v_service := service; v_method := method; v_replay := None;
                                v_buffered := []; v_opened := false; v_done := false |} in
    if ended then advance c id true σ else (σ, (c, None))
  end.

Definition onData (c : replayConn) (id : N) (data : string) (ended : bool) (σ : fsys)
    : fsys * (replayConn * option err) :=
  match k_streams c !! id with
  | None => (σ, (c, None))
  | Some s =>
    match (feed "" data).2 with
    | inl e => (σ, writeTrailersOnly c id codes_Internal (error_text e))
    | inr msgs =>
      let c := put_stream c id (set_stream s (v_replay s) (v_buffered s ++ msgs) (v_opened s)) in
      advance c id ended σ
    end
  end.

Definition handleFrame (c : replayConn) (f : frame) (σ : fsys) : fsys * (replayConn * option err) :=
  match f with
  | FSettings ack => (σ, if ack then (c, None) else ((write c OSettingsAck).1, None))
  | FPing ack data => (σ, if ack then (c, None) else ((write c (OPingAck data)).1, None))
  | FMetaHeaders id fields ended => onHeaders c id fields ended σ
  | FData id data ended => onData c id data ended σ
  | FRSTStream id => (σ, (delete_stream c id, None))
  | FGoAway => (σ, (c, Some (ENew "client sent GOAWAY")))
  | FOther => (σ, (c, None))
  end.

(** The frame loop of [serve], to the framer's first error or the first frame
    that ends the connection. *)
Fixpoint serve_frames (c : replayConn) (ins : list (result frame)) (σ : fsys) : fsys * replayConn :=
  match ins with
  | inr f :: ins' =>
    match handleFrame c f σ with
    | (σ', (c', None)) => serve_frames c' ins' σ'
    | (σ', (c', Some _)) => (σ', c')
    end
  | _ => (σ, c)
  end.

Definition serve (c : replayConn) (preface : bool) (ins : list (result frame)) (σ : fsys)
    : fsys * replayConn :=
  if preface then serve_frames (write c OSettings).1 ins σ else (σ, c).
End grpc.
End writes.

(** ** Decimal status codes *)

Lemma digits_val_pos d acc :
  digits_val (Z.pos acc) (NilEmpty.string_of_uint d) = Some (Z.pos (Pos.of_uint_acc d acc)).
Proof.
  revert acc. induction d as [|d IH|d IH|d IH|d IH|d IH|d IH|d IH|d IH|d IH|d IH]; intros acc;
    [done|..]; cbn [NilEmpty.string_of_uint digits_val Pos.of_uint_acc];
    match goal with |- context [is_digit ?c] => change (is_digit c) with true end; cbv iota;
    rewrite <-IH; f_equal; unfold digit_val; simpl; lia.
Qed.

Lemma digits_val_uint d :
  digits_val 0 (NilEmpty.string_of_uint d) = Some (Z.of_N (Pos.of_uint d)).
Proof.
  induction d as [|d IH|d IH|d IH|d IH|d IH|d IH|d IH|d IH|d IH|d IH]; [done|..];
    cbn [NilEmpty.string_of_uint digits_val Pos.of_uint];
    match goal with |- context [is_digit ?c] => change (is_digit c) with true end; cbv iota;
    unfold digit_val; simpl; first [exact IH | apply digits_val_pos].
Qed.

Lemma Atoi_itoa z : (0 ≤ z < 2 ^ 63)%Z → Atoi (itoa z) = Some z.
Proof.
  intros Hz. pose proof (DecimalZ.of_to z) as Hz'. unfold itoa.
  destruct (to_int_not_nil z) as [Hn _].
  destruct (Z.to_int z) as [d|d] eqn:E.
  - change (NilZero.string_of_int (Decimal.Pos d)) with (NilZero.string_of_uint d).
    assert (NilZero.string_of_uint d = NilEmpty.string_of_uint d) as -> by (by destruct d).
    pose proof (digits_val_uint d) as Hd. change (Z.of_N (Pos.of_uint d) = z) in Hz'. rewrite Hz' in Hd.
    assert (∃ c s, NilEmpty.string_of_uint d = String c s ∧ is_digit c) as (c & s & Hs & Hc)
      by (destruct d; [done|by do 2 eexists..]).
    unfold Atoi. rewrite Hs in *.
    assert ((match String c s with String "-" s' => ((-1)%Z, s') | String "+" s' => (1%Z, s')
             | _ => (1%Z, String c s) end) = (1%Z, String c s)) as ->.
    { clear -Hc. revert Hc. byte_cases; done. }
    rewrite bool_decide_eq_false_2, Hd, Z.mul_1_l by done.
    assert ((- 2 ^ 63 <=? z)%Z && (z <? 2 ^ 63)%Z = true) as -> by lia. done.
  - exfalso. unfold Z.to_int in E. destruct z; simpl in *; try done; lia.
Qed.

Lemma status_fields_status code msg :
  (0 ≤ code < 2 ^ 32)%Z → grpcStatus (status_fields code msg) = Some (code, msg).
Proof.
  intros Hc. unfold grpcStatus, status_fields. simpl headerValue. simpl hasHeader.
  rewrite andb_false_r, Atoi_itoa by lia. unfold to_code. rewrite Z.mod_small by done.
  do 2 f_equal. case_bool_decide as Hm; simpl.
  - by rewrite Hm.
  - apply status_message_kept.
Qed.

Lemma status_fields_only code msg :
  (0 ≤ code < 2 ^ 32)%Z → grpcStatus (response_fields ++ status_fields code msg) = Some (code, msg).
Proof. apply status_fields_status. Qed.

(** ** The chunks of a message *)

Fixpoint chunks_of (fuel : nat) (payload : string) : list string :=
  match fuel with
  | 0 => []
  | S fuel' =>
    if bool_decide (payload = "") then [] else
    let n := slen payload `min` chunk in
    stake n payload :: chunks_of fuel' (sdrop n payload)
  end.

Definition message_chunks (msg : string) : list string :=
  chunks_of (slen (message_payload msg)) (message_payload msg).

Lemma chunk_pos : 0 < chunk.
Proof. unfold chunk. change (N.shiftl 16 10) with 16384%N. lia. Qed.

Lemma slen_pos s : s ≠ "" → 0 < slen s.
Proof. destruct s; [done|simpl; lia]. Qed.

Lemma chunks_of_spec fuel payload :
  slen payload ≤ fuel →
  sconcat (chunks_of fuel payload) = payload ∧
  Forall (λ x, 0 < slen x ≤ chunk) (chunks_of fuel payload).
Proof.
  pose proof chunk_pos as Hc. revert payload. induction fuel as [|fuel IH]; intros payload Hf.
  { rewrite (slen_zero payload) by lia. done. }
  cbn [chunks_of]. case_bool_decide as He; [by subst|]. cbn [sconcat].
  pose proof (slen_pos _ He) as Hp.
  destruct (IH (sdrop (slen payload `min` chunk) payload)) as [IH1 IH2].
  { rewrite slen_sdrop. lia. }
  split; [by rewrite IH1, stake_sdrop|]. constructor; [|done]. rewrite slen_stake. lia.
Qed.

Lemma go_byte_small n : (n < 256)%N → go_byte n = byte_of n.
Proof. intros. unfold go_byte. by rewrite N.mod_small. Qed.

(** A message that its length fits in 32 bits is framed as gRPC frames it. *)
Lemma message_payload_frame msg :
  (N.of_nat (slen msg) < 2 ^ 32)%N → message_payload msg = frame_message ("000"%char, msg).
Proof.
  intros Hn. unfold message_payload, frame_message, put_uint32. cbn [fst snd].
  set (n := N.of_nat (slen msg)) in *. change (go_byte 0) with "000"%char.
  rewrite !N.shiftr_div_pow2, sapp_cons. unfold go_byte at 2 3 4. do 2 f_equal.
  unfold str4, str3, str2, str1. f_equal. apply go_byte_small.
  apply N.Div0.div_lt_upper_bound. lia.
Qed.

(** ** A framer that does not fail *)

(** The connection with more frames written. *)
Definition emit (c : replayConn) (fs : list outFrame) : replayConn :=
  {| k_session := k_session c; k_dir := k_dir c; k_streams := k_streams c; k_probeN := k_probeN c;
     k_out := k_out c ++ fs |}.

Definition message_frames (id : N) (msg : string) : list outFrame :=
  (λ x, OData id x false) <$> message_chunks msg.

Lemma emit_nil c : emit c [] = c.
Proof. destruct c. unfold emit. simpl. by rewrite app_nil_r. Qed.

Lemma emit_emit c l1 l2 : emit (emit c l1) l2 = emit c (l1 ++ l2).
Proof. unfold emit. simpl. by rewrite app_assoc. Qed.

Section no_failure.
Context (werr : list outFrame → outFrame → option err).
Hypothesis no_werr : ∀ out f, werr out f = None.

Lemma write_emit c f : write werr c f = (emit c [f], None).
Proof. unfold write. by rewrite no_werr. Qed.

Lemma write_chunks_emit fuel c id payload :
  write_chunks werr fuel c id payload =
    (emit c ((λ x, OData id x false) <$> chunks_of fuel payload), None).
Proof.
  revert c payload. induction fuel as [|fuel IH]; intros c payload; cbn [write_chunks chunks_of].
  { by rewrite emit_nil. }
  case_bool_decide; [by rewrite emit_nil|]. rewrite write_emit, IH, emit_emit. done.
Qed.

Lemma writeMessage_emit c id msg : writeMessage werr c id msg = (emit c (message_frames id msg), None).
Proof. apply write_chunks_emit. Qed.

Lemma finishStream_emit c id code msg :
  finishStream werr c id code msg =
    (emit (delete_stream c id) [OHeaders id (status_fields code msg) true], None).
Proof. apply write_emit. Qed.

Lemma writeTrailersOnly_emit c id code msg :
  writeTrailersOnly werr c id code msg =
    (emit (delete_stream c id) [OHeaders id (response_fields ++ status_fields code msg) true], None).
Proof. apply write_emit. Qed.

Context {U : Unicode} {F : FloatFormat} {Y : YamlLib} {YS : YamlStreamLib} {O : Faults}.
Context (fmt_v : any → string) (machine_code : float64 → Z)
        (PseudoValue : list HeaderField → string → string).

Lemma put_replay_delete c id rp : delete_stream (put_replay c id rp) id = delete_stream c id.
Proof.
  unfold put_replay. destruct (k_streams c !! id) eqn:E; [|done].
  unfold delete_stream, put_stream, set_streams. simpl. by rewrite delete_insert_eq.
Qed.

Lemma put_replay_emit c id rp l : put_replay (emit c l) id rp = emit (put_replay c id rp) l.
Proof. unfold put_replay, emit. simpl. by destruct (k_streams c !! id). Qed.

Lemma delete_emit c id l : delete_stream (emit c l) id = emit (delete_stream c id) l.
Proof. done. Qed.

(** What a handle has still to deliver. *)
Definition undelivered (rp : StreamReplay) : list string :=
  drop (rep_recv rp) (messages (rs_frames (p_resp (rep_pair rp)))).

Lemma terminalOf_with_pos rp i j k e :
  terminalOf machine_code (with_pos rp i j k) e = terminalOf machine_code rp e.
Proof. done. Qed.

Definition trailers_of (rp : StreamReplay) : Z * string := terminalOf machine_code rp (terminalErr rp).

Lemma deliver_loop_emit fuel c id rp :
  rep_mismatch rp = None → length (undelivered rp) < fuel →
  deliver_loop werr machine_code fuel c id rp =
    (emit (delete_stream c id)
       (concat (message_frames id <$> undelivered rp) ++
        [OHeaders id (status_fields (trailers_of rp).1 (trailers_of rp).2) true]), None).
Proof.
  revert c rp. induction fuel as [|fuel IH]; intros c rp Hm Hf; [lia|]. cbn [deliver_loop].
  unfold Recv. rewrite Hm. unfold undelivered in *.
  destruct (rs_frames (p_resp (rep_pair rp)) !! rep_recv rp) as [f|] eqn:E.
  - assert (messages (rs_frames (p_resp (rep_pair rp))) !! rep_recv rp = Some (f_message f)) as El.
    { unfold messages. by rewrite list_lookup_fmap, E. }
    rewrite (drop_lookup_cons _ _ _ El) in *. rewrite writeMessage_emit, IH.
    + rewrite delete_emit, put_replay_delete, emit_emit, fmap_cons. cbn [concat].
      by rewrite <-app_assoc.
    + done.
    + simpl in *. lia.
  - rewrite drop_ge by (apply lookup_ge_None_1; unfold messages; by rewrite list_lookup_fmap, E).
    fold (trailers_of rp). destruct (trailers_of rp) as [code text].
    by rewrite finishStream_emit, put_replay_delete.
Qed.

Definition delivery (id : N) (rp : StreamReplay) : list outFrame :=
  OHeaders id response_fields false ::
  concat (message_frames id <$> undelivered rp) ++
  [OHeaders id (status_fields (trailers_of rp).1 (trailers_of rp).2) true].

Lemma deliver_emit c id rp :
  rep_mismatch rp = None →
  deliver werr machine_code c id rp = (emit (delete_stream c id) (delivery id rp), None).
Proof.
  intros Hm. unfold deliver. rewrite write_emit, deliver_loop_emit; [|done|].
  - by rewrite delete_emit, emit_emit.
  - unfold undelivered, deliver_fuel, messages. rewrite length_drop, length_fmap. lia.
Qed.

(** ** Every answer ends with a status *)

Lemma float_code_range f : (0 ≤ float_code machine_code f < 2 ^ 32)%Z.
Proof.
  unfold float_code, to_code. destruct f; try (by apply Z.mod_pos_bound).
  set (z := if (0 <=? e)%Z then _ else _).
  destruct ((0 <=? z)%Z && (z <? 2 ^ 32)%Z) eqn:E; [lia|]. by apply Z.mod_pos_bound.
Qed.

Lemma terminalOf_range rp e : (0 ≤ (terminalOf machine_code rp e).1 < 2 ^ 32)%Z.
Proof.
  unfold terminalOf. destruct (errors_is e SEOF); [done|]. cbn [fst].
  set (code := match _ with Some _ => _ | None => _ end).
  assert (0 ≤ code < 2 ^ 32)%Z as Hc.
  { unfold code. repeat case_match; try done; try (by apply Z.mod_pos_bound). apply float_code_range. }
  by destruct (code =? codes_OK)%Z.
Qed.

(** Frames that end with a stream's END_STREAM, on headers with a status. *)
Definition answer (id : N) (fs : list outFrame) : Prop :=
  ∃ pre fields code msg, fs = pre ++ [OHeaders id fields true] ∧ grpcStatus fields = Some (code, msg).

Lemma answer_status id pre code msg :
  (0 ≤ code < 2 ^ 32)%Z → answer id (pre ++ [OHeaders id (status_fields code msg) true]).
Proof. intros Hc. exists pre, (status_fields code msg), code, msg. split; [done|]. by apply status_fields_status. Qed.

Lemma answer_only id code msg :
  (0 ≤ code < 2 ^ 32)%Z → answer id [OHeaders id (response_fields ++ status_fields code msg) true].
Proof.
  intros Hc. exists [], (response_fields ++ status_fields code msg), code, msg. split; [done|].
  by apply status_fields_only.
Qed.

Lemma answer_delivery id rp : answer id (delivery id rp).
Proof.
  unfold delivery. rewrite app_comm_cons. apply answer_status. apply terminalOf_range.
Qed.

(** The sends are checked without leaving a poisoned handle behind. *)
Lemma check_sends_spec b rp msgs :
  rep_mismatch rp = None →
  ∃ i j m, (check_sends b rp msgs).1 = with_pos rp i j m ∧
    ((check_sends b rp msgs).2 = None → m = None).
Proof.
  intros Hm. assert (∃ i j, rp = with_pos rp i j None) as (i & j & Hrp).
  { destruct rp. simpl in *. subst. by do 2 eexists. }
  clear Hm. revert rp i j Hrp. induction msgs as [|m msgs IH]; intros rp i j Hrp; simpl.
  { exists i, j, None. done. }
  assert (rep_mismatch rp = None) as Hm by (by rewrite Hrp).
  unfold Send at 1 2. rewrite Hm.
  destruct (rq_frames (p_req (rep_pair rp)) !! rep_send rp) as [f|].
  - case_bool_decide.
    + destruct (IH (with_pos rp (S (rep_send rp)) (rep_recv rp) None) (S (rep_send rp)) (rep_recv rp) eq_refl)
        as (i' & j' & m' & -> & ?). by exists i', j', m'.
    + simpl. do 3 eexists. by split.
  - destruct (errors_is (terminalErr rp) SStreamMismatch) eqn:Ee; simpl.
    + exists i, j, None. by rewrite <-Hrp.
    + destruct b; simpl; [exists i, j, None; by rewrite <-Hrp|]. by apply (IH rp i j).
Qed.

Lemma errors_is_status e : (0 ≤ open_code e < 2 ^ 32)%Z.
Proof. unfold open_code. by destruct (errors_is e SShapeMismatch). Qed.

Lemma serve_open_answers c id rp msgs halfClosed :
  rep_mismatch rp = None →
  ∃ fs, serve_open werr machine_code c id rp msgs halfClosed = (emit (delete_stream c id) fs, None) ∧
    answer id fs.
Proof.
  intros Hm. unfold serve_open. pose proof (check_sends_spec true rp msgs Hm) as (i & j & m & Hp & Hn).
  destruct (check_sends true rp msgs) as [rp' [e|]]; simpl in Hp; subst rp'.
  { rewrite finishStream_emit, put_replay_delete. eexists. split; [done|].
    by apply (answer_status id []). }
  rewrite (Hn eq_refl) in *. set (rp1 := with_pos rp i j None).
  assert (∀ c', delete_stream c' id = delete_stream c id →
    ∃ fs, deliver werr machine_code c' id rp1 = (emit (delete_stream c id) fs, None) ∧ answer id fs) as Hd.
  { intros c' Hc'. rewrite deliver_emit, Hc' by done. eexists. split; [done|]. apply answer_delivery. }
  destruct halfClosed; [|apply Hd, put_replay_delete].
  unfold HalfClose. cbn [rep_mismatch rp1 with_pos].
  destruct (rep_send rp1 <? length (rq_frames (p_req (rep_pair rp1))))%nat; simpl.
  - rewrite finishStream_emit, put_replay_delete. eexists. split; [done|]. by apply (answer_status id []).
  - apply Hd, put_replay_delete.
Qed.

(** The streams of a connection between two frames are all still unanswered. *)
Definition waiting (s : replayStream) : Prop :=
  v_opened s = false ∧ v_done s = false ∧ v_replay s = None.

Definition conn_ok (c : replayConn) : Prop := map_Forall (λ _ s, waiting s) (k_streams c).

Lemma OpenStreamReplay_fresh s o σ σ' s' rp :
  OpenStreamReplay s o σ = (σ', (s', inr rp)) →
  rep_mismatch rp = None ∧ rep_send rp = 0 ∧ rep_recv rp = 0.
Proof.
  unfold OpenStreamReplay. destruct (checkStreamOpen _ _ _ _); [done|].
  destruct (streamOpenFingerprint s o) as [s1 [?|[fp n]]]; [done|].
  destruct (LoadStream _ _ _ _) as [σ1 [e|p]]; [done|]. case_bool_decide; intros Hx; by simplify_eq.
Qed.

(** An open that the type allows is answered at once. *)
Lemma advance_answers c id s halfClosed σ typ :
  k_streams c !! id = Some s → waiting s →
  inferReplayType s halfClosed (λ ty m, cassetteExists fmt_v c ty (v_service s) (v_method s) m σ) = Some typ →
  ∃ σ' c' fs, advance werr fmt_v machine_code c id halfClosed σ = (σ', (emit c' fs, None)) ∧
    k_streams c' = delete id (k_streams c) ∧ k_out c' = k_out c ∧ answer id fs.
Proof.
  intros Hs (Ho & Hd & Hr) Hty. unfold advance. rewrite Hs, Hd, Ho, Hty.
  set (o := streamOpenFor _ _ _ _ _). cbv zeta.
  set (c1 := if o_counter o then _ else _).
  assert (k_streams c1 = <[id := set_stream s (v_replay s) [] true]> (k_streams c) ∧ k_out c1 = k_out c)
    as [Hc1 Ho1] by (unfold c1; by destruct (o_counter o)).
  destruct (OpenStreamReplay (k_session c1) o σ) as [σ1 [ses [e|rp]]] eqn:Eo.
  - rewrite writeTrailersOnly_emit. do 3 eexists. split; [done|]. split_and!.
    + simpl. by rewrite Hc1, delete_insert_eq.
    + done.
    + apply answer_only, errors_is_status.
  - destruct (OpenStreamReplay_fresh _ _ _ _ _ _ Eo) as (Hm & _ & _).
    destruct (serve_open_answers (put_replay (set_session c1 ses) id rp) id rp (v_buffered s) halfClosed Hm)
      as (fs & -> & Ha). rewrite put_replay_delete. do 3 eexists. split; [done|]. split_and!.
    + simpl. by rewrite Hc1, delete_insert_eq.
    + done.
    + done.
Qed.

(** A half-close always makes a stream addressable. *)
Lemma inferReplayType_half s probe : ∃ typ, inferReplayType s true probe = Some typ.
Proof. unfold inferReplayType. destruct (_ && _); [eauto|]. destruct (probe _ _); eauto. Qed.

Lemma advance_ok c id halfClosed σ σ' c' e :
  conn_ok c → advance werr fmt_v machine_code c id halfClosed σ = (σ', (c', e)) → conn_ok c' ∧ e = None.
Proof.
  intros Hok Ha. destruct (k_streams c !! id) as [s|] eqn:Es.
  2:{ unfold advance in Ha. rewrite Es in Ha. by injection Ha as <- <- <-. }
  pose proof (Hok id s Es) as Hw.
  destruct (inferReplayType s halfClosed
    (λ ty m, cassetteExists fmt_v c ty (v_service s) (v_method s) m σ)) as [typ|] eqn:Ety.
  - destruct (advance_answers c id s halfClosed σ typ Es Hw Ety) as (σ1 & c1 & fs & Heq & Hst & _ & _).
    rewrite Heq in Ha. injection Ha as <- <- <-. split; [|done]. unfold conn_ok, emit. simpl.
    rewrite Hst. by apply map_Forall_delete.
  - unfold advance in Ha. destruct Hw as (Ho & Hd & _). rewrite Es, Hd, Ho, Ety in Ha.
    by injection Ha as <- <- <-.
Qed.

Lemma put_waiting c id s : conn_ok c → waiting s → conn_ok (put_stream c id s).
Proof. intros Hc Hs. by apply map_Forall_insert_2. Qed.

Lemma handleFrame_ok c f σ σ' c' e :
  conn_ok c → handleFrame werr fmt_v machine_code PseudoValue c f σ = (σ', (c', e)) →
  conn_ok c' ∧ (e = None ∨ f = FGoAway).
Proof.
  intros Hok. unfold handleFrame.
  destruct f as [id fs ended|id data ended|id| |ack|ack data|].
  - unfold onHeaders. destruct (splitPath _) as [[service method]|].
    + assert (conn_ok (put_stream c id {| v_service := service; v_method := method; v_replay := None;
        v_buffered := []; v_opened := false; v_done := false |})) as Hc by (by apply put_waiting).
      destruct ended; [|intros [= <- <- <-]; auto].
      intros Ha. apply (advance_ok _ _ _ _ _ _ _ Hc) in Ha. naive_solver.
    + rewrite writeTrailersOnly_emit. intros [= <- <- <-]. split; [|by left].
      unfold conn_ok, emit. simpl. by apply map_Forall_delete.
  - unfold onData. destruct (k_streams c !! id) as [s|] eqn:Es; [|intros [= <- <- <-]; auto].
    destruct (feed "" data).2 as [e1|msgs].
    + rewrite writeTrailersOnly_emit. intros [= <- <- <-]. split; [|by left].
      unfold conn_ok, emit. simpl. by apply map_Forall_delete.
    + intros Ha. apply advance_ok in Ha; [naive_solver|]. apply put_waiting; [done|].
      by destruct (Hok id s Es) as (? & ? & ?).
  - intros [= <- <- <-]. split; [|by left]. by apply map_Forall_delete.
  - intros [= <- <- <-]. auto.
  - destruct ack; rewrite ?write_emit; intros [= <- <- <-]; auto.
  - destruct ack; rewrite ?write_emit; intros [= <- <- <-]; auto.
  - intros [= <- <- <-]. auto.
Qed.
End no_failure.

(** ** What the client's side of the connection reads *)

Definition client_frame (f : outFrame) : frame :=
  match f with
  | OSettings => FSettings false
  | OSettingsAck => FSettings true
  | OPingAck data => FPing true data
  | OHeaders id fields ended => FMetaHeaders id fields ended
  | OData id data ended => FData id data ended
  end.

Lemma drained_error_app buf b e t : drained buf = (b, inl e) → ∃ b', drained (buf +:+ t) = (b', inl e).
Proof.
  revert b e. induction buf as [buf IH] using string_len_ind. intros b e Hd.
  destruct (decide (slen buf < 5)) as [Hs|Hs]; [by rewrite drained_short in Hd|].
  do 5 (destruct buf as [|? buf]; [simpl in Hs; lia|]).
  rewrite drained_message in Hd. rewrite !sapp_cons. cbv zeta in Hd.
  set (n := N.to_nat (be_uint32 a0 a1 a2 a3)) in *.
  rewrite drained_message. cbv zeta. fold n.
  destruct (maxGRPCMessageSize <? be_uint32 a0 a1 a2 a3)%N; [injection Hd as _ <-; eauto|].
  destruct (slen buf <? n)%nat eqn:E2; [done|]. rewrite slen_app.
  destruct (slen buf + slen t <? n)%nat eqn:E3; [lia|].
  rewrite stake_app_le, sdrop_app_le by lia.
  destruct (drained (sdrop n buf)) as [b2 [e2|l2]] eqn:E4; [|done]. injection Hd as _ <-.
  destruct (IH (sdrop n buf)) with (2 := E4) as [b' Hb']; [rewrite slen_sdrop; simpl; lia|].
  rewrite Hb'. by exists b'.
Qed.

(** Part of a framed message holds no message. *)
Lemma drained_part fm x y :
  frame_message fm = x +:+ y → y ≠ "" → (N.of_nat (slen fm.2) <= maxGRPCMessageSize)%N →
  drained x = (x, inr []).
Proof.
  intros Hxy Hy Hlen. destruct (decide (slen x < 5)); [by apply drained_short|].
  do 5 (destruct x as [|? x]; [simpl in *; lia|]). destruct fm as [fl m]. cbn [snd] in Hlen.
  unfold frame_message, put_uint32, str4, str3, str2, str1 in Hxy. cbn [fst snd] in Hxy.
  rewrite !sapp_cons, sapp_nil_l in Hxy. injection Hxy as <- <- <- <- <- ->.
  rewrite drained_message. cbv zeta. change maxGRPCMessageSize with 67108864%N in *.
  rewrite be_put_uint32 by (change (2 ^ 32)%N with 4294967296%N; lia).
  destruct (N.ltb_spec 67108864%N (N.of_nat (slen (x +:+ y)))); [lia|].
  rewrite Nnat.Nat2N.id, slen_app. pose proof (slen_pos _ Hy).
  destruct (slen x <? slen x + slen y)%nat eqn:E; [done|lia].
Qed.

Section client.
Context {U : Unicode}.

(** Frames of one stream, without resets. *)
Definition only_stream (id : N) (f : frame) : Prop :=
  match f with FMetaHeaders s _ _ | FData s _ _ => s = id | _ => False end.

Lemma data_of_app id l1 l2 : data_of id (l1 ++ l2) = data_of id l1 +:+ data_of id l2.
Proof. unfold data_of. by rewrite omap_app, sconcat_app. Qed.

Lemma data_of_data id data ended l : data_of id (FData id data ended :: l) = data +:+ data_of id l.
Proof.
  change (FData id data ended :: l) with ([FData id data ended] ++ l). rewrite data_of_app. f_equal.
  unfold data_of. simpl. rewrite bool_decide_eq_true_2 by done. apply sapp_nil_r.
Qed.

Lemma all_events_one id r frames m last rest l :
  Forall (only_stream id) frames →
  drained (default "" (m !! id) +:+ data_of id frames) = (rest, inr l) →
  (all_events r m (inr <$> frames) last).2 = last.
Proof.
  revert m l. induction frames as [|f frames IH]; intros m l Hf Hd; [done|].
  apply Forall_cons in Hf as [Hone Hf]. rewrite fmap_cons. cbn [all_events].
  destruct f as [s fs ended|s data ended| | | | |]; simpl in Hone; try done; subst s;
    cbn [frame_events].
  - specialize (IH m l Hf Hd). by destruct (all_events r m (inr <$> frames) last).
  - rewrite data_of_data, <-sapp_assoc in Hd.
    unfold feed. fold (drained (default "" (m !! id) +:+ data)).
    destruct (drained (default "" (m !! id) +:+ data)) as [buf [e|msgs]] eqn:E.
    { destruct (drained_error_app _ _ _ (data_of id frames) E) as [b' Hb'].
      by rewrite Hb' in Hd. }
    cbn [mbind result_bind mret result_ret]. rewrite (drained_app _ _ _ _ E) in Hd.
    unfold prepend in Hd. destruct (drained (buf +:+ _)) as [b2 [e2|l2]] eqn:E2; [done|].
    specialize (IH (<[id := buf]> m) l2 Hf). rewrite lookup_insert_eq in IH. simpl in IH.
    injection Hd as -> _. specialize (IH E2).
    by destruct (all_events r _ (inr <$> frames) last).
Qed.

Lemma data_of_chunks id cs :
  data_of id (client_frame <$> ((λ x, OData id x false) <$> cs)) = sconcat cs.
Proof.
  induction cs as [|x cs IH]; [done|]. rewrite !fmap_cons. cbn [client_frame sconcat].
  by rewrite data_of_data, IH.
Qed.

Lemma data_of_messages id ms :
  data_of id (client_frame <$> concat (message_frames id <$> ms)) = sconcat (message_payload <$> ms).
Proof.
  induction ms as [|m ms IH]; [done|]. rewrite !fmap_cons. cbn [concat sconcat].
  rewrite fmap_app, data_of_app, IH. f_equal. unfold message_frames. rewrite data_of_chunks.
  unfold message_chunks. by apply chunks_of_spec.
Qed.

Definition sendable (m : string) : Prop := (N.of_nat (slen m) <= maxGRPCMessageSize)%N.

(** A message list between headers, as the client's decoder reads it. *)
Lemma messages_decode id ms h1 e1 h2 e2 r last :
  Forall sendable ms → (∀ n, last ≠ too_long n) →
  let frames := client_frame <$> (OHeaders id h1 e1 :: concat (message_frames id <$> ms) ++ [OHeaders id h2 e2]) in
  messages_of id (all_events r ∅ (inr <$> frames) last).1 = ms ∧
  (all_events r ∅ (inr <$> frames) last).2 = last.
Proof.
  intros Hms Hlast frames.
  assert (data_of id frames = sconcat (frame_message <$> ((λ m, ("000"%char, m)) <$> ms))) as Hd.
  { unfold frames. rewrite fmap_cons, fmap_app.
    change (?x :: ?l ++ ?t) with ([x] ++ l ++ t). rewrite !data_of_app, data_of_messages.
    unfold data_of. simpl. rewrite sapp_nil_l, sapp_nil_r. f_equal. rewrite <-list_fmap_compose.
    apply list_fmap_ext. intros i m Hi. apply message_payload_frame.
    rewrite Forall_forall in Hms. specialize (Hms m ltac:(by eapply list_elem_of_lookup_2)).
    unfold sendable in Hms. change maxGRPCMessageSize with 67108864%N in Hms.
    change (2 ^ 32)%N with 4294967296%N. lia. }
  assert (drained (data_of id frames) = ("", inr ms)) as Hdr.
  { rewrite Hd, drained_frames.
    - rewrite <-list_fmap_compose. do 2 f_equal. by rewrite list_fmap_id.
    - apply Forall_fmap. eapply Forall_impl; [exact Hms|]. done. }
  assert (Forall (only_stream id) frames) as Hone.
  { unfold frames. apply Forall_fmap. constructor; [done|]. apply Forall_app. split; [|by repeat constructor].
    apply Forall_concat, Forall_fmap, Forall_true. intros m. unfold message_frames.
    by apply Forall_fmap, Forall_true. }
  pose proof (all_events_one id r frames ∅ last "" ms Hone) as Hend.
  rewrite lookup_empty in Hend. simpl default in Hend. rewrite sapp_nil_l in Hend. specialize (Hend Hdr).
  destruct (all_events r ∅ (inr <$> frames) last) as [l e] eqn:El. simpl in Hend. subst e.
  split; [|done].
  destruct (all_events_stream id r frames ∅ last l El Hlast) as [rest Hrest].
  - intros Hin. rewrite Forall_forall in Hone. by apply Hone in Hin.
  - by rewrite lookup_empty.
  - rewrite lookup_empty in Hrest. simpl default in Hrest. rewrite sapp_nil_l, Hdr in Hrest.
    by injection Hrest.
Qed.

(** What a client makes of the frames of its stream: the messages, and the status on the
    last one. *)
Definition reads_as (id : N) (new : list outFrame) (ms : list string) (code : Z) (text : string) : Prop :=
  (∀ r last, (∀ n, last ≠ too_long n) →
     messages_of id (all_events r ∅ (inr <$> (client_frame <$> new)) last).1 = ms) ∧
  ∃ pre fields, new = pre ++ [OHeaders id fields true] ∧ grpcStatus fields = Some (code, text).
End client.

(** ** From a handle's replies to what is served *)

Lemma expected_inj l l' t : (∀ n, expected l t (replicate n OpRecv) = expected l' t (replicate n OpRecv)) → l = l'.
Proof.
  revert l'. induction l as [|x l IH]; intros [|x' l'] H; [done|..].
  - specialize (H 1). discriminate H.
  - specialize (H 1). discriminate H.
  - pose proof (H 1) as H1. simpl in H1. injection H1 as <-. f_equal. apply IH.
    intros n. specialize (H (S n)). simpl in H. by injection H.
Qed.

Lemma replay_receives rp n :
  rep_mismatch rp = None →
  (replay_ops rp (replicate n OpRecv)).2 = expected (undelivered rp) (terminalErr rp) (replicate n OpRecv).
Proof.
  intros Hm. pose proof (replay_ops_refines rp (replicate n OpRecv)) as Href.
  assert (scrub_op rp <$> replicate n OpRecv = replicate n OpRecv) as Hsc by (by rewrite fmap_replicate).
  rewrite Hsc in Href.
  assert ((replay_ops rp (replicate n OpRecv)).2 = (script_ops (script_of rp) (replicate n OpRecv)).2) as ->
    by (by rewrite Href).
  apply script_follows; [done|]. clear. induction n; simpl; by constructor.
Qed.

(** Sends that the handle accepts move its send position only. *)
Lemma check_sends_accepted b rp ms ops l :
  (replay_ops rp ((OpSend <$> ms) ++ ops)).2 = (const (inl None) <$> ms) ++ l →
  ∃ i, check_sends b rp ms = (with_pos rp i (rep_recv rp) (rep_mismatch rp), None) ∧
    (replay_ops (with_pos rp i (rep_recv rp) (rep_mismatch rp)) ops).2 = l.
Proof.
  revert rp. induction ms as [|m ms IH]; intros rp H.
  - exists (rep_send rp). assert (with_pos rp (rep_send rp) (rep_recv rp) (rep_mismatch rp) = rp) as ->
      by (by destruct rp). done.
  - rewrite fmap_cons in H. cbn [app replay_ops replay_op check_sends] in *.
    destruct (Send rp m) as [rp1 e] eqn:Es.
    destruct (replay_ops rp1 ((OpSend <$> ms) ++ ops)) as [rp2 xs] eqn:Er. simpl in H.
    injection H as -> Hxs. destruct (IH rp1) as (i & Hc & Hl); [by rewrite Er|].
    assert (∃ k, rp1 = with_pos rp k (rep_recv rp) (rep_mismatch rp)) as [k ->].
    { unfold Send in Es. destruct (rep_mismatch rp) eqn:Em; [done|].
      destruct (rq_frames _ !! _); [|done].
      case_bool_decide; [injection Es as <-; by eexists|done]. }
    exists i. simpl in Hc. by rewrite Hc.
Qed.

(** ** Finding what was recorded *)

Section found.
Context {U : Unicode} {F : FloatFormat} {Y : YamlLib} {YS : YamlStreamLib} {O : Faults} `{G : GrpcLib}.
Context (fmt_v : any → string).

(** The occurrence the probe asks for is the one the core would open next. *)
Definition in_step (c : replayConn) (ses : FileSession) (o : StreamOpen) : Prop :=
  ∀ k, key_of o = Some k →
    default 0%Z (k_probeN c !! counterKey fmt_v o) = default 0%Z (streamN ses !! k).

Lemma streamOpenFingerprint_n s o s1 fp n :
  streamOpenFingerprint s o = (s1, inr (fp, n)) →
  StreamFingerprint o n = inr fp ∧
  (if o_counter o then ∃ k, key_of o = Some k ∧ n = default 0%Z (streamN s !! k) else n = (-1)%Z).
Proof.
  unfold streamOpenFingerprint, key_of, nextStreamN. destruct (o_counter o).
  - destruct (streamCanonical o (-1)) as [|base]; [done|]. intros [= _ H].
    apply bind_inr in H as (fp' & Hfp & [= <- <-]). eauto.
  - intros [= _ H]. by apply bind_inr in H as (fp' & Hfp & [= <- <-]).
Qed.

(** The probe finds what a recording under the same name was finished into. *)
Lemma finished_pair_found ses typ service mth m t0 s1 rec evs wall now payload e σ σ2 rec' cas c :
  let o := streamOpenFor ses typ service mth m in
  OpenStreamRecord ses o t0 = (s1, inr rec) →
  Finish (log_events rec evs) wall now payload e σ = (σ2, (rec', inr tt)) →
  cassette ses = Some cas → k_dir c = cdir cas → k_dir c ≠ "" →
  streamScrub (k_session c) = streamScrub ses → (∀ p, read_fault p = None) → in_step c ses o →
  cassetteExists fmt_v c typ service mth m σ2 = true.
Proof.
  intros o Hopen Hfin Hcas Hdir Hne Hsc Hfault Hstep.
  assert (streamOpenFor (k_session c) typ service mth m = o) as Ho.
  { unfold o, streamOpenFor, ScrubStreamFrame. by rewrite Hsc. }
  destruct (OpenStreamRecord_inr _ _ _ _ _ Hopen) as
    (_ & Hnf & _ & _ & Had & _ & _ & (n & Hfp) & _ & Hc & _).
  apply streamOpenFingerprint_n in Hfp as [Hfp Hn].
  destruct (log_events_spec rec evs Hnf) as ((G1 & G2 & G3 & _ & _ & _ & G7) & _).
  unfold Finish in Hfin. rewrite G7, Hnf in Hfin.
  destruct (SaveStream _ _ _ _ _ _) as [σ1 res] eqn:Hsave. injection Hfin as -> _ Hres.
  apply wrap_err_inr in Hres as ->.
  apply SaveStream_inr in Hsave as (_ & d1 & d2 & _ & _ & ->).
  rewrite G1, G2, G3, Had in *.
  assert (cas = rec_cassette rec) as -> by congruence.
  destruct (streamOpenFor_fields ses typ service mth m) as (Hoa & _ & _).
  fold o in Hoa. rewrite Hoa.
  unfold cassetteExists. rewrite bool_decide_eq_false_2 by done. cbv zeta. rewrite Ho.
  assert ((if o_counter o then default 0%Z (k_probeN c !! counterKey fmt_v o) else (-1)%Z) = n) as ->.
  { destruct (o_counter o); [|done]. destruct Hn as (k & Hk & ->). by apply Hstep. }
  rewrite Hfp, Hdir. cbn [forallb].
  change (filepath_Join [cdir (rec_cassette rec); transport_adapterID +:+ "-" +:+ rec_fp rec +:+ "." +:+ "req" +:+ ".yaml"])
    with (file_path (rec_cassette rec) transport_adapterID (rec_fp rec) "req").
  change (filepath_Join [cdir (rec_cassette rec); transport_adapterID +:+ "-" +:+ rec_fp rec +:+ "." +:+ "resp" +:+ ".yaml"])
    with (file_path (rec_cassette rec) transport_adapterID (rec_fp rec) "resp").
  unfold Stat. rewrite !Hfault, lookup_insert_eq.
  destruct (decide (file_path (rec_cassette rec) transport_adapterID (rec_fp rec) "resp" =
                    file_path (rec_cassette rec) transport_adapterID (rec_fp rec) "req")) as [->|Hd].
  - by rewrite lookup_insert_eq.
  - by rewrite lookup_insert_ne, lookup_insert_eq by done.
Qed.

Lemma saved_pair_found ses s code msg rd σ σ2 ses2 cas c :
  record_stream ses s code msg rd σ = (σ2, (ses2, inr tt)) →
  cassette ses = Some cas → k_dir c = cdir cas → k_dir c ≠ "" →
  streamScrub (k_session c) = streamScrub ses → (∀ p, read_fault p = None) →
  let typ := inferStreamType s in
  let m := firstOrNil (s_sends s) in
  in_step c ses (streamOpenFor ses typ (s_service s) (s_method s) m) →
  cassetteExists fmt_v c typ (s_service s) (s_method s) m σ2 = true.
Proof.
  intros Hrec Hcas Hdir Hne Hsc Hfault typ m Hstep. unfold record_stream in Hrec. fold typ m in Hrec.
  destruct (OpenStreamRecord ses _ (rd_open rd)) as [s1 [|rec]] eqn:Hopen; [done|].
  destruct (Finish _ _ _ _ _ _) as [σ1 [rec' r]] eqn:Hfin. injection Hrec as -> _ ->.
  by eapply finished_pair_found.
Qed.
End found.

(** ** Properties *)

Section properties.
Context {U : Unicode} {F : FloatFormat} {Y : YamlLib} {YS : YamlStreamLib} {O : Faults}.
Context (werr : list outFrame → outFrame → option err).
Context (fmt_v : any → string) (machine_code : float64 → Z)
        (PseudoValue : list HeaderField → string → string).

(** A message leaves in chunks. Whatever writes the framer refuses, the
    frames written are an initial part of a cutting of the length-prefixed message
    into non-empty DATA frames of at most 16 KiB without END_STREAM - all of it
    when no error is reported - and up to 2^32 bytes the prefix is gRPC's. *)
Theorem writeMessage_chunks c id msg c' e :
  writeMessage werr c id msg = (c', e) →
  ∃ cs k, sconcat cs = message_payload msg ∧ Forall (λ x, x ≠ "" ∧ N.of_nat (slen x) <= 16384)%N cs ∧
    c' = emit c ((λ x, OData id x false) <$> take k cs) ∧
    (e = None → take k cs = cs) ∧
    ((N.of_nat (slen msg) < 2 ^ 32)%N → message_payload msg = frame_message ("000"%char, msg)).
Proof.
  intros Hw. destruct (chunks_of_spec (slen (message_payload msg)) (message_payload msg)) as [Hcat Hall];
    [done|].
  assert (∀ fuel c payload c' e, write_chunks werr fuel c id payload = (c', e) →
    ∃ k, c' = emit c ((λ x, OData id x false) <$> take k (chunks_of fuel payload)) ∧
      (e = None → take k (chunks_of fuel payload) = chunks_of fuel payload)) as Hgen.
  { clear. induction fuel as [|fuel IH]; intros c payload c' e; cbn [write_chunks chunks_of].
    { intros [= <- <-]. exists 0. by rewrite emit_nil. }
    case_bool_decide; [intros [= <- <-]; exists 0; by rewrite emit_nil|].
    unfold write. destruct (werr _ _) as [e0|].
    { intros [= <- <-]. exists 0. by rewrite emit_nil. }
    intros Hw. destruct (IH _ _ _ _ Hw) as (k & -> & Hk). exists (S k). simpl. split.
    - unfold emit. simpl. by rewrite <-app_assoc.
    - intros He. by rewrite Hk. }
  destruct (Hgen _ _ _ _ _ Hw) as (k & -> & Hk).
  exists (message_chunks msg), k. split_and!; [done| |done|done|apply message_payload_frame].
  eapply Forall_impl; [exact Hall|]. unfold chunk. change (N.shiftl 16 10) with 16384%N.
  intros x Hx. split; [intros ->; simpl in Hx|]; lia.
Qed.

(** A connection after some frames, whatever the cassette directory held at each. *)
Inductive reached (s : FileSession) (dir : string) : replayConn → Prop :=
| reached_start : reached s dir (write werr (newReplayConn s dir) OSettings).1
| reached_frame c f σ σ' c' :
    reached s dir c → handleFrame werr fmt_v machine_code PseudoValue c f σ = (σ', (c', None)) →
    reached s dir c'.

Lemma reached_ok s dir c : (∀ out g, werr out g = None) → reached s dir c → conn_ok c.
Proof.
  intros Hw. induction 1 as [|c f σ σ' c' _ IH Hf].
  - rewrite write_emit by done. by apply map_Forall_empty.
  - by eapply handleFrame_ok in Hf as [? _].
Qed.

(** C17. Every half-closed call is answered. On a connection whose framer writes,
    after whatever frames the client has sent, request headers with END_STREAM, or
    a DATA frame with END_STREAM on a stream not yet answered, make the server
    write, without error, frames of which the last ends that stream with a status,
    and forget the stream. *)
Theorem half_close_answered s dir c σ f id :
  (∀ out g, werr out g = None) → reached s dir c →
  (∃ fields, f = FMetaHeaders id fields true) ∨
  (∃ data, f = FData id data true ∧ is_Some (k_streams c !! id)) →
  ∃ σ' c' fs, handleFrame werr fmt_v machine_code PseudoValue c f σ = (σ', (emit c' fs, None)) ∧
    k_streams c' = delete id (k_streams c) ∧ k_out c' = k_out c ∧ answer id fs.
Proof.
  intros Hw Hre. pose proof (reached_ok s dir c Hw Hre) as Hc.
  intros [[fields ->]|(data & -> & [v Hv])]; simpl.
  - unfold onHeaders. destruct (splitPath _) as [[service method]|].
    + set (v := {| v_service := service |}).
      destruct (inferReplayType_half v (λ ty m, cassetteExists fmt_v (put_stream c id v) ty
        (v_service v) (v_method v) m σ)) as [typ Hty].
      destruct (advance_answers werr Hw fmt_v machine_code (put_stream c id v) id v true σ typ)
        as (σ' & c' & fs & Ha & Hs & Ho & Hans); [simpl; by rewrite lookup_insert_eq|done|done|].
      exists σ', c', fs. split_and!; [done| |done|done]. rewrite Hs. simpl. by rewrite delete_insert_eq.
    + rewrite writeTrailersOnly_emit by done. do 3 eexists. split_and!; [done|done|done|].
      by apply answer_only.
  - unfold onData. rewrite Hv. destruct (feed "" data).2 as [e|msgs].
    + rewrite writeTrailersOnly_emit by done. do 3 eexists. split_and!; [done|done|done|].
      by apply answer_only.
    + set (v' := set_stream v _ _ _). destruct (Hc id v Hv) as (Hop & Hd & Hr).
      destruct (inferReplayType_half v' (λ ty m, cassetteExists fmt_v (put_stream c id v') ty
        (v_service v') (v_method v') m σ)) as [typ Hty].
      destruct (advance_answers werr Hw fmt_v machine_code (put_stream c id v') id v' true σ typ)
        as (σ' & c' & fs & Ha & Hs & Ho & Hans); [simpl; by rewrite lookup_insert_eq|done|done|].
      exists σ', c', fs. split_and!; [done| |done|done]. rewrite Hs. simpl. by rewrite delete_insert_eq.
Qed.

(** C38. A stream that was answered is never looked at again: the branch of
    [advance] that checks further sends of a stream being served is unreachable,
    since an answer is written in one go and forgets the stream. So a client
    stream opened for replay by its first message - a bidirectional one - gets its
    whole recorded response and status then, and whatever it sends later, right or
    wrong, changes nothing. *)
Theorem late_sends_unchecked s dir c id v data data' ended σ σ' c' e m ms :
  (∀ out g, werr out g = None) → reached s dir c → k_streams c !! id = Some v →
  (feed "" data).2 = inr (m :: ms) →
  cassetteExists fmt_v c StreamBidi (v_service v) (v_method v) "" σ = true →
  handleFrame werr fmt_v machine_code PseudoValue c (FData id data false) σ = (σ', (c', e)) →
  e = None ∧ (∃ fs, k_out c' = k_out c ++ fs ∧ answer id fs) ∧
  handleFrame werr fmt_v machine_code PseudoValue c' (FData id data' ended) σ' = (σ', (c', None)).
Proof.
  intros Hw Hre Hv Hfeed Hex Hf. pose proof (reached_ok s dir c Hw Hre) as Hc. simpl in Hf. unfold onData in Hf.
  rewrite Hv, Hfeed in Hf. set (v' := set_stream v _ _ _) in *.
  destruct (Hc id v Hv) as (Hop & Hd & Hr).
  assert (inferReplayType v' false (λ ty m, cassetteExists fmt_v (put_stream c id v') ty
    (v_service v') (v_method v') m σ) = Some StreamBidi) as Hty.
  { unfold inferReplayType. rewrite bool_decide_eq_false_2.
    - change (cassetteExists fmt_v (put_stream c id v') StreamBidi (v_service v') (v_method v') "" σ)
        with (cassetteExists fmt_v c StreamBidi (v_service v) (v_method v) "" σ). by rewrite Hex.
    - simpl. rewrite length_app. simpl. lia. }
  destruct (advance_answers werr Hw fmt_v machine_code (put_stream c id v') id v' false σ StreamBidi)
    as (σ1 & c1 & fs & Ha & Hs & Ho & Hans); [simpl; by rewrite lookup_insert_eq|done|done|].
  rewrite Ha in Hf. injection Hf as <- <- <-. split; [done|]. split.
  - exists fs. simpl. by rewrite Ho.
  - simpl. unfold onData. simpl. rewrite Hs. simpl. by rewrite delete_insert_eq, lookup_delete_eq.
Qed.

(** C36. A message that arrives in pieces is lost: the decoder of a DATA frame is
    made for that frame, so the first part of a message leaves no trace - the
    connection is as before it. *)
Theorem split_message_lost s dir c id v fm x y σ :
  (∀ out g, werr out g = None) → reached s dir c → k_streams c !! id = Some v → v_buffered v = [] →
  frame_message fm = x +:+ y → y ≠ "" → (N.of_nat (slen fm.2) <= maxGRPCMessageSize)%N →
  handleFrame werr fmt_v machine_code PseudoValue c (FData id x false) σ = (σ, (c, None)).
Proof.
  intros Hw Hre Hv Hb Hxy Hy Hlen. pose proof (reached_ok s dir c Hw Hre) as Hc.
  assert ((feed "" x).2 = inr []) as Hfeed.
  { change (feed "" x) with (drained ("" +:+ x)). by rewrite sapp_nil_l, (drained_part fm x y). }
  simpl. unfold onData. rewrite Hv, Hfeed, app_nil_r.
  destruct (Hc id v Hv) as (Hop & Hd & Hr).
  assert (put_stream c id (set_stream v (v_replay v) (v_buffered v) (v_opened v)) = c) as ->.
  { unfold put_stream, set_streams. rewrite insert_id by (rewrite Hv; by destruct v). by destruct c. }
  unfold advance. rewrite Hv, Hd, Hop. unfold inferReplayType. by rewrite Hb.
Qed.

(** A failed call's description grows on the way: for a pair recorded with a
    gRPC status, the interceptor's replay gives back code and description, while
    the trailers written here carry the error's whole text - code name included -
    as the description. A call that succeeded replays as one, and no failed one
    replays as a success. *)
Theorem transport_terminal `{SL : StatusLaws} rp :
  (p_recorded_err (rep_pair rp) = "" → trailers_of machine_code rp = (codes_OK, "")) ∧
  (p_recorded_err (rep_pair rp) ≠ "" → (trailers_of machine_code rp).1 ≠ codes_OK) ∧
  ∀ code d, (0 < code < 2 ^ 32)%Z →
    p_resp_payload (rep_pair rp) = Some {[ "status_code" := VInt KInt code ]} →
    p_recorded_err (rep_pair rp) = status_prefix code +:+ d →
    mapErr rp (Some (terminalErr rp)) = Some (EStatus code d (status_prefix code +:+ d)) ∧
    trailers_of machine_code rp = (code, status_prefix code +:+ d).
Proof.
  unfold trailers_of, terminalErr. split_and!.
  - intros ->. done.
  - intros Hne. rewrite bool_decide_eq_false_2 by done. unfold terminalOf. simpl.
    destruct (Z.eqb_spec (match default ∅ (p_resp_payload (rep_pair rp)) !! "status_code" with
      | Some (VInt KInt v) | Some (VInt KInt64 v) | Some (VInt KUint64 v) => to_code v
      | Some (VFloat f) => float_code machine_code f
      | _ => codes_Unknown end) codes_OK); [done|done].
  - intros code d Hc Hp He. rewrite He.
    assert (bool_decide (status_prefix code +:+ d = "") = false) as -> by done. split.
    + simpl. by apply recordedStatusErr_again.
    + unfold terminalOf. rewrite Hp. simpl. rewrite lookup_singleton_eq. unfold to_code.
      rewrite Z.mod_small by lia.
      destruct (Z.eqb_spec code codes_OK) as [E|]; [unfold codes_OK in E; lia|]. done.
Qed.

Context `{SL : StatusLaws} {YL : YamlLaws} {YSL : YamlStreamLaws}.

(** A handle that answers the recorded calls: its undelivered messages are the
    recorded ones, and it accepts what the client has sent so far, and the half-close
    after all of it. *)
Lemma recorded_handle rp ss todo rs :
  rep_mismatch rp = None →
  (∀ ops, follows (ss ++ todo) ops → (replay_ops rp ops).2 = expected rs (terminalErr rp) ops) →
  undelivered rp = rs ∧
  ∃ i, check_sends true rp ss = (with_pos rp i (rep_recv rp) None, None) ∧
    (todo = [] → HalfClose (with_pos rp i (rep_recv rp) None) = (with_pos rp i (rep_recv rp) None, None)).
Proof.
  intros Hm Hops. split.
  { apply (expected_inj _ _ (terminalErr rp)). intros n.
    rewrite <-replay_receives, Hops; [done| |done]. clear. induction n; simpl; constructor. done. }
  assert (∀ ops, follows todo ops → follows (ss ++ todo) ((OpSend <$> ss) ++ ops)) as Hf.
  { clear. intros ops Hf. induction ss as [|m ms IH]; simpl; by try constructor. }
  assert (∀ ops, follows todo ops → Forall (λ op, op = OpHalfClose) ops →
    expected rs (terminalErr rp) ((OpSend <$> ss) ++ ops) = (const (inl None) <$> ss) ++ (const (inl None) <$> ops)) as He.
  { clear. intros ops _ Ho. induction ss as [|m ms IH]; simpl; [|by f_equal].
    induction Ho as [|op ops -> Ho IH]; simpl; by f_equal. }
  destruct todo as [|m todo].
  - destruct (check_sends_accepted true rp ss [OpHalfClose] [inl None]) as (i & Hcs & Hhc).
    { rewrite Hops by (apply Hf; repeat constructor). apply He; by repeat constructor. }
    rewrite Hm in Hcs, Hhc. exists i. split; [done|]. intros _.
    simpl in Hhc. unfold HalfClose in *. simpl in *. by destruct (i <? _)%nat.
  - destruct (check_sends_accepted true rp ss [] []) as (i & Hcs & _).
    { rewrite Hops by (apply Hf; constructor). apply He; by repeat constructor. }
    rewrite Hm in Hcs. by exists i.
Qed.

(** The trailers of a stream recorded with a status. *)
Lemma recorded_trailers rp code msg :
  (0 ≤ code < 2 ^ 32)%Z → terminalErr rp = recorded_terminal code msg →
  p_resp_payload (rep_pair rp) = Some {[ "status_code" := VInt KInt code ]} →
  trailers_of machine_code rp = (code, if (code =? codes_OK)%Z then "" else status_prefix code +:+ msg).
Proof.
  intros Hcode Hterm Hpay. unfold trailers_of. rewrite Hterm.
  unfold recorded_terminal. destruct (Z.eqb_spec code codes_OK) as [->|Hne]; [done|].
  unfold terminalOf. rewrite Hpay. simpl.
  rewrite lookup_singleton_eq. unfold to_code. rewrite Z.mod_small by lia.
  by destruct (Z.eqb_spec code codes_OK).
Qed.

(** A stream that finds its handle - at the half-close, or before all of [todo] has been
    sent - is served what the handle holds, and ended with its status. *)
Lemma advance_serves c id v half todo σ s1 rp ty rs code text :
  (∀ out g, werr out g = None) → k_streams c !! id = Some v → waiting v →
  inferReplayType v half (λ ty m, cassetteExists fmt_v c ty (v_service v) (v_method v) m σ) = Some ty →
  OpenStreamReplay (k_session c)
    (streamOpenFor (k_session c) ty (v_service v) (v_method v) (firstOrNil (v_buffered v))) σ = (σ, (s1, inr rp)) →
  (half = true → todo = []) →
  (∀ ops, follows (v_buffered v ++ todo) ops → (replay_ops rp ops).2 = expected rs (terminalErr rp) ops) →
  trailers_of machine_code rp = (code, text) → (0 ≤ code < 2 ^ 32)%Z →
  Forall sendable rs →
  ∃ c' new, advance werr fmt_v machine_code c id half σ = (σ, (emit c' new, None)) ∧
    k_streams c' = delete id (k_streams c) ∧ k_out c' = k_out c ∧ reads_as id new rs code text.
Proof.
  intros Hw Hv (Hop & Hdn & Hvr) Hty Hopen Hhf Hops Htr Hcode Hsend.
  destruct (OpenStreamReplay_fresh _ _ _ _ _ _ Hopen) as (Hm & Hs0 & Hr0).
  destruct (recorded_handle _ _ _ _ Hm Hops) as (Hund & i & Hcs & Hhalf).
  set (rp1 := with_pos rp i (rep_recv rp) None) in *.
  unfold advance. rewrite Hv, Hdn, Hop, Hty. cbv zeta.
  change (match v_buffered v with m :: _ => m | [] => "" end) with (firstOrNil (v_buffered v)).
  set (o := streamOpenFor (k_session c) ty (v_service v) (v_method v) (firstOrNil (v_buffered v))) in Hopen.
  set (c0 := put_stream c id _).
  change (streamOpenFor (k_session c0) ty (v_service v) (v_method v) (firstOrNil (v_buffered v))) with o.
  set (c1 := if o_counter o then _ else c0).
  assert (k_session c1 = k_session c ∧ k_streams c1 = k_streams c0 ∧ k_out c1 = k_out c) as (E1 & E2 & E3)
    by (unfold c1; by destruct (o_counter o)).
  rewrite E1, Hopen. unfold serve_open. rewrite Hcs.
  assert ((if half then HalfClose rp1 else (rp1, None)) = (rp1, None)) as ->
    by (destruct half; [by apply Hhalf, Hhf|done]).
  rewrite deliver_emit by done. rewrite !put_replay_delete.
  eexists _, (delivery machine_code id rp1). split; [done|].
  change (trailers_of machine_code rp) with (trailers_of machine_code rp1) in Htr.
  split_and!; [| |split].
  - simpl. rewrite E2. simpl. by rewrite delete_insert_eq.
  - done.
  - intros r last Hlast. unfold delivery. change (undelivered rp1) with (undelivered rp). rewrite Hund.
    by apply messages_decode.
  - unfold delivery. rewrite app_comm_cons. do 2 eexists. split; [reflexivity|].
    rewrite Htr. by apply status_fields_status.
Qed.

(** What the tap records, the connection serves. Take a stream the tracker
    saved, and a waiting stream of a replaying connection on the same cassettes
    whose client has sent the same messages: if the type chosen at the half-close
    is the recorded one, the frames written make the client's decoder read the
    recorded responses, each once and in order, and end the stream with the
    recorded code. *)
Theorem transport_round_trip ses s code msg rd σ σ2 ses2 c id v :
  (∀ out g, werr out g = None) →
  record_stream ses s code msg rd σ = (σ2, (ses2, inr tt)) → stream_ok s →
  replays ses (k_session c) → (∀ p, read_fault p = None) → readings_ok rd →
  (Z.of_nat (length (s_events s)) < 2 ^ 63)%Z → (0 ≤ code < 2 ^ 32)%Z →
  utf8_valid (s_service s) → utf8_valid (s_method s) → utf8_valid (status_prefix code +:+ msg) →
  k_streams c !! id = Some v → waiting v → v_service v = s_service s → v_method v = s_method s →
  v_buffered v = sent (s_events s) →
  inferReplayType v true (λ ty m, cassetteExists fmt_v c ty (v_service v) (v_method v) m σ2) =
    Some (inferStreamType s) →
  (∀ i m, scrubFrame (streamScrub ses) StreamRecv i m = m) →
  Forall sendable (recvd (s_events s)) →
  ∃ c' new, advance werr fmt_v machine_code c id true σ2 = (σ2, (emit c' new, None)) ∧
    k_streams c' = delete id (k_streams c) ∧ k_out c' = k_out c ∧
    reads_as id new (recvd (s_events s)) code (if (code =? codes_OK)%Z then "" else status_prefix code +:+ msg).
Proof.
  intros Hw Hrec Hok Hrep Hfault Hrd Hlen Hcode Hu1 Hu2 Hu3 Hv Hwait Hsv Hmt Hbuf Hty Hscrub Hsend.
  destruct (record_stream_replay ses s code msg rd σ σ2 ses2 (k_session c) Hrec Hrep Hfault Hrd Hlen
    Hcode Hu1 Hu2 Hu3) as (rp & Hopen & Hpay & Hterm & Hops).
  setoid_rewrite (list_fmap_ext _ Datatypes.id) in Hops; [|intros; apply Hscrub].
  setoid_rewrite list_fmap_id in Hops. rewrite <-Hterm in Hops. rewrite (so_sends s Hok) in Hopen.
  rewrite <-Hbuf in Hopen, Hops. rewrite <-Hsv, <-Hmt in Hopen.
  eapply (advance_serves c id v true []); try done; [by rewrite app_nil_r|by apply recorded_trailers].
Qed.

(** The half-close finds the recorded cassette. On a connection whose probe
    counters agree with the recording session's and whose client sent the recorded
    messages, the type chosen at the half-close is the recorded one, unless the
    directory holds another candidate that is asked first: a server stream is
    always found, a client stream unless a server stream of its one message is
    there, a bidirectional one unless either is. *)
Theorem recorded_type_chosen ses s code msg rd σ σ2 ses2 cas c v :
  record_stream ses s code msg rd σ = (σ2, (ses2, inr tt)) → stream_ok s →
  cassette ses = Some cas → k_dir c = cdir cas → k_dir c ≠ "" →
  streamScrub (k_session c) = streamScrub ses → (∀ p, read_fault p = None) →
  in_step fmt_v c ses (streamOpenFor ses (inferStreamType s) (s_service s) (s_method s) (firstOrNil (s_sends s))) →
  v_buffered v = s_sends s →
  let probe ty m := cassetteExists fmt_v c ty (s_service s) (s_method s) m σ2 in
  (inferStreamType s ≠ StreamServer →
     length (s_sends s) = 1 → probe StreamServer (firstOrNil (s_sends s)) = false) →
  (inferStreamType s = StreamBidi → probe StreamClient "" = false) →
  inferReplayType v true probe = Some (inferStreamType s).
Proof.
  intros Hrec Hok Hcas Hdir Hne Hsc Hfault Hstep Hbuf probe Hserver Hclient.
  pose proof (saved_pair_found fmt_v ses s code msg rd σ σ2 ses2 cas c Hrec Hcas Hdir Hne Hsc Hfault
    Hstep) as Hfound.
  unfold inferReplayType. rewrite Hbuf.
  change (match s_sends s with m :: _ => m | [] => "" end) with (firstOrNil (s_sends s)).
  assert (inferStreamType s = StreamServer ∧ length (s_sends s) = 1 ∨
          inferStreamType s = StreamClient ∨ inferStreamType s = StreamBidi) as Hcases.
  { rewrite (inferStreamType_log s Hok), (so_sends s Hok). unfold type_of_log.
    case_bool_decide as Hd; [left; naive_solver|]. case_bool_decide; auto. }
  destruct Hcases as [[Ht Hl]|[Ht|Ht]]; rewrite Ht in *.
  - rewrite bool_decide_eq_true_2 by done. unfold probe. by rewrite Hfound.
  - assert (bool_decide (length (s_sends s) = 1) && probe StreamServer (firstOrNil (s_sends s)) = false) as ->.
    { case_bool_decide as Hl; [|done]. by apply Hserver. }
    assert (probe StreamClient "" = true) as -> by exact Hfound. done.
  - assert (bool_decide (length (s_sends s) = 1) && probe StreamServer (firstOrNil (s_sends s)) = false) as ->.
    { case_bool_decide as Hl; [|done]. by apply Hserver. }
    by rewrite Hclient.
Qed.
End properties.

(** ** Closed instances *)

Section witnesses.
Local Existing Instance ascii_only.
Local Existing Instance integral_floats.
Local Existing Instance ReferenceYaml.lib.
Local Existing Instance ReferenceYaml.laws.
Local Existing Instance ReferenceStream.slib.
Local Existing Instance ReferenceStream.slaws.
Local Existing Instance no_faults.
Local Existing Instance demo_grpc.
Local Existing Instance demo_status.

Definition writes_all (_ : list outFrame) (_ : outFrame) : option err := None.
Definition demo_fmt (v : any) : string := match v with VString s => s | _ => "" end.
Definition demo_machine (_ : float64) : Z := 0%Z.
Definition demo_pseudo (fs : list HeaderField) (n : string) : string := headerValue fs (":" +:+ n).

(** The stream that the tracker saved, and the directory then. *)
Definition demo_stream : recStream := get demo_tracked.2 1.
Definition demo_saved : fsys * (FileSession * result unit) :=
  record_stream (t_session demo_tracked.2) demo_stream 5 "gone" demo_rd demo_tracked.1.

Definition demo_waiting (msgs : list string) : replayStream :=
  {| v_service := "p.S"; v_method := "M"; v_replay := None; v_buffered := msgs; v_opened := false;
     v_done := false |}.
Definition demo_rconn (msgs : list string) : replayConn :=
  put_stream (newReplayConn (demo_session ModeReplay) (cdir demo_cassette)) 1 (demo_waiting msgs).

Lemma demo_saved_eq :
  record_stream (t_session demo_tracked.2) demo_stream 5 "gone" demo_rd demo_tracked.1 =
  (demo_saved.1, (demo_saved.2.1, inr tt)).
Proof.
  assert (demo_saved.2.2 = inr tt) as <- by exact demo_record_ok.
  unfold demo_saved. destruct (record_stream _ _ _ _ _ _) as [? [??]]. reflexivity.
Qed.

Lemma demo_stream_ok : stream_ok demo_stream.
Proof.
  unfold demo_stream, demo_tracked, get. rewrite handle_all_streams.
  destruct (stream_run _ _) as [s|] eqn:E; [|apply new_recStream_ok].
  simpl t_streams in E. rewrite lookup_empty in E. by eapply stream_run_ok.
Qed.

Lemma recorded_type_chosen_witness :
  inferReplayType (demo_waiting ["hi"; "bye"]) true
    (λ ty m, cassetteExists demo_fmt (demo_rconn ["hi"; "bye"]) ty (s_service demo_stream)
               (s_method demo_stream) m demo_saved.1) = Some StreamBidi.
Proof.
  assert (inferStreamType demo_stream = StreamBidi) as Ht by (vm_compute; reflexivity).
  rewrite <-Ht.
  apply (recorded_type_chosen demo_fmt (t_session demo_tracked.2) demo_stream 5 "gone" demo_rd
    demo_tracked.1 demo_saved.1 demo_saved.2.1 demo_cassette (demo_rconn ["hi"; "bye"])
    (demo_waiting ["hi"; "bye"]) demo_saved_eq demo_stream_ok).
  - vm_compute. reflexivity.
  - reflexivity.
  - discriminate.
  - vm_compute. reflexivity.
  - reflexivity.
  - intros k Hk. rewrite Ht in *. assert (streamN (t_session demo_tracked.2) = ∅) as -> by reflexivity.
    by rewrite lookup_empty.
  - vm_compute. reflexivity.
  - intros _ H. vm_compute in H. discriminate H.
  - intros _. vm_compute. reflexivity.
Defined.

Lemma transport_round_trip_witness :
  ∃ c' new, advance writes_all demo_fmt demo_machine (demo_rconn ["hi"; "bye"]) 1 true demo_saved.1 =
      (demo_saved.1, (emit c' new, None)) ∧
    messages_of 1 (all_events demo_redactor ∅ (inr <$> (client_frame <$> new)) EOF).1 = ["one"; "two"].
Proof.
  destruct (transport_round_trip writes_all demo_fmt demo_machine (t_session demo_tracked.2)
    demo_stream 5 "gone" demo_rd demo_tracked.1 demo_saved.1 demo_saved.2.1
    (demo_rconn ["hi"; "bye"]) 1 (demo_waiting ["hi"; "bye"]) (λ _ _, eq_refl)
    demo_saved_eq demo_stream_ok) as (c' & new & Ha & _ & _ & Hm & _).
  - split_and!; vm_compute; reflexivity.
  - reflexivity.
  - unfold readings_ok. simpl. split_and!; lia.
  - vm_compute. reflexivity.
  - lia.
  - vm_compute. exact I.
  - vm_compute. exact I.
  - vm_compute. exact I.
  - reflexivity.
  - split_and!; reflexivity.
  - vm_compute. reflexivity.
  - vm_compute. reflexivity.
  - vm_compute. reflexivity.
  - vm_compute. reflexivity.
  - intros i m. vm_compute. reflexivity.
  - assert (recvd (s_events demo_stream) = ["one"; "two"]) as -> by (vm_compute; reflexivity).
    repeat (apply Forall_cons; split; [unfold sendable; vm_compute; discriminate|]). apply Forall_nil_2.
  - exists c', new. split; [exact Ha|]. rewrite Hm by discriminate. vm_compute. reflexivity.
Defined.

Lemma writeMessage_chunks_witness :
  ∃ cs, sconcat cs = message_payload "hi" ∧ Forall (λ x, x ≠ "" ∧ N.of_nat (slen x) <= 16384)%N cs.
Proof.
  destruct (writeMessage_chunks writes_all (demo_rconn []) 1 "hi"
    (writeMessage writes_all (demo_rconn []) 1 "hi").1 None eq_refl) as (cs & k & H1 & H2 & _).
  by exists cs.
Defined.

(** A connection on which the client has sent request headers. *)
Definition demo_opened : replayConn :=
  (handleFrame writes_all demo_fmt demo_machine demo_pseudo
     (write writes_all (newReplayConn (demo_session ModeReplay) (cdir demo_cassette)) OSettings).1
     (FMetaHeaders 1 [hf ":path" "/p.S/M"] false) demo_saved.1).2.1.

Lemma demo_reached : reached writes_all demo_fmt demo_machine demo_pseudo (demo_session ModeReplay)
  (cdir demo_cassette) demo_opened.
Proof.
  eapply (reached_frame _ _ _ _ _ _ _ (FMetaHeaders 1 [hf ":path" "/p.S/M"] false) demo_saved.1 demo_saved.1);
    [apply reached_start|]. unfold demo_opened. reflexivity.
Qed.

Lemma half_close_answered_witness :
  ∃ fs, k_out (handleFrame writes_all demo_fmt demo_machine demo_pseudo demo_opened
                 (FData 1 "" true) demo_saved.1).2.1 = OSettings :: fs ∧ answer 1 fs.
Proof.
  destruct (half_close_answered writes_all demo_fmt demo_machine demo_pseudo (demo_session ModeReplay)
    (cdir demo_cassette) demo_opened demo_saved.1 (FData 1 "" true) 1 (λ _ _, eq_refl) demo_reached)
    as (σ' & c' & fs & Hf & _ & Ho & Ha).
  - right. exists "". split; [done|]. by eexists.
  - exists fs. rewrite Hf. split; [|exact Ha]. cbn [fst snd emit k_out]. by rewrite Ho.
Defined.

Definition demo_first : string := frame_message ("000"%char, "hi").

Lemma late_sends_unchecked_witness :
  let after := handleFrame writes_all demo_fmt demo_machine demo_pseudo demo_opened
                 (FData 1 demo_first false) demo_saved.1 in
  after.2.2 = None ∧
  handleFrame writes_all demo_fmt demo_machine demo_pseudo after.2.1
    (FData 1 (frame_message ("000"%char, "not what was recorded")) true) after.1 =
  (after.1, (after.2.1, None)).
Proof.
  cbv zeta. destruct (handleFrame writes_all demo_fmt demo_machine demo_pseudo demo_opened
    (FData 1 demo_first false) demo_saved.1) as [σ' [c' e]] eqn:E.
  destruct (late_sends_unchecked writes_all demo_fmt demo_machine demo_pseudo (demo_session ModeReplay)
    (cdir demo_cassette) demo_opened 1 (demo_waiting []) demo_first
    (frame_message ("000"%char, "not what was recorded")) true demo_saved.1 σ' c' e "hi" []
    (λ _ _, eq_refl) demo_reached eq_refl) as (H1 & _ & H2); [vm_compute; reflexivity..|exact E|].
  by split.
Defined.

Lemma split_message_lost_witness :
  handleFrame writes_all demo_fmt demo_machine demo_pseudo demo_opened
    (FData 1 (stake 6 demo_first) false) demo_saved.1 = (demo_saved.1, (demo_opened, None)).
Proof.
  apply (split_message_lost writes_all demo_fmt demo_machine demo_pseudo (demo_session ModeReplay)
    (cdir demo_cassette) demo_opened 1 (demo_waiting []) ("000"%char, "hi") (stake 6 demo_first)
    (sdrop 6 demo_first) demo_saved.1 (λ _ _, eq_refl) demo_reached eq_refl eq_refl).
  - by rewrite stake_sdrop.
  - vm_compute. discriminate.
  - vm_compute. discriminate.
Defined.

Lemma transport_terminal_witness :
  ∃ rp : StreamReplay, trailers_of demo_machine rp = (5%Z, "rpc error: code = 5 desc = gone").
Proof.
  set (rp := {| rep_fp := ""; rep_pair :=
      {| p_req := {| rq_type := StreamBidi; rq_frames := []; rq_half_close := None |};
         p_resp := {| rs_frames := []; rs_end := {| ev_seq := 0; ev_at := None |} |};
         p_req_payload := None; p_resp_payload := Some {[ "status_code" := VInt KInt 5 ]};
         p_recorded_at := ""; p_recorded_err := "rpc error: code = 5 desc = gone" |};
    rep_scrub := None; rep_info := {| si_adapter := "grpc"; si_type := StreamBidi |};
    rep_send := 0; rep_recv := 0; rep_mismatch := None |} : StreamReplay).
  exists rp. destruct (transport_terminal demo_machine rp) as (_ & _ & H).
  destruct (H 5%Z "gone") as [_ H']; [lia|reflexivity|vm_compute; reflexivity|exact H'].
Defined.
End witnesses.
