(* ===== verification/Connection.v ===== *)
(** A whole call over a replaying connection (go/adapters/grpctransport/replay.go): the
    client's frames one after the other, whenever the cassette is chosen. *)

From S2P Require Import Prelude GoStrings Sha256 Values Yaml Redact Os CanonicalJson CanonicalInj Stream Cassette StreamCassette Session StreamSession GrpcStream Demux TransportRecord TransportReplay.

(** ** The frames of a call *)

(** Messages as a client writes them, so many to a DATA frame, the last of which ends the
    stream. *)
Definition wire_group (g : list string) : string :=
  sconcat (frame_message <$> ((λ m, ("000"%char, m)) <$> g)).

Fixpoint data_frames (id : N) (groups : list (list string)) : list frame :=
  match groups with
  | [] => []
  | [g] => [FData id (wire_group g) true]
  | g :: groups' => FData id (wire_group g) false :: data_frames id groups'
  end.

Definition call_frames (id : N) (fields : list HeaderField) (groups : list (list string)) : list frame :=
  FMetaHeaders id fields false :: data_frames id groups.

(** Of the types that can be probed for a call, the directory holds the recorded one only. *)
Definition only_candidate (probe : string → string → bool) (typ : string) (sends : list string) : Prop :=
  (typ = StreamServer ∧ length sends = 1 ∨ typ = StreamClient ∨ typ = StreamBidi) ∧
  ∀ ty, ty ∈ [StreamServer; StreamClient; StreamBidi] →
    probe ty (if bool_decide (ty = StreamServer) then firstOrNil sends else "") = bool_decide (ty = typ).

(** Whatever part of the call has arrived, no other type is chosen. *)
Lemma only_candidate_chosen v half todo probe typ :
  only_candidate probe typ (v_buffered v ++ todo) → (half = true → todo = []) →
  (inferReplayType v half probe = None ∧ half = false) ∨
  (inferReplayType v half probe = Some typ ∧
   (typ = StreamServer → firstOrNil (v_buffered v) = firstOrNil (v_buffered v ++ todo))).
Proof.
  intros (Hty & Hprobe) Hhalf. unfold inferReplayType.
  pose proof (Hprobe StreamServer ltac:(set_solver)) as Hs. pose proof (Hprobe StreamClient ltac:(set_solver)) as Hc.
  pose proof (Hprobe StreamBidi ltac:(set_solver)) as Hb. clear Hprobe. simpl in Hs, Hc, Hb.
  fold (firstOrNil (v_buffered v)).
  destruct half.
  - rewrite (Hhalf eq_refl), app_nil_r in *. right. split; [|done]. rewrite Hs, Hc.
    destruct Hty as [[-> Hl]|[->| ->]]; [by rewrite bool_decide_eq_true_2|by rewrite andb_false_r..].
  - destruct (bool_decide (length (v_buffered v) = 0)) eqn:Hn; [by left|].
    apply bool_decide_eq_false in Hn.
    assert (firstOrNil (v_buffered v ++ todo) = firstOrNil (v_buffered v)) as Hfirst by (by destruct (v_buffered v)).
    rewrite Hfirst in *. rewrite Hb, Hs. destruct Hty as [[-> _]|[->| ->]]; [by right|by left|by right].
Qed.

(** ** Serving the frames *)

Section serving.
Context {U : Unicode} {F : FloatFormat} {Y : YamlLib} {YS : YamlStreamLib} {O : Faults}.
Context (werr : list outFrame → outFrame → option err) (Hw : ∀ out g, werr out g = None).
Context (fmt_v : any → string) (machine_code : float64 → Z)
        (PseudoValue : list HeaderField → string → string).

Local Abbreviation serve_frames := (serve_frames werr fmt_v machine_code PseudoValue).
Local Abbreviation advance := (advance werr fmt_v machine_code).

(** What the client writes on a stream that has been answered is passed over. *)
Lemma answered_frames c id groups rest σ :
  k_streams c !! id = None → serve_frames c ((inr <$> data_frames id groups) ++ rest) σ = serve_frames c rest σ.
Proof.
  intros Hn. induction groups as [|g groups IH]; [done|].
  destruct groups; cbn [data_frames fmap list_fmap app TransportReplay.serve_frames handleFrame];
    unfold TransportReplay.onData; by rewrite Hn.
Qed.

Lemma feed_group g : Forall sendable g → (feed "" (wire_group g)).2 = inr g.
Proof.
  intros Hg. change (feed "" (wire_group g)) with (drained ("" +:+ wire_group g)).
  rewrite sapp_nil_l. unfold wire_group. rewrite drained_frames.
  - simpl. rewrite <-list_fmap_compose. f_equal. apply list_fmap_id.
  - by apply Forall_fmap.
Qed.

(** [run] comes to an answer of the call on stream [id]: the frames written read as the
    messages [rs] and the status, the stream is forgotten, and the connection goes on. *)
Definition served (σ : fsys) (rs : list string) (code : Z) (text : string) (id : N) (c : replayConn)
    (run : list (result frame) → fsys * replayConn) : Prop :=
  ∃ c' new, (∀ rest, run rest = serve_frames (emit c' new) rest σ) ∧
    k_streams c' = delete id (k_streams c) ∧ k_out c' = k_out c ∧ reads_as id new rs code text.

Section call.
Context (ses : FileSession) (typ service method : string) (sends : list string)
        (σ : fsys) (s1 : FileSession) (rp : StreamReplay) (rs : list string) (code : Z) (text : string).

(** The pair of the call, as the connection's session opens it. *)
Context (Hopen : OpenStreamReplay ses (streamOpenFor ses typ service method (firstOrNil sends)) σ = (σ, (s1, inr rp)))
        (Hops : ∀ ops, follows sends ops → (replay_ops rp ops).2 = expected rs (terminalErr rp) ops)
        (Htr : trailers_of machine_code rp = (code, text)) (Hcode : (0 ≤ code < 2 ^ 32)%Z)
        (Hsends : Forall sendable sends) (Hrecvs : Forall sendable rs).

(** From a state in which part of the call has arrived. *)
Lemma frames_served id groups c v :
  k_session c = ses → k_streams c !! id = Some v → waiting v → v_service v = service → v_method v = method →
  v_buffered v ++ concat groups = sends → groups ≠ [] →
  only_candidate (λ ty m, cassetteExists fmt_v c ty (v_service v) (v_method v) m σ) typ sends →
  served σ rs code text id c (λ rest, serve_frames c ((inr <$> data_frames id groups) ++ rest) σ).
Proof.
  intros Hses Hv (Hop & Hdn & Hrp) Hsv Hmt Hbuf Hne Hcand.
  revert c v Hses Hv Hop Hdn Hrp Hsv Hmt Hbuf Hcand. induction groups as [|g groups IH]; [done|].
  intros c v Hses Hv Hop Hdn Hrp Hsv Hmt Hbuf Hcand. clear Hne. cbn [concat] in Hbuf.
  set (half := bool_decide (groups = [])).
  set (v' := set_stream v (v_replay v) (v_buffered v ++ g) (v_opened v)). set (c1 := put_stream c id v').
  assert (Forall sendable g) as Hg.
  { rewrite <-Hbuf in Hsends. rewrite !Forall_app in Hsends. naive_solver. }
  assert (∀ rest, serve_frames c ((inr <$> data_frames id (g :: groups)) ++ rest) σ =
    match advance c1 id half σ with
    | (σ', (c', None)) => serve_frames c' ((inr <$> data_frames id groups) ++ rest) σ'
    | (σ', (c', Some _)) => (σ', c')
    end) as Hstep.
  { intros rest. unfold half. destruct groups as [|g' groups];
      cbn [data_frames fmap list_fmap app TransportReplay.serve_frames handleFrame];
      unfold TransportReplay.onData; rewrite Hv, feed_group by done; done. }
  assert (v_buffered v' ++ concat groups = sends) as Hbuf' by (unfold v'; simpl; by rewrite <-app_assoc).
  assert (half = true → concat groups = []) as Hhalf by (unfold half; intros ->%bool_decide_eq_true; done).
  assert (k_streams c1 !! id = Some v') as Hv' by (simpl; by rewrite lookup_insert_eq).
  pose proof Hcand as Hcand'. rewrite <-Hbuf' in Hcand'.
  apply (only_candidate_chosen v' half) in Hcand'; [|done].
  change (λ ty m, cassetteExists fmt_v c ty (v_service v) (v_method v) m σ) with
    (λ ty m, cassetteExists fmt_v c1 ty (v_service v') (v_method v') m σ) in Hcand'.
  destruct Hcand' as [[Hnone Hh]|[Hsome Hfirst]].
  - assert (advance c1 id half σ = (σ, (c1, None))) as Ha.
    { unfold TransportReplay.advance. rewrite Hv', Hnone. change (v_done v') with (v_done v).
      change (v_opened v') with (v_opened v). by rewrite Hdn, Hop. }
    destruct (IH ltac:(by intros ->) c1 v') as (c' & new & Hrun & Hst & Hout & Hread); [done..|].
    exists c', new. split_and!; [|by rewrite Hst; simpl; rewrite delete_insert_eq|done|done].
    intros rest. rewrite Hstep, Ha. apply Hrun.
  - assert (∃ c' new, advance c1 id half σ = (σ, (emit c' new, None)) ∧
      k_streams c' = delete id (k_streams c) ∧ k_out c' = k_out c ∧ reads_as id new rs code text)
      as (c' & new & Ha & Hst & Hout & Hread).
    { destruct (advance_serves werr fmt_v machine_code c1 id v' half (concat groups) σ s1 rp typ rs code text)
        as (c' & new & Ha & Hst & Hout & Hread); try done.
      - change (v_service v') with (v_service v). change (v_method v') with (v_method v).
        change (k_session c1) with (k_session c). rewrite Hses, Hsv, Hmt, <-Hopen. f_equal. unfold streamOpenFor.
        case_bool_decide as Hs; [|done]. by rewrite (Hfirst Hs), Hbuf'.
      - by rewrite Hbuf'.
      - exists c', new. split_and!; [done| |done|done]. by rewrite Hst; simpl; rewrite delete_insert_eq. }
    exists c', new. split_and!; [|done..]. intros rest. rewrite Hstep, Ha. apply answered_frames.
    simpl. by rewrite Hst, lookup_delete_eq.
Qed.

(** All of it. *)
Lemma call_served id fields groups c :
  k_session c = ses → splitPath (PseudoValue fields "path") = Some (service, method) →
  concat groups = sends → groups ≠ [] →
  only_candidate (λ ty m, cassetteExists fmt_v c ty service method m σ) typ sends →
  served σ rs code text id c (λ rest, serve_frames c ((inr <$> call_frames id fields groups) ++ rest) σ).
Proof.
  intros Hses Hpath Hgroups Hne Hcand.
  set (v := {| v_service := service; v_method := method; v_replay := None; v_buffered := [];
               v_opened := false; v_done := false |}).
  destruct (frames_served id groups (put_stream c id v) v) as (c' & new & Hrun & Hst & Hout & Hread);
    [done|by apply lookup_insert_eq|done..|].
  exists c', new. split_and!; [|by rewrite Hst; simpl; rewrite delete_insert_eq|done|done].
  intros rest. rewrite <-Hrun. unfold call_frames.
  cbn [fmap list_fmap app TransportReplay.serve_frames handleFrame]. unfold onHeaders. by rewrite Hpath.
Qed.
End call.

Context `{SL : StatusLaws} {YL : YamlLaws} {YSL : YamlStreamLaws}.

Lemma recorded_stream_served ses s code msg rd σ σ2 ses2 c id fields groups :
  record_stream ses s code msg rd σ = (σ2, (ses2, inr tt)) → stream_ok s →
  replays ses (k_session c) → (∀ p, read_fault p = None) → readings_ok rd →
  (Z.of_nat (length (s_events s)) < 2 ^ 63)%Z → (0 ≤ code < 2 ^ 32)%Z →
  utf8_valid (s_service s) → utf8_valid (s_method s) → utf8_valid (status_prefix code +:+ msg) →
  (∀ i m, scrubFrame (streamScrub ses) StreamRecv i m = m) →
  Forall sendable (sent (s_events s)) → Forall sendable (recvd (s_events s)) →
  splitPath (PseudoValue fields "path") = Some (s_service s, s_method s) →
  concat groups = sent (s_events s) → groups ≠ [] →
  only_candidate (λ ty m, cassetteExists fmt_v c ty (s_service s) (s_method s) m σ2) (inferStreamType s)
    (sent (s_events s)) →
  served σ2 (recvd (s_events s)) code (if (code =? codes_OK)%Z then "" else status_prefix code +:+ msg) id c
    (λ rest, serve_frames c ((inr <$> call_frames id fields groups) ++ rest) σ2).
Proof.
  intros Hrec Hok Hrep Hfault Hrd Hlen Hcode Hu1 Hu2 Hu3 Hscrub Hs Hr Hpath Hgroups Hne Hcand.
  destruct (record_stream_replay ses s code msg rd σ σ2 ses2 (k_session c) Hrec Hrep Hfault Hrd Hlen
    Hcode Hu1 Hu2 Hu3) as (rp & Hopen & Hpay & Hterm & Hops).
  setoid_rewrite (list_fmap_ext _ Datatypes.id) in Hops; [|intros; apply Hscrub].
  setoid_rewrite list_fmap_id in Hops. rewrite <-Hterm in Hops. rewrite (so_sends s Hok) in Hopen.
  eapply call_served; try done. by apply recorded_trailers.
Qed.

(** A call that the tap recorded properly. Among the events [evs] of a connection those of
    stream [id] are request headers that name [service] and [method], then [l] - messages
    and half-close from the client, headers and messages from the server -, then response
    headers with the status; and the save that the tracker then makes succeeds. *)
Record tapped_call (t : streamTracker) (evs : list (direction * wireEvent * readings)) (σ : fsys) (id : N)
    (service method : string) (l : list (direction * wireEvent)) (code : Z) (msg : string)
    (ses : FileSession) (s : recStream) (σ2 : fsys) : Prop := {
  tc_new : t_streams t !! id = None;
  tc_traffic : ∃ ev, of_stream id evs.*1 = (dirClientToServer, ev) :: l ∧ request ev service method;
  tc_call : Forall in_call l;
  tc_saved : ∃ σ1 t1 ev t2 rd, handle_all t evs σ = (σ1, t1) ∧ ses = t_session t1 ∧ s = get t1 id ∧
    we_kind ev = wireHeaders ∧ we_stream ev = id ∧ noise ev = false ∧ isCompressed (we_headers ev) = false ∧
    grpcStatus (we_headers ev) = Some (code, msg) ∧ readings_ok rd ∧
    handle t1 dirServerToClient ev rd σ1 = (σ2, (t2, None)) ∧
    record_stream ses s code msg rd σ1 = (σ2, (t_session t2, inr tt));
  tc_length : (2 * Z.of_nat (length l) + 1 < 2 ^ 63)%Z;
  tc_text : utf8_valid service ∧ utf8_valid method ∧ utf8_valid (status_prefix code +:+ msg);
}.

Lemma tapped_call_recorded t evs σ id service method l code msg ses s σ2 :
  tapped_call t evs σ id service method l code msg ses s σ2 →
  stream_ok s ∧ s_service s = service ∧ s_method s = method ∧
  sent (s_events s) = wire_messages dirClientToServer l ∧ recvd (s_events s) = wire_messages dirServerToClient l ∧
  (Z.of_nat (length (s_events s)) < 2 ^ 63)%Z ∧ (0 ≤ code < 2 ^ 32)%Z ∧
  ∃ rd σ1 ses2, readings_ok rd ∧ record_stream ses s code msg rd σ1 = (σ2, (ses2, inr tt)).
Proof.
  intros [Ht (ev & Hof & Hreq) Hin (σ1 & t1 & ev' & t2 & rd & Hall & -> & -> & _ & Hid & _ & _ & Hst & Hrd & _ & Hrec) Hlen _].
  pose proof (handle_all_streams evs t σ id) as Hs. rewrite Hall, Ht, Hof in Hs. cbn [snd] in Hs.
  destruct (stream_run_request ev service method l Hreq Hin) as
    (s & Hrun & G1 & G2 & _ & G4 & G5 & G6 & _). rewrite Hrun in Hs.
  pose proof (stream_run_ok _ _ Hrun) as Hok.
  assert (get t1 id = s) as Hget by (unfold get; by rewrite Hs). rewrite Hget in *.
  split_and!; [done..|lia| | |by eauto]; by apply grpcStatus_code in Hst as [? ?].
Qed.

(** C3. What the tap records, a connection serves, frame by frame. Take a call
    that the tap recorded, and a client of a replaying connection on the same cassettes that
    makes the same call - request headers, the recorded messages in as many DATA frames as it
    likes, the last with END_STREAM - where the directory has no other cassette that the
    call could be taken for. Whenever the connection makes up its mind, at the first
    message or at the half-close, what it has written when the call is over reads as the
    recorded responses, each once and in order, and a status with the recorded code; the
    stream is forgotten and the connection goes on with the next frame. *)
Theorem tapped_call_served t evs σ id0 service method l code msg ses s σ2 c id fields groups :
  tapped_call t evs σ id0 service method l code msg ses s σ2 →
  replays ses (k_session c) → (∀ p, read_fault p = None) → (∀ i m, scrubFrame (streamScrub ses) StreamRecv i m = m) →
  Forall sendable (wire_messages dirClientToServer l) → Forall sendable (wire_messages dirServerToClient l) →
  splitPath (PseudoValue fields "path") = Some (service, method) →
  concat groups = wire_messages dirClientToServer l → groups ≠ [] →
  only_candidate (λ ty m, cassetteExists fmt_v c ty service method m σ2) (inferStreamType s)
    (wire_messages dirClientToServer l) →
  served σ2 (wire_messages dirServerToClient l) code
    (if (code =? codes_OK)%Z then "" else status_prefix code +:+ msg) id c
    (λ rest, serve_frames c ((inr <$> call_frames id fields groups) ++ rest) σ2).
Proof.
  intros Htap Hrep Hfault Hscrub Hs Hr Hpath Hgroups Hne Hcand.
  destruct (tapped_call_recorded _ _ _ _ _ _ _ _ _ _ _ _ Htap) as
    (Hok & Hsv & Hmt & Hsent & Hrecvd & Hlen & Hcode & rd & σ1 & ses2 & Hrd & Hrec).
  destruct (tc_text _ _ _ _ _ _ _ _ _ _ _ _ Htap) as (Hu1 & Hu2 & Hu3).
  rewrite <-Hsent, <-Hrecvd in *. subst service method.
  by eapply recorded_stream_served.
Qed.
End serving.

(** ** At concrete values *)

Section witnesses.
Local Existing Instance ascii_only.
Local Existing Instance integral_floats.
Local Existing Instance ReferenceYaml.lib.
Local Existing Instance ReferenceYaml.laws.
Local Existing Instance ReferenceStream.slib.
Local Existing Instance ReferenceStream.slaws.
Local Existing Instance no_faults.
Local Existing Instance demo_grpc.
Local Existing Instance demo_status.

Definition demo_conn : replayConn := newReplayConn (demo_session ModeReplay) (cdir demo_cassette).

Lemma demo_tapped :
  tapped_call (newStreamTracker (demo_session ModeRecord)) demo_traffic demo_fs 1 "p.S" "M" demo_call 5 "gone"
    (t_session demo_tracked.2) demo_stream demo_saved.1.
Proof.
  split.
  - reflexivity.
  - exists demo_request. split; [reflexivity|]. split_and!; vm_compute; reflexivity.
  - unfold demo_call. repeat (apply Forall_cons; split; [vm_compute; auto|]). apply Forall_nil_2.
  - exists demo_tracked.1, demo_tracked.2, demo_trailers, (drop_stream (put demo_tracked.2 1 demo_stream) demo_saved.2.1 1), demo_rd.
    split; [apply surjective_pairing|]. split; [reflexivity|]. split; [reflexivity|].
    split_and!; [exact eq_refl..|unfold readings_ok; simpl; split_and!; lia| |exact demo_saved_eq].
    apply (handle_terminal demo_tracked.2 1 demo_trailers 5 "gone" demo_rd demo_tracked.1 demo_saved.1 demo_saved.2.1
      (inr tt)); [exact demo_stream_ok| |..|exact demo_saved_eq]; try (vm_compute; reflexivity).
    vm_compute. discriminate.
  - vm_compute. reflexivity.
  - split_and!; vm_compute; exact I.
Qed.

(** A bidirectional call that ended with a status; the connection answers at the first message. *)
Lemma tapped_call_served_witness :
  served writes_all demo_fmt demo_machine demo_pseudo demo_saved.1 ["one"; "two"] 5
    "rpc error: code = 5 desc = gone" 1 demo_conn
    (λ rest, serve_frames writes_all demo_fmt demo_machine demo_pseudo demo_conn
       ((inr <$> call_frames 1 [hf ":path" "/p.S/M"] [["hi"]; ["bye"]; []]) ++ rest) demo_saved.1).
Proof.
  apply (tapped_call_served writes_all (λ _ _, eq_refl) demo_fmt demo_machine demo_pseudo
    (newStreamTracker (demo_session ModeRecord)) demo_traffic demo_fs 1 "p.S" "M" demo_call 5 "gone"
    (t_session demo_tracked.2) demo_stream demo_saved.1 demo_conn 1 [hf ":path" "/p.S/M"] [["hi"]; ["bye"]; []]
    demo_tapped).
  - split_and!; vm_compute; reflexivity.
  - reflexivity.
  - intros i m. vm_compute. reflexivity.
  - repeat (apply Forall_cons; split; [unfold sendable; vm_compute; discriminate|]). apply Forall_nil_2.
  - repeat (apply Forall_cons; split; [unfold sendable; vm_compute; discriminate|]). apply Forall_nil_2.
  - vm_compute. reflexivity.
  - reflexivity.
  - discriminate.
  - assert (inferStreamType demo_stream = StreamBidi) as -> by (vm_compute; reflexivity). split; [by right; right|].
    intros ty Hty. rewrite !elem_of_cons, elem_of_nil in Hty.
    destruct Hty as [->|[->|[->|[]]]]; vm_compute; reflexivity.
Defined.
End witnesses.
