(* ===== verification/Interop.v ===== *)
(** go/adapters/grpctransport/adapter.go promises one cassette format for two adapters: "a
    cassette recorded here replays through the interceptor adapter and vice versa".  The two
    share an adapter id, fingerprints and the stream session; here they are put together. *)

From S2P Require Import Prelude GoStrings Sha256 Values Yaml Redact Os CanonicalJson CanonicalInj Stream Cassette StreamCassette Session StreamSession Demux TransportRecord TransportReplay Connection GrpcStream.

(** ** What a client is answered *)

Section spec.
Context `{G : GrpcLib}.

(** The answers of a server that sends [ms] and then ends the stream with [e]: what is sent
    to it is taken, each receive decodes the next message, and after the last one every
    receive is answered [e]. *)
Fixpoint replied (ms : list string) (e : err) (cs : list call) : list answer :=
  match cs with
  | [] => []
  | CallSend _ :: cs' => ASend None :: replied ms e cs'
  | CallClose :: cs' => AClose None :: replied ms e cs'
  | CallRecv m :: cs' =>
    match ms with
    | [] => ARecv (inl e) :: replied [] e cs'
    | b :: ms' => ARecv (received (unmarshalMessage b m)) :: replied ms' e cs'
    end
  end.

(** The bytes of the messages sent, and of the messages received. *)
Definition wire_bytes (m : message) : option string :=
  match marshalMessage m with inr b => Some b | inl _ => None end.

Definition sent_bytes (cs : list call) : list string :=
  omap (λ c, match c with CallSend m => wire_bytes m | _ => None end) cs.

Definition received_bytes (l : list answer) : list string :=
  omap (λ a, match a with ARecv (inr m) => wire_bytes m | _ => None end) l.

(** The error a client sees for a code and a description on the wire. *)
Definition wire_error (code : Z) (msg : string) : err :=
  if (code =? codes_OK)%Z then EOF else EStatus code msg (status_prefix code +:+ msg).

(** The code and the message that an error has on the wire. *)
Definition wire_status (r : result message) : Z * string :=
  match r with inl (EStatus c _ text) => (c, text) | _ => (codes_OK, "") end.
End spec.

Section lemmas.
Context {U : Unicode} {F : FloatFormat} {Y : YamlLib} {YS : YamlStreamLib} {O : Faults}.
Context `{LS : LiveStream} {SL : StatusLaws} {LL : LiveLaws}.

#[local] Arguments mapErr : simpl never.

Lemma replied_expected rp ms T e cs ops :
  op_of <$> cs = Some <$> ops → mapErr rp (Some T) = Some e →
  zip_with (answer_of rp) cs (expected ms T ops) = replied ms e cs.
Proof.
  intros Hops He. revert ms ops Hops. induction cs as [|c cs IH]; intros ms [|op ops] Hops; try done.
  rewrite !fmap_cons in Hops. injection Hops as Hop Hops.
  destruct c as [m|m|]; simpl in Hop |- *.
  - destruct (marshalMessage m); [done|]. injection Hop as <-. simpl. by rewrite (IH ms ops).
  - injection Hop as <-. destruct ms as [|b ms]; simpl; [|by rewrite (IH ms ops)].
    by rewrite He, (IH [] ops).
  - injection Hop as <-. simpl. by rewrite (IH ms ops).
Qed.

(** The recorded status is the error of the replay. *)
Lemma recorded_status rp code msg :
  (0 ≤ code < 2 ^ 32)%Z → p_resp_payload (rep_pair rp) = Some {[ "status_code" := VInt KInt code ]} →
  mapErr rp (Some (recorded_terminal code msg)) = Some (wire_error code msg).
Proof.
  intros Hc Hp. unfold recorded_terminal, wire_error, codes_OK. destruct (Z.eqb_spec code 0); [done|].
  unfold mapErr. simpl. apply recordedStatusErr_again; [lia|done].
Qed.

(** The messages of a teed conversation, on both sides. *)
Lemma teed_bytes cs l evs :
  teed cs l evs → sends_of evs = sent_bytes cs.*1 ∧ recvs_of evs = received_bytes l.
Proof.
  induction 1 as [|m t b cs l evs Hb Ht [IH1 IH2]|m t m' b cs l evs Hb Hu Ht [IH1 IH2]|t cs l evs Ht [IH1 IH2]];
    [done|..]; split; try done; unfold sent_bytes, received_bytes in *.
  - rewrite fmap_cons. simpl. unfold wire_bytes at 1. rewrite Hb. simpl. f_equal. exact IH1.
  - simpl. unfold wire_bytes at 1. rewrite Hb. simpl. f_equal. exact IH2.
Qed.

Lemma final_bytes evs tail cs l m t r :
  teed cs l evs → final_events r m t tail →
  sends_of (evs ++ tail) = sent_bytes cs.*1 ∧ recvs_of (evs ++ tail) = received_bytes (l ++ [ARecv r]).
Proof.
  intros Ht Htail. destruct (teed_bytes _ _ _ Ht) as [Hsent Hrecv].
  unfold sends_of, recvs_of, received_bytes in *. rewrite !omap_app, Hsent, Hrecv.
  destruct Htail as [[-> [e ->]]|(m' & b & -> & -> & Hb & _)]; simpl; [by rewrite !app_nil_r|].
  unfold wire_bytes. by rewrite Hb, app_nil_r.
Qed.

(** A conversation that ended: what its file holds. *)
Lemma final_status r :
  terminal r →
  (if bool_decide (recorded_text (terminal_err r) = "") then EOF else ENew (recorded_text (terminal_err r))) =
    recorded_terminal (terminal_code r) (match r with inl (EStatus _ d _) => d | _ => "" end) ∧
  (0 ≤ terminal_code r < 2 ^ 32)%Z ∧
  wire_status r = (terminal_code r, if (terminal_code r =? codes_OK)%Z then "" else
    status_prefix (terminal_code r) +:+ match r with inl (EStatus _ d _) => d | _ => "" end).
Proof.
  intros Ht. unfold recorded_terminal. destruct r as [e|m]; [|done].
  destruct Ht as [->|(c & d & -> & Hc & _)]; [done|]. simpl.
  unfold codes_OK. destruct (Z.eqb_spec c 0); [lia|]. split_and!; [done|lia|lia|done].
Qed.
End lemmas.

(** ** One cassette, two adapters *)

Section properties.
Context {U : Unicode} {F : FloatFormat} {Y : YamlLib} {YS : YamlStreamLib} {O : Faults}.
Context `{LS : LiveStream} {SL : StatusLaws} {LL : LiveLaws} {YL : YamlLaws} {YSL : YamlStreamLaws}.
Context (werr : list outFrame → outFrame → option err) (Hw : ∀ out g, werr out g = None).
Context (fmt_v : any → string) (machine_code : float64 → Z) (PseudoValue : list HeaderField → string → string).

Lemma recorded_stream_intercepted ses s code msg rd σ σ2 ses2 s' desc method cs ops :
  record_stream ses s code msg rd σ = (σ2, (ses2, inr tt)) → stream_ok s →
  replays ses s' → (∀ p, read_fault p = None) → readings_ok rd →
  (Z.of_nat (length (s_events s)) < 2 ^ 63)%Z → (0 ≤ code < 2 ^ 32)%Z →
  utf8_valid (s_service s) → utf8_valid (s_method s) → utf8_valid (status_prefix code +:+ msg) →
  (∀ i m, scrubFrame (streamScrub ses) StreamRecv i m = m) →
  streamTypeOf desc = inr (inferStreamType s) → splitFullMethod method = inr (s_service s, s_method s) →
  op_of <$> cs = Some <$> ops → follows (sent (s_events s)) ops →
  (inferStreamType s = StreamServer → ∃ m cs', cs = CallSend m :: cs') →
  ∃ s1 q, newReplayStream s' desc method σ2 = (σ2, (s1, inr q)) ∧
    (replay_calls {| w_fs := σ2; w_session := s1 |} q cs).2.2 =
    replied (recvd (s_events s)) (wire_error code msg) cs.
Proof.
  intros Hrec Hok Hrep Hfault Hrd Hlen Hcode Hu1 Hu2 Hu3 Hscrub Hty Hsp Hcs Hfollow Hserver.
  destruct (record_stream_replay ses s code msg rd σ σ2 ses2 s' Hrec Hrep Hfault Hrd Hlen Hcode Hu1 Hu2 Hu3)
    as (rp & Hopen & Hpay & Hterm & Hops).
  setoid_rewrite (list_fmap_ext _ Datatypes.id) in Hops; [|intros; apply Hscrub].
  setoid_rewrite list_fmap_id in Hops. rewrite streamOpenFor_streamOpen, (so_sends s Hok) in Hopen.
  edestruct (newReplayStream_opened s' desc method) with (cs := cs)
    as (s1 & q & Hq & q' & Hq' & He' & Hruns); [done..| |exact Hopen|].
  { intros Hs. destruct (Hserver Hs) as (m & cs' & ->). exists m, cs'. split; [done|].
    destruct ops as [|op ops]; [done|]. rewrite !fmap_cons in Hcs. injection Hcs as Hop _. simpl in Hop.
    destruct (marshalMessage m) as [|b]; [done|]. injection Hop as <-. by inversion Hfollow. }
  exists s1, q. split; [done|]. rewrite Hruns, (replay_calls_ops cs ops _ q' rp), Hops by done.
  apply replied_expected; [done|]. by apply recorded_status.
Qed.

(** C4. What the tap recorded, the interceptor replays. Take a call that the transport
    adapter recorded, and a client of the interceptor that opens the same method as a stream
    of the recorded type and sends the same messages: it is answered as by a server that
    sends the messages that were on the wire and ends the stream with the code and the
    description that were on the wire. *)
Theorem tapped_replays_intercepted t evs σ id service mth l code msg ses s σ2 s' desc method cs ops :
  tapped_call t evs σ id service mth l code msg ses s σ2 →
  replays ses s' → (∀ p, read_fault p = None) → (∀ i m, scrubFrame (streamScrub ses) StreamRecv i m = m) →
  streamTypeOf desc = inr (inferStreamType s) → splitFullMethod method = inr (service, mth) →
  op_of <$> cs = Some <$> ops → follows (wire_messages dirClientToServer l) ops →
  (inferStreamType s = StreamServer → ∃ m cs', cs = CallSend m :: cs') →
  ∃ s1 q, newReplayStream s' desc method σ2 = (σ2, (s1, inr q)) ∧
    (replay_calls {| w_fs := σ2; w_session := s1 |} q cs).2.2 =
    replied (wire_messages dirServerToClient l) (wire_error code msg) cs.
Proof.
  intros Htap Hrep Hfault Hscrub Hty Hsp Hcs Hfollow Hserver.
  destruct (tapped_call_recorded _ _ _ _ _ _ _ _ _ _ _ _ Htap) as
    (Hok & Hsv & Hmt & Hsent & Hrecvd & Hlen & Hcode & rd & σ1 & ses2 & Hrd & Hrec).
  destruct (tc_text _ _ _ _ _ _ _ _ _ _ _ _ Htap) as (Hu1 & Hu2 & Hu3).
  rewrite <-Hsent, <-Hrecvd in *. subst service mth.
  by eapply recorded_stream_intercepted.
Qed.

(** The open of an intercepted call, as the connection makes it. *)
Lemma intercepted_open s s' typ service mth b sends :
  streamScrub s' = streamScrub s → (typ = StreamServer → head sends = Some b) →
  streamOpenFor s' typ service mth (firstOrNil sends) = streamOpen s typ service mth b.
Proof.
  intros Hsc Hb. rewrite streamOpenFor_streamOpen, (streamOpen_scrub s) by done. unfold streamOpen.
  case_bool_decide as Hs; [|done]. apply Hb in Hs. by destruct sends; simplify_eq/=.
Qed.

(** C5. And the other way around. Take a call that the interceptor recorded to its end,
    and a client of a replaying connection on the same cassettes that makes the same call,
    where the directory has no other cassette that it could be taken for: what the
    connection writes reads as the messages that the call received, each once and in order,
    and a status with the code the call ended with. *)
Theorem intercepted_call_served s desc method streamer opened σ cs m t w' l res c id typ service mth fields groups :
  recorded_run s desc method streamer opened σ cs m t w' l res → replays s (k_session c) →
  (∀ i b, scrubFrame (streamScrub s) StreamRecv i b = b) → (∀ p, read_fault p = None) →
  streamTypeOf desc = inr typ → splitFullMethod method = inr (service, mth) →
  splitPath (PseudoValue fields "path") = Some (service, mth) →
  Forall sendable (sent_bytes cs.*1) → Forall sendable (received_bytes (l ++ [ARecv res])) →
  concat groups = sent_bytes cs.*1 → groups ≠ [] →
  only_candidate (λ ty m, cassetteExists fmt_v c ty service mth m (w_fs w')) typ (sent_bytes cs.*1) →
  served werr fmt_v machine_code PseudoValue (w_fs w') (received_bytes (l ++ [ARecv res]))
    (wire_status res).1 (wire_status res).2 id c
    (λ rest, serve_frames werr fmt_v machine_code PseudoValue c
       ((inr <$> call_frames id fields groups) ++ rest) (w_fs w')).
Proof.
  intros Hrun Hrep Hid Hfault Hdesc Hmethod Hpath Hs Hr Hgroups Hne Hcand.
  destruct (recorded_run_reopened _ _ _ _ _ _ _ _ _ _ _ _ _ Hrun Hrep Hid Hfault) as
    (typ' & service' & mth' & b0 & s2 & rp & evs & tail & Hd & Hsp & Hb0 & Ht & Htail & Hrp & Hpp & HT & Hops & _).
  rewrite Hd in Hdesc. injection Hdesc as ->. rewrite Hsp in Hmethod. injection Hmethod as -> ->.
  destruct (teed_bytes _ _ _ Ht) as [Hsent _].
  destruct (final_status res (rr_terminal _ _ _ _ _ _ _ _ _ _ _ _ Hrun)) as (HT' & Hcode & ->).
  rewrite HT' in HT. destruct (final_bytes evs tail cs l m t res Ht Htail) as [Es Er].
  rewrite Es, Er in Hops. destruct Hrep as (_ & _ & _ & Hsc).
  rewrite <-(intercepted_open s (k_session c) typ _ _ b0 (sent_bytes cs.*1)) in Hrp; [|done|].
  - eapply call_served; try done. by apply recorded_trailers.
  - rewrite <-Hsent. exact Hb0.
Qed.
End properties.

(** ** At concrete values *)

Section witnesses.
Local Existing Instance ascii_only.
Local Existing Instance integral_floats.
Local Existing Instance ReferenceYaml.lib.
Local Existing Instance ReferenceYaml.laws.
Local Existing Instance ReferenceStream.slib.
Local Existing Instance ReferenceStream.slaws.
Local Existing Instance no_faults.
Local Existing Instance demo_grpc.
Local Existing Instance demo_status.
Local Existing Instance demo_live.
Local Existing Instance demo_live_laws.

Definition demo_asked : list call :=
  [CallSend (MBytes "hi"); CallRecv (MProto ""); CallSend (MProto "bye"); CallClose; CallRecv (MProto "");
   CallRecv (MProto "")].
Definition demo_told : list answer :=
  [ASend None; ARecv (inr (MProto "one")); ASend None; AClose None; ARecv (inr (MProto "two"));
   ARecv (inl (EStatus 5 "gone" "rpc error: code = 5 desc = gone"))].

(** The bidirectional call of the tap's example, through the interceptor. *)
Lemma tapped_replays_intercepted_witness :
  ∃ s1 q, newReplayStream (demo_session ModeReplay) demo_desc demo_method demo_saved.1 = (demo_saved.1, (s1, inr q)) ∧
    (replay_calls {| w_fs := demo_saved.1; w_session := s1 |} q
       demo_asked).2.2 =
    demo_told.
Proof.
  destruct (tapped_replays_intercepted (newStreamTracker (demo_session ModeRecord)) demo_traffic demo_fs 1 "p.S" "M"
    demo_call 5 "gone" (t_session demo_tracked.2) demo_stream demo_saved.1 (demo_session ModeReplay) demo_desc
    demo_method demo_asked [OpSend "hi"; OpRecv; OpSend "bye"; OpHalfClose; OpRecv; OpRecv] demo_tapped)
    as (s1 & q & Hq & Hl).
  - split_and!; vm_compute; reflexivity.
  - reflexivity.
  - intros i m. vm_compute. reflexivity.
  - vm_compute. reflexivity.
  - vm_compute. reflexivity.
  - reflexivity.
  - by repeat constructor.
  - intros H. vm_compute in H. discriminate H.
  - exists s1, q. split; [exact Hq|]. rewrite Hl. reflexivity.
Defined.

(** The interceptor's example over a connection; the client puts its messages in one frame. *)
Lemma intercepted_call_served_witness :
  served writes_all demo_fmt demo_machine demo_pseudo (w_fs demo_world) ["one"; "two"] 5
    "rpc error: code = 5 desc = gone" 1 demo_conn
    (λ rest, serve_frames writes_all demo_fmt demo_machine demo_pseudo demo_conn
       ((inr <$> call_frames 1 [hf ":path" "/p.S/M"] [["hi"; "bye"]]) ++ rest) (w_fs demo_world)).
Proof.
  apply (intercepted_call_served writes_all (λ _ _, eq_refl) demo_fmt demo_machine demo_pseudo
    (demo_session ModeRecord) demo_desc demo_method demo_streamer 0 demo_fs demo_calls demo_target (demo_ticks 6)
    demo_world demo_answers (inl demo_status_err) demo_conn 1 StreamBidi "p.S" "M" [hf ":path" "/p.S/M"]
    [["hi"; "bye"]] demo_recorded_run).
  - split_and!; reflexivity.
  - reflexivity.
  - reflexivity.
  - reflexivity.
  - vm_compute. reflexivity.
  - vm_compute. reflexivity.
  - repeat (apply Forall_cons; split; [unfold sendable; vm_compute; discriminate|]). apply Forall_nil_2.
  - repeat (apply Forall_cons; split; [unfold sendable; vm_compute; discriminate|]). apply Forall_nil_2.
  - reflexivity.
  - discriminate.
  - split; [by right; right|]. intros ty Hty. rewrite !elem_of_cons, elem_of_nil in Hty.
    destruct Hty as [->|[->|[->|[]]]]; vm_compute; reflexivity.
Defined.
End witnesses.
