(* ===== verification/Glob.v ===== *)
(** Package path's [Match]: shell patterns over names, as the command line's scrub
    lists use them. *)

From S2P Require Import Prelude GoStrings.

Definition ErrBadPattern : err := ENew "syntax error in pattern".

(** [utf8.DecodeRuneInString]: the rune and its width; a malformed byte is U+FFFD
    of width 1, the empty string of width 0. *)
Definition DecodeRune (s : string) : N * nat :=
  match chunks s with
  | [] => (rune_error, 0)
  | c :: _ => (rune_of c, slen (raw_of c))
  end.

Definition star_c : ascii := "*"%char.
Definition open_c : ascii := "["%char.
Definition close_c : ascii := "]"%char.

Fixpoint drop_stars (p : string) : bool * string :=
  match p with
  | String c p' => if bool_decide (c = star_c) then (true, (drop_stars p').2) else (false, p)
  | EmptyString => (false, "")
  end.

(** The bytes up to the next star outside a class. *)
Fixpoint scan (inrange : bool) (p : string) : string * string :=
  let keep c r := (String c r.1, r.2) in
  match p with
  | EmptyString => ("", "")
  | String c p' =>
    if bool_decide (c = backslash) then
      match p' with
      | String d p'' => let r := scan inrange p'' in (String c (String d r.1), r.2)
      | EmptyString => (String c "", "")
      end
    else if bool_decide (c = open_c) then keep c (scan true p')
    else if bool_decide (c = close_c) then keep c (scan false p')
    else if bool_decide (c = star_c) && negb inrange then ("", p)
    else keep c (scan inrange p')
  end.

Definition scanChunk (pattern : string) : bool * (string * string) :=
  let '(star, p) := drop_stars pattern in (star, scan false p).

(** One character of a class, possibly escaped; something must follow it. *)
Definition getEsc (chunk : string) : result (N * string) :=
  match chunk with
  | EmptyString => inl ErrBadPattern
  | String c chunk' =>
    if bool_decide (c = "-"%char) || bool_decide (c = close_c) then inl ErrBadPattern else
    let chunk := if bool_decide (c = backslash) then chunk' else chunk in
    if bool_decide (chunk = "") then inl ErrBadPattern else
    let '(r, n) := DecodeRune chunk in
    if bool_decide (r = rune_error) && bool_decide (n = 1) then inl ErrBadPattern else
    let rest := sdrop n chunk in
    if bool_decide (rest = "") then inl ErrBadPattern else inr (r, rest)
  end.

(** The ranges of a class up to its closing bracket: whether one holds [r], and
    the pattern after it.  Each range takes a byte of the chunk. *)
Fixpoint class_ranges (fuel : nat) (first : bool) (r : N) (hit : bool) (chunk : string)
    : result (bool * string) :=
  match fuel with
  | O => inl ErrBadPattern
  | S fuel' =>
    match first, chunk with
    | false, String "]" chunk' => inr (hit, chunk')
    | _, _ =>
      '(lo, rest) ← getEsc chunk;
      '(hi, rest) ← (match rest with String "-" rest' => getEsc rest' | _ => inr (lo, rest) end);
      class_ranges fuel' false r (hit || ((lo <=? r)%N && (r <=? hi)%N)) rest
    end
  end.

(** [matchChunk]; [None] for the text is a match that has failed, after which only
    the pattern is checked.  Each turn takes a byte of the chunk. *)
Fixpoint matchChunk_go (fuel : nat) (chunk : string) (s : option string) : result (option string) :=
  match fuel, chunk with
  | S fuel', String c chunk' =>
    let s := match s with Some EmptyString => None | _ => s end in
    if bool_decide (c = open_c) then
      let '(r, s) := match s with
                     | Some t => let '(r, n) := DecodeRune t in (r, Some (sdrop n t))
                     | None => (0%N, None)
                     end in
      let '(negated, chunk') := match chunk' with
                                | String "^" p => (true, p)
                                | _ => (false, chunk')
                                end in
      '(hit, rest) ← class_ranges (S (slen chunk')) true r false chunk';
      matchChunk_go fuel' rest (if bool_decide (hit = negated) then None else s)
    else if bool_decide (c = "?"%char) then
      matchChunk_go fuel' chunk'
        (match s with
         | Some (String "/" _) => None
         | Some t => Some (sdrop (DecodeRune t).2 t)
         | None => None
         end)
    else
      let literal c chunk' :=
        matchChunk_go fuel' chunk'
          (match s with
           | Some (String d t) => if bool_decide (c = d) then Some t else None
           | _ => None
           end) in
      if bool_decide (c = backslash) then
        match chunk' with
        | EmptyString => inl ErrBadPattern
        | String d chunk'' => literal d chunk''
        end
      else literal c chunk'
  | _, _ => inr s
  end.

Definition matchChunk (chunk s : string) : result (option string) :=
  matchChunk_go (slen chunk) chunk (Some s).

(** The rest of a pattern that did not match is checked for syntax. *)
Fixpoint check_rest (fuel : nat) (pattern : string) : result bool :=
  match fuel with
  | O => inr false
  | S fuel' =>
    if bool_decide (pattern = "") then inr false else
    let '(_, (chunk, rest)) := scanChunk pattern in
    matchChunk chunk "" ≫= λ _, check_rest fuel' rest
  end.

(** A match after a star: the positions one byte on, two bytes on, ... up to the
    next slash; [last] says that nothing follows the chunk. *)
Fixpoint skip_match (chunk : string) (last : bool) (name : string) : result (option string) :=
  match name with
  | EmptyString => inr None
  | String c name' =>
    if bool_decide (c = "/"%char) then inr None else
    matchChunk chunk name' ≫= λ t,
    match t with
    | Some t' => if last && negb (bool_decide (t' = "")) then skip_match chunk last name' else inr (Some t')
    | None => skip_match chunk last name'
    end
  end.

(** Each turn takes at least a byte of the pattern. *)
Fixpoint match_go (fuel : nat) (pattern name : string) : result bool :=
  match fuel with
  | O => inr false
  | S fuel' =>
    if bool_decide (pattern = "") then inr (bool_decide (name = "")) else
    let '(star, (chunk, rest)) := scanChunk pattern in
    if star && bool_decide (chunk = "") then inr (negb (contains_char name "/"%char)) else
    let last := bool_decide (rest = "") in
    matchChunk chunk name ≫= λ t,
    match t with
    | Some t' =>
      if bool_decide (t' = "") || negb last then match_go fuel' rest t'
      else if star then
        skip_match chunk last name ≫= λ u,
        match u with Some u' => match_go fuel' rest u' | None => check_rest (slen rest) rest end
      else check_rest (slen rest) rest
    | None =>
      if star then
        skip_match chunk last name ≫= λ u,
        match u with Some u' => match_go fuel' rest u' | None => check_rest (slen rest) rest end
      else check_rest (slen rest) rest
    end
  end.

Definition path_Match (pattern name : string) : result bool := match_go (S (slen pattern)) pattern name.

Example Match_star : path_Match "AWS_*" "AWS_SECRET_KEY" = inr true.
Proof. vm_compute. reflexivity. Qed.
Example Match_class : path_Match "[A-C]?\*[^x]" "BZ*y" = inr true.
Proof. vm_compute. reflexivity. Qed.
Example Match_slash : path_Match "a*c" "a/c" = inr false.
Proof. vm_compute. reflexivity. Qed.
Example Match_bad : path_Match "a[" "b" = inl ErrBadPattern.
Proof. vm_compute. reflexivity. Qed.
Example Match_stars : path_Match "*TOKEN*" "MY_TOKEN_2" = inr true.
Proof. vm_compute. reflexivity. Qed.

(** ** More fuel changes nothing *)

Lemma DecodeRune_width s : s ≠ "" → 0 < (DecodeRune s).2.
Proof.
  intros Hs. unfold DecodeRune. destruct (chunks_step s) as [[-> _]|(c & rest & E & -> & Hlt)]; [done|].
  rewrite E, slen_app in Hlt. simpl. lia.
Qed.

Lemma getEsc_shorter chunk r rest : getEsc chunk = inr (r, rest) → slen rest < slen chunk.
Proof.
  unfold getEsc. destruct chunk as [|c chunk']; [done|].
  destruct (bool_decide (c = "-"%char) || bool_decide (c = close_c)); [discriminate|].
  set (ch := if bool_decide (c = backslash) then chunk' else String c chunk').
  assert (slen ch ≤ slen (String c chunk')) as Hl by (unfold ch; destruct (bool_decide (c = backslash)); simpl; lia).
  clearbody ch.
  case_bool_decide as Hne; [done|]. pose proof (DecodeRune_width ch Hne) as Hn.
  destruct (DecodeRune ch) as [q n]. destruct (bool_decide (q = rune_error) && bool_decide (n = 1)); [discriminate|].
  destruct (bool_decide (sdrop n ch = "")); [discriminate|].
  intros [= <- <-]. rewrite slen_sdrop. simpl in Hn.
  assert (slen ch ≠ 0) by (by destruct ch). lia.
Qed.

Definition range_end (lo : N) (rest : string) : result (N * string) :=
  match rest with String "-" rest' => getEsc rest' | _ => inr (lo, rest) end.

Lemma range_end_shorter lo rest hi rest' : range_end lo rest = inr (hi, rest') → slen rest' ≤ slen rest.
Proof.
  unfold range_end. destruct rest as [|c rest0]; [by intros [= _ <-]|].
  destruct (decide (c = "-"%char)) as [->|Hc].
  - intros H%getEsc_shorter. simpl. lia.
  - intros H. assert (inr (lo, String c rest0) = (inr (hi, rest') : result _)) as E.
    { rewrite <-H. destruct c as [[] [] [] [] [] [] [] []]; done. }
    by injection E as _ <-.
Qed.

(** One range of a class. *)
Definition class_turn (fuel : nat) (r : N) (hit : bool) (chunk : string) : result (bool * string) :=
  '(lo, rest) ← getEsc chunk;
  '(hi, rest) ← range_end lo rest;
  class_ranges fuel false r (hit || ((lo <=? r)%N && (r <=? hi)%N)) rest.

Lemma class_cases first r hit chunk :
  (∃ rest, slen rest < slen chunk ∧ ∀ fuel, class_ranges (S fuel) first r hit chunk = inr (hit, rest)) ∨
  (∀ fuel, class_ranges (S fuel) first r hit chunk = class_turn fuel r hit chunk).
Proof.
  destruct first; [by right|]. destruct chunk as [|c rest]; [by right|].
  destruct (decide (c = close_c)) as [->|Hc].
  - left. exists rest. split; [simpl; lia|done].
  - right. destruct c as [[] [] [] [] [] [] [] []]; done.
Qed.

Lemma class_turn_inv fuel r hit chunk x :
  class_turn fuel r hit chunk = x →
  (∃ e, ∀ fuel, class_turn fuel r hit chunk = inl e) ∨
  (∃ h rest, slen rest < slen chunk ∧ ∀ fuel, class_turn fuel r hit chunk = class_ranges fuel false r h rest).
Proof.
  intros _. unfold class_turn. destruct (getEsc chunk) as [e|[lo rest]] eqn:E1; [by left; exists e|].
  apply getEsc_shorter in E1. cbn [mbind result_bind].
  destruct (range_end lo rest) as [e|[hi rest']] eqn:E2; [by left; exists e|].
  apply range_end_shorter in E2. right. eexists _, rest'. split; [lia|done].
Qed.

Lemma class_ranges_shorter fuel first r hit chunk h rest :
  class_ranges fuel first r hit chunk = inr (h, rest) → slen rest < slen chunk.
Proof.
  revert first hit chunk. induction fuel as [|fuel IH]; intros first hit chunk; [done|].
  destruct (class_cases first r hit chunk) as [(rest' & Hl & E)|E]; rewrite E.
  { by intros [= _ <-]. }
  destruct (class_turn_inv fuel r hit chunk _ eq_refl) as [[e E']|(h' & rest' & Hl & E')]; rewrite E'; [done|].
  intros H%IH. lia.
Qed.

Lemma class_ranges_fuel f1 f2 first r hit chunk :
  slen chunk < f1 → slen chunk < f2 → class_ranges f1 first r hit chunk = class_ranges f2 first r hit chunk.
Proof.
  revert f2 first hit chunk. induction f1 as [|f1 IH]; intros [|f2] first hit chunk H1 H2; try lia.
  destruct (class_cases first r hit chunk) as [(rest & Hl & E)|E]; rewrite !E; [done|].
  destruct (class_turn_inv f1 r hit chunk _ eq_refl) as [[e E']|(h & rest & Hl & E')]; rewrite !E'; [done|].
  apply IH; lia.
Qed.

Lemma matchChunk_fuel f1 f2 chunk s :
  slen chunk ≤ f1 → slen chunk ≤ f2 → matchChunk_go f1 chunk s = matchChunk_go f2 chunk s.
Proof.
  revert f2 chunk s. induction f1 as [|f1 IH]; intros [|f2] chunk s H1 H2; destruct chunk as [|c chunk];
    cbn [slen] in *; try lia; try done.
  cbn [matchChunk_go]. set (s0 := match s with Some EmptyString => None | _ => s end). clearbody s0.
  case_bool_decide.
  - destruct (match s0 with Some t => _ | None => _ end) as [r s1].
    set (x := match chunk with String "^" p => (true, p) | _ => (false, chunk) end).
    assert (slen x.2 ≤ slen chunk) as Hx.
    { subst x. destruct chunk as [|d chunk]; [done|].
      destruct d as [[] [] [] [] [] [] [] []]; simpl; lia. }
    destruct x as [negated ch]. simpl in Hx.
    destruct (class_ranges _ true r false ch) as [e|[hit rest]] eqn:E; [done|].
    apply class_ranges_shorter in E. apply IH; lia.
  - case_bool_decide; [apply IH; lia|]. case_bool_decide; [|apply IH; lia].
    destruct chunk as [|d chunk]; [done|]. cbn [slen] in *. apply IH; lia.
Qed.

(** The rest behind a chunk is shorter than the pattern. *)
Lemma scan_shorter b p : slen (scan b p).2 ≤ slen p.
Proof.
  revert b. induction p as [p IH] using string_len_ind. intros b. destruct p as [|c p]; [done|].
  cbn [scan]. assert (∀ q, slen q < slen (String c p) → ∀ b, slen (scan b q).2 ≤ slen (String c p)) as H.
  { intros q Hq b'. pose proof (IH q Hq b'). lia. }
  case_bool_decide.
  - destruct p as [|d p]; simpl; [lia|]. apply H. simpl. lia.
  - repeat case_match; simpl; try lia; apply H; simpl; lia.
Qed.

Lemma drop_stars_shorter p : slen (drop_stars p).2 ≤ slen p ∧ ((drop_stars p).1 = true → slen (drop_stars p).2 < slen p).
Proof. induction p as [|c p [IH1 IH2]]; simpl; [done|]. case_bool_decide; simpl; lia || done. Qed.

Lemma scanChunk_shorter p star chunk rest :
  p ≠ "" → scanChunk p = (star, (chunk, rest)) → slen rest < slen p.
Proof.
  intros Hp. unfold scanChunk. pose proof (drop_stars_shorter p) as [H1 H2].
  destruct (drop_stars p) as [st q] eqn:E. intros [= -> E2]. simpl in *.
  destruct star; [pose proof (scan_shorter false q) as H; rewrite E2 in H; simpl in H; specialize (H2 eq_refl); lia|].
  destruct p as [|c p]; [done|]. simpl in E. case_bool_decide as Hc; [done|]. injection E as <-.
  cbn [scan] in E2. assert (∀ b r, scan b p = r → slen r.2 < slen (String c p)) as Hs.
  { intros b r <-. pose proof (scan_shorter b p). simpl. lia. }
  case_bool_decide.
  - destruct p as [|d p]; injection E2 as _ <-; simpl; [lia|]. pose proof (scan_shorter false p). lia.
  - rewrite (bool_decide_eq_false_2 _ Hc) in E2. cbn [andb] in E2.
    repeat case_bool_decide; injection E2 as _ <-; by eapply Hs.
Qed.

Lemma check_rest_fuel f1 f2 p : slen p ≤ f1 → slen p ≤ f2 → check_rest f1 p = check_rest f2 p.
Proof.
  revert f2 p. induction f1 as [|f1 IH]; intros [|f2] p H1 H2; [done|..]; cbn [check_rest];
    (destruct (decide (p = "")) as [->|Hp]; [done|]); try (destruct p; simpl in *; lia || done).
  rewrite (bool_decide_eq_false_2 _ Hp). destruct (scanChunk p) as [star [chunk rest]] eqn:E.
  apply scanChunk_shorter in E; [|done]. destruct (matchChunk chunk ""); [done|]. apply IH; lia.
Qed.

(** The bound of [path_Match] is enough: with more fuel, for the whole and for each chunk, the
    answer is the same. *)
Theorem path_Match_fuel f pattern name :
  slen pattern < f → match_go f pattern name = path_Match pattern name.
Proof.
  unfold path_Match. intros Hf. revert name.
  assert (∀ f1 f2 p name, slen p < f1 → slen p < f2 → match_go f1 p name = match_go f2 p name) as H;
    [|intros name; apply H; lia].
  clear. induction f1 as [|f1 IH]; intros [|f2] p name H1 H2; try lia. cbn [match_go].
  case_bool_decide as Hp; [done|]. destruct (scanChunk p) as [star [chunk rest]] eqn:E.
  apply scanChunk_shorter in E; [|done].
  assert (∀ t, match_go f1 rest t = match_go f2 rest t) as Hgo by (intros t; apply IH; lia).
  case_match; [done|]. destruct (matchChunk chunk name) as [|[t|]]; cbn [mbind result_bind]; [done|..].
  - rewrite Hgo. destruct (_ || _); [done|]. destruct star; [|done].
    destruct (skip_match _ _ _) as [|[u|]]; [done|apply Hgo|done].
  - destruct star; [|done]. destruct (skip_match _ _ _) as [|[u|]]; [done|apply Hgo|done].
Qed.
