(* ===== verification/CliConfig.v ===== *)
(** go/cmd/xrr: config.go, config_file.go, the names of platform.go and the
    option resolution of run.go - from configuration layers to the configuration
    a run hands to its shims. *)

From S2P Require Import Prelude GoStrings Redact Os Session Glob.

(** ** Names (config.go, platform.go) *)

Definition contains (s : list string) (v : string) : bool := existsb (λ x, bool_decide (x = v)) s.

(** [listFlag.Set]: comma-separated, trimmed, without repetition. *)
Definition listFlag_Set (l : list string) (v : string) : list string :=
  foldl (λ l p, let p := TrimSpace p in
                if bool_decide (p = "") || contains l p then l else l ++ [p])
        l (Split1 v ","%char).

Section names.
Context {U : Unicode}.

Definition name_bad_char (c : ascii) : bool :=
  bool_decide (c ∈ [slash; backslash; "000"; " "; "009"; "010"]%char).

(** [None] when the name is valid. *)
Definition validCommandName (n : string) : option err :=
  if bool_decide (n = "") || bool_decide (n = ".") || bool_decide (n = "..")
  then Some (ENew ("invalid command name " +:+ Quote n)) else
  if negb (sall (λ c, negb (name_bad_char c)) n)
  then Some (ENew ("command name " +:+ Quote n +:+
                   " must be a bare name (no path separators or spaces)")) else None.

Definition isWindows (goos : string) : bool := bool_decide (goos = "windows").

Definition exeExts : list string := [".exe"; ".com"; ".bat"; ".cmd"].

Fixpoint drop_ext (n : string) (exts : list string) : string :=
  match exts with
  | [] => n
  | e :: exts' => if HasSuffix n e && (slen e <? slen n)%nat then TrimSuffix n e else drop_ext n exts'
  end.

Definition cassetteName (name : string) : string := drop_ext (ToLower name) exeExts.

Definition shimFileName (name goos : string) : string :=
  if isWindows goos && negb (HasSuffix (ToLower name) ".exe") then name +:+ ".exe" else name.

Definition inNames (l : list string) (name : string) : bool :=
  existsb (λ x, bool_decide (cassetteName x = cassetteName name)) l.

(** The loop of [checkCollisions]: entries with their list's name against the
    last entry of each cassette name. *)
Definition same_command (prev_list prev_entry l e c : string) : err :=
  ENew (prev_list +:+ " " +:+ Quote prev_entry +:+ " and " +:+ l +:+ " " +:+ Quote e +:+
        " are the same command " +:+ Quote c +:+
        " (cassette names ignore case and one .exe/.com/.bat/.cmd suffix)").

Fixpoint collide (byName : gmap string (string * string)) (es : list (string * string)) : option err :=
  match es with
  | [] => None
  | (e, l) :: es' =>
    let c := cassetteName e in
    match byName !! c with
    | Some (pe, pl) =>
      if negb (bool_decide (pe = e) && bool_decide (pl = l)) then Some (same_command pl pe l e c)
      else collide (<[c := (e, l)]> byName) es'
    | None => collide (<[c := (e, l)]> byName) es'
    end
  end.

Definition tagged (shim deny : list string) : list (string * string) :=
  ((λ e, (e, "shim")) <$> shim) ++ ((λ e, (e, "deny")) <$> deny).

Definition checkCollisions (shim deny : list string) : option err := collide ∅ (tagged shim deny).

(** ** Configuration of a run (config.go) *)

Definition defaultDeny : list string :=
  ["open"; "xdg-open"; "wslview"; "explorer.exe"; "start"; "sendmail"; "mail"; "osascript"; "say";
   "pbcopy"; "notify-send"; "rundll32.exe"; "mshta.exe"; "clip.exe"; "msg.exe"; "wscript.exe";
   "cscript.exe"].

Record runConfig := {
  c_Mode : string;
  c_CassetteDir : string;
  c_RealPath : string;
  c_Strict : bool;
  c_Deny : list string;
  c_EnvCapture : list string;
  c_ScrubDeny : list string;
  c_ScrubAllow : list string;
  c_Cmds : gmap string string;
  c_StdinWaitMs : Z;
}.

(** With several case variants of a file name the iteration order of the map
    would decide; the first in its list form stands for it. *)
Definition cmdFor (c : runConfig) (file goos : string) : string :=
  match c_Cmds c !! file with
  | Some n => n
  | None =>
    if isWindows goos then
      match List.find (λ '(f, _), EqualFold f file) (map_to_list (c_Cmds c)) with
      | Some (_, n) => n
      | None => file
      end
    else file
  end.
End names.

(** ** Layers (config_file.go) *)

Record settings := {
  s_Mode : option string;
  s_Cassettes : option string;
  s_Shim : list string;
  s_Deny : list string;
  s_NoDefaultDeny : option bool;
  s_Strict : option bool;
  s_Env : list string;
  s_StdinWait : option string;
  s_ReportFile : option string;
  s_ScrubAllow : list string;
  s_ScrubDeny : list string;
}.

Definition no_settings : settings :=
  {| s_Mode := None; s_Cassettes := None; s_Shim := []; s_Deny := []; s_NoDefaultDeny := None;
     s_Strict := None; s_Env := []; s_StdinWait := None; s_ReportFile := None; s_ScrubAllow := [];
     s_ScrubDeny := [] |}.

Definition union (a b : list string) : list string :=
  foldl (λ out v, if contains out v then out else out ++ [v]) [] (a ++ b).

Definition pick {A} (lo hi : option A) : option A := match hi with Some v => Some v | None => lo end.

Definition mergeSettings (lo hi : settings) : settings :=
  {| s_Mode := pick (s_Mode lo) (s_Mode hi);
     s_Cassettes := pick (s_Cassettes lo) (s_Cassettes hi);
     s_Shim := union (s_Shim lo) (s_Shim hi);
     s_Deny := union (s_Deny lo) (s_Deny hi);
     s_NoDefaultDeny := pick (s_NoDefaultDeny lo) (s_NoDefaultDeny hi);
     s_Strict := pick (s_Strict lo) (s_Strict hi);
     s_Env := union (s_Env lo) (s_Env hi);
     s_StdinWait := pick (s_StdinWait lo) (s_StdinWait hi);
     s_ReportFile := pick (s_ReportFile lo) (s_ReportFile hi);
     s_ScrubAllow := union (s_ScrubAllow lo) (s_ScrubAllow hi);
     s_ScrubDeny := union (s_ScrubDeny lo) (s_ScrubDeny hi) |}.

Definition projectConfigName : string := ".xrr.yaml".
Definition userConfigRel : string := "xrr/config.yaml".

Definition userConfigPath (getenv : string → string) : string :=
  if bool_decide (getenv "XDG_CONFIG_HOME" ≠ "")
  then filepath_Join [getenv "XDG_CONFIG_HOME"; userConfigRel] else
  if bool_decide (getenv "HOME" ≠ "")
  then filepath_Join [getenv "HOME"; ".config"; userConfigRel] else
  if bool_decide (getenv "APPDATA" ≠ "") then filepath_Join [getenv "APPDATA"; userConfigRel] else "".

(** yaml.v3's decoder with known fields only, on empty settings, and
    [time.ParseDuration] in nanoseconds (its fractions go through floating
    point). *)
Class ConfigLib := {
  decodeSettings : string → settings * option err;
  ParseDuration : string → option Z;
}.

Section layers.
Context {U : Unicode} {O : Faults} {C : ConfigLib}.

Definition validMode (m : string) : option err :=
  if known_mode m then None
  else Some (ENew ("invalid mode " +:+ Quote m +:+ " (want record|replay|passthrough)")).

(** The first failure of a list of checks. *)
Fixpoint first_err (l : list (option err)) : option err :=
  match l with
  | [] => None
  | Some e :: _ => Some e
  | None :: l' => first_err l'
  end.

Definition validatePatterns (flagName : string) (patterns : list string) : option err :=
  first_err (map (λ p, match path_Match p "" with
                       | inr _ => None
                       | inl e => Some (EWrap (flagName +:+ ": bad pattern " +:+ Quote p +:+ ": ") e)
                       end) patterns).

Definition validStdinWait (w : string) : option err :=
  match ParseDuration w with
  | Some _ => None
  | None => Some (ENew ("stdin_wait " +:+ Quote w +:+ ": want a duration like 250ms"))
  end.

Definition validate (s : settings) : option err :=
  first_err
    ([s_Mode s ≫= validMode; s_StdinWait s ≫= validStdinWait] ++
     map validCommandName (s_Shim s ++ s_Deny s) ++
     [validatePatterns "scrub.deny" (s_ScrubDeny s); validatePatterns "scrub.allow" (s_ScrubAllow s)]).

Definition IsAbs (p : string) : bool := HasPrefix p "/".

Definition rebase (dir : string) (p : option string) : option string :=
  (λ p, if bool_decide (p ≠ "") && negb (IsAbs p) then filepath_Join [dir; p] else p) <$> p.

(** The file's relative paths against its own directory. *)
Definition rebased (dir : string) (s : settings) : settings :=
  {| s_Mode := s_Mode s; s_Cassettes := rebase dir (s_Cassettes s); s_Shim := s_Shim s;
     s_Deny := s_Deny s; s_NoDefaultDeny := s_NoDefaultDeny s; s_Strict := s_Strict s;
     s_Env := s_Env s; s_StdinWait := s_StdinWait s; s_ReportFile := rebase dir (s_ReportFile s);
     s_ScrubAllow := s_ScrubAllow s; s_ScrubDeny := s_ScrubDeny s |}.

Definition in_config (path : string) (e : err) : err := EWrap ("config " +:+ path +:+ ": ") e.

Definition loadFile (path : string) (required : bool) : io settings := λ σ,
  match ReadFile path σ with
  | (σ, inl e) =>
    if IsNotExist e && negb required then (σ, inr no_settings) else (σ, inl (in_config path e))
  | (σ, inr b) =>
    let '(s, e) := decodeSettings b in
    match (match e with Some e => if errors_is e SEOF then None else Some e | None => None end) with
    | Some e => (σ, inl (in_config path e))
    | None =>
      let s := rebased (filepath_Dir path) s in
      match validate s with
      | Some e => (σ, inl (in_config path e))
      | None => (σ, inr s)
      end
    end
  end.

(** [strconv.ParseBool]. *)
Definition ParseBool (v : string) : option bool :=
  if bool_decide (v ∈ ["1"; "t"; "T"; "true"; "TRUE"; "True"]) then Some true else
  if bool_decide (v ∈ ["0"; "f"; "F"; "false"; "FALSE"; "False"]) then Some false else None.

Definition env_string (getenv : string → string) (name : string) : option string :=
  let v := getenv name in if bool_decide (v = "") then None else Some v.
Definition env_list (getenv : string → string) (name : string) : list string :=
  let v := getenv name in if bool_decide (v = "") then [] else listFlag_Set [] v.
Definition env_bool (getenv : string → string) (name : string) : result (option bool) :=
  let v := getenv name in
  if bool_decide (v = "") then inr None else
  match ParseBool v with
  | Some b => inr (Some b)
  | None => inl (ENew (name +:+ "=" +:+ Quote v +:+ ": want a boolean"))
  end.

(** Of two booleans that do not parse, the iteration order of the source's map
    decides which is named. *)
Definition envSettings (getenv : string → string) : result settings :=
  strict ← env_bool getenv "XRR_STRICT";
  noDefaultDeny ← env_bool getenv "XRR_NO_DEFAULT_DENY";
  let s := {| s_Mode := env_string getenv "XRR_MODE";
              s_Cassettes := env_string getenv "XRR_CASSETTE_DIR";
              s_Shim := env_list getenv "XRR_SHIM"; s_Deny := env_list getenv "XRR_DENY";
              s_NoDefaultDeny := noDefaultDeny; s_Strict := strict;
              s_Env := env_list getenv "XRR_ENV"; s_StdinWait := env_string getenv "XRR_STDIN_WAIT";
              s_ReportFile := env_string getenv "XRR_REPORT_FILE";
              s_ScrubAllow := env_list getenv "XRR_NO_SCRUB";
              s_ScrubDeny := env_list getenv "XRR_SCRUB" |} in
  match validate s with
  | Some e => inl (EWrap "environment: " e)
  | None => inr s
  end.

Definition checkConflicts (s : settings) : option err :=
  first_err
    (map (λ n, if contains (s_ScrubAllow s) n
               then Some (ENew (Quote n +:+ " is in both scrub.deny (--scrub) and scrub.allow (--no-scrub)"))
               else None) (s_ScrubDeny s) ++
     map (λ n, if contains (s_Deny s) n
               then Some (ENew (Quote n +:+ " is in both shim and deny")) else None) (s_Shim s)).

Definition loadLayers (configPath : string) (flags : settings) (getenv : string → string) : io settings :=
  user ← (let p := userConfigPath getenv in
          if bool_decide (p = "") then mret no_settings else loadFile p false);
  project ← (if bool_decide (configPath ≠ "") then loadFile configPath true
             else loadFile projectConfigName false);
  env ← lift (envSettings getenv);
  let merged := mergeSettings (mergeSettings (mergeSettings user project) env) flags in
  match checkConflicts merged with
  | Some e => throw e
  | None => mret merged
  end.

(** ** Options (config_file.go, run.go) *)

Record runOpts := {
  o_mode : string;
  o_cassettes : string;
  o_reportFile : string;
  o_shim : list string;
  o_deny : list string;
  o_env : list string;
  o_scrubDeny : list string;
  o_scrubAllow : list string;
  o_noDefaultDeny : bool;
  o_strict : bool;
  o_stdinWait : Z;
}.

Definition millisecond : Z := 1000000.

Definition toOpts (s : settings) : runOpts :=
  {| o_mode := default "replay" (s_Mode s);
     o_cassettes := match s_Cassettes s with
                    | Some d => if bool_decide (d = "") then "cassettes" else d
                    | None => "cassettes"
                    end;
     o_reportFile := default "" (s_ReportFile s);
     o_shim := s_Shim s; o_deny := s_Deny s; o_env := s_Env s;
     o_scrubDeny := s_ScrubDeny s; o_scrubAllow := s_ScrubAllow s;
     o_noDefaultDeny := default false (s_NoDefaultDeny s);
     o_strict := default true (s_Strict s);
     o_stdinWait := match s_StdinWait s with
                    | Some w => default 0%Z (ParseDuration w)
                    | None => (250 * millisecond)%Z
                    end |}.

Definition prepareCassetteDir (mode dir : string) : io unit := λ σ,
  match Stat dir σ with
  | (σ, inr true) => (σ, inr tt)
  | (σ, inr false) => (σ, inl (ENew ("cassette path " +:+ Quote dir +:+ " is not a directory")))
  | (σ, inl e) =>
    if IsNotExist e then
      if bool_decide (mode = ModeRecord) then MkdirAll dir σ
      else (σ, inl (ENew ("cassette directory " +:+ Quote dir +:+
                          " does not exist (nothing to replay; use --mode record first)")))
    else (σ, inl e)
  end.

(** The deny list with the built-in side-effect set. *)
Definition add_default_deny (shim deny : list string) : list string :=
  foldl (λ deny d, if negb (inNames shim d) && negb (inNames deny d) then deny ++ [d] else deny)
        deny defaultDeny.

Definition cmds_of (names : list string) (goos : string) : gmap string string :=
  foldl (λ m n, <[shimFileName n goos := n]> m) ∅ names.

(** [filepath.Abs] against the working directory [cwd]. *)
Definition filepath_Abs (cwd p : string) : string := if IsAbs p then Clean p else filepath_Join [cwd; p].

Definition resolve (cwd goos : string) (getenv : string → string) (o : runOpts) (child : list string)
    : io (runConfig * list string) :=
  if bool_decide (child = []) then
    throw (ENew "no command to run (usage: xrr run [flags] -- <cmd> [args...])")
  else
  (if bool_decide (o_mode o = ModePassthrough) then mret tt
   else if bool_decide (o_shim o = []) then
     throw (ENew ("--shim is required in " +:+ o_mode o +:+ " mode"))
   else prepareCassetteDir (o_mode o) (o_cassettes o));;
  match checkCollisions (o_shim o) (o_deny o) with
  | Some e => throw e
  | None =>
    let deny := if o_noDefaultDeny o then o_deny o else add_default_deny (o_shim o) (o_deny o) in
    mret ({| c_Cmds := cmds_of (o_shim o ++ deny) goos; c_Mode := o_mode o;
             c_CassetteDir := filepath_Abs cwd (o_cassettes o); c_RealPath := getenv "PATH";
             c_Strict := o_strict o; c_Deny := deny; c_EnvCapture := o_env o;
             c_ScrubDeny := o_scrubDeny o; c_ScrubAllow := o_scrubAllow o;
             c_StdinWaitMs := Z.quot (o_stdinWait o) millisecond |}, child)
  end.
End layers.

(** ** Lists without repetition *)

Lemma contains_spec l v : contains l v ↔ v ∈ l.
Proof.
  unfold contains. rewrite existsb_spec. split.
  - by intros (x & Hx & ->%bool_decide_unpack).
  - intros Hv. exists v. split; [done|]. by apply bool_decide_pack.
Qed.

Lemma contains_true l v : contains l v = true ↔ v ∈ l.
Proof. rewrite <-contains_spec. symmetry. apply Is_true_true. Qed.

Lemma contains_false l v : contains l v = false ↔ v ∉ l.
Proof. rewrite <-contains_true. by destruct (contains l v). Qed.

(** Appending what is not there yet. *)
Lemma add_new_spec l acc :
  NoDup acc →
  let out := foldl (λ out v, if contains out v then out else out ++ [v]) acc l in
  NoDup out ∧ acc `prefix_of` out ∧ ∀ x, x ∈ out ↔ x ∈ acc ∨ x ∈ l.
Proof.
  cbv zeta. revert acc. induction l as [|v l IH]; intros acc Hnd; simpl.
  { split_and!; [done|done|]. intros x. rewrite elem_of_nil. naive_solver. }
  destruct (contains acc v) eqn:E.
  - apply contains_true in E. destruct (IH acc Hnd) as (H1 & H2 & H3). split_and!; [done|done|].
    intros x. rewrite H3, elem_of_cons. naive_solver.
  - apply contains_false in E. destruct (IH (acc ++ [v])) as (H1 & H2 & H3).
    { apply NoDup_app. split_and!; [done| |by apply NoDup_singleton].
      intros x Hx ->%list_elem_of_singleton. done. }
    split_and!; [done| |].
    + etrans; [|exact H2]. by apply prefix_app_r.
    + intros x. rewrite H3, elem_of_app, list_elem_of_singleton, elem_of_cons. naive_solver.
Qed.

Lemma union_NoDup a b : NoDup (union a b).
Proof. apply (add_new_spec (a ++ b) []). constructor. Qed.

Lemma elem_of_union a b x : x ∈ union a b ↔ x ∈ a ∨ x ∈ b.
Proof.
  destruct (add_new_spec (a ++ b) [] (NoDup_nil_2)) as (_ & _ & H). unfold union.
  rewrite H, elem_of_nil, elem_of_app. naive_solver.
Qed.

(** ** Failures *)

Lemma first_err_None l : first_err l = None ↔ Forall (λ x, x = None) l.
Proof.
  induction l as [|[e|] l IH]; simpl.
  - by split.
  - split; [done|]. intros H. by apply Forall_cons in H as [? _].
  - rewrite IH, Forall_cons. naive_solver.
Qed.

(** ** Collisions *)

Section collisions.
Context {U : Unicode}.

Lemma collide_spec m es :
  collide m es = None ↔
  (∀ x v, x ∈ es → m !! cassetteName x.1 = Some v → v = x) ∧
  (∀ x y, x ∈ es → y ∈ es → cassetteName x.1 = cassetteName y.1 → x = y).
Proof.
  revert m. induction es as [|[e l] es IH]; intros m; cbn [collide].
  { split; [|done]. intros _. split; [intros x v Hx|intros x y Hx]; by apply elem_of_nil in Hx. }
  assert (∀ v, m !! cassetteName e = v → (v = None ∨ v = Some (e, l)) →
    collide (<[cassetteName e := (e, l)]> m) es = None ↔
    (∀ x v, x ∈ (e, l) :: es → m !! cassetteName x.1 = Some v → v = x) ∧
    (∀ x y, x ∈ (e, l) :: es → y ∈ (e, l) :: es → cassetteName x.1 = cassetteName y.1 → x = y)) as Hstep.
  { intros v Hv Hor. rewrite IH. split.
    - intros [H1 H2]. assert (∀ x, x ∈ es → cassetteName x.1 = cassetteName e → x = (e, l)) as He.
      { intros x Hx Hc. symmetry. apply (H1 x (e, l) Hx). by rewrite Hc, lookup_insert_eq. }
      split.
      + intros x w [->|Hx]%elem_of_cons Hw; simpl in *; [naive_solver|].
        destruct (decide (cassetteName x.1 = cassetteName e)) as [Hc|Hc].
        * rewrite (He x Hx Hc) in *. simpl in *. naive_solver.
        * apply (H1 x w Hx). by rewrite lookup_insert_ne by congruence.
      + intros x y [->|Hx]%elem_of_cons [->|Hy]%elem_of_cons Hc; simpl in *; [done| | |by apply H2].
        * symmetry. by apply He.
        * by apply He.
    - intros [H1 H2]. split.
      + intros x w Hx Hw. destruct (decide (cassetteName x.1 = cassetteName e)) as [Hc|Hc].
        * rewrite Hc, lookup_insert_eq in Hw. injection Hw as <-.
          apply H2; [by constructor|by apply list_elem_of_further|done].
        * rewrite lookup_insert_ne in Hw by congruence. apply (H1 x w); [by apply list_elem_of_further|done].
      + intros x y Hx Hy. by apply H2; apply list_elem_of_further. }
  destruct (m !! cassetteName e) as [[pe pl]|] eqn:Em; [|by apply (Hstep None); auto].
  destruct (decide ((pe, pl) = (e, l))) as [Heq|Hne].
  - injection Heq as -> ->. rewrite !bool_decide_eq_true_2 by done. simpl.
    apply (Hstep (Some (e, l))); [congruence|by right].
  - assert (negb (bool_decide (pe = e) && bool_decide (pl = l)) = true) as ->.
    { apply negb_true_iff, andb_false_iff. destruct (decide (pe = e)) as [->|].
      - right. apply bool_decide_eq_false_2. congruence.
      - left. by apply bool_decide_eq_false_2. }
    split; [done|]. intros [H1 _]. exfalso. apply Hne. apply (H1 (e, l) (pe, pl)); [by constructor|done].
Qed.

Lemma elem_of_tagged shim deny e l :
  (e, l) ∈ tagged shim deny ↔ e ∈ shim ∧ l = "shim" ∨ e ∈ deny ∧ l = "deny".
Proof.
  unfold tagged. rewrite elem_of_app, !list_elem_of_fmap. naive_solver.
Qed.

Lemma checkCollisions_apart shim deny x y :
  checkCollisions shim deny = None → x ∈ shim → y ∈ deny → cassetteName x ≠ cassetteName y.
Proof.
  intros [_ H]%collide_spec Hx Hy Hc.
  assert ((x, "shim") = (y, "deny")) as Heq; [|by injection Heq].
  apply H; [apply elem_of_tagged; auto..|done].
Qed.

Lemma inNames_spec l n : inNames l n ↔ ∃ x, x ∈ l ∧ cassetteName x = cassetteName n.
Proof.
  unfold inNames. rewrite existsb_spec. split.
  - intros (x & Hx & Hc%bool_decide_unpack). eauto.
  - intros (x & Hx & Hc). exists x. split; [done|]. by apply bool_decide_pack.
Qed.

(** The deny list keeps its own entries, gains default ones only, none of which
    is shimmed, and ends up naming every default one that is not. *)
Lemma add_default_deny_spec shim deny :
  deny `prefix_of` add_default_deny shim deny ∧
  (∀ d, d ∈ add_default_deny shim deny → d ∈ deny ∨ d ∈ defaultDeny ∧ ¬ inNames shim d) ∧
  (∀ d, d ∈ defaultDeny → inNames shim d ∨ inNames (add_default_deny shim deny) d).
Proof.
  unfold add_default_deny. generalize defaultDeny as ds. intros ds. revert deny.
  induction ds as [|d ds IH]; intros deny; simpl.
  { split_and!; [done|auto|]. intros d Hd. by apply elem_of_nil in Hd. }
  set (deny' := if negb (inNames shim d) && negb (inNames deny d) then deny ++ [d] else deny).
  destruct (IH deny') as (H1 & H2 & H3).
  assert (deny `prefix_of` deny') as Hp.
  { unfold deny'. destruct (_ && _); [by apply prefix_app_r|done]. }
  split_and!.
  - by etrans.
  - intros x Hx. apply H2 in Hx as [Hx|[Hx Hn]].
    + unfold deny' in Hx. destruct (negb (inNames shim d) && negb (inNames deny d)) eqn:E; [|auto].
      apply elem_of_app in Hx as [Hx| ->%list_elem_of_singleton]; [auto|].
      right. split; [by constructor|]. apply andb_true_iff in E as [E%negb_true_iff _]. rewrite E. by intros [].
    + right. split; [by constructor|done].
  - intros x [->|Hx]%elem_of_cons; [|by apply H3].
    destruct (inNames shim d) eqn:Es; [by left|]. right. apply inNames_spec.
    destruct (inNames deny d) eqn:Ed.
    + apply Is_true_true_2, inNames_spec in Ed as (y & Hy & Hc). exists y. split; [|done].
      eapply elem_of_prefix; [|exact H1]. by eapply elem_of_prefix; [|exact Hp].
    + exists d. split; [|done]. eapply elem_of_prefix; [|exact H1]. unfold deny'. simpl.
      apply elem_of_app. right. by constructor.
Qed.
End collisions.

(** ** Layers *)

(** The entries of a list at their first occurrences. *)
Fixpoint nub (l : list string) : list string :=
  match l with
  | [] => []
  | v :: l' => v :: filter (λ x, x ≠ v) (nub l')
  end.

Lemma elem_of_nub l x : x ∈ nub l ↔ x ∈ l.
Proof.
  induction l as [|v l IH]; simpl; [done|]. rewrite !elem_of_cons, list_elem_of_filter, IH.
  destruct (decide (x = v)); naive_solver.
Qed.

Lemma nub_snoc l v : nub (l ++ [v]) = if contains l v then nub l else nub l ++ [v].
Proof.
  induction l as [|w l IH]; simpl; [done|]. rewrite IH. destruct (decide (w = v)) as [->|Hne].
  - rewrite bool_decide_eq_true_2 by done. simpl. destruct (contains l v); [done|].
    rewrite filter_app, filter_cons_False by (intros H; by apply H). by rewrite app_nil_r.
  - rewrite bool_decide_eq_false_2 by done. simpl. destruct (contains l v); [done|].
    rewrite filter_app, filter_cons_True by congruence. done.
Qed.

Lemma union_from l acc :
  foldl (λ out v, if contains out v then out else out ++ [v]) (nub acc) l = nub (acc ++ l).
Proof.
  revert acc. induction l as [|v l IH]; intros acc; simpl; [by rewrite app_nil_r|].
  assert (contains (nub acc) v = contains acc v) as ->.
  { apply eq_bool_prop_intro. by rewrite !contains_spec, elem_of_nub. }
  replace (acc ++ v :: l) with ((acc ++ [v]) ++ l) by (by rewrite <-app_assoc).
  rewrite <-IH, nub_snoc. done.
Qed.

(** [union] keeps the first occurrences of both lists, in order. *)
Lemma union_nub a b : union a b = nub (a ++ b).
Proof. exact (union_from (a ++ b) []). Qed.

Lemma NoDup_nub l : NoDup (nub l).
Proof.
  induction l as [|v l IH]; simpl; [constructor|]. constructor; [|by apply NoDup_filter].
  intros [Hne _]%list_elem_of_filter. done.
Qed.

Lemma filter_all (P : string → Prop) `{!∀ x, Decision (P x)} (l : list string) :
  (∀ x, x ∈ l → P x) → filter P l = l.
Proof.
  induction l as [|x l IH]; intros Hl; [done|]. rewrite filter_cons_True by (apply Hl; by constructor).
  f_equal. apply IH. intros y Hy. apply Hl. by constructor.
Qed.

Lemma nub_id l : NoDup l → nub l = l.
Proof.
  induction 1 as [|v l Hv _ IH]; simpl; [done|]. rewrite IH, filter_all; [done|]. by intros x Hx ->.
Qed.

Lemma union_nub_l a b : union (nub a) b = nub (a ++ b).
Proof.
  rewrite <-(union_from b a). unfold union. rewrite foldl_app.
  pose proof (union_from (nub a) []) as H. simpl in H. rewrite H, nub_id by apply NoDup_nub. done.
Qed.

Lemma union_layers a b c d : union (union (union a b) c) d = nub (a ++ b ++ c ++ d).
Proof. by rewrite (union_nub a b), !union_nub_l, <-!app_assoc. Qed.

Section properties.
Context {U : Unicode} {O : Faults} {C : ConfigLib}.

#[local] Opaque add_default_deny defaultDeny.

Lemma loadFile_frame path required σ : (loadFile path required σ).1 = σ.
Proof.
  unfold loadFile, ReadFile. split_match.
Qed.

(** Validity is entry by entry. *)
Lemma first_err_map {A} (f : A → option err) l : first_err (map f l) = None ↔ ∀ x, x ∈ l → f x = None.
Proof. by rewrite first_err_None, Forall_map, Forall_forall. Qed.

Lemma first_err_app l1 l2 : first_err (l1 ++ l2) = None ↔ first_err l1 = None ∧ first_err l2 = None.
Proof. by rewrite !first_err_None, Forall_app. Qed.

Definition valid_pattern (p : string) : Prop := ∃ b, path_Match p "" = inr b.

Lemma validatePatterns_None f ps : validatePatterns f ps = None ↔ ∀ p, p ∈ ps → valid_pattern p.
Proof.
  unfold validatePatterns, valid_pattern. rewrite first_err_map.
  split; intros H p Hp; specialize (H p Hp); destruct (path_Match p ""); naive_solver.
Qed.

Lemma validate_None s :
  validate s = None ↔
  (∀ m, s_Mode s = Some m → validMode m = None) ∧ (∀ w, s_StdinWait s = Some w → validStdinWait w = None) ∧
  (∀ n, n ∈ s_Shim s ++ s_Deny s → validCommandName n = None) ∧
  (∀ p, p ∈ s_ScrubDeny s → valid_pattern p) ∧ (∀ p, p ∈ s_ScrubAllow s → valid_pattern p).
Proof.
  unfold validate. rewrite !first_err_app, first_err_map, !first_err_None, !Forall_cons.
  rewrite !Forall_nil, !validatePatterns_None.
  destruct (s_Mode s), (s_StdinWait s); simpl; naive_solver.
Qed.

(** The first set of some scalars. *)
Definition first_set {A} (l : list (option A)) : option A := foldr (λ v w, pick w v) None l.

(** The layer of the user's file, and of the project's. *)
Definition user_layer (getenv : string → string) (σ : fsys) : result settings :=
  if bool_decide (userConfigPath getenv = "") then inr no_settings
  else (loadFile (userConfigPath getenv) false σ).2.

Definition project_layer (configPath : string) (σ : fsys) : result settings :=
  (if bool_decide (configPath ≠ "") then loadFile configPath true σ
   else loadFile projectConfigName false σ).2.

(** [s] is the overlay of the layers, lowest first. *)
Definition overlay (user project env flags s : settings) : Prop :=
  let scalar {A} (f : settings → option A) := f s = first_set [f flags; f env; f project; f user] in
  let lists f := f s = nub (f user ++ f project ++ f env ++ f flags) in
  scalar s_Mode ∧ scalar s_Cassettes ∧ scalar s_NoDefaultDeny ∧ scalar s_Strict ∧ scalar s_StdinWait ∧
  scalar s_ReportFile ∧ lists s_Shim ∧ lists s_Deny ∧ lists s_Env ∧ lists s_ScrubAllow ∧ lists s_ScrubDeny.

Lemma mergeSettings_overlay user project env flags :
  overlay user project env flags (mergeSettings (mergeSettings (mergeSettings user project) env) flags).
Proof.
  unfold overlay. cbn. split_and!; try apply union_layers; unfold first_set, pick; simpl; repeat case_match; congruence.
Qed.

Lemma loadFile_valid path required σ s : (loadFile path required σ).2 = inr s → validate s = None.
Proof.
  unfold loadFile. destruct (ReadFile path σ) as [σ' [e|b]]; intros H; simpl in H; split_match.
Qed.

Lemma user_layer_valid getenv σ s : user_layer getenv σ = inr s → validate s = None.
Proof. unfold user_layer. case_bool_decide; [by intros [= <-]|apply loadFile_valid]. Qed.

Lemma project_layer_valid configPath σ s : project_layer configPath σ = inr s → validate s = None.
Proof. unfold project_layer. case_bool_decide; apply loadFile_valid. Qed.

Lemma envSettings_valid getenv s : envSettings getenv = inr s → validate s = None.
Proof.
  unfold envSettings. intros (a & _ & (b & _ & H)%bind_inr)%bind_inr. split_match.
Qed.

Lemma first_set_from {A} (f : settings → option A) (ls : list settings) x :
  first_set (f <$> ls) = Some x → ∃ l, l ∈ ls ∧ f l = Some x.
Proof.
  induction ls as [|l ls IH]; simpl; [done|]. destruct (f l) as [y|] eqn:E; simpl.
  - intros [= ->]. exists l. split; [by constructor|done].
  - intros (l' & Hl & H)%IH. exists l'. split; [by apply list_elem_of_further|done].
Qed.

Lemma elem_of_lists (f : settings → list string) (a b c d : settings) n :
  n ∈ nub (f a ++ f b ++ f c ++ f d) → ∃ l, l ∈ [a; b; c; d] ∧ n ∈ f l.
Proof.
  rewrite elem_of_nub, !elem_of_app. intros [H|[H|[H|H]]]; eexists; (split; [|exact H]); set_solver.
Qed.

(** A merge of valid layers is valid. *)
Lemma overlay_valid user project env flags s :
  overlay user project env flags s → Forall (λ l, validate l = None) [user; project; env; flags] →
  validate s = None.
Proof.
  intros (Hm & _ & _ & _ & Hw & _ & Hshim & Hdeny & _ & Hallow & Hscrub) Hv.
  assert (∀ l, l ∈ [user; project; env; flags] → validate l = None) as Hl by (by apply Forall_forall).
  setoid_rewrite validate_None in Hl. apply validate_None. split_and!.
  - intros m Hs. rewrite Hm in Hs. apply (first_set_from s_Mode [flags; env; project; user]) in Hs
      as (l & Hin & Hf). apply (Hl l); [set_solver|done].
  - intros w Hs. rewrite Hw in Hs. apply (first_set_from s_StdinWait [flags; env; project; user]) in Hs
      as (l & Hin & Hf). apply (Hl l); [set_solver|done].
  - intros n. rewrite elem_of_app, Hshim, Hdeny.
    intros [(l & Hin & Hnl)%elem_of_lists|(l & Hin & Hnl)%elem_of_lists];
      destruct (Hl l Hin) as (_ & _ & Hn & _); apply Hn, elem_of_app; auto.
  - intros p. rewrite Hscrub. intros (l & Hin & Hnl)%elem_of_lists.
    destruct (Hl l Hin) as (_ & _ & _ & Hp & _). by apply Hp.
  - intros p. rewrite Hallow. intros (l & Hin & Hnl)%elem_of_lists.
    destruct (Hl l Hin) as (_ & _ & _ & _ & Hp). by apply Hp.
Qed.

Lemma checkConflicts_None s :
  checkConflicts s = None ↔
  (∀ n, n ∈ s_ScrubDeny s → n ∉ s_ScrubAllow s) ∧ (∀ n, n ∈ s_Shim s → n ∉ s_Deny s).
Proof.
  unfold checkConflicts. rewrite first_err_app, !first_err_map.
  f_equiv; (split; intros H n Hn; specialize (H n Hn); [by apply contains_false; destruct (contains _ n)|]).
  all: by apply contains_false in H as ->.
Qed.

(** C25. Loading the configuration reads files only, and composes the layers in the
    documented order: of a scalar the flag decides, then the environment, then the
    project's file, then the user's; a list is the entries of all layers, lowest layer
    first, without repetition.  If the flags were valid the result is, and no name is
    both shimmed and denied or both scrubbed and exempt. *)
Theorem loadLayers_spec configPath flags getenv σ σ' s :
  loadLayers configPath flags getenv σ = (σ', inr s) →
  σ' = σ ∧
  (∃ user project env,
     user_layer getenv σ = inr user ∧ project_layer configPath σ = inr project ∧
     envSettings getenv = inr env ∧ overlay user project env flags s) ∧
  (validate flags = None → validate s = None) ∧
  (∀ n, n ∈ s_Shim s → n ∉ s_Deny s) ∧ (∀ n, n ∈ s_ScrubDeny s → n ∉ s_ScrubAllow s).
Proof.
  unfold loadLayers. intros H.
  apply io_bind_inr in H as (σ1 & user & Hu & H). apply io_bind_inr in H as (σ2 & project & Hp & H).
  apply io_bind_inr in H as (σ3 & env & He & H). assert (σ3 = σ2 ∧ envSettings getenv = inr env) as [-> He'].
  { by injection He as <- <-. }
  assert (σ1 = σ ∧ user_layer getenv σ = inr user) as [-> Hul].
  { unfold user_layer. cbv zeta in Hu. destruct (bool_decide (_ = "")); [by injection Hu as <- <-|].
    pose proof (loadFile_frame (userConfigPath getenv) false σ) as Hf. by rewrite Hu in *. }
  assert (σ2 = σ ∧ project_layer configPath σ = inr project) as [-> Hpl].
  { unfold project_layer. destruct (bool_decide (configPath ≠ "")).
    - pose proof (loadFile_frame configPath true σ) as Hf. by rewrite Hp in *.
    - pose proof (loadFile_frame projectConfigName false σ) as Hf. by rewrite Hp in *. }
  cbv zeta in H. destruct (checkConflicts _) as [e|] eqn:Hc; [done|]. injection H as <- <-.
  apply checkConflicts_None in Hc as [Hc1 Hc2].
  pose proof (mergeSettings_overlay user project env flags) as Ho.
  split_and!; [done|by exists user, project, env| |done|done].
  intros Hf. apply (overlay_valid _ _ _ _ _ Ho). repeat constructor; [| | |done].
  - by eapply user_layer_valid.
  - by eapply project_layer_valid.
  - by eapply envSettings_valid.
Qed.

(** Configured commands are accepted exactly when no two of them are the same command:
    entries with one cassette name are one entry of one list. *)
Theorem checkCollisions_spec shim deny :
  checkCollisions shim deny = None ↔
  (∀ x y, x ∈ shim → y ∈ shim → cassetteName x = cassetteName y → x = y) ∧
  (∀ x y, x ∈ deny → y ∈ deny → cassetteName x = cassetteName y → x = y) ∧
  (∀ x y, x ∈ shim → y ∈ deny → cassetteName x ≠ cassetteName y).
Proof.
  split.
  - intros Hnone. pose proof Hnone as [_ H]%collide_spec.
    split_and!; [intros x y Hx Hy Hc..|by intros x y; apply checkCollisions_apart].
    + assert ((x, "shim") = (y, "shim")) as [= ->]; [|done]. apply H; [apply elem_of_tagged; auto..|done].
    + assert ((x, "deny") = (y, "deny")) as [= ->]; [|done]. apply H; [apply elem_of_tagged; auto..|done].
  - intros (Hs & Hd & Hsd). apply collide_spec. split; [intros x v _; by rewrite lookup_empty|].
    intros [x lx] [y ly] [[Hx ->]|[Hx ->]]%elem_of_tagged [[Hy ->]|[Hy ->]]%elem_of_tagged Hc; simpl in Hc.
    + by rewrite (Hs x y).
    + by destruct (Hsd x y).
    + by destruct (Hsd y x).
    + by rewrite (Hd x y).
Qed.

Lemma resolve_inr cwd goos getenv o child σ σ' c child' :
  resolve cwd goos getenv o child σ = (σ', inr (c, child')) →
  child ≠ [] ∧ child' = child ∧ checkCollisions (o_shim o) (o_deny o) = None ∧
  (o_mode o ≠ ModePassthrough → o_shim o ≠ [] ∧ prepareCassetteDir (o_mode o) (o_cassettes o) σ = (σ', inr tt)) ∧
  c_Mode c = o_mode o ∧ c_CassetteDir c = filepath_Abs cwd (o_cassettes o) ∧
  c_Deny c = (if o_noDefaultDeny o then o_deny o else add_default_deny (o_shim o) (o_deny o)) ∧
  c_Cmds c = cmds_of (o_shim o ++ c_Deny c) goos.
Proof.
  unfold resolve. case_bool_decide as Hch; [done|]. intros (σ1 & [] & Hdir & H)%io_bind_inr.
  destruct (checkCollisions _ _); [done|]. injection H as <- <- <-. split_and!; try reflexivity; [exact Hch|].
  intros Hm. rewrite bool_decide_eq_false_2 in Hdir by done. by case_bool_decide.
Qed.

Lemma prepareCassetteDir_inr mode dir σ σ' :
  prepareCassetteDir mode dir σ = (σ', inr tt) → σ' !! dir = Some FDir ∧ ∀ p, p ≠ dir → σ' !! p = σ !! p.
Proof.
  unfold prepareCassetteDir, Stat, MkdirAll. intros H. split_match;
    (split; [|intros p Hp]; try done; rewrite ?lookup_insert_eq, ?lookup_insert_ne by done; done).
Qed.

Lemma cmds_of_unix names goos n :
  isWindows goos = false → n ∈ names → cmds_of names goos !! n = Some n.
Proof.
  intros Hg. unfold cmds_of.
  assert (∀ x, shimFileName x goos = x) as Hfile by (intros x; unfold shimFileName; by rewrite Hg).
  assert (∀ (m : gmap string string) names, m !! n = Some n ∨ n ∈ names →
    foldl (λ m n, <[shimFileName n goos := n]> m) m names !! n = Some n) as Hgo; [|by auto].
  clear names. intros m names. revert m. induction names as [|x names IH]; intros m; simpl.
  - by intros [|?%elem_of_nil].
  - rewrite Hfile. intros Hm. apply IH. destruct (decide (x = n)) as [->|Hne].
    + left. apply lookup_insert_eq.
    + rewrite lookup_insert_ne by done. set_solver.
Qed.

Lemma cmdFor_unix c names goos n :
  c_Cmds c = cmds_of names goos → isWindows goos = false → n ∈ names →
  cmdFor c (shimFileName n goos) goos = n.
Proof.
  intros Hc Hg Hn. unfold cmdFor, shimFileName. rewrite Hg. simpl. by rewrite Hc, cmds_of_unix.
Qed.

(** C26. The configuration a run hands to its shims: a cassette directory that exists and at
    least one shimmed command unless nothing is recorded or replayed; no shimmed
    command is denied, under whatever spelling; every configured denial is in force, and
    every built-in one too unless that is switched off or the command is shimmed; and the
    file name of a command's shim stands for that command again. *)
Theorem resolve_spec cwd goos getenv o child σ σ' c child' :
  resolve cwd goos getenv o child σ = (σ', inr (c, child')) →
  child ≠ [] ∧ child' = child ∧ c_Mode c = o_mode o ∧
  (o_mode o ≠ ModePassthrough → o_shim o ≠ [] ∧ σ' !! o_cassettes o = Some FDir) ∧
  (∀ n, n ∈ o_shim o → inNames (c_Deny c) n = false) ∧
  (∀ n, n ∈ o_deny o → n ∈ c_Deny c) ∧
  (∀ n, n ∈ defaultDeny → o_noDefaultDeny o = false → inNames (o_shim o) n ∨ inNames (c_Deny c) n) ∧
  (isWindows goos = false → ∀ n, n ∈ o_shim o ++ c_Deny c → cmdFor c (shimFileName n goos) goos = n).
Proof.
  intros (Hch & -> & Hcol & Hdir & Hmode & _ & Hdeny & Hcmds)%resolve_inr.
  destruct (add_default_deny_spec (o_shim o) (o_deny o)) as (Hpre & Honly & Hall).
  split_and!; [done|done|done| | | | |].
  - intros Hm. destruct (Hdir Hm) as [? [? _]%prepareCassetteDir_inr]. done.
  - intros n Hn. rewrite Hdeny. apply not_true_iff_false. intros (d & Hd & Hc)%Is_true_true_2%inNames_spec.
    assert (d ∈ o_deny o ∨ ¬ inNames (o_shim o) d) as [Ho|Hs].
    { destruct (o_noDefaultDeny o); [by left|]. apply Honly in Hd. naive_solver. }
    + by apply (checkCollisions_apart _ _ n d Hcol).
    + apply Hs, inNames_spec. eauto.
  - intros n Hn. rewrite Hdeny. destruct (o_noDefaultDeny o); [done|]. by eapply elem_of_prefix.
  - intros n Hn Hno. rewrite Hno in Hdeny. cbv iota in Hdeny. rewrite Hdeny. by apply Hall.
  - intros Hg n Hn. by eapply cmdFor_unix.
Qed.
End properties.

(** ** A run at concrete values *)

Section witnesses.
#[local] Existing Instance ascii_only.
#[local] Existing Instance no_faults.

(** A decoder of three files and a parser of two durations. *)
#[local] Instance demo_lib : ConfigLib :=
  {| decodeSettings b :=
       if bool_decide (b = "P") then
         ({| s_Mode := Some "record"; s_Cassettes := Some "cas"; s_Shim := ["az"; "git"]; s_Deny := [];
             s_NoDefaultDeny := None; s_Strict := None; s_Env := []; s_StdinWait := Some "1s";
             s_ReportFile := None; s_ScrubAllow := []; s_ScrubDeny := ["AZ_*"] |}, None)
       else if bool_decide (b = "") then (no_settings, Some EOF)
       else (no_settings, Some (ENew "yaml: bad"));
     ParseDuration w := if bool_decide (w = "1s") then Some 1000000000%Z else None |}.

Definition demo_files : fsys := {[ "conf/xrr.yaml" := FFile "P"; "conf/cas" := FDir ]}.
Definition demo_getenv (k : string) : string :=
  if bool_decide (k = "XRR_MODE") then "replay" else
  if bool_decide (k = "XRR_SHIM") then "kubectl, az" else
  if bool_decide (k = "PATH") then "/bin" else "".
Definition demo_flags : settings :=
  {| s_Mode := None; s_Cassettes := None; s_Shim := ["helm"]; s_Deny := ["curl"];
     s_NoDefaultDeny := None; s_Strict := Some false; s_Env := []; s_StdinWait := None;
     s_ReportFile := None; s_ScrubAllow := []; s_ScrubDeny := [] |}.
Definition demo_merged : settings :=
  {| s_Mode := Some "replay"; s_Cassettes := Some "conf/cas"; s_Shim := ["az"; "git"; "kubectl"; "helm"];
     s_Deny := ["curl"]; s_NoDefaultDeny := None; s_Strict := Some false; s_Env := [];
     s_StdinWait := Some "1s"; s_ReportFile := None; s_ScrubAllow := []; s_ScrubDeny := ["AZ_*"] |}.

Lemma loadLayers_spec_witness :
  validate demo_merged = None ∧ (∀ n, n ∈ s_Shim demo_merged → n ∉ s_Deny demo_merged).
Proof.
  destruct (loadLayers_spec "conf/xrr.yaml" demo_flags demo_getenv demo_files demo_files demo_merged)
    as (_ & _ & Hv & Hd & _).
  - vm_compute. reflexivity.
  - split; [|exact Hd]. apply Hv. vm_compute. reflexivity.
Defined.

Definition demo_config : runConfig :=
  match (resolve "/w" "linux" demo_getenv (toOpts demo_merged) ["make"] demo_files).2 with
  | inr (c, _) => c
  | inl _ => {| c_Mode := ""; c_CassetteDir := ""; c_RealPath := ""; c_Strict := true; c_Deny := [];
                c_EnvCapture := []; c_ScrubDeny := []; c_ScrubAllow := []; c_Cmds := ∅; c_StdinWaitMs := 0 |}
  end.

Lemma resolve_spec_witness :
  c_CassetteDir demo_config = "/w/conf/cas" ∧ inNames (c_Deny demo_config) "GIT.exe" = false ∧
  inNames (c_Deny demo_config) "clip" ∧ cmdFor demo_config "az" "linux" = "az".
Proof.
  destruct (resolve_spec "/w" "linux" demo_getenv (toOpts demo_merged) ["make"] demo_files demo_files
              demo_config ["make"]) as (_ & _ & _ & _ & _ & _ & Hd & Hf).
  - vm_compute. reflexivity.
  - split_and!.
    + vm_compute. reflexivity.
    + vm_compute. reflexivity.
    + destruct (Hd "clip.exe") as [H|H].
      * apply (bool_decide_unpack _). vm_compute. exact I.
      * vm_compute. reflexivity.
      * vm_compute in H. destruct H.
      * vm_compute. exact I.
    + apply (Hf eq_refl). vm_compute. left.
Defined.
End witnesses.
