(* ===== verification/CliScrub.v ===== *)
(** go/cmd/xrr/scrub.go: what a shim may print or store - credentials named by a
    flag or a variable in argv, and the values of secret environment variables
    wherever a command echoes them. *)

From S2P Require Import Prelude GoStrings Values Yaml Redact Glob.

(** ** Assignments

    [assignRe]: up to two dashes, a letter and further letters, digits, underscores,
    dots and dashes; an equals sign; the rest of the line.  The name has no equals
    sign, so the first one of the text ends it; the value is one line. *)
Definition is_letter (c : ascii) : bool :=
  let n := byte_val c in ((65 <=? n) && (n <=? 90) || (97 <=? n) && (n <=? 122))%N.
Definition name_char (c : ascii) : bool :=
  is_letter c || is_digit c || bool_decide (c ∈ ["_"; "."; "-"]%char).

Definition assign_name (n : string) : bool :=
  let t := TrimLeft1 n "-" in
  (slen n - slen t <=? 2)%nat &&
  match t with String c t' => is_letter c && sall name_char t' | EmptyString => false end.

(** [assignRe.FindStringSubmatch]: its two groups. *)
Definition FindAssign (s : string) : option (string * string) :=
  match Cut1 s "=" with
  | Some (n, v) => if assign_name n && negb (contains_char v "010") then Some (n, v) else None
  | None => None
  end.

Section scrub.
Context {U : Unicode} {Y : YamlLib}.

(** ** argv *)

(** The loop over [out], from the element it has reached. *)
Fixpoint scrub_args (r : Redactor) (out : list string) : list string :=
  match out with
  | [] => []
  | a :: rest =>
    if IsSecretValue r a then Placeholder "argv" :: scrub_args r rest else
    match FindAssign a with
    | Some (n, v) =>
      let '(red, ok) := RedactField r (TrimLeft1 n "-") v in
      (if ok then n +:+ "=" +:+ red else a) :: scrub_args r rest
    | None =>
      match rest with
      | b :: rest' =>
        if HasPrefix a "-" && negb (HasPrefix b "-") then
          let '(red, ok) := RedactField r (TrimLeft1 a "-") b in
          if ok then a :: red :: scrub_args r rest' else a :: scrub_args r rest
        else a :: scrub_args r rest
      | [] => a :: scrub_args r rest
      end
    end
  end.

Definition scrubArgv (r : Redactor) (argv : list string) : list string :=
  match argv with [] => [] | cmd :: out => cmd :: scrub_args r out end.

(** ** Secret environment variables *)

Definition minSecretLen : nat := 8.

(** Value and placeholder of each, longest value first. *)
Definition envSecrets : Type := list (string * string).

Definition matchAny (patterns : list string) (name : string) : bool :=
  existsb (λ p, match path_Match p name with inr b => b | inl _ => false end) patterns.

(** The [switch] of the loop. *)
Definition scrubbed (r : Redactor) (deny allow : list string) (name val : string) : bool :=
  matchAny deny name ||
  negb (matchAny allow name) && ((minSecretLen <=? slen val) && IsSecretKey r name).

Definition env_secret (r : Redactor) (deny allow : list string) (e : string) : option (string * string) :=
  '(name, val) ← Cut1 e "=";
  if bool_decide (val = "") then None else
  if scrubbed r deny allow name val then Some (val, Placeholder name) else None.

(** [sort.SliceStable] by decreasing length: an element goes behind those that are
    at least as long. *)
Fixpoint insert_longest (x : string * string) (l : envSecrets) : envSecrets :=
  match l with
  | [] => [x]
  | y :: l' => if slen x.1 <=? slen y.1 then y :: insert_longest x l' else x :: l
  end.

Definition sort_longest (l : envSecrets) : envSecrets := foldl (λ l x, insert_longest x l) [] l.

Definition collectEnvSecrets (r : Redactor) (environ deny allow : list string) : envSecrets :=
  sort_longest (omap (env_secret r deny allow) environ).

Definition scrub (es : envSecrets) (s : string) : string :=
  foldl (λ s e, ReplaceAll s e.1 e.2) s es.

Definition scrubAll (es : envSecrets) (l : list string) : list string := scrub es <$> l.
End scrub.

Section examples.
#[local] Existing Instance ascii_only.
#[local] Existing Instance ReferenceYaml.lib.
Example scrubArgv_flags :
  scrubArgv demo_redactor ["gh"; "--password"; "hunter22"; "--api-key=abc"; "TOKEN=x=y"; "-v"; "plain"] =
  ["gh"; "--password"; "<redacted:PASSWORD>"; "--api-key=<redacted:API-KEY>"; "TOKEN=<redacted:TOKEN>"; "-v"; "plain"].
Proof. vm_compute. reflexivity. Qed.
Example collect_order :
  collectEnvSecrets demo_redactor ["A=1"; "XRR_X=short"; "GH_TOKEN=abcdefgh"; "MY_SECRET=abcdefghijk"; "API_KEY=12345678"]
    ["XRR_*"] ["API*"] =
  [("abcdefghijk", "<redacted:MY_SECRET>"); ("abcdefgh", "<redacted:GH_TOKEN>"); ("short", "<redacted:XRR_X>")].
Proof. vm_compute. reflexivity. Qed.
End examples.

(** ** Replacing text *)

(** [w] occurs in [s] ([strings.Contains]). *)
Fixpoint Contains (s w : string) : bool :=
  HasPrefix s w || match s with String _ s' => Contains s' w | EmptyString => false end.

Definition bracket_free (w : string) : Prop := contains_char w "<" = false ∧ contains_char w ">" = false.

Lemma Contains_spec s w : Contains s w ↔ ∃ a b, s = a +:+ w +:+ b.
Proof.
  induction s as [|c s IH]; cbn [Contains].
  - rewrite orb_false_r, HasPrefix_spec. split; [intros [t Ht]; by exists "", t|].
    intros (a & b & H). destruct a; [by exists b|done].
  - rewrite orb_True, HasPrefix_spec, IH. split.
    + intros [[t Ht]|(a & b & Hab)]; [by exists "", t|]. exists (String c a), b. by rewrite sapp_cons, Hab.
    + intros (a & b & H). destruct a as [|x a]; [left; by exists b|]. rewrite sapp_cons in H.
      injection H as -> ->. right. eauto.
Qed.

(** What stands on both sides of a bracket. *)
Lemma HasPrefix_before a c b w :
  contains_char w c = false → HasPrefix (a +:+ String c b) w → HasPrefix a w.
Proof.
  revert w. induction a as [|x a IH]; intros [|d w] Hw; try done.
  - rewrite sapp_nil_l. simpl in *. intros [->%bool_decide_unpack _]%andb_True.
    by rewrite bool_decide_eq_true_2 in Hw.
  - rewrite sapp_cons. simpl in *. apply orb_false_iff in Hw as [_ Hw]. intros [H1 H2]%andb_True.
    apply andb_True. auto.
Qed.

Lemma Contains_around a c b w :
  contains_char w c = false → Contains (a +:+ String c b) w → Contains a w ∨ Contains b w.
Proof.
  intros Hw. induction a as [|x a IH].
  - rewrite sapp_nil_l. cbn [Contains]. rewrite !orb_True. intros [Hp|H]; [|by right].
    left. left. by apply (HasPrefix_before "" c b).
  - rewrite sapp_cons. cbn [Contains]. rewrite !orb_True. intros [Hp|H]; [|naive_solver].
    left. left. by apply (HasPrefix_before (String x a) c b).
Qed.

(** A replacement written in brackets around [body]. *)
Definition bracketed (body : string) : string := "<" +:+ body +:+ ">".

Lemma replace_prefix fuel s old body w :
  bracket_free w → HasPrefix (replace_go fuel s old (bracketed body)) w → HasPrefix s w.
Proof.
  intros [Hw Hw']. revert s w Hw Hw'. induction fuel as [|f IH]; intros s w Hw Hw'; [done|].
  destruct s as [|c s]; [done|]. cbn [replace_go]. destruct (HasPrefix (String c s) old) eqn:E.
  - destruct w as [|d w]; [done|]. cbn [contains_char] in Hw. apply orb_false_iff in Hw as [Hd _].
    intros [H _]%andb_True. apply bool_decide_unpack in H as ->. done.
  - destruct w as [|d w]; [done|]. simpl in *. apply orb_false_iff in Hw as [_ Hw].
    apply orb_false_iff in Hw' as [_ Hw']. intros [H1 H2]%andb_True. apply andb_True. eauto.
Qed.

(** What occurs after the replacement, and reaches over no bracket, stands in the
    replacement text or stood there before and is not what was replaced. *)
Lemma replace_contains fuel s old body w :
  old ≠ "" → w ≠ "" → bracket_free w → slen s ≤ fuel →
  Contains (replace_go fuel s old (bracketed body)) w → Contains body w ∨ Contains s w ∧ w ≠ old.
Proof.
  intros Hold Hne Hw. revert s. induction fuel as [|f IH]; intros s Hlen.
  { destruct s; [|simpl in Hlen; lia]. simpl. rewrite orb_false_r. by destruct w. }
  destruct s as [|c s]; [simpl; rewrite orb_false_r; by destruct w|].
  assert (∀ p r, String c s = p +:+ r → Contains r w → Contains (String c s) w) as Hr.
  { intros p r -> (a & b & ->)%Contains_spec. apply Contains_spec. exists (p +:+ a), b. by rewrite sapp_assoc. }
  cbn [replace_go]. destruct (HasPrefix (String c s) old) eqn:E.
  - apply Is_true_true_2, HasPrefix_spec in E as [t Ht]. rewrite Ht, sdrop_app_exact.
    unfold bracketed. rewrite !sapp_assoc. intros H.
    apply (Contains_around "" "<") in H as [H|H]; [| |apply Hw].
    { simpl in H. rewrite orb_false_r in H. by destruct w. }
    apply Contains_around in H as [H|H]; [by left| |apply Hw].
    assert (slen t ≤ f) as Hf.
    { apply (f_equal slen) in Ht. rewrite slen_app in Ht. destruct old; [done|]. simpl in *. lia. }
    destruct (IH t Hf H) as [?|[Hc ?]]; [by left|]. right. split; [|done].
    rewrite <-Ht. by apply (Hr old t).
  - cbn [Contains]. rewrite !orb_True. intros [H|H].
    + assert (HasPrefix (String c s) w) as Hp.
      { apply (replace_prefix (S f) _ old body _ Hw). cbn [replace_go]. by rewrite E. }
      right. split; [by left|]. intros ->. by rewrite E in Hp.
    + simpl in Hlen. destruct (IH s) as [?|[Hc ?]]; [lia|done|by left|]. right. auto.
Qed.

(** ** Secrets of the environment *)

Section secrets.
Context {U : Unicode} {Y : YamlLib}.

(** The text between the brackets of a placeholder. *)
Definition placeholder_body (name : string) : string := "redacted:" +:+ normalizeDisplayKey name.

Lemma Placeholder_bracketed name : Placeholder name = bracketed (placeholder_body name).
Proof. unfold Placeholder, bracketed, placeholder_body, redactedPrefix, redactedSuffix. by rewrite !sapp_assoc. Qed.

(** Replacing some secrets brings none of them in, and takes out each it replaces. *)
Lemma scrub_contains es s w :
  w ≠ "" → bracket_free w →
  (∀ v p, (v, p) ∈ es → v ≠ "" ∧ ∃ body, p = bracketed body ∧ ¬ Contains body w) →
  Contains (scrub es s) w → Contains s w ∧ w ∉ es.*1.
Proof.
  intros Hne Hw. unfold scrub. revert s. induction es as [|[v p] es IH]; intros s Hes; simpl.
  { intros H. split; [done|]. apply not_elem_of_nil. }
  intros H. apply IH in H as [H Hn]; [|intros v' p' Hin; apply Hes; by apply list_elem_of_further].
  destruct (Hes v p) as (Hv & body & -> & Hb); [by constructor|].
  apply replace_contains in H as [?|[? ?]]; [done| |done..]. split; [done|]. by apply not_elem_of_cons.
Qed.

Lemma insert_longest_perm x l : insert_longest x l ≡ₚ x :: l.
Proof. induction l as [|y l IH]; simpl; [done|]. case_match; [|done]. rewrite IH. apply Permutation_swap. Qed.

Lemma sort_longest_perm l : sort_longest l ≡ₚ l.
Proof.
  unfold sort_longest.
  assert (∀ acc, foldl (λ l x, insert_longest x l) acc l ≡ₚ acc ++ l) as H; [|apply (H [])].
  induction l as [|x l IH]; intros acc; simpl; [by rewrite app_nil_r|].
  rewrite IH, insert_longest_perm. simpl. apply Permutation_middle.
Qed.

Definition longer_first (x y : string * string) : Prop := slen y.1 ≤ slen x.1.

Lemma insert_longest_sorted x l : StronglySorted longer_first l → StronglySorted longer_first (insert_longest x l).
Proof.
  induction 1 as [|y l Hs IH Hy]; simpl; [repeat constructor|].
  destruct (slen x.1 <=? slen y.1) eqn:E.
  - apply Nat.leb_le in E. constructor; [done|]. rewrite insert_longest_perm. by constructor.
  - apply Nat.leb_gt in E. constructor; [by constructor|]. constructor; [unfold longer_first; lia|].
    eapply Forall_impl; [exact Hy|]. unfold longer_first. intros z ?. lia.
Qed.

Lemma sort_longest_sorted l : StronglySorted longer_first (sort_longest l).
Proof.
  unfold sort_longest. assert (StronglySorted longer_first []) as H by constructor. revert H.
  generalize (@nil (string * string)) as acc. induction l as [|x l IH]; intros acc H; simpl; [done|].
  by apply IH, insert_longest_sorted.
Qed.

(** Secrets of one length keep their order. *)
Definition of_length (n : nat) (l : list (string * string)) : list (string * string) :=
  filter (λ x, slen x.1 = n) l.

Lemma of_length_cons n x l :
  of_length n (x :: l) = (if decide (slen x.1 = n) then [x] else []) ++ of_length n l.
Proof. unfold of_length. rewrite filter_cons. by destruct (decide _). Qed.

Lemma of_length_app n l1 l2 : of_length n (l1 ++ l2) = of_length n l1 ++ of_length n l2.
Proof. apply filter_app. Qed.

Lemma of_length_none n l : Forall (λ x, slen x.1 ≠ n) l → of_length n l = [].
Proof.
  induction 1 as [|x l Hx _ IH]; [done|]. rewrite of_length_cons, IH. by destruct (decide _).
Qed.

Lemma insert_longest_stable n x l :
  StronglySorted longer_first l → of_length n (insert_longest x l) = of_length n (l ++ [x]).
Proof.
  induction 1 as [|y l Hs IH Hy]; [done|]. simpl. destruct (slen x.1 <=? slen y.1) eqn:E.
  - by rewrite !of_length_cons, IH.
  - apply Nat.leb_gt in E. rewrite of_length_cons. change (y :: l ++ [x]) with ((y :: l) ++ [x]).
    rewrite of_length_app, !(of_length_cons n x []). destruct (decide (slen x.1 = n)) as [Hx|Hx]; [|by rewrite app_nil_r].
    rewrite of_length_none; [done|]. constructor; [lia|]. eapply Forall_impl; [exact Hy|].
    unfold longer_first. intros z ?. lia.
Qed.

Lemma sort_longest_stable n l : of_length n (sort_longest l) = of_length n l.
Proof.
  unfold sort_longest.
  assert (∀ acc, StronglySorted longer_first acc →
    of_length n (foldl (λ l x, insert_longest x l) acc l) = of_length n (acc ++ l)) as H; [|apply (H []); constructor].
  induction l as [|x l IH]; intros acc Hs; simpl; [by rewrite app_nil_r|].
  rewrite IH by (by apply insert_longest_sorted).
  by rewrite of_length_app, insert_longest_stable, <-of_length_app, <-app_assoc.
Qed.

Lemma elem_of_collect r environ deny allow v p :
  (v, p) ∈ collectEnvSecrets r environ deny allow ↔
  ∃ name, name +:+ String "=" v ∈ environ ∧ contains_char name "=" = false ∧ v ≠ "" ∧
          scrubbed r deny allow name v ∧ p = Placeholder name.
Proof.
  unfold collectEnvSecrets. rewrite sort_longest_perm, list_elem_of_omap. unfold env_secret. split.
  - intros (e & He & H). destruct (Cut1 e "=") as [[n x]|] eqn:E; [|done]. simpl in H.
    apply Cut1_spec in E as [-> Hn]. case_bool_decide as Hx; [done|].
    destruct (scrubbed r deny allow n x) eqn:Es; [|done]. injection H as -> <-.
    exists n. split_and!; try done. by rewrite Es.
  - intros (n & He & Hn & Hv & Hs & ->). exists (n +:+ String "=" v). split; [done|].
    assert (Cut1 (n +:+ String "=" v) "=" = Some (n, v)) as -> by (by apply Cut1_spec). simpl.
    rewrite bool_decide_eq_false_2 by done. by rewrite (Is_true_true_1 _ Hs).
Qed.

(** Which environment variables are secrets: those a deny pattern names, at any
    length, and failing that those no allow pattern names whose name is a credential's and
    whose value has eight bytes or more.  They are collected longest value first, so a
    value that contains another is replaced whole, in the environment's order within one
    length. *)
Theorem collectEnvSecrets_spec r environ deny allow :
  let es := collectEnvSecrets r environ deny allow in
  (∀ v p, (v, p) ∈ es ↔
    ∃ name, name +:+ String "=" v ∈ environ ∧ contains_char name "=" = false ∧ v ≠ "" ∧
      (matchAny deny name ∨ ¬ matchAny allow name ∧ minSecretLen ≤ slen v ∧ IsSecretKey r name) ∧
      p = Placeholder name) ∧
  StronglySorted longer_first es ∧
  ∀ n, of_length n es = of_length n (omap (env_secret r deny allow) environ).
Proof.
  cbv zeta. split_and!; [|apply sort_longest_sorted|intros n; apply sort_longest_stable].
  intros v p. rewrite elem_of_collect. f_equiv. intros name.
  assert (scrubbed r deny allow name v ↔
    matchAny deny name ∨ ¬ matchAny allow name ∧ minSecretLen ≤ slen v ∧ IsSecretKey r name) as ->; [|done].
  unfold scrubbed. rewrite orb_True, !andb_True, negb_True.
  assert ((minSecretLen <=? slen v) ↔ minSecretLen ≤ slen v) as ->; [|done].
  rewrite Is_true_true. apply Nat.leb_le.
Qed.

(** C22. A secret variable's value is gone from whatever a shim stores or prints: no text
    that went through the scrubber contains it, provided the value has no angle bracket
    and is no part of a placeholder. *)
Theorem env_secret_removed r environ deny allow name val text :
  name +:+ String "=" val ∈ environ → contains_char name "=" = false → val ≠ "" →
  scrubbed r deny allow name val → bracket_free val →
  let es := collectEnvSecrets r environ deny allow in
  (∀ p, p ∈ es.*2 → ¬ Contains p val) →
  ¬ Contains (scrub es text) val.
Proof.
  cbv zeta. intros He Hn Hv Hs Hb Hp H. apply scrub_contains in H as [_ Hno]; [|done..|].
  - apply Hno, list_elem_of_fmap. exists (val, Placeholder name). split; [done|].
    apply elem_of_collect. exists name. done.
  - intros v p Hin. pose proof Hin as (n' & _ & _ & Hv' & _ & ->)%elem_of_collect. split; [done|].
    exists (placeholder_body n'). split; [apply Placeholder_bracketed|].
    intros Hc. apply (Hp (Placeholder n')); [apply list_elem_of_fmap; by exists (v, Placeholder n')|].
    rewrite Placeholder_bracketed. unfold bracketed. apply Contains_spec in Hc as (a & b & ->).
    apply Contains_spec. exists ("<" +:+ a), (b +:+ ">"). by rewrite !sapp_assoc.
Qed.

(** Two command lines that differ in credentials only: in arguments that are
    credentials themselves, in values assigned to secret names, and in values that follow
    a flag with a secret name. *)
Inductive differ_in_secrets (r : Redactor) : list string → list string → Prop :=
| ds_nil : differ_in_secrets r [] []
| ds_same a l1 l2 : differ_in_secrets r l1 l2 → differ_in_secrets r (a :: l1) (a :: l2)
| ds_value a1 a2 l1 l2 :
    IsSecretValue r a1 → IsSecretValue r a2 → HasPrefix a1 "-" = HasPrefix a2 "-" →
    differ_in_secrets r l1 l2 → differ_in_secrets r (a1 :: l1) (a2 :: l2)
| ds_assign n v1 v2 l1 l2 :
    assign_name n → contains_char v1 "010" = false → contains_char v2 "010" = false →
    v1 ≠ "" → v2 ≠ "" → IsSecretKey r (TrimLeft1 n "-") →
    IsSecretValue r (n +:+ String "=" v1) = IsSecretValue r (n +:+ String "=" v2) →
    differ_in_secrets r l1 l2 →
    differ_in_secrets r ((n +:+ String "=" v1) :: l1) ((n +:+ String "=" v2) :: l2)
| ds_flag f x1 x2 l1 l2 :
    HasPrefix f "-" → FindAssign f = None → IsSecretValue r f = false →
    IsSecretKey r (TrimLeft1 f "-") → x1 ≠ "" → x2 ≠ "" →
    HasPrefix x1 "-" = false → HasPrefix x2 "-" = false →
    differ_in_secrets r l1 l2 → differ_in_secrets r (f :: x1 :: l1) (f :: x2 :: l2).

Lemma contains_char_TrimLeft1 n c d : c ≠ d → contains_char n c = contains_char (TrimLeft1 n d) c.
Proof.
  intros Hne. induction n as [|x n IH]; [done|]. simpl. destruct (bool_decide (x = d)) eqn:E; [|done].
  apply bool_decide_eq_true_1 in E as ->. by rewrite (bool_decide_eq_false_2 (d = c)).
Qed.

Lemma sall_no_char p s c : sall p s → p c = false → contains_char s c = false.
Proof.
  intros Hs Hc. induction s as [|x s IH]; [done|]. simpl in *. apply andb_True in Hs as [Hx Hs].
  rewrite IH, orb_false_r by done. apply bool_decide_eq_false_2. intros ->. by rewrite Hc in Hx.
Qed.

Lemma assign_name_no_equals n : assign_name n → contains_char n "=" = false.
Proof.
  intros Hn. rewrite (contains_char_TrimLeft1 n "=" "-") by done.
  unfold assign_name in Hn. destruct (TrimLeft1 n "-") as [|c t]; [done|].
  apply andb_True in Hn as [_ [Hc Ht]%andb_True].
  apply (sall_no_char name_char (String c t)); [|done]. simpl. apply andb_True. split; [|done].
  unfold name_char. by rewrite (Is_true_true_1 _ Hc).
Qed.

Lemma FindAssign_app n v :
  assign_name n → contains_char v "010" = false → FindAssign (n +:+ String "=" v) = Some (n, v).
Proof.
  intros Hn Hv. unfold FindAssign. assert (Cut1 (n +:+ String "=" v) "=" = Some (n, v)) as ->.
  { apply Cut1_spec. split; [done|]. by apply assign_name_no_equals. }
  by rewrite (Is_true_true_1 _ Hn), Hv.
Qed.

Lemma RedactField_key r name v : IsSecretKey r name → v ≠ "" → RedactField r name v = (Placeholder name, true).
Proof.
  unfold RedactField. intros Hk Hv. pose proof Hk as Hk'. unfold IsSecretKey in Hk'.
  destruct (disabled r); [done|]. rewrite (bool_decide_eq_false_2 (v = "")) by done. simpl in *.
  destruct (bool_decide (normalizeKey name ∈ allow r)); [done|]. by rewrite (Is_true_true_1 _ Hk).
Qed.

(** [b1] and [b2] are redacted alike under every name. *)
Definition same_redaction (r : Redactor) (b1 b2 : string) : Prop :=
  ∀ name, (RedactField r name b1).2 = (RedactField r name b2).2 ∧
    ((RedactField r name b1).2 → (RedactField r name b1).1 = (RedactField r name b2).1).

Lemma same_redaction_classified r b1 b2 :
  b1 ≠ "" → b2 ≠ "" → IsSecretValue r b1 = IsSecretValue r b2 → same_redaction r b1 b2.
Proof.
  intros H1 H2 Hs name. unfold RedactField. rewrite Hs.
  rewrite (bool_decide_eq_false_2 (b1 = "")), (bool_decide_eq_false_2 (b2 = "")), !orb_false_r by done.
  destruct (disabled r); [naive_solver|].
  destruct (bool_decide (_ ∈ allow r)); [naive_solver|].
  destruct (IsSecretKey r name || IsSecretValue r b2); naive_solver.
Qed.

(** What the flag in front of two command lines may see of them. *)
Definition agree (r : Redactor) (l1 l2 : list string) : Prop :=
  match l1, l2 with
  | [], [] => True
  | b1 :: t1, b2 :: t2 =>
    HasPrefix b1 "-" = HasPrefix b2 "-" ∧
    (HasPrefix b1 "-" = false → scrub_args r t1 = scrub_args r t2 ∧ same_redaction r b1 b2)
  | _, _ => False
  end.

Lemma IsSecretValue_nonempty r v : IsSecretValue r v → v ≠ "".
Proof. unfold IsSecretValue. intros H ->. by rewrite orb_true_r in H. Qed.

Lemma differ_agree r l1 l2 : differ_in_secrets r l1 l2 → scrub_args r l1 = scrub_args r l2 ∧ agree r l1 l2.
Proof.
  induction 1 as [|a l1 l2 _ [IH IHa]|a1 a2 l1 l2 Ha1 Ha2 Hp _ [IH IHa]
                 |n v1 v2 l1 l2 Hn Hv1 Hv2 Hne1 Hne2 Hk Hs _ [IH IHa]
                 |f x1 x2 l1 l2 Hf Hfa Hfs Hk Hne1 Hne2 Hx1 Hx2 _ [IH IHa]]; [done|..].
  - split; [|by split; [|intros _; split; [|intros name]]]. cbn [scrub_args].
    destruct (IsSecretValue r a); [by rewrite IH|]. destruct (FindAssign a) as [[n v]|]; [by rewrite IH|].
    destruct l1 as [|b1 t1], l2 as [|b2 t2]; try done. destruct IHa as [Hp Hd]. rewrite <-Hp.
    destruct (HasPrefix a "-"), (HasPrefix b1 "-"); cbn [andb negb]; try by rewrite IH.
    destruct Hd as [Ht Hd]; [done|]. specialize (Hd (TrimLeft1 a "-")) as [Hok Hred].
    destruct (RedactField r _ b1) as [red1 ok1], (RedactField r _ b2) as [red2 ok2]. simpl in *. subst ok2.
    destruct ok1; [by rewrite Ht, Hred|by rewrite IH].
  - split.
    + cbn [scrub_args]. by rewrite (Is_true_true_1 _ Ha1), (Is_true_true_1 _ Ha2), IH.
    + split; [done|]. intros _. split; [done|]. apply same_redaction_classified.
      1,2: by eapply IsSecretValue_nonempty. by rewrite (Is_true_true_1 _ Ha1), (Is_true_true_1 _ Ha2).
  - split.
    + cbn [scrub_args]. rewrite !FindAssign_app, !RedactField_key, Hs, IH by done. done.
    + split; [destruct n as [|c n]; [done|]; rewrite !sapp_cons; simpl; by rewrite !HasPrefix_nil|]. intros _. split; [done|].
      apply same_redaction_classified; [by destruct n; rewrite ?sapp_cons..|done].
  - split; [|split; [done|]; by rewrite (Is_true_true_1 _ Hf)]. cbn [scrub_args].
    rewrite Hfs, Hfa, Hx1, Hx2, !RedactField_key, (Is_true_true_1 _ Hf), IH by done. done.
Qed.

(** What is printed of a secret assigned to a name. *)
Definition assigned (r : Redactor) (n v : string) : string :=
  let a := n +:+ String "=" v in
  if IsSecretValue r a then Placeholder "argv"
  else if contains_char v "010" then a
  else n +:+ "=" +:+ Placeholder (TrimLeft1 n "-").

Lemma FindAssign_lines n v :
  assign_name n → contains_char v "010" → FindAssign (n +:+ String "=" v) = None.
Proof.
  intros Hn Hv. unfold FindAssign. assert (Cut1 (n +:+ String "=" v) "=" = Some (n, v)) as ->.
  { apply Cut1_spec. split; [done|]. by apply assign_name_no_equals. }
  by rewrite (Is_true_true_1 _ Hv), andb_false_r.
Qed.

Lemma scrub_args_assigned r n v l :
  assign_name n → IsSecretKey r (TrimLeft1 n "-") → v ≠ "" →
  ∃ l', scrub_args r ((n +:+ String "=" v) :: l) = assigned r n v :: l'.
Proof.
  intros Hn Hk Hv. unfold assigned. cbn [scrub_args].
  destruct (IsSecretValue r (n +:+ String "=" v)); [eauto|].
  destruct (contains_char v "010") eqn:E.
  - rewrite FindAssign_lines by (rewrite ?E; done). destruct l as [|b l]; [eauto|].
    case_match; [|eauto]. destruct (RedactField _ _ b) as [red []]; eauto.
  - rewrite FindAssign_app, RedactField_key by done. eauto.
Qed.

Lemma scrub_args_flag r f x l :
  HasPrefix f "-" → FindAssign f = None → IsSecretValue r f = false → IsSecretKey r (TrimLeft1 f "-") → x ≠ "" →
  scrub_args r (f :: x :: l) =
  f :: (if HasPrefix x "-" then scrub_args r (x :: l) else Placeholder (TrimLeft1 f "-") :: scrub_args r l).
Proof.
  intros Hf Hfa Hfs Hk Hx. cbn [scrub_args]. rewrite Hfs, Hfa, (Is_true_true_1 _ Hf).
  destruct (HasPrefix x "-"); [done|]. cbn [andb negb]. by rewrite RedactField_key.
Qed.

(** C23. The command lines a shim stores and prints depend on no credential it
    recognises.  Two that differ only in arguments that are credentials themselves
    (alike in whether they begin with a dash), in one-line values assigned to secret
    names (the whole argument being a credential by itself in both or in neither), or in
    values without a leading dash after flags with secret names, none of them empty, are
    scrubbed to the same text.  The conditions are the code's: a secret assigned to a
    name is printed as the placeholder of an argument when the whole argument is a
    credential, as the placeholder of its name when it is not, and as it is when its value
    has a line break; and a secret after a flag is printed as it would be anywhere else
    when it begins with a dash. *)
Theorem scrubArgv_noninterference r cmd :
  (∀ l1 l2, differ_in_secrets r l1 l2 → scrubArgv r (cmd :: l1) = scrubArgv r (cmd :: l2)) ∧
  (∀ n v l, assign_name n → IsSecretKey r (TrimLeft1 n "-") → v ≠ "" →
    ∃ l', scrubArgv r (cmd :: (n +:+ String "=" v) :: l) = cmd :: assigned r n v :: l') ∧
  (∀ f x l, HasPrefix f "-" → FindAssign f = None → IsSecretValue r f = false →
    IsSecretKey r (TrimLeft1 f "-") → x ≠ "" →
    scrubArgv r (cmd :: f :: x :: l) = cmd :: f ::
      (if HasPrefix x "-" then scrub_args r (x :: l) else Placeholder (TrimLeft1 f "-") :: scrub_args r l)).
Proof.
  unfold scrubArgv. split_and!.
  - intros l1 l2 H. f_equal. by apply differ_agree.
  - intros n v l Hn Hk Hv. destruct (scrub_args_assigned r n v l) as [l' ->]; eauto.
  - intros f x l Hf Hfa Hfs Hk Hx. by rewrite scrub_args_flag.
Qed.
End secrets.

(** ** At concrete values *)

Section witnesses.
#[local] Existing Instance ascii_only.
#[local] Existing Instance ReferenceYaml.lib.

Lemma env_secret_removed_witness :
  ¬ Contains (scrub (collectEnvSecrets demo_redactor ["PATH=/bin"; "GH_TOKEN=hunter2222"] [] [])
                "login hunter2222 as hunter2") "hunter2222".
Proof.
  apply (env_secret_removed demo_redactor ["PATH=/bin"; "GH_TOKEN=hunter2222"] [] [] "GH_TOKEN" "hunter2222").
  - right. left.
  - reflexivity.
  - intros H. discriminate H.
  - vm_compute. exact I.
  - split; reflexivity.
  - intros p Hp. vm_compute in Hp. apply list_elem_of_singleton in Hp as ->. vm_compute. intros H. exact H.
Defined.

(** What is printed of two secrets the placeholders of scrub.go's comment do not
    cover. *)
Example secrets_printed :
  let key := "line1" +:+ String "010" "line2" in
  scrubArgv demo_redactor ["gh"; "TOKEN=" +:+ key; "--password"; "-x"] =
    ["gh"; "TOKEN=" +:+ key; "--password"; "-x"].
Proof. vm_compute. reflexivity. Qed.

Lemma scrubArgv_noninterference_witness :
  scrubArgv demo_redactor ["gh"; "-v"; "--password"; "hunter2"; "TOKEN=a"] =
    scrubArgv demo_redactor ["gh"; "-v"; "--password"; "swordfish"; "TOKEN=b"] ∧
  (∃ l', scrubArgv demo_redactor ["gh"; "TOKEN=a"] = "gh" :: "TOKEN=<redacted:TOKEN>" :: l') ∧
  scrubArgv demo_redactor ["gh"; "--password"; "-x"] = ["gh"; "--password"; "-x"].
Proof.
  destruct (scrubArgv_noninterference demo_redactor "gh") as (H1 & H2 & H3). split_and!.
  - apply H1. apply ds_same. apply ds_flag; [vm_compute; done..|].
    apply (ds_assign demo_redactor "TOKEN" "a" "b"); [vm_compute; done..|]. apply ds_nil.
  - apply (H2 "TOKEN" "a" []); vm_compute; done.
  - apply (H3 "--password" "-x" []); vm_compute; done.
Defined.
End witnesses.
