(* ===== verification/Url.v ===== *)
(** Package net/url's [Parse], as far as the path and the query of the result. *)

From S2P Require Import Prelude GoStrings.

(** What the version in use says of an authority (user, host and port). *)
Class Authority := authority_error : string → option err.

Record URL := { Scheme : string; Opaque : string; Path : string; RawQuery : string }.

Definition is_alpha (c : ascii) : bool :=
  let n := byte_val c in ((97 <=? n) && (n <=? 122) || (65 <=? n) && (n <=? 90))%N.

Definition ctl_byte (c : ascii) : bool := ((byte_val c <? 32) || (byte_val c =? 127))%N.

(** [getScheme]: the text before the first colon, if it is letters, digits and a few
    signs after a letter; [seen] is that text so far. *)
Fixpoint getScheme (seen : string) (raw : string) : result (string * string) :=
  match raw with
  | EmptyString => inr ("", seen)
  | String c raw' =>
    if is_alpha c then getScheme (seen +:+ str1 c) raw'
    else if is_digit c || bool_decide (c ∈ ["+"; "-"; "."]%char) then
      if bool_decide (seen = "") then inr ("", raw) else getScheme (seen +:+ str1 c) raw'
    else if bool_decide (c = ":"%char) then
      if bool_decide (seen = "") then inl (ENew "missing protocol scheme") else inr (seen, raw')
    else inr ("", seen +:+ raw)
  end.

Definition unhex (c : ascii) : option N :=
  let n := byte_val c in
  (if (48 <=? n) && (n <=? 57) then Some (n - 48)
   else if (97 <=? n) && (n <=? 102) then Some (n - 87)
   else if (65 <=? n) && (n <=? 70) then Some (n - 55) else None)%N.

Definition EscapeError {U : Unicode} (s : string) : err := ENew ("invalid URL escape " +:+ Quote (stake 3 s)).

(** [unescape] in the modes of paths and fragments. *)
Fixpoint unescape {U : Unicode} (s : string) : result string :=
  match s with
  | EmptyString => inr ""
  | String c s' =>
    if bool_decide (c = "%"%char) then
      match s' with
      | String h (String l s'') =>
        match unhex h, unhex l with
        | Some a, Some b => t ← unescape s''; inr (String (byte_of (a * 16 + b)%N) t)
        | _, _ => inl (EscapeError s)
        end
      | _ => inl (EscapeError s)
      end
    else t ← unescape s'; inr (String c t)
  end.

Definition count_char (s : string) (c : ascii) : nat := length (Split1 s c) - 1.

(** The query: a single question mark at the end is none. *)
Definition cut_query (rest : string) : string * string :=
  if HasSuffix rest "?" && (count_char rest "?" =? 1)%nat then (TrimSuffix rest "?", "") else
  match Cut1 rest "?" with Some (a, b) => (a, b) | None => (rest, "") end.

Section parse.
Context {U : Unicode} {A : Authority}.

(** The rest behind the scheme: authority and path. *)
Definition parse_rest (scheme query rest : string) : result URL :=
  if negb (HasPrefix rest "/") && bool_decide (scheme ≠ "") then
    inr {| Scheme := scheme; Opaque := rest; Path := ""; RawQuery := query |}
  else if negb (HasPrefix rest "/") &&
          contains_char (match Cut1 rest "/" with Some (a, _) => a | None => rest end) ":" then
    inl (ENew "first path segment in URL cannot contain colon")
  else
    let '(authority, path) :=
      if (bool_decide (scheme ≠ "") || negb (HasPrefix rest "///")) && HasPrefix rest "//" then
        match Cut1 (sdrop 2 rest) "/" with
        | Some (a, b) => (Some a, "/" +:+ b)
        | None => (Some (sdrop 2 rest), "")
        end
      else (None, rest) in
    match authority ≫= authority_error with
    | Some e => inl e
    | None => p ← unescape path; inr {| Scheme := scheme; Opaque := ""; Path := p; RawQuery := query |}
    end.

Definition parse_url (raw : string) : result URL :=
  if negb (sall (λ c, negb (ctl_byte c)) raw) then inl (ENew "net/url: invalid control character in URL") else
  if bool_decide (raw = "*") then inr {| Scheme := ""; Opaque := ""; Path := "*"; RawQuery := "" |} else
  '(scheme, rest) ← getScheme "" raw;
  let '(rest, query) := cut_query rest in
  parse_rest (ToLower scheme) query rest.

Definition url_Parse (raw : string) : result URL :=
  let '(u, frag) := match Cut1 raw "#" with Some (a, b) => (a, b) | None => (raw, "") end in
  url ← wrap_err ("parse " +:+ Quote u +:+ ": ") (parse_url u);
  if bool_decide (frag = "") then inr url else
  _ ← wrap_err ("parse " +:+ Quote raw +:+ ": ") (unescape frag);
  inr url.
End parse.

Section examples.
#[local] Existing Instance ascii_only.
#[local] Instance any_authority : Authority := λ _, None.
Example parse_full :
  url_Parse "HTTP://u@h:8/a%20b?x=1?#f" = inr {| Scheme := "http"; Opaque := ""; Path := "/a b"; RawQuery := "x=1?" |}.
Proof. vm_compute. reflexivity. Qed.
Example parse_relative : url_Parse "/v1/x?" = inr {| Scheme := ""; Opaque := ""; Path := "/v1/x"; RawQuery := "" |}.
Proof. vm_compute. reflexivity. Qed.
Example parse_colon : url_Parse "1a:b" = inl (EWrap ("parse " +:+ Quote "1a:b" +:+ ": ")
  (ENew "first path segment in URL cannot contain colon")).
Proof. vm_compute. reflexivity. Qed.
End examples.
