(* ===== verification/Adapters.v ===== *)
(** go/adapters: the request, response and fingerprint of the exec, redis, sql,
    http, fs and unary gRPC adapters, and each as an instance of [Session.Adapter]. *)

From S2P Require Import Prelude GoStrings Sha256 Values CanonicalJson CanonicalInj Os Session Url.

(** A string field with [omitempty], and the YAML forms of the Go types. *)
Definition omit_empty (name s : string) : list (string * any) :=
  if bool_decide (s = "") then [] else [(name, VString s)].
Definition omit_zero (name : string) (k : intkind) (z : Z) : list (string * any) :=
  if (z =? 0)%Z then [] else [(name, VInt k z)].
Definition omit_nil {A} (name : string) (f : A → any) (x : option A) : list (string * any) :=
  match x with Some a => [(name, f a)] | None => [] end.
Definition yaml_strings (l : option (list string)) : any := VSlice (VString <$> default [] l).
Definition yaml_string_map (m : gmap string string) : any :=
  VMap ((λ '(k, v), (k, VString v)) <$> map_to_list m).

(** ** exec *)

Module Exec.
Record Request := {
  Argv : option (list string);
  Stdin : string;
  Cwd : string;
  Env : gmap string string;
}.
Record Response := { Stdout : string; Stderr : string; ExitCode : Z; DurationMs : Z }.

Definition request_yaml (r : Request) : any :=
  VStruct ([("argv", yaml_strings (Argv r))] ++ omit_empty "stdin" (Stdin r) ++
           omit_empty "cwd" (Cwd r) ++
           (if bool_decide (Env r = ∅) then [] else [("env", yaml_string_map (Env r))])).
Definition response_yaml (r : Response) : any :=
  VStruct ([("stdout", VString (Stdout r))] ++ omit_empty "stderr" (Stderr r) ++
           [("exit_code", VInt KInt (ExitCode r))] ++ omit_zero "duration_ms" KInt64 (DurationMs r)).

Definition fields (r : Request) : gmap string any :=
  let m := {[ "argv" := of_slice VString (Argv r); "stdin" := VString (Stdin r) ]} in
  if bool_decide (Cwd r = "") then m else <["cwd" := VString (Cwd r)]> m.

Definition Fingerprint {F : FloatFormat} (r : Request) : result string :=
  wrap_err "exec: fingerprint marshal: " (CanonicalFingerprint (of_gomap (fields r))).

(** errors.go: [errors.As] finds the first [*exec.ExitError] of the chain;
    [ExitCode] is -1 when a signal ended the process. *)
Fixpoint find_exit (e : err) : option (Z * option Z) :=
  match e with
  | EExit code signal _ => Some (code, signal)
  | EWrap _ e' => find_exit e'
  | _ => None
  end.

Definition ExitCodeFromError (e : option err) : Z :=
  match e with
  | None => 0
  | Some e =>
    match find_exit e with
    | Some (code, None) => code
    | Some (_, Some _) => -1
    | None => -1
    end
  end.
End Exec.

(** ** redis *)

Module Redis.
Record Request := { Command : string; Args : option (list string) }.
Record Response := { Result : any }.

Definition request_yaml (r : Request) : any :=
  VStruct ([("command", VString (Command r))] ++
           (if bool_decide (default [] (Args r) = []) then [] else [("args", yaml_strings (Args r))])).
Definition response_yaml (r : Response) : any := VStruct [("result", Result r)].

(** The text that is fingerprinted. *)
Definition parts {U : Unicode} (r : Request) : string :=
  Join (ToUpper (Command r) :: default [] (Args r)) " ".

Definition Fingerprint {U : Unicode} {F : FloatFormat} (r : Request) : result string :=
  wrap_err "redis: fingerprint marshal: " (CanonicalFingerprint (VString (parts r))).
End Redis.

(** ** sql *)

Module Sql.
(** [\s] of package regexp. *)
Definition is_re_space (c : ascii) : bool :=
  bool_decide (c ∈ [" "; "009"; "010"; "012"; "013"]%char).

(** [wsRe.ReplaceAllString(s, " ")]: each maximal run becomes one space. *)
Fixpoint collapse (in_run : bool) (s : string) : string :=
  match s with
  | EmptyString => ""
  | String c s' =>
    if is_re_space c then (if in_run then collapse true s' else String " " (collapse true s'))
    else String c (collapse false s')
  end.

Definition normalizeQuery {U : Unicode} (q : string) : string :=
  TrimSpace (collapse false (ToLower q)).

Record Request := { Query : string; Args : option (list any) }.
Record Response := { Rows : list any; Affected : Z }.

Definition request_yaml (r : Request) : any :=
  VStruct ([("query", VString (Query r))] ++
           match default [] (Args r) with [] => [] | l => [("args", VSlice l)] end).
Definition response_yaml (r : Response) : any :=
  VStruct (match Rows r with [] => [] | l => [("rows", VSlice l)] end ++
           omit_zero "affected" KInt64 (Affected r)).

Definition fields {U : Unicode} (r : Request) : gmap string any :=
  {[ "query" := VString (normalizeQuery (Query r)); "args" := of_slice id (Args r) ]}.

Definition Fingerprint {U : Unicode} {F : FloatFormat} (r : Request) : result string :=
  wrap_err "sql: fingerprint marshal: " (CanonicalFingerprint (of_gomap (fields r))).
End Sql.

(** ** http *)

Module Http.
Record Request := { Method : string; URL : string; Headers : gmap string string; Body : string }.
Record Response := { Status : Z; RespHeaders : gmap string string; RespBody : string }.

Definition headers_yaml (m : gmap string string) : list (string * any) :=
  if bool_decide (m = ∅) then [] else [("headers", yaml_string_map m)].
Definition request_yaml (r : Request) : any :=
  VStruct ([("method", VString (Method r)); ("url", VString (URL r))] ++ headers_yaml (Headers r) ++
           omit_empty "body" (Body r)).
Definition response_yaml (r : Response) : any :=
  VStruct ([("status", VInt KInt (Status r))] ++ headers_yaml (RespHeaders r) ++
           omit_empty "body" (RespBody r)).

Definition pathQuery (u : Url.URL) : string :=
  Url.Path u +:+ (if bool_decide (Url.RawQuery u = "") then "" else "?" +:+ Url.RawQuery u).

Definition fields (r : Request) (u : Url.URL) : gmap string any :=
  {[ "method" := VString (Method r); "path" := VString (pathQuery u);
     "body_hash" := VString (hash8 (Body r)) ]}.

Definition Fingerprint {U : Unicode} {A : Authority} {F : FloatFormat} (r : Request) : result string :=
  u ← wrap_err "http: parse url: " (url_Parse (URL r));
  wrap_err "http: fingerprint marshal: " (CanonicalFingerprint (of_gomap (fields r u))).
End Http.

(** ** gRPC, unary *)

Module Grpc.
Record Request := { Service : string; Method : string; Message : string }.
Record Response := { StatusCode : Z; RespMessage : string }.

(** yaml.v3 writes a [[]byte] as the sequence of its integers. *)
Definition bytes_yaml (s : string) : any := VSlice ((λ n, VInt KInt (Z.of_N n)) <$> bytes_of s).
Definition omit_bytes (name s : string) : list (string * any) :=
  if bool_decide (s = "") then [] else [(name, bytes_yaml s)].

Definition request_yaml (r : Request) : any :=
  VStruct ([("service", VString (Service r)); ("method", VString (Method r))] ++
           omit_bytes "message" (Message r)).
Definition response_yaml (r : Response) : any :=
  VStruct ([("status_code", VInt KInt (StatusCode r))] ++ omit_bytes "message" (RespMessage r)).

Definition fields (r : Request) : gmap string any :=
  {[ "service" := VString (Service r); "method" := VString (Method r);
     "msg_hash" := VString (hash8 (Message r)) ]}.

Definition Fingerprint {F : FloatFormat} (r : Request) : result string :=
  wrap_err "grpc: fingerprint marshal: " (CanonicalFingerprint (of_gomap (fields r))).
End Grpc.

(** ** fs *)

Module Fs.
Definition OpWrite : string := "write".
Definition OpMkdir : string := "mkdir".
Definition OpRemove : string := "remove".
Definition OpRename : string := "rename".
Definition OpChmod : string := "chmod".
Definition OpChown : string := "chown".
Definition OpSymlink : string := "symlink".
Definition OpHardlink : string := "hardlink".
Definition OpTruncate : string := "truncate".

Record Request := {
  Op : string;
  Path : string;
  Data : string;
  Mode : option Z;
  UID : option Z;
  GID : option Z;
  Dest : string;
  Size : option Z;
  Flags : Z;
  Recursive : bool;
}.
Record Response := { DurationMs : Z; BytesWritten : Z }.

Definition omit_false (name : string) (b : bool) : list (string * any) :=
  if b then [(name, VBool true)] else [].

Definition request_yaml (r : Request) : any :=
  VStruct ([("op", VString (Op r)); ("path", VString (Path r))] ++ omit_empty "data" (Data r) ++
           omit_nil "mode" (VInt KUint32) (Mode r) ++ omit_nil "uid" (VInt KInt) (UID r) ++
           omit_nil "gid" (VInt KInt) (GID r) ++ omit_empty "dest" (Dest r) ++
           omit_nil "size" (VInt KInt64) (Size r) ++ omit_zero "flags" KUint32 (Flags r) ++
           omit_false "recursive" (Recursive r)).
Definition response_yaml (r : Response) : any :=
  VStruct (omit_zero "duration_ms" KInt64 (DurationMs r) ++
           omit_zero "bytes_written" KInt (BytesWritten r)).

(** An adapter is its normalizer. *)
Definition PathNormalizer : Type := string → string.

Definition NewAdapter : PathNormalizer := λ p, p.
Definition WithNormalizer (a n : PathNormalizer) : PathNormalizer := n.
Definition Chain (norms : list PathNormalizer) : PathNormalizer :=
  λ p, foldl (λ p n, n p) p norms.

Definition Normalize (a : PathNormalizer) (p : string) : string :=
  if bool_decide (p = "") then "" else a p.

(** [fields[k] = v] when there is a [v]. *)
Definition add_field (k : string) (v : option any) (m : gmap string any) : gmap string any :=
  match v with Some v => <[k := v]> m | None => m end.
Definition nonempty {A} (s : string) (x : A) : option A := if bool_decide (s = "") then None else Some x.

Definition fields (a : PathNormalizer) (r : Request) : gmap string any :=
  let d := Normalize a (Dest r) in
  add_field "recursive" (if Recursive r then Some (VBool true) else None)
  (add_field "flags" (if (Flags r =? 0)%Z then None else Some (VInt KUint32 (Flags r)))
  (add_field "size" (VInt KInt64 <$> Size r)
  (add_field "dest" (nonempty d (VString d))
  (add_field "gid" (VInt KInt <$> GID r)
  (add_field "uid" (VInt KInt <$> UID r)
  (add_field "mode" (VInt KUint32 <$> Mode r)
  (add_field "data_sha256" (nonempty (Data r) (VString (hash_hex (Data r))))
     {[ "op" := VString (Op r); "path" := VString (Normalize a (Path r)) ]}))))))).

Definition Fingerprint {F : FloatFormat} (a : PathNormalizer) (r : Request) : result string :=
  wrap_err "fs: fingerprint marshal: " (CanonicalFingerprint (of_gomap (fields a r))).
End Fs.

(** ** The dynamic request and response types *)

Inductive request : Type :=
| RqExec (r : Exec.Request)
| RqRedis (r : Redis.Request)
| RqSql (r : Sql.Request)
| RqGrpc (r : Grpc.Request)
| RqFs (r : Fs.Request)
| RqHttp (r : Http.Request).

Inductive resp : Type :=
| RsExec (r : Exec.Response)
| RsRedis (r : Redis.Response)
| RsSql (r : Sql.Response)
| RsGrpc (r : Grpc.Response)
| RsFs (r : Fs.Response)
| RsHttp (r : Http.Response).

(** [AdapterID()] of a request. *)
Definition AdapterID (q : request) : string :=
  match q with
  | RqExec _ => "exec" | RqRedis _ => "redis" | RqSql _ => "sql" | RqGrpc _ => "grpc"
  | RqFs _ => "fs" | RqHttp _ => "http"
  end.

(** The [%T] of a request. *)
Definition type_name (q : request) : string := "*" +:+ AdapterID q +:+ ".Request".

Definition request_yaml (q : request) : any :=
  match q with
  | RqExec r => Exec.request_yaml r
  | RqRedis r => Redis.request_yaml r
  | RqSql r => Sql.request_yaml r
  | RqGrpc r => Grpc.request_yaml r
  | RqFs r => Fs.request_yaml r
  | RqHttp r => Http.request_yaml r
  end.

Definition resp_yaml (p : resp) : any :=
  match p with
  | RsExec r => Exec.response_yaml r
  | RsRedis r => Redis.response_yaml r
  | RsSql r => Sql.response_yaml r
  | RsGrpc r => Grpc.response_yaml r
  | RsFs r => Fs.response_yaml r
  | RsHttp r => Http.response_yaml r
  end.

(** The failed type assertion of every [Fingerprint]. *)
Definition unexpected_type (id : string) (q : request) : err :=
  ENew (id +:+ ": unexpected request type " +:+ type_name q).

Section instances.
Context {U : Unicode} {F : FloatFormat}.

Definition exec_adapter : Adapter request resp :=
  {| ID := "exec"; req_any := request_yaml; resp_any := resp_yaml;
     Fingerprint q := match q with RqExec r => Exec.Fingerprint r
                                 | _ => inl (unexpected_type "exec" q) end |}.

Definition redis_adapter : Adapter request resp :=
  {| ID := "redis"; req_any := request_yaml; resp_any := resp_yaml;
     Fingerprint q := match q with RqRedis r => Redis.Fingerprint r
                                 | _ => inl (unexpected_type "redis" q) end |}.

Definition sql_adapter : Adapter request resp :=
  {| ID := "sql"; req_any := request_yaml; resp_any := resp_yaml;
     Fingerprint q := match q with RqSql r => Sql.Fingerprint r
                                 | _ => inl (unexpected_type "sql" q) end |}.

Definition grpc_adapter : Adapter request resp :=
  {| ID := "grpc"; req_any := request_yaml; resp_any := resp_yaml;
     Fingerprint q := match q with RqGrpc r => Grpc.Fingerprint r
                                 | _ => inl (unexpected_type "grpc" q) end |}.

Definition fs_adapter (a : Fs.PathNormalizer) : Adapter request resp :=
  {| ID := "fs"; req_any := request_yaml; resp_any := resp_yaml;
     Fingerprint q := match q with RqFs r => Fs.Fingerprint a r
                                 | _ => inl (unexpected_type "fs" q) end |}.

Definition http_adapter {A : Authority} : Adapter request resp :=
  {| ID := "http"; req_any := request_yaml; resp_any := resp_yaml;
     Fingerprint q := match q with RqHttp r => Http.Fingerprint r
                                 | _ => inl (unexpected_type "http" q) end |}.
End instances.

(** ** Integer types do not show in JSON *)

Fixpoint erase_kind (v : any) : any :=
  match v with
  | VInt _ z => VInt KInt z
  | VSlice l => VSlice (map erase_kind l)
  | VMap m => VMap (map (λ '(k, x), (k, erase_kind x)) m)
  | VStruct m => VStruct (map (λ '(k, x), (k, erase_kind x)) m)
  | _ => v
  end.

Section erase.
Context {F : FloatFormat}.

Lemma erase_kind_direct v : direct_json (erase_kind v) = direct_json v.
Proof.
  unfold direct_json.
  induction v as [|[]|k z|x|s|s|l IH|m IH|m IH] using any_deep_ind; try done; simpl.
  - assert (map (json_with direct_chunk) (map erase_kind l) = map (json_with direct_chunk) l) as ->;
      [|done].
    induction IH as [|v l Hv _ IHl]; simpl; [done|]. by rewrite Hv, IHl.
  - assert (map (λ '(k, x), (k, json_with direct_chunk x)) (map (λ '(k, x), (k, erase_kind x)) m) =
      map (λ '(k, x), (k, json_with direct_chunk x)) m) as ->; [|done].
    induction IH as [|[k v] l Hv _ IHl]; simpl in *; [done|]. by rewrite Hv, IHl.
  - assert (map (λ '(k, x), (k, json_with direct_chunk x)) (map (λ '(k, x), (k, erase_kind x)) m) =
      map (λ '(k, x), (k, json_with direct_chunk x)) m) as ->; [|done].
    induction IH as [|[k v] l Hv _ IHl]; simpl in *; [done|]. by rewrite Hv, IHl.
Qed.

Lemma erase_gomap m : CanonicalJSON (of_gomap (erase_kind <$> m)) = CanonicalJSON (of_gomap m).
Proof.
  transitivity (CanonicalJSON (erase_kind (of_gomap m))).
  - unfold of_gomap. simpl. rewrite fields_fmap, map_to_list_fmap. done.
  - by rewrite !CanonicalJSON_direct, erase_kind_direct.
Qed.

(** The canonical bytes of a map give its fields back, up to integer types. *)
Lemma canonical_lookup m m' a k :
  canon_gomap (erase_kind <$> m) → canon_gomap (erase_kind <$> m') →
  CanonicalJSON (of_gomap m) = inr a → CanonicalJSON (of_gomap m') = inr a →
  erase_kind <$> m !! k = erase_kind <$> m' !! k.
Proof.
  intros Hm Hm'. rewrite <-(erase_gomap m), <-(erase_gomap m'). intros Ha Ha'.
  rewrite <-!lookup_fmap. by rewrite (CanonicalJSON_gomap_inj _ _ _ Hm Hm' Ha Ha').
Qed.

(** On fields that are canonical as they stand, bytes are fields. *)
Lemma canonical_eq m m' :
  canon_gomap m → canon_gomap m' → CanonicalJSON (of_gomap m) = CanonicalJSON (of_gomap m') ↔ m = m'.
Proof.
  intros H H'. split; [|by intros ->]. intros Heq. destruct (canon_gomap_encodes _ H) as [a Ha].
  apply (CanonicalJSON_gomap_inj m m' a); [done..|by rewrite <-Heq].
Qed.
End erase.

(** ** Fields of the requests *)

Definition valid_argv (l : option (list string)) : Prop :=
  from_option (Forall (λ s, Is_true (utf8_valid s))) True l.

Definition exec_text (r : Exec.Request) : Prop :=
  valid_argv (Exec.Argv r) ∧ utf8_valid (Exec.Stdin r) ∧ utf8_valid (Exec.Cwd r).

Lemma canon_strings (l : option (list string)) : valid_argv l → canon (of_slice VString l).
Proof.
  destruct l as [l|]; [|constructor]. intros H. constructor. apply Forall_fmap.
  eapply Forall_impl; [exact H|]. by constructor.
Qed.

Lemma of_strings_inj : Inj (=) (=) (of_slice VString).
Proof.
  intros [l|] [l'|]; simpl; try done. intros [= H]. f_equal. revert l' H.
  induction l as [|x l IH]; intros [|y l']; try done. rewrite !fmap_cons. intros [= -> H].
  f_equal. auto.
Qed.

Lemma exec_fields_canon r : exec_text r → canon_gomap (Exec.fields r).
Proof.
  intros (H1 & H2 & H3). unfold Exec.fields.
  assert (canon_gomap {[ "argv" := of_slice VString (Exec.Argv r);
    "stdin" := VString (Exec.Stdin r) ]}) as H.
  { apply map_Forall_insert_2; [split; [done|by apply canon_strings]|].
    apply map_Forall_singleton. split; [done|by constructor]. }
  case_bool_decide; [done|]. apply map_Forall_insert_2; [split; [done|by constructor]|done].
Qed.

(** *** fs *)

Lemma add_field_lookup k v m j :
  Fs.add_field k v m !! j =
  if decide (j = k) then match v with Some x => Some x | None => m !! j end else m !! j.
Proof.
  unfold Fs.add_field. destruct v, (decide (j = k)) as [->|]; try done.
  - by rewrite lookup_insert_eq.
  - by rewrite lookup_insert_ne.
Qed.

Definition erased_canon (m : gmap string any) : Prop := canon_gomap (erase_kind <$> m).

Lemma add_field_canon k v m :
  utf8_valid k → from_option (λ x, canon (erase_kind x)) True v → erased_canon m →
  erased_canon (Fs.add_field k v m).
Proof.
  intros Hk Hv Hm. destruct v as [x|]; [|done]. unfold erased_canon, Fs.add_field.
  rewrite fmap_insert. by apply map_Forall_insert_2.
Qed.

Lemma hex_valid s : utf8_valid (hex_encode s).
Proof.
  apply ascii_valid. pose proof (hex_encode_hex s) as H.
  induction (hex_encode s) as [|c t IH]; simpl in *; [done|].
  apply andb_True in H as [Hc Ht]. apply andb_True. split; [|auto].
  clear -Hc. revert Hc. byte_cases; done.
Qed.

Definition fs_text (n : Fs.PathNormalizer) (r : Fs.Request) : Prop :=
  utf8_valid (Fs.Op r) ∧ utf8_valid (Fs.Normalize n (Fs.Path r)) ∧ utf8_valid (Fs.Normalize n (Fs.Dest r)).

Lemma fs_fields_canon n r : fs_text n r → erased_canon (Fs.fields n r).
Proof.
  intros (Ho & Hp & Hd). unfold Fs.fields.
  repeat (apply add_field_canon; [done| |]).
  - destruct (Fs.Recursive r); by constructor.
  - destruct (Fs.Flags r =? 0)%Z; by constructor.
  - destruct (Fs.Size r); by constructor.
  - unfold Fs.nonempty. case_bool_decide; by constructor.
  - destruct (Fs.GID r); by constructor.
  - destruct (Fs.UID r); by constructor.
  - destruct (Fs.Mode r); by constructor.
  - unfold Fs.nonempty. case_bool_decide; constructor. apply hex_valid.
  - unfold erased_canon. rewrite fmap_insert, map_fmap_singleton.
    apply map_Forall_insert_2; [split; [done|by constructor]|].
    apply map_Forall_singleton. split; [done|by constructor].
Qed.

(** What each key of the canonical object holds. *)
Lemma fs_lookups n r :
  let m := Fs.fields n r in
  m !! "op" = Some (VString (Fs.Op r)) ∧
  m !! "path" = Some (VString (Fs.Normalize n (Fs.Path r))) ∧
  m !! "dest" = Fs.nonempty (Fs.Normalize n (Fs.Dest r)) (VString (Fs.Normalize n (Fs.Dest r))) ∧
  m !! "data_sha256" = Fs.nonempty (Fs.Data r) (VString (hash_hex (Fs.Data r))) ∧
  m !! "mode" = VInt KUint32 <$> Fs.Mode r ∧ m !! "uid" = VInt KInt <$> Fs.UID r ∧
  m !! "gid" = VInt KInt <$> Fs.GID r ∧ m !! "size" = VInt KInt64 <$> Fs.Size r ∧
  m !! "flags" = (if (Fs.Flags r =? 0)%Z then None else Some (VInt KUint32 (Fs.Flags r))) ∧
  m !! "recursive" = (if Fs.Recursive r then Some (VBool true) else None).
Proof.
  intros m. unfold m, Fs.fields.
  split_and!; rewrite !add_field_lookup; repeat (rewrite decide_False by done);
    rewrite ?decide_True by done; repeat (rewrite decide_False by done);
    rewrite ?lookup_insert_eq, ?lookup_insert_ne, ?lookup_singleton_eq, ?lookup_singleton_ne by done;
    try done; repeat case_match; done.
Qed.

Section adapter_properties.
Context {U : Unicode} {F : FloatFormat}.

(** The exec fingerprint hashes exactly argv, stdin and the working
    directory: two requests have the same canonical bytes if and only if they
    agree on these three; the environment never participates. *)
Theorem exec_identity r r' :
  exec_text r → exec_text r' →
  CanonicalJSON (of_gomap (Exec.fields r)) = CanonicalJSON (of_gomap (Exec.fields r')) ↔
  Exec.Argv r = Exec.Argv r' ∧ Exec.Stdin r = Exec.Stdin r' ∧ Exec.Cwd r = Exec.Cwd r'.
Proof.
  intros H%exec_fields_canon H'%exec_fields_canon. rewrite canonical_eq by done. split.
  - intros Hm. assert (∀ k, Exec.fields r !! k = Exec.fields r' !! k) as Hk by (by rewrite Hm).
    clear -Hk. unfold Exec.fields in Hk.
    pose proof (Hk "argv") as H1. pose proof (Hk "stdin") as H2. pose proof (Hk "cwd") as H3.
    clear Hk.
    repeat case_bool_decide; simplify_map_eq; split_and!; try congruence;
      by apply of_strings_inj.
  - intros (H1 & H2 & H3). unfold Exec.fields. by rewrite H1, H2, H3.
Qed.

Lemma fingerprint_hex p v fp :
  wrap_err p (CanonicalFingerprint v) = inr fp → fingerprint_shape fp.
Proof.
  intros H%wrap_err_inr. apply bind_inr in H as (b & _ & H). injection H as <-. apply hash8_shape.
Qed.

(** What a session expects of an adapter, each a dispatch on the type of the
    request. *)
Ltac solve_laws :=
  split; [reflexivity|]; intros []; cbn [Session.Fingerprint exec_adapter redis_adapter sql_adapter
    grpc_adapter fs_adapter http_adapter]; intros fp H; first
    [ exact (fingerprint_hex _ _ _ H)
    | apply bind_inr in H as (u & _ & H); exact (fingerprint_hex _ _ _ H)
    | discriminate H ].

Lemma exec_laws : @AdapterLaws request resp exec_adapter.
Proof. solve_laws. Qed.
Lemma redis_laws : @AdapterLaws request resp redis_adapter.
Proof. solve_laws. Qed.
Lemma sql_laws : @AdapterLaws request resp sql_adapter.
Proof. solve_laws. Qed.
Lemma grpc_laws : @AdapterLaws request resp grpc_adapter.
Proof. solve_laws. Qed.
Lemma fs_laws n : @AdapterLaws request resp (fs_adapter n).
Proof. solve_laws. Qed.
Lemma http_laws {Au : Authority} : @AdapterLaws request resp http_adapter.
Proof. solve_laws. Qed.

(** The fs fingerprint hashes exactly the fields its contract selects: two
    requests with the same canonical bytes agree on the operation, the
    normalized path and destination, the digest of the data, the optional mode,
    owner and size, the flags and the recursive bit. *)
Theorem fs_identity (n : Fs.PathNormalizer) r r' a :
  fs_text n r → fs_text n r' →
  CanonicalJSON (of_gomap (Fs.fields n r)) = inr a →
  CanonicalJSON (of_gomap (Fs.fields n r')) = inr a →
  Fs.Op r = Fs.Op r' ∧ Fs.Normalize n (Fs.Path r) = Fs.Normalize n (Fs.Path r') ∧
  Fs.Normalize n (Fs.Dest r) = Fs.Normalize n (Fs.Dest r') ∧
  Fs.nonempty (Fs.Data r) (hash_hex (Fs.Data r)) = Fs.nonempty (Fs.Data r') (hash_hex (Fs.Data r')) ∧
  Fs.Mode r = Fs.Mode r' ∧ Fs.UID r = Fs.UID r' ∧ Fs.GID r = Fs.GID r' ∧ Fs.Size r = Fs.Size r' ∧
  Fs.Flags r = Fs.Flags r' ∧ Fs.Recursive r = Fs.Recursive r'.
Proof.
  intros Ht Ht' Ha Ha'.
  assert (∀ k, erase_kind <$> Fs.fields n r !! k = erase_kind <$> Fs.fields n r' !! k) as Hk.
  { intros k. eapply canonical_lookup; [| |exact Ha|exact Ha']; by apply fs_fields_canon. }
  destruct (fs_lookups n r) as (L1 & L2 & L3 & L4 & L5 & L6 & L7 & L8 & L9 & L10).
  destruct (fs_lookups n r') as (R1 & R2 & R3 & R4 & R5 & R6 & R7 & R8 & R9 & R10).
  assert (∀ (k : intkind) (x y : option Z),
    erase_kind <$> (VInt k <$> x) = erase_kind <$> (VInt k <$> y) → x = y) as Hint.
  { intros k [x|] [y|]; simpl; congruence. }
  assert (∀ s s' x x', (x = "" → s = "") → (x' = "" → s' = "") → (s = "" → x = "") →
    (s' = "" → x' = "") →
    erase_kind <$> Fs.nonempty s (VString x) = erase_kind <$> Fs.nonempty s' (VString x') →
    x = x') as Hstr.
  { intros s s' x x' H1 H2 H3 H4. unfold Fs.nonempty. repeat case_bool_decide; simpl;
      try congruence; intros _; rewrite H3, H4; done. }
  split_and!.
  - specialize (Hk "op"). rewrite L1, R1 in Hk. by injection Hk.
  - specialize (Hk "path"). rewrite L2, R2 in Hk. by injection Hk.
  - specialize (Hk "dest"). rewrite L3, R3 in Hk. by eapply Hstr; [..|exact Hk].
  - specialize (Hk "data_sha256"). rewrite L4, R4 in Hk. unfold Fs.nonempty in *.
    repeat case_bool_decide; simpl in Hk; congruence.
  - specialize (Hk "mode"). rewrite L5, R5 in Hk. by eapply Hint.
  - specialize (Hk "uid"). rewrite L6, R6 in Hk. by eapply Hint.
  - specialize (Hk "gid"). rewrite L7, R7 in Hk. by eapply Hint.
  - specialize (Hk "size"). rewrite L8, R8 in Hk. by eapply Hint.
  - specialize (Hk "flags"). rewrite L9, R9 in Hk.
    destruct (Fs.Flags r =? 0)%Z eqn:E, (Fs.Flags r' =? 0)%Z eqn:E'; simpl in Hk;
      [lia|discriminate|discriminate|congruence].
  - specialize (Hk "recursive"). rewrite L10, R10 in Hk.
    destruct (Fs.Recursive r), (Fs.Recursive r'); simpl in Hk; congruence.
Qed.

(** The redis fingerprint is case-insensitive in the command and does not
    see where one argument ends and the next begins: joining two arguments with
    a space leaves the fingerprint as it was. *)
Theorem redis_argument_boundaries c x y l :
  Redis.Fingerprint {| Redis.Command := c; Redis.Args := Some (x :: y :: l) |} =
  Redis.Fingerprint {| Redis.Command := c; Redis.Args := Some ((x +:+ " " +:+ y) :: l) |}.
Proof.
  unfold Redis.Fingerprint. do 3 f_equal. unfold Redis.parts. simpl.
  destruct l; rewrite ?sapp_assoc; done.
Qed.

Lemma http_lookups r u :
  let m := Http.fields r u in
  m !! "method" = Some (VString (Http.Method r)) ∧
  m !! "path" = Some (VString (Http.pathQuery u)) ∧
  m !! "body_hash" = Some (VString (hash8 (Http.Body r))).
Proof. unfold Http.fields. generalize (hash8 (Http.Body r)). intros h. split_and!; reflexivity. Qed.

Lemma http_fields_canon r u :
  utf8_valid (Http.Method r) → utf8_valid (Http.pathQuery u) → canon_gomap (Http.fields r u).
Proof.
  intros H1 H2. unfold Http.fields.
  apply map_Forall_insert_2; [split; [done|constructor; exact H1]|].
  apply map_Forall_insert_2; [split; [done|constructor; exact H2]|].
  apply map_Forall_singleton. split; [done|constructor; apply hex_valid].
Qed.

Lemma http_bytes r r' u u' :
  utf8_valid (Http.Method r) → utf8_valid (Http.pathQuery u) →
  utf8_valid (Http.Method r') → utf8_valid (Http.pathQuery u') →
  CanonicalJSON (of_gomap (Http.fields r u)) = CanonicalJSON (of_gomap (Http.fields r' u')) ↔
  Http.Method r = Http.Method r' ∧ Http.pathQuery u = Http.pathQuery u' ∧
  hash8 (Http.Body r) = hash8 (Http.Body r').
Proof.
  intros Hm Hp Hm' Hp'. pose proof (http_fields_canon r u Hm Hp) as H.
  pose proof (http_fields_canon r' u' Hm' Hp') as H'. rewrite canonical_eq by done. clear. split.
  - intros Hf.
    destruct (http_lookups r u) as (L1 & L2 & L3). destruct (http_lookups r' u') as (R1 & R2 & R3).
    rewrite Hf in L1, L2, L3. rewrite R1 in L1. rewrite R2 in L2. rewrite R3 in L3.
    assert (∀ x y, Some (VString x) = Some (VString y) → y = x) as Hi by (intros x y E; by injection E).
    split_and!; [exact (Hi _ _ L1)|exact (Hi _ _ L2)|exact (Hi _ _ L3)].
  - intros (H1 & H2 & H3). unfold Http.fields. by rewrite H1, H2, H3.
Qed.



(** *** Every adapter *)

Lemma gomap_bytes m : erased_canon m → ∃ b, CanonicalJSON (of_gomap m) = inr b.
Proof. intros H. rewrite <-erase_gomap. by apply canon_gomap_encodes. Qed.

Lemma gomap_bytes_iff m m' :
  erased_canon m → erased_canon m' →
  CanonicalJSON (of_gomap m) = CanonicalJSON (of_gomap m') ↔ erase_kind <$> m = erase_kind <$> m'.
Proof.
  intros H H'. split.
  - intros Heq. destruct (gomap_bytes m H) as [b Hb]. apply map_eq. intros k.
    rewrite !lookup_fmap. eapply canonical_lookup; [done..|exact Hb|by rewrite <-Heq].
  - intros Heq. by rewrite <-(erase_gomap m), Heq, erase_gomap.
Qed.

Lemma erase_canon v : canon v → erase_kind v = v.
Proof.
  induction v as [| |k z|x|s|s|l IH|m IH|m _] using any_deep_ind; inversion 1; subst; try done; simpl; f_equal.
  - match goal with H : Forall canon l |- _ => revert H end. clear H.
    induction IH as [|v l Hv _ IHl]; [done|]. intros [Hc Hl]%Forall_cons. simpl. by rewrite Hv, IHl.
  - match goal with H : Forall (λ kv, canon kv.2) m |- _ => revert H end. clear -IH.
    induction IH as [|[k v] m Hv _ IHm]; [done|]. intros [Hc Hm]%Forall_cons. simpl in *. by rewrite Hv, IHm.
Qed.

Lemma canon_erased m : canon_gomap m → erased_canon m.
Proof.
  intros H. unfold erased_canon. enough (erase_kind <$> m = m) as -> by done.
  rewrite <-(map_fmap_id m) at 2. apply map_fmap_ext. intros k v Hk. by apply erase_canon, (H k).
Qed.

(** *** What each adapter hashes *)

Lemma redis_bytes r r' :
  utf8_valid (Redis.parts r) → utf8_valid (Redis.parts r') →
  CanonicalJSON (VString (Redis.parts r)) = CanonicalJSON (VString (Redis.parts r')) ↔
  Redis.parts r = Redis.parts r'.
Proof.
  intros H H'. split; [|by intros ->]. intros Heq.
  destruct (canon_encodes (VString (Redis.parts r))) as [b Hb]; [by constructor|].
  assert (VString (Redis.parts r) = VString (Redis.parts r')) as E; [|by injection E].
  eapply CanonicalJSON_inj; [by constructor..|exact Hb|by rewrite <-Heq].
Qed.

Definition sql_args_ok (l : option (list any)) : Prop := from_option (Forall (λ a, canon (erase_kind a))) True l.

Lemma sql_fields_erased r :
  erase_kind <$> Sql.fields r =
  {[ "query" := VString (Sql.normalizeQuery (Sql.Query r)); "args" := of_slice erase_kind (Sql.Args r) ]}.
Proof.
  unfold Sql.fields. rewrite fmap_insert, map_fmap_singleton. do 2 f_equal.
  destruct (Sql.Args r) as [l|]; [|done]. simpl. by rewrite list_fmap_id.
Qed.

Lemma sql_fields_canon r :
  utf8_valid (Sql.normalizeQuery (Sql.Query r)) → sql_args_ok (Sql.Args r) → erased_canon (Sql.fields r).
Proof.
  intros Hq Ha. unfold erased_canon. rewrite sql_fields_erased.
  apply map_Forall_insert_2; [split; [done|by constructor]|]. apply map_Forall_singleton. split; [done|].
  destruct (Sql.Args r) as [l|]; [|constructor]. constructor. by apply Forall_fmap.
Qed.

Lemma two_fields (a b a' b' : any) :
  {[ "query" := a; "args" := b ]} =@{gmap string any} {[ "query" := a'; "args" := b' ]} → a = a' ∧ b = b'.
Proof.
  intros H. pose proof (f_equal (lookup "query") H) as Ha. pose proof (f_equal (lookup "args") H) as Hb.
  rewrite !lookup_insert_eq in Ha. rewrite !lookup_insert_ne, !lookup_singleton_eq in Hb by done.
  split; [by injection Ha|by injection Hb].
Qed.

Lemma sql_bytes r r' :
  erased_canon (Sql.fields r) → erased_canon (Sql.fields r') →
  CanonicalJSON (of_gomap (Sql.fields r)) = CanonicalJSON (of_gomap (Sql.fields r')) ↔
  Sql.normalizeQuery (Sql.Query r) = Sql.normalizeQuery (Sql.Query r') ∧
  map erase_kind <$> Sql.Args r = map erase_kind <$> Sql.Args r'.
Proof.
  intros H H'. rewrite gomap_bytes_iff, !sql_fields_erased by done. split.
  - intros [Hq Ha]%two_fields. injection Hq as Hq. split; [exact Hq|].
    destruct (Sql.Args r), (Sql.Args r'); try discriminate Ha; [|done]. injection Ha as Ha. by apply (f_equal Some).
  - intros [Hq Ha]. rewrite Hq. f_equal. f_equal.
    destruct (Sql.Args r), (Sql.Args r'); try discriminate Ha; [|done]. injection Ha as Ha. by apply (f_equal VSlice).
Qed.

Lemma grpc_fields_canon r :
  utf8_valid (Grpc.Service r) → utf8_valid (Grpc.Method r) → canon_gomap (Grpc.fields r).
Proof.
  intros H1 H2. unfold Grpc.fields.
  apply map_Forall_insert_2; [split; [done|constructor; exact H1]|].
  apply map_Forall_insert_2; [split; [done|constructor; exact H2]|].
  apply map_Forall_singleton. split; [done|constructor; apply hex_valid].
Qed.

Lemma grpc_bytes r r' :
  canon_gomap (Grpc.fields r) → canon_gomap (Grpc.fields r') →
  CanonicalJSON (of_gomap (Grpc.fields r)) = CanonicalJSON (of_gomap (Grpc.fields r')) ↔
  Grpc.Service r = Grpc.Service r' ∧ Grpc.Method r = Grpc.Method r' ∧
  hash8 (Grpc.Message r) = hash8 (Grpc.Message r').
Proof.
  intros H H'. rewrite canonical_eq by done. clear. split.
  - unfold Grpc.fields. generalize (hash8 (Grpc.Message r)), (hash8 (Grpc.Message r')). intros h h' Hm.
    pose proof (f_equal (lookup "service") Hm). pose proof (f_equal (lookup "method") Hm).
    pose proof (f_equal (lookup "msg_hash") Hm). by simplify_map_eq.
  - intros (H1 & H2 & H3). unfold Grpc.fields. by rewrite H1, H2, H3.
Qed.

Lemma fs_bytes (n : Fs.PathNormalizer) r r' :
  fs_text n r → fs_text n r' →
  CanonicalJSON (of_gomap (Fs.fields n r)) = CanonicalJSON (of_gomap (Fs.fields n r')) ↔
  Fs.Op r = Fs.Op r' ∧ Fs.Normalize n (Fs.Path r) = Fs.Normalize n (Fs.Path r') ∧
  Fs.Normalize n (Fs.Dest r) = Fs.Normalize n (Fs.Dest r') ∧
  Fs.nonempty (Fs.Data r) (hash_hex (Fs.Data r)) = Fs.nonempty (Fs.Data r') (hash_hex (Fs.Data r')) ∧
  Fs.Mode r = Fs.Mode r' ∧ Fs.UID r = Fs.UID r' ∧ Fs.GID r = Fs.GID r' ∧ Fs.Size r = Fs.Size r' ∧
  Fs.Flags r = Fs.Flags r' ∧ Fs.Recursive r = Fs.Recursive r'.
Proof.
  intros Ht Ht'. split.
  - intros Heq. destruct (gomap_bytes (Fs.fields n r)) as [a Ha]; [by apply fs_fields_canon|].
    apply (fs_identity n r r' a); [done..|by rewrite <-Heq].
  - intros (H1 & H2 & H3 & H4 & H5 & H6 & H7 & H8 & H9 & H10).
    assert (∀ q, Fs.nonempty (Fs.Data q) (VString (hash_hex (Fs.Data q))) =
      VString <$> Fs.nonempty (Fs.Data q) (hash_hex (Fs.Data q))) as Hd.
    { intros q. unfold Fs.nonempty. by case_bool_decide. }
    unfold Fs.fields. by rewrite !Hd, H1, H2, H3, H4, H5, H6, H7, H8, H9, H10.
Qed.

(** ** What identifies a request *)

Context {Au : Authority}.

(** The adapter of a request, and the value it hashes. *)
Definition adapter_for (n : Fs.PathNormalizer) (q : request) : Adapter request resp :=
  match q with
  | RqExec _ => exec_adapter | RqRedis _ => redis_adapter | RqSql _ => sql_adapter
  | RqGrpc _ => grpc_adapter | RqFs _ => fs_adapter n | RqHttp _ => http_adapter
  end.

Definition hashed (n : Fs.PathNormalizer) (q : request) : result any :=
  match q with
  | RqExec r => inr (of_gomap (Exec.fields r))
  | RqRedis r => inr (VString (Redis.parts r))
  | RqSql r => inr (of_gomap (Sql.fields r))
  | RqGrpc r => inr (of_gomap (Grpc.fields r))
  | RqFs r => inr (of_gomap (Fs.fields n r))
  | RqHttp r => u ← url_Parse (Http.URL r); inr (of_gomap (Http.fields r u))
  end.

Definition canonical_input (n : Fs.PathNormalizer) (q : request) : result string :=
  v ← hashed n q; CanonicalJSON v.

(** Two requests are one interaction: what each adapter's documentation says its
    fingerprint is made of. *)
Definition same_interaction (n : Fs.PathNormalizer) (q q' : request) : Prop :=
  match q, q' with
  | RqExec r, RqExec r' =>
    Exec.Argv r = Exec.Argv r' ∧ Exec.Stdin r = Exec.Stdin r' ∧ Exec.Cwd r = Exec.Cwd r'
  | RqRedis r, RqRedis r' =>
    let words r := ToUpper (Redis.Command r) :: default [] (Redis.Args r) in
    Join (words r) " " = Join (words r') " "
  | RqSql r, RqSql r' =>
    let normal q := TrimSpace (Sql.collapse false (ToLower q)) in
    normal (Sql.Query r) = normal (Sql.Query r') ∧
    map erase_kind <$> Sql.Args r = map erase_kind <$> Sql.Args r'
  | RqGrpc r, RqGrpc r' =>
    Grpc.Service r = Grpc.Service r' ∧ Grpc.Method r = Grpc.Method r' ∧
    hash8 (Grpc.Message r) = hash8 (Grpc.Message r')
  | RqFs r, RqFs r' =>
    let at_ p := if bool_decide (p = "") then "" else n p in
    let digest d := if bool_decide (d = "") then None else Some (hash_hex d) in
    Fs.Op r = Fs.Op r' ∧ at_ (Fs.Path r) = at_ (Fs.Path r') ∧ at_ (Fs.Dest r) = at_ (Fs.Dest r') ∧
    digest (Fs.Data r) = digest (Fs.Data r') ∧
    Fs.Mode r = Fs.Mode r' ∧ Fs.UID r = Fs.UID r' ∧ Fs.GID r = Fs.GID r' ∧ Fs.Size r = Fs.Size r' ∧
    Fs.Flags r = Fs.Flags r' ∧ Fs.Recursive r = Fs.Recursive r'
  | RqHttp r, RqHttp r' =>
    let target u := Url.Path u +:+ (if bool_decide (Url.RawQuery u = "") then "" else "?" +:+ Url.RawQuery u) in
    ∃ u u', url_Parse (Http.URL r) = inr u ∧ url_Parse (Http.URL r') = inr u' ∧
      Http.Method r = Http.Method r' ∧ target u = target u' ∧ hash8 (Http.Body r) = hash8 (Http.Body r')
  | _, _ => False
  end.

(** The texts a request hands to the encoder are UTF-8, its SQL arguments are values
    JSON has one form for, and its URL parses. *)
Definition fingerprintable (n : Fs.PathNormalizer) (q : request) : Prop :=
  match q with
  | RqExec r => exec_text r
  | RqRedis r => utf8_valid (Redis.parts r)
  | RqSql r => utf8_valid (Sql.normalizeQuery (Sql.Query r)) ∧ sql_args_ok (Sql.Args r)
  | RqGrpc r => utf8_valid (Grpc.Service r) ∧ utf8_valid (Grpc.Method r)
  | RqFs r => fs_text n r
  | RqHttp r => utf8_valid (Http.Method r) ∧ ∃ u, url_Parse (Http.URL r) = inr u ∧ utf8_valid (Http.pathQuery u)
  end.

#[local] Opaque CanonicalJSON hash8.

Lemma wrapped_fingerprint p v b :
  CanonicalJSON v = inr b → wrap_err p (CanonicalFingerprint v) = inr (hash8 b).
Proof. intros H. apply wrap_err_inr, bind_inr. by exists b. Qed.

Lemma canonical_input_hashed n q b :
  canonical_input n q = inr b → @Fingerprint _ _ (adapter_for n q) q = inr (hash8 b).
Proof.
  intros (v & Hv & Hb)%bind_inr. destruct q; cbn [hashed] in Hv;
    try (injection Hv as <-; exact (wrapped_fingerprint _ _ _ Hb)).
  apply bind_inr in Hv as (u & Hu & Hv). injection Hv as <-.
  apply bind_inr. exists u. split; [by apply wrap_err_inr|exact (wrapped_fingerprint _ _ _ Hb)].
Qed.

Lemma fingerprintable_encodes n q :
  fingerprintable n q → ∃ b, canonical_input n q = inr b.
Proof.
  destruct q as [r|r|r|r|r|r]; simpl.
  - intros H%exec_fields_canon. by apply canon_gomap_encodes.
  - intros H. apply canon_encodes. by constructor.
  - intros [H1 H2]. by apply gomap_bytes, sql_fields_canon.
  - intros [H1 H2]. by apply canon_gomap_encodes, grpc_fields_canon.
  - intros H. by apply gomap_bytes, fs_fields_canon.
  - intros [H1 (u & Hu & H2)]. unfold canonical_input. simpl. rewrite Hu. simpl.
    by apply canon_gomap_encodes, http_fields_canon.
Qed.

Lemma canonical_input_eq n q q' :
  fingerprintable n q → fingerprintable n q' → AdapterID q = AdapterID q' →
  canonical_input n q = canonical_input n q' ↔ same_interaction n q q'.
Proof.
  intros H H' Hid.
  destruct q as [r|r|r|r|r|r], q' as [r'|r'|r'|r'|r'|r']; try discriminate Hid; clear Hid.
  - exact (exec_identity r r' H H').
  - exact (redis_bytes r r' H H').
  - destruct H as [H1 H2], H' as [H1' H2'].
    exact (sql_bytes r r' (sql_fields_canon r H1 H2) (sql_fields_canon r' H1' H2')).
  - destruct H as [H1 H2], H' as [H1' H2'].
    exact (grpc_bytes r r' (grpc_fields_canon r H1 H2) (grpc_fields_canon r' H1' H2')).
  - exact (fs_bytes n r r' H H').
  - destruct H as [Hm (u & Hu & Hp)], H' as [Hm' (u' & Hu' & Hp')].
    assert (∀ q w, url_Parse (Http.URL q) = inr w →
      canonical_input n (RqHttp q) = CanonicalJSON (of_gomap (Http.fields q w))) as Hc.
    { intros q w Hw. unfold canonical_input. cbn [hashed]. by rewrite Hw. }
    rewrite (Hc r u Hu), (Hc r' u' Hu'), (http_bytes r r' u u' Hm Hp Hm' Hp'). split.
    + intros H. exists u, u'. split; [exact Hu|]. split; [exact Hu'|exact H].
    + intros (v & v' & Hv & Hv' & H). rewrite Hu in Hv. rewrite Hu' in Hv'.
      injection Hv as <-. injection Hv' as <-. exact H.
Qed.


End adapter_properties.

(** ** Closed instances *)

Section witnesses.
Local Existing Instance integral_floats.

Definition demo_exec (cwd : string) (env : gmap string string) : Exec.Request :=
  {| Exec.Argv := Some ["gh"; "pr"; "view"]; Exec.Stdin := ""; Exec.Cwd := cwd; Exec.Env := env |}.

Lemma demo_exec_text cwd env : utf8_valid cwd → exec_text (demo_exec cwd env).
Proof. intros H. split_and!; [by repeat constructor|done|done]. Qed.

Lemma exec_identity_witness :
  CanonicalJSON (of_gomap (Exec.fields (demo_exec "/tmp" ∅))) =
    CanonicalJSON (of_gomap (Exec.fields (demo_exec "/tmp" {[ "HOME" := "/root" ]}))) ∧
  CanonicalJSON (of_gomap (Exec.fields (demo_exec "/tmp" ∅))) ≠
    CanonicalJSON (of_gomap (Exec.fields (demo_exec "" ∅))).
Proof.
  split.
  - apply exec_identity; [by apply demo_exec_text..|done].
  - intros (_ & _ & H)%exec_identity; [discriminate H|by apply demo_exec_text..].
Defined.

Definition demo_write (data : string) : Fs.Request :=
  {| Fs.Op := Fs.OpWrite; Fs.Path := "/a"; Fs.Data := data; Fs.Mode := Some 420%Z;
     Fs.UID := None; Fs.GID := None; Fs.Dest := ""; Fs.Size := None; Fs.Flags := 0;
     Fs.Recursive := false |}.

(** A normalizer that maps every path to a constant. *)
Definition demo_normalizer : Fs.PathNormalizer := λ _, "P".

Lemma fs_identity_witness :
  (∃ a, CanonicalJSON (of_gomap (Fs.fields demo_normalizer (demo_write "x"))) = inr a) ∧
  Fs.Mode (demo_write "x") = Fs.Mode (demo_write "x").
Proof.
  destruct (CanonicalJSON (of_gomap (Fs.fields demo_normalizer (demo_write "x")))) as [|a] eqn:E;
    [vm_compute in E; discriminate|].
  destruct (fs_identity demo_normalizer (demo_write "x") (demo_write "x") a (conj I (conj I I)) (conj I (conj I I)) E E)
    as (_ & _ & _ & _ & H & _).
  split; [by exists a|exact H].
Defined.

Definition demo_get (url token : string) : Http.Request :=
  {| Http.Method := "GET"; Http.URL := url; Http.Headers := {[ "Authorization" := token ]}; Http.Body := "" |}.

Definition no_authority_errors : Authority := λ _, None.
#[local] Existing Instance ascii_only.
#[local] Existing Instance no_authority_errors.
Definition parsed (url : string) : Url.URL :=
  match url_Parse (U := ascii_only) (A := no_authority_errors) url with
  | inr u => u
  | inl _ => {| Url.Scheme := ""; Url.Opaque := ""; Url.Path := ""; Url.RawQuery := "" |}
  end.


End witnesses.
