(* ===== verification/CliPlatform.v ===== *)
(** go/cmd/xrr/platform.go: shims as files of a run directory, the search of the
    original PATH, and the environment of a child.  The names of that file are in
    [CliConfig]. *)

From S2P Require Import Prelude GoStrings Redact Os Paths Session Glob CliConfig.

Definition configFile : string := "config.json".
Definition callsFile : string := "calls.jsonl".
Definition binSubdir : string := "bin".
Definition runDirPrefix : string := "xrr-run-".
Definition runDirEnv : string := "XRR_RUN_DIR".

(** ** path/filepath *)

(** [filepath.Ext]: from the last dot of the last element. *)
Definition filepath_Ext (path : string) : string :=
  let b := match CutLast1 path slash with Some (_, b) => b | None => path end in
  match CutLast1 b "." with Some (_, e) => "." +:+ e | None => "" end.

(** [filepath.SplitList] on Unix. *)
Definition SplitList (path : string) : list string :=
  if bool_decide (path = "") then [] else Split1 path ":".

(** What the model's files do not carry: the execute bits of a file and where a
    symbolic link leads; and the failures of linking, with what [os.IsExist] says. *)
Class Platform := {
  exec_bits : string → bool;
  EvalSymlinks : string → option string;
  link_fault : string → string → option string;
}.

Section platform.
Context {U : Unicode} {O : Faults} {P : Platform}.

(** ** Shims *)

(** [None] is [ok = false]. *)
Definition shimIdentity (exe : string) (σ : fsys) : option (string * string) :=
  let dir := filepath_Dir exe in
  if negb (bool_decide (filepath_Base dir = binSubdir)) then None else
  let runDir := filepath_Dir dir in
  if negb (HasPrefix (filepath_Base runDir) runDirPrefix) then None else
  match (Stat (filepath_Join [runDir; configFile]) σ).2 with
  | inr false => Some (runDir, filepath_Base exe)
  | _ => None
  end.

(** [os.Link]: the flag says that [dst] exists. *)
Definition Link (src dst : string) : fsys → fsys * option (bool * err) := λ σ,
  match link_fault src dst with
  | Some text => (σ, Some (false, EOs false text))
  | None =>
    match σ !! src, σ !! dst with
    | _, Some _ => (σ, Some (true, EOs false ("link " +:+ src +:+ " " +:+ dst +:+ ": file exists")))
    | Some (FFile data), None => (<[dst := FFile data]> σ, None)
    | Some FDir, None => (σ, Some (false, EOs false ("link " +:+ src +:+ " " +:+ dst +:+ ": operation not permitted")))
    | None, None => (σ, Some (false, EOs true ("link " +:+ src +:+ " " +:+ dst +:+ ": no such file or directory")))
    end
  end.

(** [O_EXCL]: the file must not exist; after a failed copy it is removed. *)
Definition copyExec (src dst : string) : io unit := λ σ,
  match ReadFile src σ with
  | (σ, inl e) => (σ, inl e)
  | (σ, inr data) =>
    match σ !! dst with
    | Some _ => (σ, inl (EOs false (path_error "open" dst "file exists")))
    | None =>
      match WriteFile dst data σ with
      | (σ', inl e) => (delete dst σ', inl e)
      | (σ', inr _) => (σ', inr tt)
      end
    end
  end.

Definition linkOrCopy (src dst : string) : io unit := λ σ,
  match Link src dst σ with
  | (σ, None) => (σ, inr tt)
  | (σ, Some (existed, e)) => if existed then (σ, inl e) else copyExec src dst σ
  end.

(** The loop of [installShims]; [first] says that no shim has been made yet. *)
Fixpoint install (binDir src : string) (first : bool) (goos : string) (seen : list string)
    (names : list string) : io unit :=
  match names with
  | [] => mret tt
  | n :: names' =>
    let f := shimFileName n goos in
    let key := if isWindows goos then ToLower f else f in
    if contains seen key then install binDir src first goos seen names' else
    let dst := filepath_Join [binDir; f] in
    linkOrCopy src dst;;
    install binDir (if first then dst else src) false goos (key :: seen) names'
  end.

Definition installShims (binDir self : string) (names : list string) (goos : string) : io unit :=
  install binDir (default self (EvalSymlinks self)) true goos [] names.

(** ** The original PATH *)

Definition defaultPathExt : string := ".COM;.EXE;.BAT;.CMD".

Definition path_exts (name goos pathext : string) : list string :=
  if isWindows goos then
    let pathext := if bool_decide (pathext = "") then defaultPathExt else pathext in
    (if bool_decide (filepath_Ext name = "") then [] else [""]) ++
    filter (λ e, e ≠ "") (TrimSpace <$> Split1 pathext ";")
  else [""].

(** An executable file. *)
Definition runnable (goos : string) (σ : fsys) (p : string) : bool :=
  match (Stat p σ).2 with
  | inr false => isWindows goos || exec_bits p
  | _ => false
  end.

Definition candidates (name pathVar goos pathext : string) : list string :=
  d ← SplitList pathVar;
  let d := if bool_decide (d = "") then "." else d in
  (λ e, filepath_Join [d; name +:+ e]) <$> path_exts name goos pathext.

Definition lookPathIn (name pathVar goos pathext : string) (σ : fsys) : option string :=
  List.find (runnable goos σ) (candidates name pathVar goos pathext).

(** ** The environment *)

Definition env_key (e : string) : string := match Cut1 e "=" with Some (k, _) => k | None => e end.

Definition same_key (goos k key : string) : bool :=
  bool_decide (k = key) || isWindows goos && EqualFold k key.

Definition withEnvOS (env : list string) (key val goos : string) : list string :=
  filter (λ e, same_key goos (env_key e) key = false) env ++ [key +:+ "=" +:+ val].

(** [os.LookupEnv] over the list [os.Environ] gives. *)
Fixpoint LookupEnv (environ : list string) (key : string) : option string :=
  match environ with
  | [] => None
  | e :: environ' =>
    match Cut1 e "=" with
    | Some (k, v) => if bool_decide (k = key) && negb (bool_decide (key = "")) then Some v else LookupEnv environ' key
    | None => LookupEnv environ' key
    end
  end.

Definition Getenv (environ : list string) (key : string) : string := default "" (LookupEnv environ key).
End platform.

(** ** Shims of a run *)

Section properties.
Context {U : Unicode} {O : Faults} {P : Platform}.

Lemma validCommandName_plain n : validCommandName n = None → plain_name n.
Proof.
  unfold validCommandName. intros H.
  destruct (bool_decide (n = "") || bool_decide (n = ".") || bool_decide (n = "..")) eqn:E; [done|].
  rewrite !orb_false_iff in E. destruct E as [[E1%bool_decide_eq_false_1 E2%bool_decide_eq_false_1] E3%bool_decide_eq_false_1].
  destruct (sall _ n) eqn:Es; [|done]. split_and!; [|done..]. clear -Es. apply Is_true_true_2 in Es.
  induction n as [|c n IH]; [done|]. cbn [sall contains_char] in *. apply andb_True in Es as [Hc Es].
  rewrite (IH Es), orb_false_r. apply bool_decide_eq_false_2. intros ->. done.
Qed.

(** A shim is its source's content under a name that was free. *)
Lemma linkOrCopy_inr src dst σ σ' :
  linkOrCopy src dst σ = (σ', inr tt) →
  ∃ data, σ !! src = Some (FFile data) ∧ σ !! dst = None ∧ σ' = <[dst := FFile data]> σ.
Proof.
  unfold linkOrCopy, copyExec, Link, ReadFile, WriteFile. intros H. split_match; eauto.
Qed.

(** In a run directory the program knows a shim's file for what it is. *)
Lemma shimIdentity_bin runDir f σ data :
  runDir ≠ "" → plain_name f → HasPrefix (filepath_Base (Clean runDir)) runDirPrefix →
  σ !! filepath_Join [Clean runDir; configFile] = Some (FFile data) →
  read_fault (filepath_Join [Clean runDir; configFile]) = None →
  shimIdentity (filepath_Join [filepath_Join [runDir; binSubdir]; f]) σ = Some (Clean runDir, f).
Proof.
  intros Hne Hf Hp Hc Hr. assert (plain_name binSubdir) as Hb by (by split_and!).
  assert (filepath_Join [runDir; binSubdir] ≠ "") as Hbne.
  { rewrite filepath_Join_name by done. by destruct (dir_prefix runDir). }
  assert (Clean (filepath_Join [runDir; binSubdir]) = filepath_Join [runDir; binSubdir]) as Hcl.
  { unfold filepath_Join. rewrite !filter_cons_True by done. apply Clean_idempotent. }
  unfold shimIdentity. rewrite filepath_Dir_Join, Hcl, filepath_Base_Join, bool_decide_eq_true_2 by done.
  rewrite filepath_Dir_Join, (Is_true_true_1 _ Hp), filepath_Base_Join by done. simpl.
  unfold Stat. by rewrite Hr, Hc.
Qed.

Lemma install_spec binDir goos names src first seen σ σ' data :
  isWindows goos = false → σ !! src = Some (FFile data) →
  install binDir src first goos seen names σ = (σ', inr tt) →
  (∀ p x, σ !! p = Some x → σ' !! p = Some x) ∧
  ∀ n, n ∈ names → n ∉ seen → σ' !! filepath_Join [binDir; n] = Some (FFile data).
Proof.
  intros Hg. assert (∀ n, shimFileName n goos = n) as Hfile by (intros n; unfold shimFileName; by rewrite Hg).
  revert src first seen σ. induction names as [|n names IH]; intros src first seen σ Hsrc H; simpl in H.
  { injection H as <-. split; [done|]. intros n Hn. by apply elem_of_nil in Hn. }
  rewrite Hg, Hfile in H. destruct (contains seen n) eqn:Es.
  - apply contains_true in Es. destruct (IH _ _ _ _ Hsrc H) as [Hk Hn]. split; [done|].
    intros m [->|Hm]%elem_of_cons Hs; [done|auto].
  - apply io_bind_inr in H as (σ1 & [] & (d & Hd & Hfree & ->)%linkOrCopy_inr & H).
    assert (d = data) as -> by congruence. set (dst := filepath_Join [binDir; n]) in *.
    set (σ1 := <[dst := FFile data]> σ) in *.
    assert (σ1 !! dst = Some (FFile data)) as Hdst by apply lookup_insert_eq.
    assert (∀ p x, σ !! p = Some x → σ1 !! p = Some x) as Hmono.
    { intros p x Hp. unfold σ1. rewrite lookup_insert_ne; [done|]. congruence. }
    assert (σ1 !! (if first then dst else src) = Some (FFile data)) as Hsrc' by (destruct first; auto).
    destruct (IH _ _ _ _ Hsrc' H) as [Hk Hn]. split; [auto|].
    intros m [->|Hm]%elem_of_cons Hs; [by apply Hk|].
    destruct (decide (m = n)) as [->|Hmn]; [by apply Hk|]. apply Hn; [done|]. by apply not_elem_of_cons.
Qed.

(** Every command of a run gets a shim that knows itself: after [installShims] succeeded
    each name's file in the run's bin directory has the program's own content; the program
    started from it, once the configuration is written, finds the run directory and the
    file's name without any environment variable; no file that existed has changed. *)
Theorem installShims_identified runDir self names goos σ σ' data :
  isWindows goos = false → runDir ≠ "" → HasPrefix (filepath_Base (Clean runDir)) runDirPrefix →
  read_fault (filepath_Join [Clean runDir; configFile]) = None →
  Forall (λ n, validCommandName n = None) names →
  σ !! default self (EvalSymlinks self) = Some (FFile data) →
  let binDir := filepath_Join [runDir; binSubdir] in
  installShims binDir self names goos σ = (σ', inr tt) →
  (∀ n, n ∈ names →
    let exe := filepath_Join [binDir; shimFileName n goos] in
    σ' !! exe = Some (FFile data) ∧
    ∀ σ'' config, σ'' !! filepath_Join [Clean runDir; configFile] = Some (FFile config) →
      shimIdentity exe σ'' = Some (Clean runDir, shimFileName n goos)) ∧
  ∀ p x, σ !! p = Some x → σ' !! p = Some x.
Proof.
  cbv zeta. intros Hg Hne Hp Hr Hv Hself Hi. unfold installShims in Hi.
  destruct (install_spec _ _ _ _ _ _ _ _ _ Hg Hself Hi) as [Hk Hn]. split; [|done].
  intros n Hin. assert (shimFileName n goos = n) as -> by (unfold shimFileName; by rewrite Hg).
  split; [apply Hn; [done|apply not_elem_of_nil]|].
  intros σ'' config Hc. apply (shimIdentity_bin runDir n σ'' config); auto.
  apply validCommandName_plain. rewrite Forall_forall in Hv. auto.
Qed.
End properties.

(** ** The environment of a child *)

(** [withEnvOS] sets its variable and no other. *)
Theorem withEnvOS_lookup {U : Unicode} env key val goos :
  key ≠ "" → contains_char key "=" = false →
  LookupEnv (withEnvOS env key val goos) key = Some val ∧
  (isWindows goos = false → ∀ k, k ≠ key → LookupEnv (withEnvOS env key val goos) k = LookupEnv env k).
Proof.
  intros Hk Heq. assert (Cut1 (key +:+ "=" +:+ val) "=" = Some (key, val)) as Hcut by (by apply Cut1_spec).
  unfold withEnvOS. split.
  - induction env as [|e env IH].
    { cbn [filter list_filter app LookupEnv]. rewrite Hcut, bool_decide_eq_true_2 by done.
      by rewrite bool_decide_eq_false_2. }
    rewrite filter_cons. destruct (decide (same_key goos (env_key e) key = false)) as [Hs|Hs]; [|done].
    cbn [app LookupEnv]. unfold env_key in Hs. destruct (Cut1 e "=") as [[k v]|]; [|done].
    unfold same_key in Hs. apply orb_false_iff in Hs as [-> _]. done.
  - intros Hg k Hne. induction env as [|e env IH].
    { cbn [filter list_filter app LookupEnv]. rewrite Hcut. by rewrite bool_decide_eq_false_2. }
    rewrite filter_cons. destruct (decide (same_key goos (env_key e) key = false)) as [Hs|Hs].
    + cbn [app LookupEnv]. by rewrite IH.
    + cbn [LookupEnv]. rewrite IH. unfold env_key, same_key in Hs. rewrite Hg in Hs. cbn [andb] in Hs.
      rewrite orb_false_r in Hs. destruct (Cut1 e "=") as [[k' v]|]; [|done].
      apply not_false_iff_true, bool_decide_eq_true_1 in Hs as ->. by rewrite bool_decide_eq_false_2.
Qed.

(** ** At concrete values *)

Section witnesses.
#[local] Existing Instance ascii_only.
#[local] Existing Instance no_faults.

(** No links can be made: every shim is a copy. *)
#[local] Instance demo_platform : Platform :=
  {| exec_bits _ := true; EvalSymlinks _ := None; link_fault _ _ := Some "no links" |}.

Definition demo_run_fs : fsys :=
  {[ "/opt/xrr" := FFile "ELF"; "/tmp/xrr-run-1" := FDir; "/tmp/xrr-run-1/bin" := FDir ]}.

Lemma installShims_identified_witness :
  ∃ σ', installShims "/tmp/xrr-run-1/bin" "/opt/xrr" ["az"; "xrr"; "az"] "linux" demo_run_fs = (σ', inr tt) ∧
    shimIdentity "/tmp/xrr-run-1/bin/xrr" (<["/tmp/xrr-run-1/config.json" := FFile "{}"]> σ')
      = Some ("/tmp/xrr-run-1", "xrr").
Proof.
  eexists. split; [vm_compute; reflexivity|].
  match goal with |- shimIdentity _ (<[_ := _]> ?s) = _ => set (σ' := s) end.
  destruct (installShims_identified "/tmp/xrr-run-1" "/opt/xrr" ["az"; "xrr"; "az"] "linux" demo_run_fs σ' "ELF")
    as [H _].
  - reflexivity.
  - intros H. discriminate H.
  - vm_compute. exact I.
  - reflexivity.
  - repeat constructor.
  - vm_compute. reflexivity.
  - vm_compute. reflexivity.
  - destruct (H "xrr") as [_ Hid]; [right; left|].
    apply (Hid _ "{}"). vm_compute. reflexivity.
Defined.
End witnesses.
