(* ===== verification/CliReport.v ===== *)
(** go/cmd/xrr/report.go: the log of the shims' calls, one JSON line each, and what
    the run makes of it. *)

From S2P Require Import Prelude GoStrings Values CanonicalJson Os Adapters Paths CliPlatform.

(** ** Data *)

Definition outRecorded : string := "recorded".
Definition outReplayed : string := "replayed".
Definition outPassthrough : string := "passthrough".
Definition outDenied : string := "denied".
Definition outMiss : string := "miss".
Definition outError : string := "error".

Record callEntry := {
  ce_Cmd : string;
  ce_Argv : list string;
  ce_Outcome : string;
  ce_Fingerprint : string;
  ce_ExitCode : Z;
  ce_Detail : string;
}.

Definition failing (e : callEntry) : bool :=
  bool_decide (ce_Outcome e = outDenied) || bool_decide (ce_Outcome e = outMiss) ||
  bool_decide (ce_Outcome e = outError).

Definition anyFailing (calls : list callEntry) : bool := existsb failing calls.

(** The fields of the JSON form. *)
Definition callEntry_json (e : callEntry) : any :=
  VStruct ([("cmd", VString (ce_Cmd e)); ("argv", VSlice (VString <$> ce_Argv e));
            ("outcome", VString (ce_Outcome e))] ++
           omit_empty "fingerprint" (ce_Fingerprint e) ++
           [("exit_code", VInt KInt (ce_ExitCode e))] ++
           omit_empty "detail" (ce_Detail e)).

(** [json.Unmarshal] into a [callEntry]. *)
Class CallDecoder := unmarshalCall : string → result callEntry.

Section report.
Context {F : FloatFormat} {O : Faults}.

(** ** The call log *)

(** A write to a file opened with [O_APPEND|O_CREATE|O_WRONLY]. *)
Definition AppendFile (path data : string) : io unit := λ σ,
  let appended old :=
    match write_fault path with
    | Some (n, text) => (<[path := FFile (old +:+ stake n data)]> σ, inl (EOs false text))
    | None => (<[path := FFile (old +:+ data)]> σ, inr tt)
    end in
  match σ !! path, σ !! filepath_Dir path with
  | Some FDir, _ => (σ, inl (EOs false (path_error "open" path "is a directory")))
  | Some (FFile old), _ => appended old
  | None, Some FDir => appended ""
  | None, _ => (σ, inl (EOs true (path_error "open" path "no such file or directory")))
  end.

Definition calls_path (runDir : string) : string := filepath_Join [runDir; callsFile].

Definition appendCall (runDir : string) (e : callEntry) : io unit :=
  b ← lift (go_json true (callEntry_json e));
  AppendFile (calls_path runDir) (b +:+ newline).

(** The loop of [readCalls] over the lines. *)
Fixpoint decode_lines {D : CallDecoder} (lines : list string) : result (list callEntry) :=
  match lines with
  | [] => inr []
  | line :: lines' =>
    if bool_decide (line = "") then decode_lines lines' else
    e ← wrap_err "call log: " (unmarshalCall line);
    es ← decode_lines lines';
    inr (e :: es)
  end.

Definition readCalls {D : CallDecoder} (runDir : string) : io (list callEntry) := λ σ,
  match ReadFile (calls_path runDir) σ with
  | (σ, inl e) => if IsNotExist e then (σ, inr []) else (σ, inl e)
  | (σ, inr b) => (σ, decode_lines (Split1 b "010"))
  end.

(** ** The report *)

Definition count_outcome (o : string) (calls : list callEntry) : Z :=
  Z.of_nat (length (filter (λ c, ce_Outcome c = o) calls)).

(** ["%-12s"]. *)
Definition pad12 (s : string) : string := s +:+ srepeat (12 - slen s) " ".

Definition report_outcomes : list string :=
  [outRecorded; outReplayed; outPassthrough; outDenied; outMiss; outError].

Definition report_line (c : callEntry) : string :=
  "  " +:+ ce_Outcome c +:+ ": " +:+ Join (ce_Argv c) " " +:+
  (if bool_decide (ce_Fingerprint c = "") then "" else " (fingerprint " +:+ ce_Fingerprint c +:+ ")") +:+
  (if bool_decide (ce_Detail c = "") then "" else " - " +:+ ce_Detail c) +:+ newline.

(** The text [renderReport] writes. *)
Definition renderReport (mode : string) (calls : list callEntry) : string :=
  "xrr run: " +:+ mode +:+ ", " +:+ itoa_nat (length calls) +:+ " shimmed call(s)" +:+ newline +:+
  sconcat ((λ o, let n := count_outcome o calls in
                 if (0 <? n)%Z then "  " +:+ pad12 o +:+ " " +:+ itoa n +:+ newline else "")
           <$> report_outcomes) +:+
  sconcat (report_line <$> List.filter failing calls).

(** [counts]: every outcome that occurs. *)
Definition outcome_counts (calls : list callEntry) : list (string * any) :=
  (λ o, (o, VInt KInt (count_outcome o calls))) <$> remove_dups (ce_Outcome <$> calls).

Definition reportJSON (mode : string) (calls : list callEntry) : any :=
  VStruct [("mode", VString mode); ("failed", VBool (anyFailing calls));
           ("counts", VMap (outcome_counts calls)); ("calls", VSlice (callEntry_json <$> calls))].

(** [json.MarshalIndent] with two spaces: each element of a non-empty array or
    object on its own line. *)
Definition new_line_at (d : nat) : string := newline +:+ srepeat (2 * d) " ".

Definition enclose (d : nat) (open close : string) (items : list string) : string :=
  match items with
  | [] => open +:+ close
  | _ => open +:+ new_line_at (S d) +:+ Join items ("," +:+ new_line_at (S d)) +:+ new_line_at d +:+ close
  end.

Fixpoint json_indent (d : nat) (v : any) : result string :=
  match v with
  | VSlice l => ss ← sequence (map (json_indent (S d)) l); inr (enclose d "[" "]" ss)
  | VMap m =>
    fs ← sequence_fields (sort_keys (map (λ '(k, x), (k, json_indent (S d) x)) m));
    inr (enclose d "{" "}" (map (λ '(k, x), json_string_with (json_chunk true) k +:+ ": " +:+ x) fs))
  | VStruct m =>
    fs ← sequence_fields (map (λ '(k, x), (k, json_indent (S d) x)) m);
    inr (enclose d "{" "}" (map (λ '(k, x), json_string_with (json_chunk true) k +:+ ": " +:+ x) fs))
  | _ => go_json true v
  end.

Definition writeReportFile (path mode : string) (calls : list callEntry) : io unit :=
  b ← lift (json_indent 0 (reportJSON mode calls));
  WriteFile path (b +:+ newline).
End report.

Section examples.
#[local] Existing Instance integral_floats.
Example json_indent_report :
  json_indent 0 (reportJSON "replay" [{| ce_Cmd := "gh"; ce_Argv := ["gh"]; ce_Outcome := outMiss;
    ce_Fingerprint := ""; ce_ExitCode := 125; ce_Detail := "" |}]) =
  inr (replace1 (Join ["{"; "  'mode': 'replay',"; "  'failed': true,"; "  'counts': {"; "    'miss': 1"; "  },";
             "  'calls': ["; "    {"; "      'cmd': 'gh',"; "      'argv': ["; "        'gh'"; "      ],";
             "      'outcome': 'miss',"; "      'exit_code': 125"; "    }"; "  ]"; "}"] newline) "'" dquote).
Proof. vm_compute. reflexivity. Qed.
End examples.

(** ** One line per call *)

Definition not_newline (c : ascii) : bool := negb (bool_decide (c = "010"%char)).

Lemma sall_sconcat p l : Forall (λ s, sall p s) l → sall p (sconcat l).
Proof. induction 1 as [|s l Hs _ IH]; simpl; [done|]. rewrite sall_app. by apply andb_True. Qed.

Lemma sall_Join p l sep : sall p sep → Forall (λ s, sall p s) l → sall p (Join l sep).
Proof.
  intros Hsep. induction 1 as [|s l Hs Hl IH]; [done|]. destruct l as [|t l]; [done|].
  change (sall p (s +:+ sep +:+ Join (t :: l) sep)). rewrite !sall_app, !andb_True. auto.
Qed.

Lemma json_chunk_one_line html c : chunk_wf c → sall not_newline (json_chunk html c).
Proof.
  destruct c as [r raw|b]; [|done]. intros [_ [[Hr ->]|[Hr Hh]]]; simpl.
  - replace (r <? 0x80)%N with true by lia.
    assert (byte_val (byte_of r) = r) as E by (by apply N_ascii_embedding; lia).
    rewrite <-E. generalize (byte_of r) as b. intros b. clear. destruct html; byte_cases; done.
  - replace (r <? 0x80)%N with false by lia. destruct (is_line_separator r) eqn:Els.
    + assert (r = 0x2028 ∨ r = 0x2029)%N as [-> | ->] by (unfold is_line_separator in Els; lia); done.
    + eapply sall_impl; [|exact Hh]. clear. intros b. byte_cases; done.
Qed.

Lemma json_string_one_line html s : sall not_newline (json_string_with (json_chunk html) s).
Proof.
  unfold json_string_with. rewrite !sall_app, !andb_True. split_and!; [done| |done].
  apply sall_sconcat, Forall_fmap. eapply Forall_impl; [apply chunks_wf|]. intros c. apply json_chunk_one_line.
Qed.

Lemma sequence_one_line l ss :
  Forall (λ r : result string, ∀ s, r = inr s → sall not_newline s) l → sequence l = inr ss →
  Forall (λ s, sall not_newline s) ss.
Proof.
  intros H. revert ss. induction H as [|r l Hr _ IH]; intros ss Hs; [by injection Hs as <-|].
  cbn [sequence] in Hs. apply bind_inr in Hs as (x & Hx & (xs & Hxs & Hs)%bind_inr).
  injection Hs as <-. constructor; auto.
Qed.

Lemma object_one_line html m fs :
  Forall (λ kv : string * result string, ∀ s, kv.2 = inr s → sall not_newline s) m → sequence_fields m = inr fs →
  sall not_newline (json_object (json_chunk html) fs).
Proof.
  intros H Hs. unfold json_object. rewrite !sall_app, !andb_True. split_and!; [done| |done].
  apply sall_Join, Forall_fmap; [done|]. revert fs Hs. induction H as [|[k r] m Hr _ IH]; intros fs Hs.
  { by injection Hs as <-. }
  cbn [sequence_fields] in Hs. apply bind_inr in Hs as (x & Hx & (xs & Hxs & Hs)%bind_inr).
  injection Hs as <-. constructor; [|auto]. unfold compose, json_field. cbn [fst snd].
  rewrite !sall_app, !andb_True. split_and!; first [apply json_string_one_line|by apply Hr|done].
Qed.

(** What [json.Marshal] writes is one line. *)
Lemma go_json_one_line {F : FloatFormat} html v s : go_json html v = inr s → sall not_newline s.
Proof.
  revert s. induction v as [|[]|k z|[| [] |]|t|t|l IH|m IH|m IH] using any_deep_ind; intros s H;
    unfold go_json in *; simpl in H; try (by injection H as <-); try done.
  - injection H as <-. eapply sall_impl; [|apply itoa_chars]. clear. intros c. byte_cases; done.
  - injection H as <-. eapply sall_impl; [|apply format_float_chars]. clear. intros c. byte_cases; done.
  - injection H as <-. apply json_string_one_line.
  - injection H as <-. apply json_string_one_line.
  - apply bind_inr in H as (ss & Hss & H). injection H as <-. rewrite !sall_app, !andb_True. split_and!; [done| |done].
    apply sall_Join; [done|]. eapply sequence_one_line; [|exact Hss]. by apply Forall_map.
  - apply bind_inr in H as (fs & Hfs & H). injection H as <-. eapply object_one_line; [|exact Hfs].
    rewrite sort_keys_Permutation. apply Forall_map. eapply Forall_impl; [exact IH|]. by intros [].
  - apply bind_inr in H as (fs & Hfs & H). injection H as <-. eapply object_one_line; [|exact Hfs].
    apply Forall_map. eapply Forall_impl; [exact IH|]. by intros [].
Qed.

Lemma one_line_no_newline s : sall not_newline s → contains_char s "010" = false.
Proof.
  induction s as [|c s IH]; [done|]. cbn [sall contains_char]. intros [Hc Hs]%andb_True.
  rewrite IH, orb_false_r by done. unfold not_newline in Hc. by destruct (bool_decide _).
Qed.

(** ** The log read back *)

Section properties.
Context {F : FloatFormat} {O : Faults} {D : CallDecoder}.

(** A call entry always encodes, to one line. *)
Lemma callEntry_encodes e : ∃ b, go_json true (callEntry_json e) = inr b ∧ sall not_newline b ∧ b ≠ "".
Proof.
  assert (∃ b, go_json true (callEntry_json e) = inr (String "{" b)) as [b Hb].
  { assert (∀ l, ∃ ss, sequence (map (go_json true) (VString <$> l)) = inr ss) as Hseq.
    { induction l as [|x l [ss IH]]; [by eexists|]. rewrite fmap_cons. cbn [map sequence]. rewrite IH. by eexists. }
    destruct (Hseq (ce_Argv e)) as [ss Hss]. unfold callEntry_json, omit_empty.
    destruct (bool_decide (ce_Fingerprint e = "")), (bool_decide (ce_Detail e = ""));
      unfold go_json in *; simpl; rewrite Hss; by eexists. }
  exists (String "{" b). split_and!; [done| |done]. by eapply go_json_one_line.
Qed.

(** The lines of a log. *)
Definition log_of (bs : list string) : string := sconcat ((λ b, b +:+ newline) <$> bs).

Lemma log_of_lines bs :
  Forall (λ b, sall not_newline b) bs → Split1 (log_of bs) "010" = bs ++ [""].
Proof.
  induction 1 as [|b bs Hb _ IH]; [done|]. unfold log_of in *. cbn [fmap list_fmap sconcat app].
  rewrite sapp_assoc. change (newline +:+ ?t) with (String "010" t).
  rewrite Split1_word by (by apply one_line_no_newline). by rewrite IH.
Qed.

Lemma log_of_snoc bs b : log_of (bs ++ [b]) = log_of bs +:+ (b +:+ newline).
Proof. unfold log_of. rewrite fmap_app, sconcat_app. simpl. by rewrite sapp_nil_r. Qed.

(** Calls appended one after the other, as the shims of a run do. *)
Fixpoint appendCalls (runDir : string) (es : list callEntry) : io unit :=
  match es with
  | [] => mret tt
  | e :: es' => appendCall runDir e;; appendCalls runDir es'
  end.

Lemma decode_lines_app es bs :
  Forall2 (λ e b, b ≠ "" ∧ unmarshalCall b = inr e) es bs → decode_lines (bs ++ [""]) = inr es.
Proof.
  induction 1 as [|e b es bs [Hb He] _ IH]; [done|]. cbn [app decode_lines].
  rewrite bool_decide_eq_false_2 by done. rewrite He. cbn [wrap_err mbind result_bind]. by rewrite IH.
Qed.

Lemma appendCall_log runDir e b bs σ :
  runDir ≠ "" → write_fault (calls_path runDir) = None → σ !! Clean runDir = Some FDir →
  match σ !! calls_path runDir with Some (FFile t) => t = log_of bs | Some FDir => False | None => bs = [] end →
  go_json true (callEntry_json e) = inr b →
  appendCall runDir e σ = (<[calls_path runDir := FFile (log_of (bs ++ [b]))]> σ, inr tt).
Proof.
  intros Hne Hw Hdir Hlog Hb. unfold appendCall, mbind, io_bind, lift. rewrite Hb. unfold AppendFile.
  assert (filepath_Dir (calls_path runDir) = Clean runDir) as -> by (apply filepath_Dir_Join; [done|by split_and!]).
  rewrite Hw, Hdir, log_of_snoc. destruct (σ !! calls_path runDir) as [[t|]|]; [by subst|done|by subst].
Qed.

(** A log in a directory that is there takes one more call. *)
Lemma appendCall_ok runDir e σ :
  runDir ≠ "" → write_fault (calls_path runDir) = None → σ !! Clean runDir = Some FDir →
  σ !! calls_path runDir ≠ Some FDir →
  ∃ data, appendCall runDir e σ = (<[calls_path runDir := FFile data]> σ, inr tt).
Proof.
  intros Hne Hw Hdir Hlog. destruct (callEntry_encodes e) as (b & Hb & _).
  unfold appendCall, mbind, io_bind, lift. rewrite Hb. unfold AppendFile.
  assert (filepath_Dir (calls_path runDir) = Clean runDir) as -> by (apply filepath_Dir_Join; [done|by split_and!]).
  rewrite Hw, Hdir. destruct (σ !! calls_path runDir) as [[t|]|]; [eauto|done|eauto].
Qed.

Lemma appendCalls_log runDir es bs bs' σ :
  runDir ≠ "" → write_fault (calls_path runDir) = None → σ !! Clean runDir = Some FDir →
  match σ !! calls_path runDir with Some (FFile t) => t = log_of bs | Some FDir => False | None => bs = [] end →
  Forall2 (λ e b, go_json true (callEntry_json e) = inr b) es bs' → es ≠ [] →
  appendCalls runDir es σ = (<[calls_path runDir := FFile (log_of (bs ++ bs'))]> σ, inr tt).
Proof.
  intros Hne Hw Hdir Hlog H. revert bs σ Hdir Hlog. induction H as [|e b es bs' Hb H IH]; [done|].
  intros bs σ Hdir Hlog _. simpl. unfold mbind, io_bind. rewrite (appendCall_log _ _ b bs) by done.
  destruct H as [|e' b' es bs' Hb' H]; [done|].
  rewrite (IH (bs ++ [b])); [by rewrite insert_insert_eq, <-app_assoc| | |done].
  - rewrite lookup_insert_ne; [done|]. intros Hp. rewrite Hp, Hdir in Hlog. done.
  - by rewrite lookup_insert_eq.
Qed.

Lemma anyFailing_spec es : anyFailing es ↔ ∃ e, e ∈ es ∧ ce_Outcome e ∈ [outDenied; outMiss; outError].
Proof.
  unfold anyFailing. rewrite existsb_spec. f_equiv. intros e. unfold failing.
  rewrite !orb_True, !bool_decide_spec, !elem_of_cons, elem_of_nil. tauto.
Qed.

(** Calls that are appended to a log that is not there yet are read back. *)
Lemma appendCalls_readCalls runDir es σ :
  runDir ≠ "" → write_fault (calls_path runDir) = None → read_fault (calls_path runDir) = None →
  σ !! Clean runDir = Some FDir → σ !! calls_path runDir = None →
  (∀ e b, e ∈ es → go_json true (callEntry_json e) = inr b → unmarshalCall b = inr e) →
  ∃ σ', appendCalls runDir es σ = (σ', inr tt) ∧ (∀ p, p ≠ calls_path runDir → σ' !! p = σ !! p) ∧
    readCalls runDir σ' = (σ', inr es).
Proof.
  intros Hne Hw Hr Hdir Hnone Hdec. destruct (decide (es = [])) as [->|Hes].
  { exists σ. split_and!; [done..|]. unfold readCalls, ReadFile. by rewrite Hr, Hnone. }
  assert (∃ bs, Forall2 (λ e b, go_json true (callEntry_json e) = inr b) es bs ∧
    Forall (λ b, sall not_newline b) bs ∧ Forall2 (λ e b, b ≠ "" ∧ unmarshalCall b = inr e) es bs) as (bs & H1 & H2 & H3).
  { clear -Hdec. induction es as [|e es IH]; [exists []; by repeat constructor|].
    destruct IH as (bs & ? & ? & ?); [intros; apply Hdec; [by apply list_elem_of_further|done]|].
    destruct (callEntry_encodes e) as (b & Hb & Hl & Hb'). exists (b :: bs).
    split_and!; constructor; try done. split; [done|]. apply Hdec; [by constructor|done]. }
  eexists. split_and!; [apply (appendCalls_log runDir es [] bs); try done; by rewrite Hnone| |].
  { intros p Hp. by rewrite lookup_insert_ne. }
  unfold readCalls, ReadFile. rewrite Hr, lookup_insert_eq. simpl.
  by rewrite log_of_lines, (decode_lines_app es).
Qed.

(** The call log is faithful: whatever calls the shims of a run append, in whatever
    order, the run reads back exactly these calls in that order, and nothing else has
    changed; so it reports a violation when and only when some shim logged one. *)
Theorem call_log_roundtrip runDir es σ :
  runDir ≠ "" → write_fault (calls_path runDir) = None → read_fault (calls_path runDir) = None →
  σ !! Clean runDir = Some FDir → σ !! calls_path runDir = None →
  (∀ e b, e ∈ es → go_json true (callEntry_json e) = inr b → unmarshalCall b = inr e) →
  ∃ σ', appendCalls runDir es σ = (σ', inr tt) ∧ (∀ p, p ≠ calls_path runDir → σ' !! p = σ !! p) ∧
    ∃ calls, readCalls runDir σ' = (σ', inr calls) ∧ calls = es ∧
      (anyFailing calls ↔ ∃ e, e ∈ es ∧ ce_Outcome e ∈ [outDenied; outMiss; outError]).
Proof.
  intros Hne Hw Hr Hdir Hnone Hdec.
  destruct (appendCalls_readCalls runDir es σ Hne Hw Hr Hdir Hnone Hdec) as (σ' & H1 & H2 & H3).
  exists σ'. split_and!; [done..|]. exists es. split_and!; [done..|]. apply anyFailing_spec.
Qed.
End properties.

Section witnesses.
#[local] Existing Instance integral_floats.
#[local] Existing Instance no_faults.

Definition demo_call (outcome detail : string) : callEntry :=
  {| ce_Cmd := "gh"; ce_Argv := ["gh"; "pr"; "<x>"]; ce_Outcome := outcome; ce_Fingerprint := "0011aabb";
     ce_ExitCode := 3; ce_Detail := detail |}.

(** A decoder of two lines. *)
#[local] Instance demo_calls : CallDecoder := λ b,
  match List.find (λ e, bool_decide (go_json true (callEntry_json e) = inr b))
          [demo_call outReplayed ""; demo_call outMiss (str1 "010")] with
  | Some e => inr e
  | None => inl (ENew "json: bad")
  end.

Lemma call_log_roundtrip_witness :
  ∃ σ', appendCalls "/r" [demo_call outReplayed ""; demo_call outMiss (str1 "010")] {[ "/r" := FDir ]} = (σ', inr tt) ∧
    ∃ calls, (readCalls "/r" σ').2 = inr calls ∧ anyFailing calls.
Proof.
  destruct (call_log_roundtrip "/r" [demo_call outReplayed ""; demo_call outMiss (str1 "010")] {[ "/r" := FDir ]})
    as (σ' & H1 & _ & calls & H2 & _ & H3).
  - intros H. discriminate H.
  - reflexivity.
  - reflexivity.
  - vm_compute. reflexivity.
  - vm_compute. reflexivity.
  - intros e b. rewrite !elem_of_cons, elem_of_nil. intros [->|[->|[]]] Hb; vm_compute in Hb; injection Hb as <-;
      vm_compute; reflexivity.
  - exists σ'. split; [exact H1|]. exists calls. rewrite H2. split; [reflexivity|]. apply H3.
    exists (demo_call outMiss (str1 "010")). split; [right; left|right; left].
Defined.
End witnesses.
