(* ===== verification/CliShim.v ===== *)
(** go/cmd/xrr/shim.go: the program started under a command's name - it blocks the
    command, records it, answers it from a cassette, or passes it on. *)

From S2P Require Import Prelude GoStrings Values CanonicalJson Yaml Redact Os Cassette Session Adapters Glob CliConfig CliScrub Paths CliPlatform CliReport.

(** ** Exit codes (main.go, run.go) *)

Definition exitOK : Z := 0.
Definition exitUsage : Z := 2.
Definition exitViolation : Z := 3.
Definition exitMiss : Z := 125.
Definition exitDenied : Z := 126.
Definition exitNotFound : Z := 127.

Definition exitCodeOf (e : option err) : Z :=
  match e with
  | None => 0
  | Some e =>
    match Exec.find_exit e with
    | Some (_, Some signal) => 128 + signal
    | Some (c, None) => if (0 <? c)%Z then c else 1
    | None => 1
    end
  end.

(** ** The process and its children *)

(** What a read of standard input brings: bytes, or nothing for longer than a
    shim waits; the end of the list is the end of the file. *)
Inductive input : Type := IData (b : string) | IPause.

Definition data_of (l : list input) : string :=
  sconcat ((λ i, match i with IData b => b | IPause => "" end) <$> l).

(** The surroundings of a shim: environment, system, standard input (and whether
    it is a character device or cannot be told), the clock at the time of the
    save and the milliseconds the command took. *)
Record proc := {
  p_environ : list string;
  p_goos : string;
  p_char_device : bool;
  p_stdin : list input;
  p_now : Z;
  p_dur : Z;
}.

Record invocation := {
  i_path : string;
  i_argv : list string;
  i_env : list string;
  i_stdin : list input;
  i_file : bool;        (* the shim's own standard input, not a pipe *)
}.

(** How a child goes: it does not start, or it runs, having been given the first
    [teed] reads of its input, writes, and ends. *)
Inductive waited : Type := WOk | WDelay | WErr (e : err).
Inductive started : Type :=
| NoStart (e : err)
| Ran (teed : nat) (out errs : string) (w : waited).

(** A child, which may change any file, and the failure to make its pipe. *)
Class Child := {
  run_child : invocation → fsys → fsys * started;
  pipe_fault : option err;
}.

(** Files, the two output streams, and the children started so far. *)
Record world := { w_fs : fsys; w_out : string; w_err : string; w_ran : list invocation }.

Definition sh (A : Type) : Type := world → world * A.

Global Instance sh_ret : MRet sh := λ A x w, (w, x).
Global Instance sh_bind : MBind sh := λ A B f m w, let '(w', x) := m w in f x w'.

Definition println (s : string) : sh unit := λ w,
  ({| w_fs := w_fs w; w_out := w_out w; w_err := w_err w +:+ s +:+ newline; w_ran := w_ran w |}, tt).
Definition writeOut (s : string) : sh unit := λ w,
  ({| w_fs := w_fs w; w_out := w_out w +:+ s; w_err := w_err w; w_ran := w_ran w |}, tt).
Definition writeErr (s : string) : sh unit := λ w,
  ({| w_fs := w_fs w; w_out := w_out w; w_err := w_err w +:+ s; w_ran := w_ran w |}, tt).
Definition call_fs {A} (m : io A) : sh (result A) := λ w,
  let '(σ, r) := m (w_fs w) in
  ({| w_fs := σ; w_out := w_out w; w_err := w_err w; w_ran := w_ran w |}, r).

(** Package json and yaml.v3 decoding into the source's structs. *)
Class ConfigDecoder := unmarshalConfig : string → result runConfig.
Class ResponseDecoder := decodeResponse : ynode → result Exec.Response.

(** ** The configuration file (config.go) *)

Definition omit_nil_list (name : string) (l : list string) : list (string * any) :=
  match l with [] => [] | _ => [(name, VSlice (VString <$> l))] end.

Definition runConfig_json (c : runConfig) : any :=
  VStruct ([("mode", VString (c_Mode c))] ++ omit_empty "cassette_dir" (c_CassetteDir c) ++
    [("real_path", VString (c_RealPath c)); ("strict", VBool (c_Strict c));
     ("deny", VSlice (VString <$> c_Deny c))] ++
    omit_nil_list "env_capture" (c_EnvCapture c) ++ omit_nil_list "scrub_deny" (c_ScrubDeny c) ++
    omit_nil_list "scrub_allow" (c_ScrubAllow c) ++
    (if bool_decide (c_Cmds c = ∅) then [] else [("cmds", yaml_string_map (c_Cmds c))]) ++
    [("stdin_wait_ms", VInt KInt (c_StdinWaitMs c))]).

Definition writeConfig {F : FloatFormat} {O : Faults} (runDir : string) (c : runConfig) : io unit :=
  b ← lift (go_json true (runConfig_json c));
  WriteFile (filepath_Join [runDir; configFile]) b.

Definition loadConfig {O : Faults} {D : ConfigDecoder} (runDir : string) : io runConfig :=
  b ← ReadFile (filepath_Join [runDir; configFile]);
  lift (wrap_err ("parse " +:+ configFile +:+ ": ") (unmarshalConfig b)).

(** ** Standard input *)

(** After it has given up, the reading goroutine takes one more chunk, which nobody
    receives. *)
Fixpoint orphan_read (l : list input) : list input :=
  match l with
  | [] => []
  | IData _ :: l' => l'
  | IPause :: l' => orphan_read l'
  end.

Fixpoint read_until_idle (l : list input) : string * list input :=
  match l with
  | [] => ("", [])
  | IData b :: l' => let '(acc, rest) := read_until_idle l' in (b +:+ acc, rest)
  | IPause :: l' => ("", orphan_read l')
  end.

(** The bytes read, and what a later reader of standard input will get. *)
Definition readStdinIdle (p : proc) : string * list input :=
  if p_char_device p then ("", p_stdin p) else read_until_idle (p_stdin p).

(** ** The shim *)

Record shim := {
  sh_cfg : runConfig;
  sh_runDir : string;
  sh_name : string;
  sh_bin : string;
  sh_args : list string;
  sh_rd : Redactor;
  sh_env : envSecrets;
}.

Inductive xerr : Type := ErrNotFound | ErrOther (e : err).

Section shim_methods.
Context {U : Unicode} {Y : YamlLib} {O : Faults} {F : FloatFormat} {P : Platform} {K : Child}.
Context {R : ResponseDecoder}.
Variable p : proc.

Definition getenv : string → string := Getenv (p_environ p).

Definition argv (s : shim) : list string := sh_name s :: sh_args s.
Definition safeArgv (s : shim) : list string := scrubAll (sh_env s) (scrubArgv (sh_rd s) (argv s)).

Definition log (s : shim) (outcome fp : string) (code : Z) (detail : string) : sh unit :=
  r ← call_fs (appendCall (sh_runDir s)
    {| ce_Cmd := sh_name s; ce_Argv := safeArgv s; ce_Outcome := outcome; ce_Fingerprint := fp;
       ce_ExitCode := code; ce_Detail := detail |});
  match r with
  | inl e => println ("xrr shim " +:+ sh_name s +:+ ": log call: " +:+ error_text e)
  | inr _ => mret tt
  end.

(** The exit code, the error, and what was teed, printed and complained. *)
Definition execReal (s : shim) (in_ : list input) (is_file tee : bool)
    : sh (Z * option xerr * (string * string * string)) := λ w,
  match lookPathIn (sh_bin s) (c_RealPath (sh_cfg s)) (p_goos p) (getenv "PATHEXT") (w_fs w) with
  | None => (w, (exitNotFound, Some ErrNotFound, ("", "", "")))
  | Some path =>
    let direct := is_file && negb tee in
    match (if direct then None else pipe_fault) with
    | Some e => (w, (exitNotFound, Some (ErrOther e), ("", "", "")))
    | None =>
      let i := {| i_path := path; i_argv := sh_bin s :: sh_args s;
                  i_env := withEnvOS (p_environ p) "PATH" (c_RealPath (sh_cfg s)) (p_goos p);
                  i_stdin := in_; i_file := direct |} in
      let '(σ, r) := run_child i (w_fs w) in
      match r with
      | NoStart e =>
        (println ("xrr: run " +:+ path +:+ ": " +:+ error_text e);;
         mret (exitNotFound, None, ("", "", "")))
        {| w_fs := σ; w_out := w_out w; w_err := w_err w; w_ran := w_ran w ++ [i] |}
      | Ran teed out errs wt =>
        ({| w_fs := σ; w_out := w_out w +:+ out; w_err := w_err w +:+ errs; w_ran := w_ran w ++ [i] |},
         (exitCodeOf (match wt with WErr e => Some e | _ => None end), None,
          (if tee then data_of (take teed in_) else "", out, errs)))
      end
    end
  end.

Definition notFound (s : shim) : sh Z :=
  println ("xrr: " +:+ sh_name s +:+ ": real binary not found on the original PATH");;
  log s outError "" exitNotFound "real binary not found on original PATH";;
  mret exitNotFound.

Definition passthrough (s : shim) : sh Z :=
  r ← execReal s (p_stdin p) true false;
  match r with
  | (_, Some ErrNotFound, _) => notFound s
  | (code, _, _) => log s outPassthrough "" code "";; mret code
  end.

Definition captureEnv (s : shim) : gmap string string :=
  list_to_map (omap (λ k, v ← LookupEnv (p_environ p) k; Some (k, scrub (sh_env s) v))
                 (c_EnvCapture (sh_cfg s))).

Definition saveFailed (s : shim) (fp : string) (code : Z) (e : err) : sh Z :=
  println ("xrr: record " +:+ sh_name s +:+ ": " +:+ error_text e);;
  log s outError fp code ("cassette write failed: " +:+ error_text e);;
  mret code.

(** The request a fingerprint is taken of, from the live command line. *)
Definition live_request (s : shim) (stdin : string) : Exec.Request :=
  {| Exec.Argv := Some (argv s); Exec.Stdin := stdin; Exec.Cwd := ""; Exec.Env := ∅ |}.

Definition saved_request (s : shim) (stdin : string) : Exec.Request :=
  {| Exec.Argv := Some (safeArgv s); Exec.Stdin := scrub (sh_env s) stdin; Exec.Cwd := "";
     Exec.Env := captureEnv s |}.

Definition saved_response (s : shim) (out errs : string) (code : Z) : Exec.Response :=
  {| Exec.Stdout := scrub (sh_env s) out; Exec.Stderr := scrub (sh_env s) errs;
     Exec.ExitCode := code; Exec.DurationMs := p_dur p |}.

Definition exit_error (code : Z) : option err :=
  if (code =? 0)%Z then None else Some (ENew ("exit status " +:+ itoa code)).

(** [stdinSource] gives the file itself for a character device; with a tee both
    are pumped through a pipe. *)
Definition record (s : shim) : sh Z :=
  r ← execReal s (p_stdin p) (p_char_device p) true;
  match r with
  | (_, Some ErrNotFound, _) => notFound s
  | (code, _, (stdin, out, errs)) =>
    match Exec.Fingerprint (live_request s stdin) with
    | inl e => saveFailed s "" code e
    | inr fp =>
      r ← call_fs (Save getenv (NewFileCassette (c_CassetteDir (sh_cfg s))) (p_now p) "exec" fp
                     (Exec.request_yaml (saved_request s stdin))
                     (Exec.response_yaml (saved_response s out errs code)) (exit_error code));
      match r with
      | inl e => saveFailed s fp code e
      | inr _ => log s outRecorded fp code "";; mret code
      end
    end
  end.

Definition miss (s : shim) (fp stdin : string) (rest : list input) : sh Z :=
  let cmdline := Join (safeArgv s) " " in
  if negb (c_Strict (sh_cfg s)) then
    r ← execReal s ((if bool_decide (stdin = "") then [] else [IData stdin]) ++ rest) false false;
    match r with
    | (_, Some ErrNotFound, _) => notFound s
    | (code, _, _) =>
      log s outPassthrough fp code "cassette miss, --strict=false: ran real binary";; mret code
    end
  else
    println ("xrr: cassette miss: " +:+ cmdline +:+ " (fingerprint " +:+ fp +:+ ", dir " +:+
             c_CassetteDir (sh_cfg s) +:+ ")");;
    log s outMiss fp exitMiss "";;
    mret exitMiss.

Definition replay (s : shim) : sh Z :=
  let '(stdin, rest) := readStdinIdle p in
  match Exec.Fingerprint (live_request s stdin) with
  | inl e =>
    println ("xrr: fingerprint " +:+ sh_name s +:+ ": " +:+ error_text e);;
    log s outError "" exitUsage (error_text e);;
    mret exitUsage
  | inr fp =>
    r ← call_fs (Load_into yDecodeMap decodeResponse (NewFileCassette (c_CassetteDir (sh_cfg s))) "exec" fp);
    match r with
    | inl e =>
      if errors_is e SCassetteMiss then miss s fp stdin rest else
      println ("xrr: load cassette for " +:+ sh_name s +:+ ": " +:+ error_text e);;
      log s outError fp exitUsage (error_text e);;
      mret exitUsage
    | inr (recErr, _, resp) =>
      writeOut (Exec.Stdout resp);;
      writeErr (Exec.Stderr resp);;
      let code := Exec.ExitCode resp in
      let code := if (code <? 0)%Z || (code =? 0)%Z && negb (bool_decide (recErr = "")) then 1%Z else code in
      log s outReplayed fp code "";;
      mret code
    end
  end.

Definition run (s : shim) : sh Z :=
  if inNames (c_Deny (sh_cfg s)) (sh_name s) then
    println ("xrr: denied: " +:+ Join (safeArgv s) " " +:+
             " (side-effect command blocked by xrr run; real binary not executed)");;
    log s outDenied "" exitDenied "blocked, real binary not executed";;
    mret exitDenied
  else if bool_decide (c_Mode (sh_cfg s) = ModeRecord) then record s
  else if bool_decide (c_Mode (sh_cfg s) = ModeReplay) then replay s
  else passthrough s.

(** The shim that [shimMain] builds from the configuration. *)
Definition new_shim (cfg : runConfig) (runDir file : string) (args : list string) : shim :=
  let bin := cmdFor cfg file (p_goos p) in
  let rd := NewRedactor (RedactConfigFromEnv getenv) in
  {| sh_cfg := cfg; sh_runDir := runDir; sh_name := cassetteName bin; sh_bin := bin; sh_args := args;
     sh_rd := rd; sh_env := collectEnvSecrets rd (p_environ p) (c_ScrubDeny cfg) (c_ScrubAllow cfg) |}.

Definition shimMain {D : ConfigDecoder} (runDir file : string) (args : list string) : sh Z :=
  r ← call_fs (loadConfig runDir);
  match r with
  | inl e => println ("xrr shim " +:+ file +:+ ": " +:+ error_text e);; mret exitUsage
  | inr cfg => run (new_shim cfg runDir file args)
  end.

(** [runAsShim]: [None] when the program was not started as a shim. *)
Definition runAsShim {D : ConfigDecoder} (exe : string) (args : list string) : sh (option Z) := λ w,
  match shimIdentity exe (w_fs w) with
  | None => (w, None)
  | Some (runDir, file) => (code ← shimMain runDir file args; mret (Some code)) w
  end.
End shim_methods.

(** ** What each step leaves alone *)

Section steps.
Context {U : Unicode} {Y : YamlLib} {O : Faults} {F : FloatFormat} {P : Platform} {K : Child}.
Context {R : ResponseDecoder}.
Variable p : proc.

(** [w'] differs from [w] in complaints and in the call log at most. *)
Definition logged (s : shim) (w w' : world) : Prop :=
  w_out w' = w_out w ∧ w_ran w' = w_ran w ∧
  ∀ q, q ≠ calls_path (sh_runDir s) → w_fs w' !! q = w_fs w !! q.

Lemma logged_refl s w : logged s w w.
Proof. by split_and!. Qed.

Lemma logged_trans s w1 w2 w3 : logged s w1 w2 → logged s w2 w3 → logged s w1 w3.
Proof.
  intros (Ho & Hr & Hf) (Ho' & Hr' & Hf'). split_and!; [congruence..|]. intros q Hq. by rewrite Hf', Hf.
Qed.

Lemma AppendFile_frame path data σ q : q ≠ path → (AppendFile path data σ).1 !! q = σ !! q.
Proof. intros Hq. unfold AppendFile. split_match; by rewrite lookup_insert_ne. Qed.

Lemma appendCall_frame runDir e σ q : q ≠ calls_path runDir → (appendCall runDir e σ).1 !! q = σ !! q.
Proof.
  intros Hq. unfold appendCall, mbind, io_bind, lift. destruct (go_json _ _) as [|b]; [done|].
  by apply AppendFile_frame.
Qed.

Lemma println_logged s t w : logged s w (println t w).1.
Proof. by split_and!. Qed.

Lemma log_logged s o fp c d w : logged s w (log s o fp c d w).1.
Proof.
  unfold log, mbind, sh_bind, call_fs.
  destruct (appendCall _ _ (w_fs w)) as [σ [e|[]]] eqn:E; (split_and!; [done..|]); intros q Hq; simpl;
    match type of E with appendCall _ ?e _ = _ => by rewrite <-(appendCall_frame (sh_runDir s) e (w_fs w) q Hq), E end.
Qed.

(** Printing a line, logging a call, returning a code. *)
Lemma complain_and_log s t o fp c d (code : Z) w :
  let r := (println t;; log s o fp c d;; mret code) w in r.2 = code ∧ logged s w r.1.
Proof.
  cbv zeta. unfold mbind, sh_bind. pose proof (println_logged s t w) as H1. destruct (println t w) as [w1 []].
  pose proof (log_logged s o fp c d w1) as H2. destruct (log _ _ _ _ _ _) as [w2 []]. split; [done|].
  by eapply logged_trans.
Qed.

Lemma log_and_return s o fp c d (code : Z) w :
  let r := (log s o fp c d;; mret code) w in r.2 = code ∧ logged s w r.1.
Proof.
  cbv zeta. unfold mbind, sh_bind. pose proof (log_logged s o fp c d w) as H.
  by destruct (log _ _ _ _ _ _) as [w2 []].
Qed.

Lemma notFound_logged s w : (notFound s w).2 = exitNotFound ∧ logged s w (notFound s w).1.
Proof. apply complain_and_log. Qed.

(** The child that [execReal] starts. *)
Definition the_child (s : shim) (path : string) (in_ : list input) (direct : bool) : invocation :=
  {| i_path := path; i_argv := sh_bin s :: sh_args s;
     i_env := withEnvOS (p_environ p) "PATH" (c_RealPath (sh_cfg s)) (p_goos p);
     i_stdin := in_; i_file := direct |}.

Definition real_path (s : shim) (w : world) : option string :=
  lookPathIn (sh_bin s) (c_RealPath (sh_cfg s)) (p_goos p) (getenv p "PATHEXT") (w_fs w).

(** At most one child is started, and none when the binary is not found. *)
Lemma execReal_ran s in_ is_file tee w w' code e x :
  execReal p s in_ is_file tee w = (w', (code, e, x)) →
  (e = Some ErrNotFound → w' = w) ∧
  ∃ l, w_ran w' = w_ran w ++ l ∧
    (l = [] ∨ ∃ path, real_path s w = Some path ∧ l = [the_child s path in_ (is_file && negb tee)]).
Proof.
  unfold execReal, real_path. destruct (lookPathIn _ _ _ _ _) as [path|] eqn:El.
  2: { intros [= <- <- <- <-]. split; [done|]. exists []. rewrite app_nil_r. auto. }
  destruct (if is_file && negb tee then None else pipe_fault) as [e'|].
  { intros [= <- <- <- <-]. split; [done|]. exists []. rewrite app_nil_r. auto. }
  fold (the_child s path in_ (is_file && negb tee)).
  destruct (run_child _ _) as [σ [e'|teed out errs wt]]; intros [= <- <- <- <-]; (split; [done|]);
    (eexists; split; [reflexivity|]; right; eauto).
Qed.
End steps.

(** Steps that start no child. *)
Definition quiet {A} (m : sh A) : Prop := ∀ w, w_ran (m w).1 = w_ran w.

Lemma quiet_ret {A} (x : A) : quiet (mret x).
Proof. done. Qed.

Lemma quiet_bind {A B} (m : sh A) (f : A → sh B) : quiet m → (∀ x, quiet (f x)) → quiet (m ≫= f).
Proof.
  intros Hm Hf w. unfold mbind, sh_bind. specialize (Hm w). destruct (m w) as [w' x]. by rewrite Hf.
Qed.

Lemma quiet_call {A} (m : io A) : quiet (call_fs m).
Proof. intros w. unfold call_fs. by destruct (m (w_fs w)). Qed.

Lemma quiet_println t : quiet (println t).
Proof. done. Qed.

Lemma quiet_out t : quiet (writeOut t).
Proof. done. Qed.

Lemma quiet_err t : quiet (writeErr t).
Proof. done. Qed.

Create HintDb quiet.
#[export] Hint Resolve quiet_ret quiet_bind quiet_call quiet_println quiet_out quiet_err : quiet.

Section quiet_steps.
Context {U : Unicode} {Y : YamlLib} {O : Faults} {F : FloatFormat} {P : Platform} {K : Child}.
Context {R : ResponseDecoder}.
Variable p : proc.

Lemma quiet_log s o fp c d : quiet (log s o fp c d).
Proof. unfold log. apply quiet_bind; [auto with quiet|]. intros []; auto with quiet. Qed.
#[local] Hint Resolve quiet_log : quiet.

Lemma quiet_notFound s : quiet (notFound s).
Proof. unfold notFound. auto 10 with quiet. Qed.

Lemma quiet_saveFailed s fp c e : quiet (saveFailed s fp c e).
Proof. unfold saveFailed. auto 10 with quiet. Qed.
#[local] Hint Resolve quiet_notFound quiet_saveFailed : quiet.

(** The recorded answer to a shim's call, if its directory has one. *)
Definition recorded_answer (s : shim) (w : world) :
    result (string * string * option (gmap string any) * Exec.Response) :=
  fp ← Exec.Fingerprint (live_request s (readStdinIdle p).1);
  '(e, q, r) ← (Load_into yDecodeMap decodeResponse (NewFileCassette (c_CassetteDir (sh_cfg s))) "exec" fp
                  (w_fs w)).2;
  inr (fp, e, q, r).

(** [l] is nothing, or the one child that may be started. *)
Definition one_child (s : shim) (w : world) (ok : list input → bool → Prop) (l : list invocation) : Prop :=
  l = [] ∨ ∃ path in_ direct, l = [the_child p s path in_ direct] ∧ real_path p s w = Some path ∧ ok in_ direct.

Lemma quiet_none {A} (m : sh A) s w ok :
  quiet m → ∃ l, w_ran (m w).1 = w_ran w ++ l ∧ one_child s w ok l.
Proof. intros Hm. exists []. rewrite app_nil_r. split; [apply Hm|by left]. Qed.

(** What follows a call of [execReal] starts no further child. *)
Lemma execReal_then {B} s in_ is_file tee (f : Z * option xerr * (string * string * string) → sh B) w
    (ok : list input → bool → Prop) :
  (∀ x, quiet (f x)) → ok in_ (is_file && negb tee) →
  ∃ l, w_ran ((execReal p s in_ is_file tee ≫= f) w).1 = w_ran w ++ l ∧ one_child s w ok l.
Proof.
  intros Hf Hok. unfold mbind, sh_bind. destruct (execReal _ _ _ _ _ w) as [w' [[code e] x]] eqn:E.
  apply execReal_ran in E as [_ (l & Hl & Hor)]. exists l. rewrite (Hf _ w'). split; [done|].
  destruct Hor as [->|(path & Hp & ->)]; [by left|]. right. eauto 10.
Qed.

Lemma record_ran s w :
  ∃ l, w_ran (record p s w).1 = w_ran w ++ l ∧ one_child s w (λ in_ direct, in_ = p_stdin p ∧ direct = false) l.
Proof.
  unfold record. apply execReal_then; [|by rewrite andb_false_r].
  intros [[code [[]|]] [[stdin out] errs]]; [auto with quiet|..]; destruct (Exec.Fingerprint _); auto with quiet;
    (apply quiet_bind; [auto with quiet|intros []; auto with quiet]).
Qed.

Lemma passthrough_ran s w :
  ∃ l, w_ran (passthrough p s w).1 = w_ran w ++ l ∧ one_child s w (λ _ _, True) l.
Proof. unfold passthrough. apply execReal_then; [|done]. intros [[code [[]|]] x]; auto with quiet. Qed.

Lemma miss_ran s fp stdin rest w :
  ∃ l, w_ran (miss p s fp stdin rest w).1 = w_ran w ++ l ∧
    one_child s w (λ _ _, c_Strict (sh_cfg s) = false) l.
Proof.
  unfold miss. destruct (c_Strict (sh_cfg s)); cbn [negb]; [apply quiet_none; auto 10 with quiet|].
  apply execReal_then; [|done]. intros [[code [[]|]] x]; auto with quiet.
Qed.

Lemma replay_ran s w :
  ∃ l, w_ran (replay p s w).1 = w_ran w ++ l ∧
    one_child s w (λ _ _, c_Strict (sh_cfg s) = false ∧ ∃ e, recorded_answer s w = inl e ∧ errors_is e SCassetteMiss) l.
Proof.
  unfold replay, recorded_answer. destruct (readStdinIdle p) as [stdin rest]. cbn [fst].
  destruct (Exec.Fingerprint _) as [e|fp]; [apply quiet_none; auto 10 with quiet|].
  unfold mbind at 1, sh_bind at 1, call_fs. cbn [mbind result_bind].
  pose proof (Load_into_frame yDecodeMap decodeResponse (NewFileCassette (c_CassetteDir (sh_cfg s))) "exec" fp (w_fs w)) as Hf.
  destruct (Load_into _ _ _ _ _ (w_fs w)) as [σ r]. simpl in Hf. subst σ.
  assert ({| w_fs := w_fs w; w_out := w_out w; w_err := w_err w; w_ran := w_ran w |} = w) as -> by (by destruct w).
  destruct r as [e|[[recErr q] resp]]; [|apply quiet_none; auto 20 with quiet].
  destruct (errors_is e SCassetteMiss) eqn:He; [|apply quiet_none; auto 10 with quiet].
  destruct (miss_ran s fp stdin rest w) as (l & Hl & Hor). exists l. split; [exact Hl|].
  destruct Hor as [->|(path & in_ & d & -> & Hp & Hs)]; [by left|]. right. exists path, in_, d.
  split_and!; [done..|]. exists e. by rewrite He.
Qed.

(** C15. When the real binary runs.  A call of a shim starts at most one child: the binary
    that the original PATH has under the configured name, with the shim's arguments and with
    the original PATH; never for a denied command, and in replay mode only when
    strictness is off and no cassette answers.  A recording feeds it the shim's whole
    input through a pipe. *)
Theorem real_binary_runs s w :
  ∃ l, w_ran (run p s w).1 = w_ran w ++ l ∧
  (l = [] ∨
   ∃ path in_ direct, l = [the_child p s path in_ direct] ∧ real_path p s w = Some path ∧
     inNames (c_Deny (sh_cfg s)) (sh_name s) = false ∧
     (c_Mode (sh_cfg s) = ModeRecord → in_ = p_stdin p ∧ direct = false) ∧
     (c_Mode (sh_cfg s) = ModeReplay →
       c_Strict (sh_cfg s) = false ∧ ∃ e, recorded_answer s w = inl e ∧ errors_is e SCassetteMiss)).
Proof.
  change (∃ l, w_ran (run p s w).1 = w_ran w ++ l ∧ one_child s w (λ in_ direct,
     inNames (c_Deny (sh_cfg s)) (sh_name s) = false ∧
     (c_Mode (sh_cfg s) = ModeRecord → in_ = p_stdin p ∧ direct = false) ∧
     (c_Mode (sh_cfg s) = ModeReplay →
       c_Strict (sh_cfg s) = false ∧ ∃ e, recorded_answer s w = inl e ∧ errors_is e SCassetteMiss)) l).
  unfold run. destruct (inNames (c_Deny (sh_cfg s)) (sh_name s)); [apply quiet_none; auto 10 with quiet|].
  case_bool_decide as Hrec; [|case_bool_decide as Hrep].
  - destruct (record_ran s w) as (l & Hl & [->|(path & i & d & -> & Hp & Hok)]); eexists; (split; [exact Hl|]);
      [by left|]. right. exists path, i, d. split_and!; try done. rewrite Hrec. done.
  - destruct (replay_ran s w) as (l & Hl & [->|(path & i & d & -> & Hp & Hok)]); eexists; (split; [exact Hl|]);
      [by left|]. right. exists path, i, d. split_and!; done.
  - destruct (passthrough_ran s w) as (l & Hl & [->|(path & i & d & -> & Hp & Hok)]); eexists; (split; [exact Hl|]);
      [by left|]. right. exists path, i, d. split_and!; done.
Qed.
End quiet_steps.

(** ** Denied commands, and what is recorded is replayed *)

Section properties.
Context {U : Unicode} {Y : YamlLib} {O : Faults} {F : FloatFormat} {P : Platform} {K : Child}.
Context {R : ResponseDecoder}.

Lemma run_denied p s w :
  inNames (c_Deny (sh_cfg s)) (sh_name s) → (run p s w).2 = exitDenied ∧ logged s w (run p s w).1.
Proof. intros H. unfold run. rewrite (Is_true_true_1 _ H). apply complain_and_log. Qed.

(** A denied command is blocked: started under the file name of a command on the deny
    list, the program exits with 126 without starting a child, without output, and
    changing no file but the call log - provided the command's cassette name reduces no
    further, since the name is reduced a second time. *)
Theorem denied_command_blocked {D : ConfigDecoder} p runDir file args cfg w :
  (loadConfig runDir (w_fs w)).2 = inr cfg →
  cmdFor cfg file (p_goos p) ∈ c_Deny cfg →
  cassetteName (cassetteName (cmdFor cfg file (p_goos p))) = cassetteName (cmdFor cfg file (p_goos p)) →
  let '(w', code) := shimMain p runDir file args w in
  code = exitDenied ∧ w_ran w' = w_ran w ∧ w_out w' = w_out w ∧
  ∀ q, q ≠ calls_path runDir → w_fs w' !! q = w_fs w !! q.
Proof.
  intros Hl Hd Hi. unfold shimMain, mbind, sh_bind, call_fs.
  assert ((loadConfig runDir (w_fs w)).1 = w_fs w) as Hfs.
  { unfold loadConfig, mbind, io_bind, ReadFile, lift. split_match. }
  destruct (loadConfig runDir (w_fs w)) as [σ r]. simpl in *. subst σ r.
  set (s := new_shim p cfg runDir file args).
  assert (inNames (c_Deny (sh_cfg s)) (sh_name s)) as Hin by (apply inNames_spec; eauto).
  assert ({| w_fs := w_fs w; w_out := w_out w; w_err := w_err w; w_ran := w_ran w |} = w) as -> by (by destruct w).
  destruct (run_denied p s w Hin) as [Hc (Ho & Hr & Hf)]. by destruct (run p s w).
Qed.

Lemma exit_error_text code : utf8_valid (recorded_text (exit_error code)).
Proof.
  unfold exit_error. destruct (code =? 0)%Z; [done|]. apply ascii_valid. simpl.
  rewrite ?sall_app. apply itoa_ascii.
Qed.

(** Whether it started or not, a child's output is what was kept of it. *)
Lemma execReal_out p s in_ is_file tee w w1 code stdin out errs :
  execReal p s in_ is_file tee w = (w1, (code, None, (stdin, out, errs))) → w_out w1 = w_out w +:+ out.
Proof.
  unfold execReal. destruct (lookPathIn _ _ _ _ _) as [path|]; [|done].
  destruct (if is_file && negb tee then None else pipe_fault); [done|].
  destruct (run_child _ _) as [σ [e|n o er wt]]; intros H; injection H as <- <- <- <- <-; [|done].
  simpl. by rewrite sapp_nil_r.
Qed.

Lemma record_saved p s w w1 code stdin out errs fp σ2 :
  execReal p s (p_stdin p) (p_char_device p) true w = (w1, (code, None, (stdin, out, errs))) →
  Exec.Fingerprint (live_request s stdin) = inr fp →
  Save (getenv p) (NewFileCassette (c_CassetteDir (sh_cfg s))) (p_now p) "exec" fp
    (Exec.request_yaml (saved_request p s stdin)) (Exec.response_yaml (saved_response p s out errs code))
    (exit_error code) (w_fs w1) = (σ2, inr tt) →
  (record p s w).2 = code ∧ w_out (record p s w).1 = w_out w1 ∧
  ∀ q, q ≠ calls_path (sh_runDir s) → w_fs (record p s w).1 !! q = σ2 !! q.
Proof.
  intros He Hfp Hs.
  assert (record p s w = (log s outRecorded fp code "";; mret code)
    {| w_fs := σ2; w_out := w_out w1; w_err := w_err w1; w_ran := w_ran w1 |}) as ->.
  { unfold record, mbind at 1, sh_bind at 1. rewrite He, Hfp.
    unfold mbind at 1, sh_bind at 1, call_fs. by rewrite Hs. }
  set (w2 := {| w_fs := σ2; w_out := _; w_err := _; w_ran := _ |}).
  destruct (log_and_return s outRecorded fp code "" code w2) as [Hc (Ho & _ & Hf)]. split_and!; [exact Hc|exact Ho|exact Hf].
Qed.

(** What a call leaves in the log. *)
Lemma log_files s o fp c d w :
  w_fs (log s o fp c d w).1 = (appendCall (sh_runDir s)
    {| ce_Cmd := sh_name s; ce_Argv := safeArgv s; ce_Outcome := o; ce_Fingerprint := fp; ce_ExitCode := c;
       ce_Detail := d |} (w_fs w)).1.
Proof. unfold log, mbind, sh_bind, call_fs. by destruct (appendCall _ _ _) as [σ [e|[]]]. Qed.

(** The exit code of a replayed call. *)
Definition replayed_code (text : string) (resp : Exec.Response) : Z :=
  let code := Exec.ExitCode resp in
  if (code <? 0)%Z || (code =? 0)%Z && negb (bool_decide (text = "")) then 1%Z else code.

Lemma replayed_code_recorded p s out errs code :
  (0 ≤ code)%Z → replayed_code (recorded_text (exit_error code)) (saved_response p s out errs code) = code.
Proof.
  intros Hc. unfold replayed_code, exit_error. cbn [Exec.ExitCode saved_response].
  rewrite (proj2 (Z.ltb_ge code 0) Hc). by destruct (code =? 0)%Z.
Qed.

Definition replayed_entry (s : shim) (fp : string) (code : Z) : callEntry :=
  {| ce_Cmd := sh_name s; ce_Argv := safeArgv s; ce_Outcome := outReplayed; ce_Fingerprint := fp;
     ce_ExitCode := code; ce_Detail := "" |}.

Lemma replay_answered p s w stdin rest fp e q resp :
  readStdinIdle p = (stdin, rest) → Exec.Fingerprint (live_request s stdin) = inr fp →
  (Load_into yDecodeMap decodeResponse (NewFileCassette (c_CassetteDir (sh_cfg s))) "exec" fp (w_fs w)).2
    = inr (e, q, resp) →
  let '(w', c) := replay p s w in
  c = replayed_code e resp ∧ w_out w' = w_out w +:+ Exec.Stdout resp ∧ w_ran w' = w_ran w ∧
  w_fs w' = (appendCall (sh_runDir s) (replayed_entry s fp (replayed_code e resp)) (w_fs w)).1.
Proof.
  intros Hin Hfp Hl. unfold replay. rewrite Hin, Hfp. unfold mbind at 1, sh_bind at 1, call_fs.
  pose proof (Load_into_frame yDecodeMap decodeResponse (NewFileCassette (c_CassetteDir (sh_cfg s))) "exec" fp (w_fs w)) as Hf.
  destruct (Load_into _ _ _ _ _ (w_fs w)) as [σ r]. simpl in Hf, Hl. subst σ r. cbn [fst snd]. cbv zeta.
  fold (replayed_code e resp). set (code := replayed_code e resp).
  unfold mbind at 1 2, sh_bind at 1 2, writeOut, writeErr. cbn [w_fs w_out w_err w_ran].
  set (w1 := {| w_fs := _; w_out := _; w_err := _; w_ran := _ |}).
  destruct (log_and_return s outReplayed fp code "" code w1) as [Hc (Ho & Hr & _)].
  pose proof (log_files s outReplayed fp code "" w1) as Hfs. unfold mbind, sh_bind in *.
  destruct (log s outReplayed fp code "" w1) as [w2 []]. simpl in *. auto.
Qed.

(** C11. What a shim records, a shim replays.  A recording shim runs the real binary and
    returns its exit code; given that the cassette was written and reads back, a later
    shim of the same command and arguments whose input brings the same bytes prints
    the recorded output, scrubbed of secrets, ends with the same exit code and
    starts nothing - whatever its own environment holds secret. *)
Theorem shim_record_replay {L : YamlLaws} p p' s s' w w1 v code stdin rest out errs fp σ2 nq np mq :
  c_Mode (sh_cfg s) = ModeRecord → c_Mode (sh_cfg s') = ModeReplay →
  sh_name s' = sh_name s → sh_args s' = sh_args s →
  c_CassetteDir (sh_cfg s') = c_CassetteDir (sh_cfg s) →
  inNames (c_Deny (sh_cfg s)) (sh_name s) = false → inNames (c_Deny (sh_cfg s')) (sh_name s') = false →
  (∀ q, read_fault q = None) → (0 ≤ code)%Z →
  execReal p s (p_stdin p) (p_char_device p) true w = (w1, (code, None, (stdin, out, errs))) →
  Exec.Fingerprint (live_request s stdin) = inr fp →
  let c := NewFileCassette (c_CassetteDir (sh_cfg s)) in
  Save (getenv p) c (p_now p) "exec" fp
    (Exec.request_yaml (saved_request p s stdin)) (Exec.response_yaml (saved_response p s out errs code))
    (exit_error code) (w_fs w1) = (σ2, inr tt) →
  yEncode (Exec.request_yaml (saved_request p s stdin)) = inr nq →
  yDecodeMap (redactNode nq (activeRedactor (getenv p) c) "payload") = inr mq →
  yEncode (Exec.response_yaml (saved_response p s out errs code)) = inr np →
  decodeResponse (redactNode np (activeRedactor (getenv p) c) "payload") = inr (saved_response p s out errs code) →
  readStdinIdle p' = (stdin, rest) →
  (∀ kind, kind = "req" ∨ kind = "resp" →
    file_path c "exec" fp kind ≠ calls_path (sh_runDir s) ∧
    w_fs v !! file_path c "exec" fp kind = w_fs (run p s w).1 !! file_path c "exec" fp kind) →
  (run p s w).2 = code ∧
  let '(v', code') := run p' s' v in
  code' = code ∧ w_out v' = w_out v +:+ scrub (sh_env s) out ∧ w_ran v' = w_ran v.
Proof.
  cbv zeta. intros Hm Hm' Hname Hargs Hdir Hd Hd' Hrf Hcode He Hfp Hs Hnq Hmq Hnp Hresp Hin Hv.
  assert (run p s w = record p s w) as Hrun by (unfold run; by rewrite Hd, Hm, bool_decide_eq_true_2).
  rewrite Hrun in *. destruct (record_saved _ _ _ _ _ _ _ _ _ _ He Hfp Hs) as (Hc & _ & Hfs). split; [exact Hc|].
  assert (run p' s' v = replay p' s' v) as ->.
  { unfold run. by rewrite Hd', Hm', bool_decide_eq_false_2, bool_decide_eq_true_2. }
  assert (fileable "exec" fp) as Hfl.
  { split; [done|]. eapply hex_no_slash, fingerprint_hex, Hfp. }
  destruct (Load_into_after_Save (getenv p) yDecodeMap decodeResponse _ _ "exec" fp _ _ _ _ _ Hfl
    (exit_error_text code) (Hrf _) (Hrf _) Hs) as (nq' & np' & Hq & Hp & Hload).
  change (normalizePayload (Exec.request_yaml ?r)) with (Exec.request_yaml r) in Hq.
  change (normalizePayload (Exec.response_yaml ?r)) with (Exec.response_yaml r) in Hp.
  rewrite Hnq in Hq. rewrite Hnp in Hp. injection Hq as <-. injection Hp as <-. rewrite Hmq, Hresp in Hload.
  assert (live_request s' stdin = live_request s stdin) as Hlive by (unfold live_request, argv; by rewrite Hname, Hargs).
  pose proof (replay_answered p' s' v stdin rest fp (recorded_text (exit_error code)) mq
    (saved_response p s out errs code) Hin) as Hr. rewrite Hlive, Hdir in Hr.
  specialize (Hr Hfp). rewrite (Load_into_ext _ _ _ _ _ _ σ2), Hload in Hr.
  2: { intros kind Hk. destruct (Hv kind Hk) as [Hne ->]. by apply Hfs. }
  specialize (Hr eq_refl). destruct (replay p' s' v) as [v' code']. destruct Hr as (Hrc & Hout & Hran & _).
  split_and!; [|exact Hout|exact Hran]. rewrite Hrc. by apply replayed_code_recorded.
Qed.

Lemma read_until_idle_pause pre b post :
  read_until_idle ((IData <$> pre) ++ IPause :: IData b :: post) = (sconcat pre, post).
Proof. induction pre as [|x pre IH]; [done|]. rewrite fmap_cons. cbn [app read_until_idle]. by rewrite IH. Qed.

(** C31. A lost chunk: with strictness off, a call that no cassette answers falls through to the
    real binary; when the input paused longer than the shim waits, the bytes that
    arrive next go to the reader that was left behind, and the binary gets what
    came before the pause followed by what came after these bytes. *)
Theorem fall_through_loses_chunk p s w fp e pre b post :
  c_Mode (sh_cfg s) = ModeReplay → c_Strict (sh_cfg s) = false →
  inNames (c_Deny (sh_cfg s)) (sh_name s) = false →
  p_char_device p = false → p_stdin p = (IData <$> pre) ++ IPause :: IData b :: post →
  Exec.Fingerprint (live_request s (sconcat pre)) = inr fp →
  recorded_answer p s w = inl e → errors_is e SCassetteMiss → pipe_fault = None → is_Some (real_path p s w) →
  ∃ i, w_ran (run p s w).1 = w_ran w ++ [i] ∧ data_of (i_stdin i) = sconcat pre +:+ data_of post.
Proof.
  intros Hm Hst Hd Hcd Hin Hfp Hans He Hpf [path Hpath].
  assert (readStdinIdle p = (sconcat pre, post)) as Hread.
  { unfold readStdinIdle. by rewrite Hcd, Hin, read_until_idle_pause. }
  unfold recorded_answer in Hans. rewrite Hread in Hans. cbn [fst] in Hans. rewrite Hfp in Hans. cbn [mbind result_bind] in Hans.
  unfold run. rewrite Hd, Hm, bool_decide_eq_false_2, bool_decide_eq_true_2 by done.
  unfold replay. rewrite Hread, Hfp. unfold mbind at 1, sh_bind at 1, call_fs.
  pose proof (Load_into_frame yDecodeMap decodeResponse (NewFileCassette (c_CassetteDir (sh_cfg s))) "exec" fp (w_fs w)) as Hf.
  destruct (Load_into _ _ _ _ _ (w_fs w)) as [σ [e'|[[? ?] ?]]]; [|done]. simpl in Hf, Hans. injection Hans as ->. subst σ.
  rewrite (Is_true_true_1 _ He).
  assert ({| w_fs := w_fs w; w_out := w_out w; w_err := w_err w; w_ran := w_ran w |} = w) as -> by (by destruct w).
  unfold miss. rewrite Hst. cbn [negb].
  set (in_ := (if bool_decide (sconcat pre = "") then [] else [IData (sconcat pre)]) ++ post).
  assert (data_of in_ = sconcat pre +:+ data_of post) as Hdata.
  { unfold in_, data_of. case_bool_decide as Hp; [|done]. by rewrite Hp. }
  exists (the_child p s path in_ false). split; [|exact Hdata].
  assert (∀ x : Z * option xerr * (string * string * string),
    quiet (match x with
           | (_, Some ErrNotFound, _) => notFound s
           | (code, _, _) => log s outPassthrough fp code "cassette miss, --strict=false: ran real binary";; mret code
           end)) as Hquiet.
  { intros [[code [[]|]] x]; [apply quiet_notFound|apply quiet_bind; [apply quiet_log|intros; apply quiet_ret]..]. }
  unfold mbind at 1, sh_bind at 1. destruct (execReal _ _ _ _ _ w) as [w' r] eqn:E. rewrite (Hquiet r w').
  unfold execReal in E. unfold real_path in Hpath. rewrite Hpath in E. cbn [andb] in E. rewrite Hpf in E.
  fold (the_child p s path in_ false) in E.
  destruct (run_child _ _) as [σ [e'|teed out errs wt]]; injection E as <- <-; done.
Qed.
End properties.

(** ** At concrete values *)

Section witnesses.
#[local] Existing Instance ascii_only.
#[local] Existing Instance ReferenceYaml.lib.
#[local] Existing Instance ReferenceYaml.laws.
#[local] Existing Instance no_faults.
#[local] Existing Instance integral_floats.

#[local] Instance shim_platform : Platform :=
  {| exec_bits _ := true; EvalSymlinks _ := None; link_fault _ _ := None |}.

(** A binary that echoes its input and a secret, and fails. *)
#[local] Instance shim_child : Child :=
  {| run_child i σ := (σ, Ran (length (i_stdin i)) ("got " +:+ data_of (i_stdin i) +:+ " with hunter2222") "oops"
                           (WErr (EExit 4 None "exit status 4")));
     pipe_fault := None |}.

Definition text_field (m : gmap string ynode) (k : string) : string :=
  match m !! k with Some n => y_value n | None => "" end.

#[local] Instance shim_responses : ResponseDecoder := λ n,
  let m := ReferenceYaml.pairs_map (y_content n) in
  inr {| Exec.Stdout := text_field m "stdout"; Exec.Stderr := text_field m "stderr";
         Exec.ExitCode := default 0%Z (parse_int (text_field m "exit_code"));
         Exec.DurationMs := default 0%Z (parse_int (text_field m "duration_ms")) |}.

Definition shim_config (mode : string) (strict : bool) : runConfig :=
  {| c_Mode := mode; c_CassetteDir := "/cas"; c_RealPath := "/bin"; c_Strict := strict; c_Deny := ["open"];
     c_EnvCapture := []; c_ScrubDeny := []; c_ScrubAllow := []; c_Cmds := {[ "gh" := "gh"; "Open.exe" := "Open.exe" ]};
     c_StdinWaitMs := 250 |}.

#[local] Instance shim_configs : ConfigDecoder := λ b,
  if bool_decide (b = "record") then inr (shim_config ModeRecord true) else
  if bool_decide (b = "replay") then inr (shim_config ModeReplay true) else inl (ENew "json: bad").

Definition shim_proc (environ : list string) (stdin : list input) : proc :=
  {| p_environ := environ; p_goos := "linux"; p_char_device := false; p_stdin := stdin; p_now := 0; p_dur := 7 |}.

Definition shim_fs : fsys :=
  {[ "/bin/gh" := FFile "ELF"; "/cas" := FDir; "/run" := FDir; "/run/config.json" := FFile "replay" ]}.
Definition shim_world (σ : fsys) : world := {| w_fs := σ; w_out := ""; w_err := ""; w_ran := [] |}.

Definition gh (p : proc) (mode : string) (strict : bool) : shim :=
  new_shim p (shim_config mode strict) "/run" "gh" ["--token"; "hunter2222"].

Definition rec_proc : proc := shim_proc ["GH_TOKEN=hunter2222"] [IData "in"; IData "put"].
Definition rep_proc : proc := shim_proc [] [IData "input"].

Lemma denied_command_blocked_witness :
  (shimMain rep_proc "/run" "open" ["http://x"] (shim_world shim_fs)).2 = 126%Z.
Proof.
  pose proof (denied_command_blocked rep_proc "/run" "open" ["http://x"] (shim_config ModeReplay true) (shim_world shim_fs)) as H.
  destruct (shimMain rep_proc "/run" "open" ["http://x"] (shim_world shim_fs)) as [w' code].
  apply H.
  - vm_compute. reflexivity.
  - apply (bool_decide_unpack _). vm_compute. exact I.
  - vm_compute. reflexivity.
Defined.

Definition recorded_world : world := (run rec_proc (gh rec_proc ModeRecord true) (shim_world shim_fs)).1.

Definition demo_shim : shim := gh rec_proc ModeRecord true.
Definition demo_out : string := "got input with hunter2222".
Definition demo_fp : string :=
  match Exec.Fingerprint (live_request demo_shim "input") with inr fp => fp | inl _ => "" end.
Definition demo_after_child : world :=
  (execReal rec_proc demo_shim (p_stdin rec_proc) false true (shim_world shim_fs)).1.
Definition demo_saved : fsys :=
  (Save (getenv rec_proc) (NewFileCassette "/cas") 0 "exec" demo_fp
    (Exec.request_yaml (saved_request rec_proc demo_shim "input"))
    (Exec.response_yaml (saved_response rec_proc demo_shim demo_out "oops" 4)) (exit_error 4)
    (w_fs demo_after_child)).1.
Definition demo_nq : ynode := ReferenceYaml.encode (Exec.request_yaml (saved_request rec_proc demo_shim "input")).
Definition demo_np : ynode := ReferenceYaml.encode (Exec.response_yaml (saved_response rec_proc demo_shim demo_out "oops" 4)).
Definition demo_mq : option (gmap string any) :=
  match yDecodeMap (redactNode demo_nq (activeRedactor (getenv rec_proc) (NewFileCassette "/cas")) "payload") with
  | inr m => m
  | inl _ => None
  end.

Lemma shim_record_replay_witness :
  let '(v', code') := run rep_proc (gh rep_proc ModeReplay true) (shim_world (w_fs recorded_world)) in
  code' = 4%Z ∧ w_out v' = "got input with <redacted:GH_TOKEN>" ∧ w_ran v' = [].
Proof.
  pose proof (shim_record_replay rec_proc rep_proc demo_shim (gh rep_proc ModeReplay true)
    (shim_world shim_fs) demo_after_child (shim_world (w_fs recorded_world)) 4 "input" [] demo_out "oops" demo_fp
    demo_saved demo_nq demo_np demo_mq) as H.
  destruct (run rep_proc (gh rep_proc ModeReplay true) (shim_world (w_fs recorded_world))) as [v' code'].
  cbv zeta in H. destruct H as [_ [Hc [Ho Hr]]].
  - reflexivity.
  - reflexivity.
  - vm_compute. reflexivity.
  - reflexivity.
  - reflexivity.
  - vm_compute. reflexivity.
  - vm_compute. reflexivity.
  - intros q. reflexivity.
  - lia.
  - vm_compute. reflexivity.
  - vm_compute. reflexivity.
  - vm_compute. reflexivity.
  - reflexivity.
  - vm_compute. reflexivity.
  - reflexivity.
  - vm_compute. reflexivity.
  - vm_compute. reflexivity.
  - intros kind Hk. split; [|reflexivity]. destruct Hk as [-> | ->]; vm_compute; intros E; discriminate E.
  - split; [exact Hc|]. split; [exact Ho|exact Hr].
Defined.

Lemma fall_through_loses_chunk_witness :
  ∃ i, w_ran (run (shim_proc [] [IData "a"; IPause; IData "b"; IData "c"])
                (gh rep_proc ModeReplay false) (shim_world shim_fs)).1 = [i] ∧ data_of (i_stdin i) = "ac".
Proof.
  apply (fall_through_loses_chunk (shim_proc [] [IData "a"; IPause; IData "b"; IData "c"])
    (gh rep_proc ModeReplay false) (shim_world shim_fs)
    (match Exec.Fingerprint (live_request (gh rep_proc ModeReplay false) "a") with inr fp => fp | inl _ => "" end)
    ErrCassetteMiss ["a"] "b" [IData "c"]).
  - reflexivity.
  - reflexivity.
  - vm_compute. reflexivity.
  - reflexivity.
  - reflexivity.
  - vm_compute. reflexivity.
  - vm_compute. reflexivity.
  - exact I.
  - reflexivity.
  - eexists. vm_compute. reflexivity.
Defined.
End witnesses.
