(* ===== verification/CliStreams.v ===== *)
(** go/cmd/xrr: what runs beside a child - the goroutine that feeds a recorded command its
    input and keeps a copy (shim.go), and the one that passes signals on (run.go) - as step
    relations over all schedules.

    CliShim.v sees a child as one step, with a number of reads of standard input that were
    copied by the time it was waited for; this file shows that these numbers are exactly
    what the schedules lead to. *)

From stdpp Require Import relations.
From S2P Require Import Prelude GoStrings Values Os Adapters CliPlatform CliShim.

(** ** Feeding the child

    [pump] copies standard input to a [MultiWriter] of the tee and the child's pipe;
    [record] reads the tee once the child has been waited for, and nobody waits for
    [pump].  Both sides of the tee hold its lock ([lockedBuffer]): the bytes of one write
    go in piece by piece. *)

(** Where [pump] is: before a read, before it has the lock for a chunk, with the lock and
    a part of the chunk in the buffer, writing the rest of a chunk to the pipe, or done
    with the pipe closed. *)
Inductive pump_pc : Type :=
| PRead
| PLock (b : string)
| PCopy (copied rest : string)
| PWrite (rest : string)
| PDone.

(** Where [record] is: waiting for the child, with the lock in [in.String], or past it. *)
Inductive main_pc : Type := MWait | MHeld | MDone (stdin : string).

(** A child that may read its input, one that has closed it, one that is gone. *)
Inductive child_pc : Type := CRuns | CDeaf | CGone.

Record lockedBuffer := LockedBuffer { mu : bool; buf : string }.

(** The input left, both program counters, the tee, the bytes in the pipe, what the child
    has read, whether it has seen the end of its input, and where it is. *)
Record exec_state := MkExec {
  x_in : list input;
  x_pump : pump_pc;
  x_main : main_pc;
  x_in_buf : lockedBuffer;
  x_pipe : string;
  x_eaten : string;
  x_eof : bool;
  x_child : child_pc;
}.

Local Abbreviation Exec_state i p m k t q e f x := (MkExec i p m (LockedBuffer k t) q e f x).
Local Abbreviation x_lock s := (mu (x_in_buf s)).
Local Abbreviation x_tee s := (buf (x_in_buf s)).

Definition exec_start (stdin : list input) : exec_state :=
  Exec_state stdin PRead MWait false "" "" "" false CRuns.

Inductive exec_step : exec_state → exec_state → Prop :=
(** [io.Copy]: a read brings a chunk, nothing, or the end. *)
| pump_reads b i m k t q e f x :
    b ≠ "" → exec_step (Exec_state (IData b :: i) PRead m k t q e f x) (Exec_state i (PLock b) m k t q e f x)
| pump_reads_nothing a i m k t q e f x :
    data_of [a] = "" → exec_step (Exec_state (a :: i) PRead m k t q e f x) (Exec_state i PRead m k t q e f x)
| pump_ends m k t q e f x :
    exec_step (Exec_state [] PRead m k t q e f x) (Exec_state [] PDone m k t q e f x)
(** [lockedBuffer.Write]: [Lock], [Buffer.Write], [Unlock]. *)
| tee_locks b i m t q e f x :
    exec_step (Exec_state i (PLock b) m false t q e f x) (Exec_state i (PCopy "" b) m true t q e f x)
| tee_copies d b b' i m k t q e f x :
    exec_step (Exec_state i (PCopy d (b +:+ b')) m k t q e f x)
              (Exec_state i (PCopy (d +:+ b) b') m k (t +:+ b) q e f x)
| tee_unlocks d i m k t q e f x :
    exec_step (Exec_state i (PCopy d "") m k t q e f x) (Exec_state i (PWrite d) m false t q e f x)
(** The second writer is the pipe; a write that no child can read any more fails. *)
| pipe_takes b b' i m k t q e f :
    exec_step (Exec_state i (PWrite (b +:+ b')) m k t q e f CRuns) (Exec_state i (PWrite b') m k t (q +:+ b) e f CRuns)
| pipe_written i m k t q e f x :
    exec_step (Exec_state i (PWrite "") m k t q e f x) (Exec_state i PRead m k t q e f x)
| pipe_broken b i m k t q e f x :
    x ≠ CRuns → exec_step (Exec_state i (PWrite b) m k t q e f x) (Exec_state i PDone m k t q e f x)
(** The child reads, sees the end of its input, closes it, exits. *)
| child_reads b i p m k t q e f :
    exec_step (Exec_state i p m k t (b +:+ q) e f CRuns) (Exec_state i p m k t q (e +:+ b) f CRuns)
| child_sees_end i m k t e f :
    exec_step (Exec_state i PDone m k t "" e f CRuns) (Exec_state i PDone m k t "" e true CRuns)
| child_closes i p m k t q e f :
    exec_step (Exec_state i p m k t q e f CRuns) (Exec_state i p m k t q e f CDeaf)
| child_exits i p m k t q e f x :
    exec_step (Exec_state i p m k t q e f x) (Exec_state i p m k t q e f CGone)
(** [cmd.Wait] has returned: [lockedBuffer.String]. *)
| string_locks i p t q e f :
    exec_step (Exec_state i p MWait false t q e f CGone) (Exec_state i p MHeld true t q e f CGone)
| string_reads i p k t q e f x :
    exec_step (Exec_state i p MHeld k t q e f x) (Exec_state i p (MDone t) false t q e f x).

(** What [record] takes for the command's input, under some schedule. *)
Definition teed_stdin (stdin : list input) (s : exec_state) (text : string) : Prop :=
  rtc exec_step (exec_start stdin) s ∧ x_main s = MDone text.

(** *** The invariant *)

Lemma input_app i i' : data_of (i ++ i') = data_of i +:+ data_of i'.
Proof. unfold data_of. by rewrite fmap_app, sconcat_app. Qed.

Lemma input_one b : data_of [IData b] = b.
Proof. unfold data_of. simpl. by rewrite sapp_nil_r. Qed.

(** The bytes that reached the child's side and the copy, in terms of the reads made. *)
Definition fed (stdin : list input) (s : exec_state) : Prop :=
  let sent := x_eaten s +:+ x_pipe s in
  ∃ reads, stdin = reads ++ x_in s ∧
  match x_pump s with
  | PRead => x_tee s = data_of reads ∧ sent = x_tee s
  | PLock b => ∃ reads', reads = reads' ++ [IData b] ∧ x_tee s = data_of reads' ∧ sent = x_tee s
  | PCopy d b => ∃ reads', reads = reads' ++ [IData (d +:+ b)] ∧ x_tee s = data_of reads' +:+ d ∧ sent = data_of reads'
  | PWrite b => x_tee s = data_of reads ∧ sent +:+ b = x_tee s
  | PDone => x_tee s = data_of reads ∧ (∃ b, sent +:+ b = x_tee s) ∧ (x_child s = CRuns → x_in s = [] ∧ sent = x_tee s)
  end.

(** One side at most holds the lock. *)
Definition locked (s : exec_state) : Prop :=
  match x_pump s, x_main s with
  | PCopy _ _, MHeld => False
  | PCopy _ _, _ | _, MHeld => x_lock s = true
  | _, _ => x_lock s = false
  end.

Definition ended_well (stdin : list input) (s : exec_state) : Prop :=
  (x_main s ≠ MWait → x_child s = CGone) ∧
  (x_eof s = true → x_pump s = PDone ∧ x_pipe s = "" ∧ x_eaten s = data_of stdin) ∧
  match x_main s with
  | MDone t => ∃ k, t = data_of (take k stdin) ∧ ∃ b, x_eaten s +:+ b = t
  | _ => True
  end.

Definition exec_inv (stdin : list input) (s : exec_state) : Prop :=
  fed stdin s ∧ locked s ∧ ended_well stdin s.

Lemma fed_step stdin s s' : exec_step s s' → fed stdin s → fed stdin s'.
Proof.
  unfold fed. intros Hst (reads & -> & H). destruct Hst; cbn [x_in x_pump x_in_buf mu buf x_eaten x_pipe x_child] in *.
  - destruct H as [-> H2]. exists (reads ++ [IData b]). rewrite <-app_assoc. split; [done|]. by exists reads.
  - destruct H as [-> H2]. exists (reads ++ [a]). rewrite <-app_assoc, input_app, H0, sapp_nil_r. done.
  - destruct H as [-> H2]. exists reads. split_and!; [done..| |done]. exists "". by rewrite sapp_nil_r.
  - destruct H as (reads' & -> & -> & ->). exists (reads' ++ [IData b]). split; [done|]. exists reads'. by rewrite sapp_nil_r.
  - destruct H as (reads' & -> & -> & ->). eexists. split; [done|]. exists reads'. by rewrite !sapp_assoc.
  - destruct H as (reads' & -> & -> & ->). eexists. split; [done|]. by rewrite input_app, input_one, !sapp_nil_r.
  - destruct H as [-> H]. exists reads. by rewrite <-H, !sapp_assoc.
  - destruct H as [-> H]. exists reads. by rewrite <-H, sapp_nil_r.
  - destruct H as [-> H]. exists reads. split_and!; [done..|by exists b|done].
  - exists reads. split; [done|]. destruct p; rewrite !sapp_assoc in *; try done.
  - exists reads. split; [done|]. exact H.
  - exists reads. split; [done|]. destruct p; try done. destruct H as (H1 & H2 & _). by split_and!.
  - exists reads. split; [done|]. destruct p; try done. destruct H as (H1 & H2 & _). by split_and!.
  - exists reads. by split.
  - exists reads. by split.
Qed.

Lemma locked_step s s' : exec_step s s' → locked s → locked s'.
Proof.
  unfold locked. destruct 1; cbn [x_pump x_main x_in_buf mu buf]; try done;
    repeat match goal with
           | |- context [match ?p with _ => _ end] => is_var p; destruct p
           end; done.
Qed.

(** The tee between two writes. *)
Lemma tee_whole stdin s :
  fed stdin s → match x_pump s with PCopy _ _ => False | _ => True end →
  ∃ k, x_tee s = data_of (take k stdin) ∧ ∃ b, x_eaten s +:+ b = x_tee s.
Proof.
  intros (reads & -> & H) Hp. destruct (x_pump s) as [|b| |b|]; [..|done| |].
  - destruct H as [H1 H2]. exists (length reads). rewrite take_app_length. split; [done|]. by exists (x_pipe s).
  - destruct H as (reads' & -> & H1 & H2). exists (length reads'). rewrite <-app_assoc, take_app_length.
    split; [done|]. by exists (x_pipe s).
  - destruct H as [H1 H2]. exists (length reads). rewrite take_app_length. split; [done|].
    exists (x_pipe s +:+ b). by rewrite <-sapp_assoc.
  - destruct H as (H1 & [b H2] & _). exists (length reads). rewrite take_app_length. split; [done|].
    exists (x_pipe s +:+ b). by rewrite <-sapp_assoc.
Qed.

Lemma ended_step stdin s s' : exec_step s s' → exec_inv stdin s → ended_well stdin s'.
Proof.
  intros Hst (Hf & Hl & H1 & H2 & H3).
  destruct Hst; unfold ended_well in *; cbn [x_main x_child x_eof x_pump x_pipe x_eaten] in *;
    split_and!; try done; try (intros Hx; destruct (H2 Hx) as (? & ? & ?); discriminate).
  - intros Hx. destruct (H2 Hx) as (-> & Hq & ->).
    assert (b = "" ∧ q = "") as [-> ->] by (by destruct b). by rewrite sapp_nil_r.
  - destruct m; [done..|]. by discriminate H1.
  - intros _. split_and!; [done..|]. destruct Hf as (reads & -> & Hs). cbn [x_pump x_child x_in x_eaten x_pipe x_in_buf mu buf] in Hs.
    destruct Hs as (Ht & _ & Hs). destruct (Hs eq_refl) as [-> <-]. by rewrite app_nil_r, <-Ht, sapp_nil_r.
  - by intros Hm; apply H1 in Hm.
  - by intros _; apply H1.
  - destruct (tee_whole _ _ Hf) as (n & Ht & b & Hb); [|by exists n; split; [|exists b]].
    unfold locked in Hl. cbn [x_pump x_main] in *. by destruct p.
Qed.

Lemma exec_reachable stdin s : rtc exec_step (exec_start stdin) s → exec_inv stdin s.
Proof.
  intros H. remember (exec_start stdin) as s0. assert (exec_inv stdin s0) as H0.
  { subst. split_and!; [by exists []|done..]. }
  clear Heqs0. induction H as [|s1 s2 s3 Hst _ IH]; [done|]. apply IH.
  split_and!; [by eapply fed_step, H0|by eapply locked_step, H0|by eapply ended_step].
Qed.

(** *** Every number of reads is some schedule's *)

Local Ltac step_by c := eapply rtc_l; [eapply c|].

(** The pump goes through [i] while the child is alive and reads nothing. *)
Lemma pump_through i rest t q :
  rtc exec_step (Exec_state (i ++ rest) PRead MWait false t q "" false CRuns)
                (Exec_state rest PRead MWait false (t +:+ data_of i) (q +:+ data_of i) "" false CRuns).
Proof.
  revert t q. induction i as [|a i IH]; intros t q.
  { by rewrite !sapp_nil_r. }
  assert (data_of (a :: i) = data_of [a] +:+ data_of i) as -> by apply (input_app [a]).
  rewrite <-!sapp_assoc. destruct (decide (data_of [a] = "")) as [Ha|Ha].
  { rewrite Ha, !sapp_nil_r. step_by pump_reads_nothing; [done|]. apply IH. }
  destruct a as [b|]; [|done]. rewrite input_one in *.
  step_by pump_reads; [done|]. step_by tee_locks.
  rewrite <-(sapp_nil_r b) at 1. step_by tee_copies. step_by tee_unlocks.
  rewrite sapp_nil_l, <-(sapp_nil_r b) at 1. step_by pipe_takes. step_by pipe_written. apply IH.
Qed.

Lemma pump_may_stop stdin k : ∃ s, teed_stdin stdin s (data_of (take k stdin)) ∧ x_eaten s = "" ∧ x_eof s = false.
Proof.
  exists (Exec_state (drop k stdin) PRead (MDone (data_of (take k stdin))) false (data_of (take k stdin))
    (data_of (take k stdin)) "" false CGone).
  split; [split; [|done]|done]. unfold exec_start. rewrite <-(take_drop k stdin) at 1. etrans; [apply pump_through|].
  step_by child_exits. step_by string_locks. step_by string_reads. done.
Qed.

(** Once the child is gone, [record] comes to its end whatever the pump is at. *)
Lemma record_finishes s :
  locked s → x_child s = CGone → ∃ s' text, rtc exec_step s s' ∧ x_main s' = MDone text.
Proof.
  destruct s as [i p m [k t] q e f x]. unfold locked. cbn [x_pump x_main x_in_buf mu buf x_child]. intros Hl ->.
  destruct m as [| |t'].
  - assert (∀ i p t q e f, ∃ s' text,
      rtc exec_step (Exec_state i p MWait false t q e f CGone) s' ∧ x_main s' = MDone text) as Hfree.
    { intros. do 2 eexists. split; [step_by string_locks; step_by string_reads; done|done]. }
    destruct p as [|b|d b|b|]; subst; [apply Hfree..| |apply Hfree|apply Hfree].
    destruct (Hfree i (PWrite (d +:+ b)) (t +:+ b) q e f) as (s' & text & Hs & Hm). exists s', text. split; [|done].
    rewrite <-(sapp_nil_r b) at 1. step_by tee_copies. step_by tee_unlocks. exact Hs.
  - do 2 eexists. split; [step_by string_reads; done|done].
  - by exists (Exec_state i p (MDone t') k t q e f CGone), t'.
Qed.

Lemma input_prefix stdin k b :
  data_of stdin +:+ b = data_of (take k stdin) → data_of (take k stdin) = data_of stdin.
Proof.
  intros H. rewrite <-(take_drop k stdin) in H at 1. rewrite input_app, sapp_assoc in H.
  rewrite <-(sapp_nil_r (data_of (take k stdin))) in H at 2. apply sapp_inv_head in H.
  assert (data_of (drop k stdin) = "") as Hd by (by destruct (data_of (drop k stdin))).
  rewrite <-(take_drop k stdin) at 2. by rewrite input_app, Hd, sapp_nil_r.
Qed.

(** C29. What [record] takes for a command's standard input.  Over all schedules of the
    copying goroutine, the child and [record] it is the data of the first so many reads -
    whole reads, thanks to the tee's lock - and every number of reads is some schedule's,
    even for a child that reads nothing: this is what [execReal] is told by a child that
    ran.  It always holds what the child has read; it is all there is when the child read
    its input to the end; and once the child is gone [record] is never kept waiting. *)
Theorem tee_schedules stdin :
  (∀ text, (∃ s, teed_stdin stdin s text) ↔ ∃ k, text = data_of (take k stdin)) ∧
  (∀ k, ∃ s, teed_stdin stdin s (data_of (take k stdin)) ∧ x_eaten s = "") ∧
  (∀ s text, teed_stdin stdin s text →
     (∃ unread, text = x_eaten s +:+ unread) ∧ (x_eof s = true → text = data_of stdin ∧ x_eaten s = data_of stdin)) ∧
  (∀ s, rtc exec_step (exec_start stdin) s → x_child s = CGone →
     ∃ s' text, rtc exec_step s s' ∧ teed_stdin stdin s' text).
Proof.
  split_and!.
  - intros text. split.
    + intros (s & Hs & Hm). destruct (exec_reachable _ _ Hs) as (_ & _ & _ & _ & H). rewrite Hm in H. naive_solver.
    + intros [k ->]. destruct (pump_may_stop stdin k) as (s & Hs & _). by exists s.
  - intros k. destruct (pump_may_stop stdin k) as (s & Hs & He & _). by exists s.
  - intros s text (Hs & Hm). destruct (exec_reachable _ _ Hs) as (_ & _ & _ & H2 & H3). rewrite Hm in H3.
    destruct H3 as (k & -> & b & Hb). split; [by exists b|]. intros Hx. destruct (H2 Hx) as (_ & _ & He).
    split; [|done]. rewrite He in Hb. by apply (input_prefix _ _ b).
  - intros s Hs Hx. destruct (exec_reachable _ _ Hs) as (_ & Hl & _).
    destruct (record_finishes s Hl Hx) as (s' & text & Hs' & Hm). exists s', text. split; [done|].
    split; [by etrans|done].
Qed.

(** The input that [execReal] hands to [record] is one that some schedule leads to. *)
Theorem execReal_stdin_scheduled {U : Unicode} {O : Faults} {P : Platform} {K : Child} p s in_ is_file w w' code stdin out errs :
  execReal p s in_ is_file true w = (w', (code, None, (stdin, out, errs))) → ∃ st, teed_stdin in_ st stdin.
Proof.
  intros H. assert (∃ k, stdin = data_of (take k in_)) as [k ->].
  { unfold execReal in H. destruct (lookPathIn _ _ _ _ _); [|done].
    destruct (if is_file && negb true then None else pipe_fault); [done|].
    destruct (run_child _ _) as [σ [e|n o er wt]]; injection H as _ _ <- _ _; [by exists 0|by exists n]. }
  destruct (pump_may_stop in_ k) as (st & Hst & _). by exists st.
Qed.

(** ** Passing signals on

    [waitForwardingSignals] has the runtime put SIGINT and SIGTERM into a channel of
    capacity 4, dropping what does not fit, and a goroutine hands them to the child; a
    signal that is not asked for ends the program. *)

Definition sigs_capacity : nat := 4.

Inductive phase : Type := Started | Notified | Stopped.

(** Where the main goroutine is, the channel, what the child has been sent, whether the
    child and the relaying goroutine are running, whether [done] is closed; what has come
    in since [signal.Notify], how much of it was dropped, and whether xrr was killed. *)
Record relay_state := Relay_state {
  g_phase : phase;
  g_sigs : list Z;
  g_sent : list Z;
  g_alive : bool;
  g_relay : bool;
  g_closed : bool;
  g_got : list Z;
  g_dropped : nat;
  g_killed : bool;
}.

(** After [cmd.Start]. *)
Definition relay_start : relay_state := Relay_state Started [] [] true false false [] 0 false.

Definition enqueue (s : Z) (q : list Z) : list Z :=
  if (length q <? sigs_capacity)%nat then q ++ [s] else q.

Inductive relay_step : relay_state → relay_state → Prop :=
| notify a c g n :
    relay_step (Relay_state Started [] [] a false c g n false) (Relay_state Notified [] [] a true c g n false)
| signal_arrives (s : Z) q t a r c g n :
    relay_step (Relay_state Notified q t a r c g n false)
      (Relay_state Notified (enqueue s q) t a r c (g ++ [s])
         (if (length q <? sigs_capacity)%nat then n else S n) false)
| signal_kills (s : Z) ph q t a r c g n :
    ph ≠ Notified → relay_step (Relay_state ph q t a r c g n false) (Relay_state ph q t a r c g n true)
| relay_sends s ph q t a c g n :
    relay_step (Relay_state ph (s :: q) t a true c g n false)
      (Relay_state ph q (if a then t ++ [s] else t) a true c g n false)
| child_ends ph q t r c g n :
    relay_step (Relay_state ph q t true r c g n false) (Relay_state ph q t false r c g n false)
| wait_returns q t r g n :
    relay_step (Relay_state Notified q t false r false g n false) (Relay_state Notified q t false r true g n false)
| relay_ends ph q t a g n :
    relay_step (Relay_state ph q t a true true g n false) (Relay_state ph q t a false true g n false)
| signals_stop q t a r g n :
    relay_step (Relay_state Notified q t a r true g n false) (Relay_state Stopped q t a r true g n false).

Definition relay_inv (s : relay_state) : Prop :=
  length (g_sigs s) ≤ sigs_capacity ∧ sublist (g_sent s ++ g_sigs s) (g_got s) ∧
  (g_alive s = true → g_closed s = false ∧ (g_phase s = Notified ↔ g_relay s = true) ∧
     (g_dropped s = 0 → g_sent s ++ g_sigs s = g_got s)) ∧
  (g_phase s = Started → g_sigs s = [] ∧ g_sent s = [] ∧ g_got s = []) ∧
  (g_killed s = true → g_phase s ≠ Notified).

Lemma relay_inv_step s s' : relay_step s s' → relay_inv s → relay_inv s'.
Proof.
  unfold relay_inv. destruct 1; cbn [g_phase g_sigs g_sent g_alive g_relay g_closed g_got g_dropped g_killed];
    intros (H1 & H2 & H3 & H4 & H5).
  - destruct H4 as (_ & _ & ->); [done|]. naive_solver.
  - unfold enqueue. destruct (Nat.ltb_spec (length q) sigs_capacity) as [Hl|Hl].
    + rewrite length_app, app_assoc. simpl. split_and!; [lia|by apply sublist_app|..|done|done].
      intros Ha. destruct (H3 Ha) as (? & ? & Hg). split_and!; [done..|]. intros Hn. by rewrite Hg.
    + split_and!; [lia|by apply sublist_inserts_r|..|done|done].
      intros Ha. destruct (H3 Ha) as (? & ? & _). by split_and!.
  - naive_solver.
  - simpl in H1. split_and!; [lia| | | |done].
    + destruct a; [by rewrite <-app_assoc|]. etrans; [|exact H2]. by apply sublist_app; [|apply sublist_cons].
    + intros ->. destruct (H3 eq_refl) as (? & ? & Hg). split_and!; [done..|]. intros Hn. rewrite <-app_assoc. exact (Hg Hn).
    + intros Hp. by destruct (H4 Hp).
  - by split_and!.
  - by split_and!.
  - split_and!; try done. intros Ha. by destruct (H3 Ha).
  - split_and!; try done. intros Ha. by destruct (H3 Ha).
Qed.

Lemma relay_reachable s : rtc relay_step relay_start s → relay_inv s.
Proof.
  intros H. remember relay_start as s0. assert (relay_inv s0) as H0.
  { subst. unfold relay_inv, sigs_capacity. simpl. split_and!; [lia|done|naive_solver..]. }
  clear Heqs0. induction H as [|s1 s2 s3 Hst _ IH]; [done|]. by eapply IH, relay_inv_step.
Qed.

(** The goroutine gets through the channel. *)
Lemma relay_drains q t c g n ph :
  rtc relay_step (Relay_state ph q t true true c g n false) (Relay_state ph [] (t ++ q) true true c g n false).
Proof.
  revert t. induction q as [|s q IH]; intros t; [by rewrite app_nil_r|].
  step_by relay_sends. rewrite (app_assoc t [s] q : t ++ s :: q = (t ++ [s]) ++ q). apply IH.
Qed.

(** C32. Signals are passed on in order.  The channel never holds more than four; what the
    child is sent, followed by what is pending, is a subsequence of what came in, and all
    of it as long as nothing was dropped; while the child runs, the goroutine can always
    bring it what is pending.  From [signal.Notify] until the child has been waited for no
    signal ends xrr itself; one that comes in between the child's start and [Notify]
    does, and leaves the child running. *)
Theorem signals_relayed s :
  rtc relay_step relay_start s →
  length (g_sigs s) ≤ 4 ∧ sublist (g_sent s ++ g_sigs s) (g_got s) ∧
  (g_alive s = true → g_dropped s = 0 → g_sent s ++ g_sigs s = g_got s) ∧
  (g_phase s = Notified → g_killed s = false ∧
     (g_alive s = true → ∃ s', rtc relay_step s s' ∧ g_sigs s' = [] ∧ g_sent s' = g_sent s ++ g_sigs s)) ∧
  ∃ s', rtc relay_step relay_start s' ∧ g_killed s' = true ∧ g_alive s' = true.
Proof.
  intros H. destruct (relay_reachable _ H) as (H1 & H2 & H3 & H4 & H5). split_and!; [done..| | |].
  - intros Ha. by apply H3.
  - intros Hp. assert (g_killed s = false) as Hk by (destruct (g_killed s); naive_solver). split; [done|].
    intros Ha. destruct (H3 Ha) as (_ & Hr & _). apply Hr in Hp as Hrel. destruct s; simpl in *; subst.
    eexists. split; [apply relay_drains|done].
  - eexists. split; [apply rtc_once, (signal_kills 2); done|done].
Qed.

(** ** At concrete values *)

(** Two schedules of one recording, of a command that does not read its input. *)
Lemma tee_schedules_witness :
  (∃ s, teed_stdin [IData "in"; IPause; IData "put"] s "" ∧ x_eaten s = "") ∧
  (∃ s, teed_stdin [IData "in"; IPause; IData "put"] s "input" ∧ x_eaten s = "").
Proof.
  destruct (tee_schedules [IData "in"; IPause; IData "put"]) as (_ & H & _). split; [exact (H 0)|exact (H 3)].
Defined.

Lemma signals_relayed_witness :
  ∃ s', rtc relay_step (Relay_state Notified [2%Z; 15%Z] [] true true false [2%Z; 15%Z] 0 false) s' ∧
    g_sent s' = [2%Z; 15%Z].
Proof.
  destruct (signals_relayed (Relay_state Notified [2%Z; 15%Z] [] true true false [2%Z; 15%Z] 0 false)) as (_ & _ & _ & H & _).
  - eapply rtc_l; [exact (notify true false [] 0)|].
    eapply rtc_l; [exact (signal_arrives 2 [] [] true true false [] 0)|].
    eapply rtc_l; [exact (signal_arrives 15 [2%Z] [] true true false [2%Z] 0)|]. apply rtc_refl.
  - destruct (H eq_refl) as [_ H']. destruct (H' eq_refl) as (s' & Hs & _ & Hsent). exists s'. split; [exact Hs|exact Hsent].
Defined.
