(* ===== verification/CliRun.v ===== *)
(** go/cmd/xrr: run.go and main.go - flags, the run directory, the child with the
    shims on its PATH, and the exit code that sums it up. *)

From S2P Require Import Prelude GoStrings Values CanonicalJson Yaml Redact Os Cassette Session Adapters Glob CliConfig CliScrub Paths CliPlatform CliReport CliShim.

(** ** Flags (package flag)

    The flag layer as it is filled, and the file [--config] names.  A flag that was
    not passed leaves its scalar unset. *)

Record flags := { fl_settings : settings; fl_config : string }.

Definition no_flags : flags := {| fl_settings := no_settings; fl_config := "" |}.

(** How a parse ends: the arguments left, a call for help, or a message. *)
Inductive parsed : Type := Parsed (f : flags) (rest : list string) | HelpWanted | BadFlag (text : string).

(** [Duration.String]. *)
Class DurationText := duration_String : Z → string.

Section flags.
Context {U : Unicode} {C : ConfigLib} {T : DurationText}.

Definition is_bool_flag (name : string) : bool :=
  bool_decide (name = "no-default-deny") || bool_decide (name = "strict").

Definition parse_error : err := ENew "parse error".

(** The setter of each flag; [None] for a flag that is not defined. *)
Definition set_flag (name value : string) (f : flags) : option (result flags) :=
  let s := fl_settings f in
  let upd s := inr {| fl_settings := s; fl_config := fl_config f |} in
  let lists sh de en al sd :=
    {| s_Mode := s_Mode s; s_Cassettes := s_Cassettes s; s_Shim := sh; s_Deny := de;
       s_NoDefaultDeny := s_NoDefaultDeny s; s_Strict := s_Strict s; s_Env := en;
       s_StdinWait := s_StdinWait s; s_ReportFile := s_ReportFile s; s_ScrubAllow := al;
       s_ScrubDeny := sd |} in
  let scalars mo ca nd st wa re :=
    {| s_Mode := mo; s_Cassettes := ca; s_Shim := s_Shim s; s_Deny := s_Deny s;
       s_NoDefaultDeny := nd; s_Strict := st; s_Env := s_Env s; s_StdinWait := wa;
       s_ReportFile := re; s_ScrubAllow := s_ScrubAllow s; s_ScrubDeny := s_ScrubDeny s |} in
  let mo := s_Mode s in let ca := s_Cassettes s in let nd := s_NoDefaultDeny s in
  let st := s_Strict s in let wa := s_StdinWait s in let re := s_ReportFile s in
  let sh := s_Shim s in let de := s_Deny s in let en := s_Env s in
  let al := s_ScrubAllow s in let sd := s_ScrubDeny s in
  if bool_decide (name = "mode") then Some (upd (scalars (Some value) ca nd st wa re)) else
  if bool_decide (name = "cassettes") then Some (upd (scalars mo (Some value) nd st wa re)) else
  if bool_decide (name = "report-file") then Some (upd (scalars mo ca nd st wa (Some value))) else
  if bool_decide (name = "shim") then Some (upd (lists (listFlag_Set sh value) de en al sd)) else
  if bool_decide (name = "deny") then Some (upd (lists sh (listFlag_Set de value) en al sd)) else
  if bool_decide (name = "env") then Some (upd (lists sh de (listFlag_Set en value) al sd)) else
  if bool_decide (name = "no-scrub") then Some (upd (lists sh de en (listFlag_Set al value) sd)) else
  if bool_decide (name = "scrub") then Some (upd (lists sh de en al (listFlag_Set sd value))) else
  if bool_decide (name = "config") then Some (inr {| fl_settings := s; fl_config := value |}) else
  if bool_decide (name = "no-default-deny") then
    Some (match ParseBool value with Some b => upd (scalars mo ca (Some b) st wa re) | None => inl parse_error end) else
  if bool_decide (name = "strict") then
    Some (match ParseBool value with Some b => upd (scalars mo ca nd (Some b) wa re) | None => inl parse_error end) else
  if bool_decide (name = "stdin-wait") then
    Some (match ParseDuration value with
          | Some d => upd (scalars mo ca nd st (Some (duration_String d)) re)
          | None => inl parse_error
          end)
  else None.

(** [FlagSet.Parse]. *)
Fixpoint parse_flags (args : list string) (f : flags) : parsed :=
  match args with
  | [] => Parsed f []
  | s :: rest =>
    if (slen s <? 2)%nat || negb (HasPrefix s "-") then Parsed f args else
    if bool_decide (s = "--") then Parsed f rest else
    let name := if HasPrefix s "--" then sdrop 2 s else sdrop 1 s in
    if HasPrefix name "-" || HasPrefix name "=" then BadFlag ("bad flag syntax: " +:+ s) else
    let '(name, value) := match Cut1 name "=" with Some (n, v) => (n, Some v) | None => (name, None) end in
    match set_flag name (default "" value) f with
    | None =>
      if bool_decide (name = "help") || bool_decide (name = "h") then HelpWanted
      else BadFlag ("flag provided but not defined: -" +:+ name)
    | Some _ =>
      if is_bool_flag name then
        let v := default "true" value in
        match set_flag name v f with
        | Some (inr f') => parse_flags rest f'
        | Some (inl e) =>
          BadFlag ("invalid boolean value " +:+ Quote v +:+ " for -" +:+ name +:+ ": " +:+ error_text e)
        | None => HelpWanted
        end
      else
        let set v := set_flag name v f in
        let bad v e := BadFlag ("invalid value " +:+ Quote v +:+ " for flag -" +:+ name +:+ ": " +:+ error_text e) in
        match value, rest with
        | Some v, _ =>
          match set v with Some (inr f') => parse_flags rest f' | Some (inl e) => bad v e | None => HelpWanted end
        | None, v :: rest' =>
          match set v with Some (inr f') => parse_flags rest' f' | Some (inl e) => bad v e | None => HelpWanted end
        | None, [] => BadFlag ("flag needs an argument: -" +:+ name)
        end
    end
  end.
End flags.

(** ** Running (run.go) *)

(** The program's own path, the run directory the system makes, the working
    directory, the text [PrintDefaults] writes, and what the version is taken from. *)
Class RunEnv := {
  os_executable : result string;
  temp_dir : result string;
  getwd : string;
  flag_defaults : string;
  version_stamp : string;             (* set at release time *)
  build_version : option string;      (* the module version of the build info *)
}.

(** [resolveVersion] (version.go). *)
Definition resolveVersion {E : RunEnv} : string :=
  if bool_decide (version_stamp ≠ "") then version_stamp else
  match build_version with
  | Some v => if bool_decide (v ≠ "") && bool_decide (v ≠ "(devel)") then v else "dev"
  | None => "dev"
  end.

Definition runUsage : string :=
  Join ["usage: xrr run [flags] -- <cmd> [args...]"; "";
        "Runs <cmd> with a temp dir of shims prepended to PATH. Each --shim command is";
        "recorded to / replayed from exec cassettes; each denied command is blocked.";
        "A summary goes to stderr; the run fails on any deny hit or cassette miss."; ""; "flags:"; ""] newline.

Definition usageText : string :=
  Join ["usage: xrr <command> [flags]"; ""; "commands:";
        "  run    run a command with PATH shims that record/replay external CLIs";
        "  version  print the xrr version (also --version)"; "";
        "run 'xrr run -h' for flags."; ""] newline.

Section run.
Context {U : Unicode} {O : Faults} {F : FloatFormat} {P : Platform} {K : Child} {C : ConfigLib}.
Context {T : DurationText} {D : CallDecoder} {E : RunEnv}.
Variable p : proc.

(** [exec.LookPath] on Unix. *)
Definition exec_error (file : string) (what : string) : err :=
  ENew ("exec: " +:+ Quote file +:+ ": " +:+ what).

Definition findExecutable (σ : fsys) (file : string) : option string :=
  match (Stat file σ).2 with
  | inl e => Some (error_text e)
  | inr true => Some "is a directory"
  | inr false => if exec_bits file then None else Some "permission denied"
  end.

Definition LookPath (file : string) (σ : fsys) : result string :=
  if contains_char file slash then
    match findExecutable σ file with None => inr file | Some what => inl (exec_error file what) end
  else
    let dirs := (λ d, filepath_Join [if bool_decide (d = "") then "." else d; file]) <$> SplitList (getenv p "PATH") in
    match List.find (λ q, bool_decide (findExecutable σ q = None)) dirs with
    | None => inl (exec_error file "executable file not found in $PATH")
    | Some q =>
      if IsAbs q then inr q
      else inl (exec_error file "cannot run executable found relative to current directory")
    end.

Definition complain (e : err) (code : Z) : sh Z :=
  println ("xrr run: " +:+ error_text e);; mret code.

(** [waitForwardingSignals]: a child that does not start counts as not found. *)
Definition run_command (i : invocation) : sh Z := λ w,
  let '(σ, r) := run_child i (w_fs w) in
  let w' out errs := {| w_fs := σ; w_out := w_out w +:+ out; w_err := w_err w +:+ errs; w_ran := w_ran w ++ [i] |} in
  match r with
  | NoStart e => complain e exitNotFound (w' "" "")
  | Ran _ out errs wt => (w' out errs, exitCodeOf (match wt with WErr e => Some e | _ => None end))
  end.

(** The verdict on a run whose child ended with [code]. *)
Definition verdict (code : Z) (calls : list callEntry) : Z :=
  if negb (code =? 0)%Z then code else if anyFailing calls then exitViolation else exitOK.

Definition report (o : runOpts) (cfg : runConfig) (runDir : string) (code : Z) : sh Z :=
  r ← call_fs (readCalls runDir);
  match r with
  | inl e => println ("xrr run: read call log: " +:+ error_text e);; mret exitViolation
  | inr calls =>
    writeErr (renderReport (c_Mode cfg) calls);;
    if bool_decide (o_reportFile o = "") then mret (verdict code calls) else
    r ← call_fs (writeReportFile (o_reportFile o) (c_Mode cfg) calls);
    match r with
    | inl e => println ("xrr run: write report: " +:+ error_text e);; mret exitViolation
    | inr _ => mret (verdict code calls)
    end
  end.

Definition the_command (cfg : runConfig) (runDir binDir path : string) (child : list string) : invocation :=
  {| i_path := path; i_argv := child;
     i_env := withEnvOS (withEnvOS (p_environ p) "PATH" (binDir +:+ ":" +:+ c_RealPath cfg) (p_goos p))
                runDirEnv runDir (p_goos p);
     i_stdin := p_stdin p; i_file := true |}.

(** What happens between making the run directory and removing it. *)
Definition in_run_dir (o : runOpts) (cfg : runConfig) (child : list string) (self runDir : string) : sh Z :=
  let binDir := filepath_Join [runDir; binSubdir] in
  r ← call_fs (Mkdir binDir);
  match r with
  | inl e => complain e exitUsage
  | inr _ =>
    r ← call_fs (installShims binDir self (o_shim o ++ c_Deny cfg) (p_goos p));
    match r with
    | inl e => println ("xrr run: install shims: " +:+ error_text e);; mret exitUsage
    | inr _ =>
      r ← call_fs (writeConfig runDir cfg);
      match r with
      | inl e => complain e exitUsage
      | inr _ =>
        r ← call_fs (λ σ, (σ, LookPath (default "" (head child)) σ));
        match r with
        | inl e => complain e exitNotFound
        | inr path =>
          code ← run_command (the_command cfg runDir binDir path child);
          report o cfg runDir code
        end
      end
    end
  end.

(** The deferred [os.RemoveAll]. *)
Definition with_removal {A} (runDir : string) (m : sh A) : sh A := λ w,
  let '(w', x) := m w in
  ({| w_fs := RemoveAll runDir (w_fs w'); w_out := w_out w'; w_err := w_err w'; w_ran := w_ran w' |}, x).

Definition execute (o : runOpts) (cfg : runConfig) (child : list string) : sh Z :=
  match os_executable with
  | inl e => println ("xrr run: locate own binary: " +:+ error_text e);; mret exitUsage
  | inr self =>
    r ← call_fs (MkdirTemp temp_dir);
    match r with
    | inl e => complain e exitUsage
    | inr runDir => with_removal runDir (in_run_dir o cfg child self runDir)
    end
  end.

Definition runCmd (args : list string) : sh Z :=
  match parse_flags args no_flags with
  | HelpWanted => writeErr (runUsage +:+ flag_defaults);; mret exitOK
  | BadFlag text => println text;; writeErr (runUsage +:+ flag_defaults);; mret exitUsage
  | Parsed f rest =>
    match validate (fl_settings f) with
    | Some e => complain e exitUsage
    | None =>
      r ← call_fs (loadLayers (fl_config f) (fl_settings f) (getenv p));
      match r with
      | inl e => complain e exitUsage
      | inr layers =>
        let o := toOpts layers in
        r ← call_fs (resolve getwd (p_goos p) (getenv p) o rest);
        match r with
        | inl e => complain e exitUsage
        | inr (cfg, child) => execute o cfg child
        end
      end
    end
  end.

(** [dispatch] (main.go). *)
Definition dispatch (args : list string) : sh Z :=
  match args with
  | [] => writeErr usageText;; mret exitUsage
  | cmd :: rest =>
    if bool_decide (cmd = "run") then runCmd rest else
    if bool_decide (cmd ∈ ["-v"; "--version"; "version"]) then
      writeOut ("xrr " +:+ resolveVersion +:+ newline);; mret exitOK else
    if bool_decide (cmd ∈ ["-h"; "--help"; "help"]) then writeOut usageText;; mret exitOK else
    println ("xrr: unknown command " +:+ Quote cmd +:+ newline);; writeErr usageText;; mret exitUsage
  end.

(** [main]: a shim when started as one, the command line otherwise. *)
Definition main {Y : YamlLib} {R : ResponseDecoder} {CD : ConfigDecoder} (args : list string) : sh Z :=
  match os_executable with
  | inl _ => dispatch args
  | inr exe =>
    r ← runAsShim p exe args;
    match r with Some code => mret code | None => dispatch args end
  end.
End run.

(** ** Properties *)

Section properties.
Context {U : Unicode} {O : Faults} {F : FloatFormat} {P : Platform} {K : Child} {C : ConfigLib}.
Context {T : DurationText} {D : CallDecoder} {E : RunEnv}.

(** What a report that ends with code 0 has seen. *)
Lemma report_ok o cfg runDir code w w' :
  report o cfg runDir code w = (w', 0%Z) →
  code = 0%Z ∧ ∃ calls, (readCalls runDir (w_fs w)).2 = inr calls ∧ anyFailing calls = false.
Proof.
  assert (∀ calls, verdict code calls = 0%Z → code = 0%Z ∧ anyFailing calls = false) as Hv.
  { intros calls. unfold verdict, exitViolation, exitOK. destruct (code =? 0)%Z eqn:Ec; cbn [negb].
    - apply Z.eqb_eq in Ec. by destruct (anyFailing calls).
    - apply Z.eqb_neq in Ec. done. }
  unfold report, mbind, sh_bind, call_fs, writeErr. destruct (readCalls runDir (w_fs w)) as [σ [e|calls]]; [done|].
  cbn [fst snd w_fs w_out w_err w_ran]. intros H. assert (verdict code calls = 0%Z) as Hz.
  { destruct (bool_decide (o_reportFile o = "")); [by injection H|].
    destruct (writeReportFile _ _ _ _) as [σ' [e|[]]]; [done|by injection H]. }
  destruct (Hv calls Hz) as [-> Hf]. eauto.
Qed.

(** C18. Exit code 0 is earned: a run returns it only when its child was started on the shims'
    PATH and itself exited with 0, the call log it left is readable, and no shim
    logged a denied command, a cassette miss or an error. *)
Theorem execute_ok p o cfg child w w' :
  execute p o cfg child w = (w', 0%Z) →
  ∃ runDir path σ σ' teed out errs wt calls,
    let binDir := filepath_Join [runDir; binSubdir] in
    temp_dir = inr runDir ∧ LookPath p (default "" (head child)) σ = inr path ∧
    run_child (the_command p cfg runDir binDir path child) σ = (σ', Ran teed out errs wt) ∧
    exitCodeOf (match wt with WErr e => Some e | _ => None end) = 0%Z ∧
    (readCalls runDir σ').2 = inr calls ∧ anyFailing calls = false.
Proof.
  unfold execute. destruct os_executable as [e|self]; [done|].
  unfold mbind at 1, sh_bind at 1, call_fs at 1, MkdirTemp. destruct temp_dir as [e|runDir]; [done|].
  cbn [fst snd]. unfold with_removal. destruct (in_run_dir _ _ _ _ _ _ _) as [w2 code] eqn:Hin.
  intros [= _ ->]. unfold in_run_dir, mbind, sh_bind, call_fs in Hin.
  destruct (Mkdir _ _) as [σ1 [e|[]]]; [done|]. cbn [w_fs] in Hin.
  destruct (installShims _ _ _ _ _) as [σ2 [e|[]]]; [done|]. cbn [w_fs] in Hin.
  destruct (writeConfig _ _ _) as [σ3 [e|[]]]; [done|]. cbn [w_fs] in Hin.
  destruct (LookPath p _ σ3) as [e|path] eqn:Hpath; [done|].
  unfold run_command in Hin. cbn [w_fs] in Hin.
  destruct (run_child _ σ3) as [σ4 [e|teed out errs wt]] eqn:Hrun.
  { apply report_ok in Hin as [? _]. done. }
  apply report_ok in Hin as (Hcode & calls & Hcalls & Hfail).
  exists runDir, path, σ3, σ4, teed, out, errs, wt, calls. split_and!; done.
Qed.

(** A run cleans up after itself: however it ends - a failure before the child starts, a
    child that fails, a report that cannot be written - nothing is left of the run
    directory, its configuration and its shims. *)
Theorem execute_cleans_up p o cfg child self runDir w q :
  os_executable = inr self → temp_dir = inr runDir → under runDir q →
  w_fs (execute p o cfg child w).1 !! q = None.
Proof.
  intros Hself Htmp Hq. unfold execute. rewrite Hself. unfold mbind at 1, sh_bind at 1, call_fs at 1, MkdirTemp.
  rewrite Htmp. unfold with_removal. destruct (in_run_dir _ _ _ _ _ _ _) as [w2 code]. cbn [fst w_fs].
  by apply RemoveAll_under.
Qed.

(** The configuration that [writeConfig] wrote, read back. *)
Lemma loadConfig_writeConfig {CD : ConfigDecoder} runDir c σ σ' :
  read_fault (filepath_Join [runDir; configFile]) = None →
  (∀ b, go_json true (runConfig_json c) = inr b → unmarshalConfig b = inr c) →
  writeConfig runDir c σ = (σ', inr tt) →
  (∃ data, σ' !! filepath_Join [runDir; configFile] = Some (FFile data)) ∧ loadConfig runDir σ' = (σ', inr c).
Proof.
  intros Hr Hdec H. unfold writeConfig in H. apply io_bind_inr in H as (σ1 & b & Hb & H).
  assert (σ1 = σ ∧ go_json true (runConfig_json c) = inr b) as [-> Hj].
  { unfold lift in Hb. by destruct (go_json _ _); simplify_eq/=. }
  apply WriteFile_inr in H as ->. split; [eexists; apply lookup_insert_eq|].
  unfold loadConfig, mbind, io_bind, lift. rewrite (ReadFile_file _ b); [|done|apply lookup_insert_eq].
  by rewrite (Hdec b Hj).
Qed.

(** C14. What a run denies stays denied, from its options to the process that is blocked: once
    the run directory is set up - the options resolved, the shims installed, the
    configuration written - the program started from the shim of a denied command, with
    any arguments and any environment, exits with 126, starts no child and prints nothing
    to standard output.  The configuration has to read back, and the command's cassette
    name to be its own. *)
Theorem denied_in_run {Y : YamlLib} {R : ResponseDecoder} {CD : ConfigDecoder}
    p cwd o args cfg child σ σ1 σ2 σ3 σ4 self data runDir n p' argv' w :
  let binDir := filepath_Join [runDir; binSubdir] in
  isWindows (p_goos p) = false → p_goos p' = p_goos p →
  runDir ≠ "" → Clean runDir = runDir → HasPrefix (filepath_Base runDir) runDirPrefix →
  (∀ q, read_fault q = None) →
  resolve cwd (p_goos p) (getenv p) o args σ = (σ1, inr (cfg, child)) →
  Forall (λ m, validCommandName m = None) (o_shim o ++ c_Deny cfg) →
  σ2 !! default self (EvalSymlinks self) = Some (FFile data) →
  installShims binDir self (o_shim o ++ c_Deny cfg) (p_goos p) σ2 = (σ3, inr tt) →
  writeConfig runDir cfg σ3 = (σ4, inr tt) →
  (∀ b, go_json true (runConfig_json cfg) = inr b → unmarshalConfig b = inr cfg) →
  n ∈ c_Deny cfg → cassetteName (cassetteName n) = cassetteName n → w_fs w = σ4 →
  let '(w', code) := runAsShim p' (filepath_Join [binDir; shimFileName n (p_goos p)]) argv' w in
  code = Some exitDenied ∧ w_ran w' = w_ran w ∧ w_out w' = w_out w.
Proof.
  cbv zeta. intros Hg Hg' Hne Hcl Hpre Hrf Hres Hval Hself Hinst Hwc Hdec Hn Hidem Hw.
  apply resolve_inr in Hres as (_ & _ & _ & _ & _ & _ & _ & Hcmds).
  destruct (loadConfig_writeConfig runDir cfg σ3 σ4 (Hrf _) Hdec Hwc) as [[b Hb] Hload].
  assert (n ∈ o_shim o ++ c_Deny cfg) as Hin by (apply elem_of_app; by right).
  assert (shimFileName n (p_goos p) = n) as Hfile by (unfold shimFileName; by rewrite Hg).
  unfold runAsShim. rewrite Hfile, Hw.
  rewrite (shimIdentity_bin runDir n σ4 b); try done.
  3, 4: by rewrite Hcl.
  2: { apply validCommandName_plain. rewrite Forall_forall in Hval. auto. }
  rewrite Hcl. unfold shimMain, mbind, sh_bind, call_fs. rewrite Hw, Hload.
  assert (cmdFor cfg n (p_goos p') = n) as Hcmd.
  { rewrite Hg', <-Hfile at 1. by eapply cmdFor_unix. }
  set (w1 := {| w_fs := σ4; w_out := _; w_err := _; w_ran := _ |}).
  set (s := new_shim p' cfg runDir n argv').
  assert (inNames (c_Deny (sh_cfg s)) (sh_name s)) as Hdeny.
  { apply inNames_spec. exists n. split; [done|]. unfold s, new_shim. cbn [sh_name]. by rewrite Hcmd. }
  destruct (run_denied p' s w1 Hdeny) as [Hc (Ho & Hr & _)]. destruct (run p' s w1) as [w2 c].
  simpl in *. subst c. by split_and!.
Qed.

(** A flag takes one argument or two, and looks at no more. *)
Lemma parse_flags_more args f f' more :
  "--" ∉ args → parse_flags args f = Parsed f' [] → parse_flags (args ++ more) f = parse_flags more f'.
Proof.
  remember (length args) as n eqn:Hn. revert args f Hn.
  induction (lt_wf n) as [n _ IH]. intros args f -> Hd Hp.
  destruct args as [|s rest]; [by injection Hp as ->|]. apply not_elem_of_cons in Hd as [Hs Hd].
  cbn [parse_flags app] in *. destruct ((slen s <? 2)%nat || negb (HasPrefix s "-")); [done|].
  rewrite bool_decide_eq_false_2 in Hp |- * by done.
  destruct (HasPrefix (if HasPrefix s "--" then _ else _) "-" || _); [done|].
  destruct (match Cut1 _ "=" with Some (n, v) => (n, Some v) | None => _ end) as [name value].
  destruct (set_flag name (default "" value) f) as [r0|]; [|by destruct (bool_decide _ || _)].
  assert (∀ f1, parse_flags rest f1 = Parsed f' [] → parse_flags (rest ++ more) f1 = parse_flags more f') as Hrest.
  { intros f1 H1. apply (IH (length rest)); simpl; [lia|done..]. }
  destruct (is_bool_flag name).
  - destruct (set_flag name (default "true" value) f) as [[e|f1]|]; [done|by apply Hrest|done].
  - destruct value as [v|].
    + destruct (set_flag name v f) as [[e|f1]|]; [done|by apply Hrest|done].
    + destruct rest as [|v rest]; [done|]. cbn [app].
      destruct (set_flag name v f) as [[e|f1]|]; [done| |done].
      apply not_elem_of_cons in Hd as [_ Hd]. apply (IH (length rest)); simpl; [lia|done..].
Qed.

(** The child's own command line is never read as flags: after flags that parse on their
    own, two dashes hand everything that follows to the child, and so does the first
    argument that does not start with a dash. *)
Theorem child_args_untouched args f cmd child :
  "--" ∉ args → parse_flags args no_flags = Parsed f [] →
  parse_flags (args ++ "--" :: child) no_flags = Parsed f child ∧
  (HasPrefix cmd "-" = false → parse_flags (args ++ cmd :: child) no_flags = Parsed f (cmd :: child)).
Proof.
  intros Hd Hp. rewrite !(parse_flags_more args no_flags f) by done. split; [done|].
  intros Hc. cbn [parse_flags]. rewrite Hc. by rewrite orb_true_r.
Qed.
End properties.

(** ** At concrete values *)

Section witnesses.
#[local] Existing Instance ascii_only.
#[local] Existing Instance ReferenceYaml.lib.
#[local] Existing Instance no_faults.
#[local] Existing Instance integral_floats.
#[local] Existing Instance shim_platform.
#[local] Existing Instance shim_responses.
#[local] Existing Instance demo_lib.
#[local] Existing Instance demo_calls.

#[local] Instance run_texts : DurationText := λ d, itoa d +:+ "ns".
#[local] Instance run_env : RunEnv :=
  {| os_executable := inr "/opt/xrr"; temp_dir := inr "/tmp/xrr-run-1"; getwd := "/w"; flag_defaults := "";
     version_stamp := ""; build_version := None |}.

(** A test suite that calls its shim once and succeeds. *)
#[local] Instance run_child_demo : Child :=
  {| run_child i σ := ((appendCall "/tmp/xrr-run-1" (demo_call outReplayed "") σ).1, Ran 0 "ok" "" WOk);
     pipe_fault := None |}.

Definition run_opts : runOpts :=
  {| o_mode := "replay"; o_cassettes := "/cas"; o_reportFile := ""; o_shim := ["gh"]; o_deny := ["curl"];
     o_env := []; o_scrubDeny := []; o_scrubAllow := []; o_noDefaultDeny := true; o_strict := true; o_stdinWait := 0 |}.
Definition run_proc : proc := shim_proc ["PATH=/bin"] [].
Definition run_fs : fsys :=
  {[ "/opt/xrr" := FFile "ELF"; "/bin/make" := FFile "ELF"; "/cas" := FDir; "/tmp" := FDir ]}.
Definition run_cfg : runConfig :=
  match (resolve "/w" "linux" (getenv run_proc) run_opts ["make"; "test"] run_fs).2 with
  | inr (c, _) => c
  | inl _ => demo_config
  end.

Lemma execute_ok_witness :
  ∃ w', execute run_proc run_opts run_cfg ["make"; "test"] (shim_world run_fs) = (w', 0%Z) ∧
  ∃ runDir σ' calls, temp_dir = inr runDir ∧ (readCalls runDir σ').2 = inr calls ∧ anyFailing calls = false.
Proof.
  destruct (execute run_proc run_opts run_cfg ["make"; "test"] (shim_world run_fs)) as [w' code] eqn:He.
  assert (code = 0%Z) as Hc by (apply (f_equal snd) in He; vm_compute in He; symmetry; exact He).
  rewrite Hc in He. exists w'. split; [rewrite Hc; reflexivity|].
  destruct (execute_ok _ _ _ _ _ _ He) as (runDir & path & σ & σ' & teed & out & errs & wt & calls & Ht & _ & _ & _ & Hr & Hf).
  exists runDir, σ', calls. split; [exact Ht|]. split; [exact Hr|exact Hf].
Defined.

#[local] Instance run_configs : ConfigDecoder := λ b,
  if bool_decide (go_json true (runConfig_json run_cfg) = inr b) then inr run_cfg else inl (ENew "json: bad").

Definition run_fs_dir : fsys := <["/tmp/xrr-run-1/bin" := FDir]> (<["/tmp/xrr-run-1" := FDir]> run_fs).
Definition run_fs_shims : fsys := (installShims "/tmp/xrr-run-1/bin" "/opt/xrr" ["gh"; "curl"] "linux" run_fs_dir).1.
Definition run_fs_ready : fsys := (writeConfig "/tmp/xrr-run-1" run_cfg run_fs_shims).1.

Lemma denied_in_run_witness :
  (runAsShim rep_proc "/tmp/xrr-run-1/bin/curl" ["-X"; "POST"] (shim_world run_fs_ready)).2 = Some 126%Z.
Proof.
  pose proof (denied_in_run run_proc "/w" run_opts ["make"; "test"] run_cfg ["make"; "test"] run_fs run_fs run_fs_dir
    run_fs_shims run_fs_ready "/opt/xrr" "ELF" "/tmp/xrr-run-1" "curl" rep_proc ["-X"; "POST"] (shim_world run_fs_ready)) as H.
  cbv zeta in H.
  change (filepath_Join [filepath_Join ["/tmp/xrr-run-1"; binSubdir]; shimFileName "curl" (p_goos run_proc)])
    with "/tmp/xrr-run-1/bin/curl" in H.
  destruct (runAsShim rep_proc "/tmp/xrr-run-1/bin/curl" ["-X"; "POST"] (shim_world run_fs_ready)) as [w' code].
  apply H.
  - reflexivity.
  - reflexivity.
  - intros E. discriminate E.
  - vm_compute. reflexivity.
  - vm_compute. exact I.
  - intros q. reflexivity.
  - vm_compute. reflexivity.
  - apply (bool_decide_unpack _). vm_compute. exact I.
  - vm_compute. reflexivity.
  - vm_compute. reflexivity.
  - vm_compute. reflexivity.
  - intros b Hb. unfold unmarshalConfig, run_configs. rewrite bool_decide_eq_true_2; [reflexivity|exact Hb].
  - apply (bool_decide_unpack _). vm_compute. exact I.
  - vm_compute. reflexivity.
  - reflexivity.
Defined.

Lemma child_args_untouched_witness :
  ∃ f, parse_flags ["-mode"; "record"; "--shim=gh,az"; "--strict=false"; "--"; "make"; "--mode=x"] no_flags =
    Parsed f ["make"; "--mode=x"] ∧ s_Shim (fl_settings f) = ["gh"; "az"].
Proof.
  destruct (parse_flags ["-mode"; "record"; "--shim=gh,az"; "--strict=false"] no_flags) as [f rest| |t] eqn:Hp;
    [|vm_compute in Hp; discriminate Hp..].
  assert (rest = [] ∧ s_Shim (fl_settings f) = ["gh"; "az"]) as [Hr Hs].
  { vm_compute in Hp. injection Hp as <- <-. split; reflexivity. }
  rewrite Hr in Hp. exists f. split; [|exact Hs].
  apply (child_args_untouched ["-mode"; "record"; "--shim=gh,az"; "--strict=false"] f "make" ["make"; "--mode=x"]).
  - apply (bool_decide_unpack _). vm_compute. exact I.
  - exact Hp.
Defined.
End witnesses.
