(* ===== verification/Directory.v ===== *)
(** A cassette directory as a table of answers.

    A program reads a directory of unary cassettes through one decoder, by fingerprint:
    [holds] says that every entry of a finite map is what a load finds, whatever the
    decoder ([yDecodeMap] for a session, a struct for the command line's shims).  A save
    updates the table, and what leaves the pairs alone leaves the table alone. *)

From S2P Require Import Prelude GoStrings Values Sha256 Yaml Redact Os Paths Cassette Session.

(** ** The directory *)

Section directory.
Context {U : Unicode} {Y : YamlLib} {O : Faults} {L : YamlLaws} (env : string → string).
(** How a response payload is decoded, and the answer that the recorded error's text and
    the payload make. *)
Context {TP X : Type} (decode : ynode → result TP) (answer : string → TP → X).
Variables (aid : string) (c : FileCassette).
Hypothesis aid_plain : contains_char aid slash = false.

Definition pair_path (fp kind : string) : string := file_path c aid fp kind.

Definition pair_kind (kind : string) : Prop := kind = "req" ∨ kind = "resp".

(** Two file systems with the same pairs. *)
Definition same_pairs (σ σ' : fsys) : Prop :=
  ∀ fp kind, fingerprint_shape fp → pair_kind kind → σ' !! pair_path fp kind = σ !! pair_path fp kind.

Definition answers (σ : fsys) (fp : string) (x : X) : Prop :=
  fingerprint_shape fp ∧
  ∃ text q p, Load_into yDecodeMap decode c aid fp σ = (σ, inr (text, q, p)) ∧ x = answer text p.

Definition directory_holds (σ : fsys) (t : gmap string X) : Prop := map_Forall (answers σ) t.

(** What a payload that is saved decodes to. *)
Definition decoded {T} (d : ynode → result T) (v : any) : option T :=
  match yEncode (normalizePayload v) with
  | inr n =>
    match d (redactNode n (activeRedactor env c) "payload") with
    | inr m => Some m
    | inl _ => None
    end
  | inl _ => None
  end.

Lemma decoded_inr {T} (d : ynode → result T) v n m :
  yEncode (normalizePayload v) = inr n → decoded d v = Some m →
  d (redactNode n (activeRedactor env c) "payload") = inr m.
Proof. unfold decoded. intros ->. by destruct (d _); intros [= ->]. Qed.

Lemma pair_name_plain fp kind : fingerprint_shape fp → pair_kind kind → plain_name (file_name aid fp kind).
Proof. intros Hf Hk. apply file_name_plain; auto using hex_no_slash. Qed.

Lemma fingerprint_paths fp fp' kind kind' :
  fingerprint_shape fp → fingerprint_shape fp' → fp ≠ fp' →
  pair_kind kind → pair_kind kind' → pair_path fp kind ≠ pair_path fp' kind'.
Proof.
  intros Hf Hf' Hne Hk Hk' H. apply Hne.
  apply filepath_Join_inj in H; [|by apply pair_name_plain..].
  unfold file_name in H. apply sapp_inv_head, sapp_inv_head in H.
  destruct Hf as [Hl _], Hf' as [Hl' _]. apply (f_equal (stake 8)) in H.
  by rewrite <-Hl in H at 1; rewrite <-Hl', !stake_app_exact in H.
Qed.

(** A load reads the two files of a pair. *)
Lemma Load_into_same {TQ} (dq : ynode → result TQ) fp σ σ' r :
  (∀ kind, pair_kind kind → σ' !! pair_path fp kind = σ !! pair_path fp kind) →
  Load_into dq decode c aid fp σ = (σ, r) → Load_into dq decode c aid fp σ' = (σ', r).
Proof.
  intros Hp Hl. pose proof (Load_into_frame dq decode c aid fp σ') as Hf.
  pose proof (Load_into_ext dq decode c aid fp σ' σ Hp) as He. rewrite Hl in He.
  destruct (Load_into _ _ _ _ _ σ'). simpl in *. by subst.
Qed.

Lemma directory_empty σ : directory_holds σ ∅.
Proof. apply map_Forall_empty. Qed.

Lemma answers_frame fp σ σ' x :
  (∀ kind, pair_kind kind → σ' !! pair_path fp kind = σ !! pair_path fp kind) →
  answers σ fp x → answers σ' fp x.
Proof.
  intros Hp (Hs & text & q & p & Hl & ->). split; [done|]. exists text, q, p. split; [|done].
  by apply (Load_into_same _ _ σ).
Qed.

Lemma directory_frame σ σ' t : same_pairs σ σ' → directory_holds σ t → directory_holds σ' t.
Proof.
  intros Hp Ht fp x Hx. pose proof (Ht fp x Hx) as Ha. apply (answers_frame fp σ); [|done].
  intros kind. apply Hp. apply Ha.
Qed.

(** A save writes one entry of the table. *)
Lemma directory_Save now fp req r e σ σ' t q m :
  (∀ p, read_fault p = None) → fingerprint_shape fp → utf8_valid (recorded_text e) →
  decoded yDecodeMap req = Some q → decoded decode r = Some m →
  Save env c now aid fp req r e σ = (σ', inr tt) → directory_holds σ t →
  directory_holds σ' (<[fp := answer (recorded_text e) m]> t).
Proof.
  intros Hrf Hfp He Hq Hm Hs Ht. intros fp' x. destruct (decide (fp = fp')) as [<-|Hne].
  - rewrite lookup_insert_eq. intros [= <-]. split; [done|].
    assert (fileable aid fp) as Hfl by (split; [done|by apply hex_no_slash]).
    destruct (Load_into_after_Save env yDecodeMap decode c now aid fp req r e σ σ' Hfl He (Hrf _) (Hrf _) Hs)
      as (nq & np & Hnq & Hnp & Hl).
    exists (recorded_text e), q, m. split; [|done].
    by rewrite Hl, (decoded_inr _ _ _ _ Hnq Hq), (decoded_inr _ _ _ _ Hnp Hm).
  - rewrite lookup_insert_ne by done. intros Hx. pose proof (Ht fp' x Hx) as Ha.
    apply (answers_frame fp' σ); [|done]. intros kind Hk.
    pose proof (Save_frame env c now aid fp req r e σ (pair_path fp' kind)) as Hf. rewrite Hs in Hf.
    destruct Ha as [Hfp' _].
    apply Hf; apply not_eq_sym; apply fingerprint_paths; unfold pair_kind; auto.
Qed.
End directory.

(** ** The log of a recording *)

Section log.
Context {Op X : Type} (key : Op → result string).

(** Recording writes the answer under the fingerprint; replaying looks it up. *)
Definition record_entry (t : gmap string X) (call : Op * X) : gmap string X :=
  match key call.1 with
  | inr fp => <[fp := call.2]> t
  | inl _ => t
  end.
Definition record_entries : gmap string X → list (Op * X) → gmap string X := foldl record_entry.

Definition look_up (t : gmap string X) (op : Op) : option X :=
  match key op with inr fp => t !! fp | inl _ => None end.

(** Calls that share a fingerprint had the same outcome. *)
Definition one_outcome (l : list (Op * X)) : Prop :=
  ∀ x y fp, x ∈ l → y ∈ l → key x.1 = inr fp → key y.1 = inr fp → x.2 = y.2.

Lemma one_outcome_cons x l : one_outcome (x :: l) → one_outcome l.
Proof. intros H y z fp Hy Hz. apply H; by right. Qed.

Lemma record_entries_keep (l : list (Op * X)) (t : gmap string X) fp v :
  t !! fp = Some v → (∀ y, y ∈ l → key y.1 = inr fp → y.2 = v) → record_entries t l !! fp = Some v.
Proof.
  revert t. induction l as [|y l IH]; intros t Ht Hl; [done|]. simpl. apply IH; [|set_solver].
  unfold record_entry. destruct (key y.1) as [|fp'] eqn:E; [done|].
  destruct (decide (fp' = fp)) as [->|]; [|by rewrite lookup_insert_ne].
  rewrite lookup_insert_eq. f_equal. apply Hl; [by left|done].
Qed.

Lemma record_entries_last (l : list (Op * X)) (t : gmap string X) x fp :
  one_outcome l → x ∈ l → key x.1 = inr fp → record_entries t l !! fp = Some x.2.
Proof.
  revert t. induction l as [|y l IH]; intros t Hc Hx Hfp; [by apply not_elem_of_nil in Hx|].
  apply elem_of_cons in Hx as [<-|Hx]; simpl; [|apply IH; eauto using one_outcome_cons].
  apply record_entries_keep.
  - unfold record_entry. rewrite Hfp. by rewrite lookup_insert_eq.
  - intros z Hz Hf. by apply (Hc z x fp); [right|left|..].
Qed.
End log.
