(* ===== verification/Programs.v ===== *)
(** Programs over a wrapped interface.

    What the adopters of the library build (go/examples) has one shape: an interface of
    the application, implemented once for real and once by a wrapper that sends every call
    through [FileSession.Record].  This file has the shape once, for any interface: a
    [program] is what a caller does with it, [holds] reads a session's directory as a table
    of answers (Directory.v), and a recording followed by a replay is a refinement of that
    table. *)

From S2P Require Import Prelude GoStrings Values Sha256 Yaml Redact Os Paths Cassette Session Directory.

(** ** Programs *)

Section programs.
(** The operations of the interface, and what a call returns besides its error. *)
Context {Op V : Type}.

(** What a caller can tell of the outcome of a call: the value and the error's text. *)
Definition shown : Type := (V * option string)%type.

Inductive program (B : Type) : Type :=
| Return (b : B)
| Invoke (op : Op) (k : shown → program B).
#[global] Arguments Return {_} _.
#[global] Arguments Invoke {_} _ _.

(** One call of the interface. *)
Definition provider : Type := Op → fsys → fsys * (V * option err).

Definition show (x : V * option err) : shown := (x.1, error_text <$> x.2).

(** [ask i] is the interface at the moment of the [i]-th call.  The result comes with the
    calls that were made. *)
Fixpoint run {B} (ask : nat → provider) (i : nat) (p : program B) (σ : fsys)
    : fsys * (B * list (Op * shown)) :=
  match p with
  | Return b => (σ, (b, []))
  | Invoke op k =>
    let '(σ1, x) := ask i op σ in
    let '(σ2, (b, l)) := run ask (S i) (k (show x)) σ1 in
    (σ2, (b, (op, show x) :: l))
  end.

Lemma run_Return {B} ask i (b : B) σ : run ask i (Return b) σ = (σ, (b, [])).
Proof. done. Qed.

Lemma run_Invoke {B} ask i op (k : shown → program B) σ σ1 x σ2 b l :
  ask i op σ = (σ1, x) → run ask (S i) (k (show x)) σ1 = (σ2, (b, l)) →
  run ask i (Invoke op k) σ = (σ2, (b, (op, show x) :: l)).
Proof. intros H1 H2. cbn [run]. by rewrite H1, H2. Qed.
End programs.
#[global] Arguments program Op V B : clear implicits.
#[global] Arguments provider Op V : clear implicits.
#[global] Arguments shown V : clear implicits.

(** ** A wrapper *)

Section wrapper.
Context {U : Unicode} {Y : YamlLib} {O : Faults} (env : string → string).
Context {Req Resp : Type} {A : Adapter Req Resp} {Op V : Type}.
(** The request of an operation, the real call at the [i]-th moment, and what the wrapper returns of a response. *)
Context (request_of : Op → Req) (real : nat → Op → call Resp) (view : option (response Resp) → V).

Definition wrapped (s : FileSession) (clock : nat → Z) (i : nat) : provider Op V := λ op σ,
  let '(σ', (r, e)) := Record_ env s (clock i) (request_of op) (real i op) σ in (σ', (view r, e)).
End wrapper.

(** ** The directory as a table *)

Section table.
Context {U : Unicode} {Y : YamlLib} {O : Faults} {L : YamlLaws} (env : string → string).
Context {Req Resp : Type} {A : Adapter Req Resp} {AL : AdapterLaws Req Resp} {Op V : Type}.
Context (request_of : Op → Req) (real : nat → Op → call Resp) (view : option (response Resp) → V).
Variable c : FileCassette.
Hypothesis readable : ∀ p, read_fault p = None.

#[local] Abbreviation table := (gmap string (shown V)).

(** What a caller of the wrapper sees of a recorded answer. *)
Definition answer_shown (text : string) (payload : option (gmap string any)) : shown V :=
  (view (Some (RRaw ID payload)), if bool_decide (text = "") then None else Some text).

Definition holds (σ : fsys) (t : table) : Prop := directory_holds yDecodeMap answer_shown ID c σ t.

Definition key (op : Op) : result string := Fingerprint (request_of op).
Definition record_one : table → Op * shown V → table := record_entry key.
Definition record_log : table → list (Op * shown V) → table := record_entries key.
Definition look : table → Op → option (shown V) := look_up key.

(** *** What a recorded payload decodes to *)
Definition stored (v : any) : option (option (gmap string any)) := decoded env c yDecodeMap v.

Definition kind_path (fp kind : string) : string := pair_path ID c fp kind.

(** A call that was recorded properly: the real call left the cassette's files alone and
    returned a response, the pair was saved and can be decoded, the caller is shown the
    same value whether the response is live or replayed, and an error has a text. *)
Inductive recorded_call (i : nat) (now : Z) (op : Op) (σ : fsys) : fsys → shown V → Prop :=
| RecordedCall r e σ1 σ2 fp q m :
    real i op σ = (σ1, (Some r, e)) →
    (∀ fp' kind, kind = "req" ∨ kind = "resp" → σ1 !! kind_path fp' kind = σ !! kind_path fp' kind) →
    Fingerprint (request_of op) = inr fp →
    Save env c now ID fp (req_any (request_of op)) (resp_any r) e σ1 = (σ2, inr tt) →
    stored (req_any (request_of op)) = Some q → stored (resp_any r) = Some m →
    view (Some (RLive r)) = view (Some (RRaw ID m)) →
    utf8_valid (recorded_text e) → (e ≠ None → recorded_text e ≠ "") →
    recorded_call i now op σ σ2 (view (Some (RLive r)), error_text <$> e).

Inductive recorded_run {B} (clock : nat → Z)
    : nat → program Op V B → fsys → fsys → B → list (Op * shown V) → Prop :=
| RecordedReturn i b σ : recorded_run clock i (Return b) σ σ b []
| RecordedInvoke i op k σ σ1 σ2 x b l :
    recorded_call i (clock i) op σ σ1 x →
    recorded_run clock (S i) (k x) σ1 σ2 b l →
    recorded_run clock i (Invoke op k) σ σ2 b ((op, x) :: l).

(** *** Lemmas *)

Lemma holds_empty σ : holds σ ∅.
Proof. apply directory_empty. Qed.

Lemma holds_frame σ σ' t :
  (∀ fp kind, kind = "req" ∨ kind = "resp" → σ' !! kind_path fp kind = σ !! kind_path fp kind) →
  holds σ t → holds σ' t.
Proof. intros Hp. apply directory_frame. intros fp kind _. apply Hp. Qed.

(** One call of a recording session: the caller sees the real call, the table gains it. *)
Lemma recorded_call_runs s clock i op σ σ' x t :
  mode s = ModeRecord → cassette s = Some c → recorded_call i (clock i) op σ σ' x →
  (∃ y, wrapped env request_of real view s clock i op σ = (σ', y) ∧ show y = x) ∧
  (holds σ t → holds σ' (record_one t (op, x))).
Proof.
  intros Hm Hc [r e σ1 σ2 fp q m Hreal Hp Hfp Hs Hq Hr Hv He Het]. split.
  - unfold wrapped, Record_. rewrite Hm, bool_decide_eq_true_2 by done.
    unfold record. rewrite Hreal, Hfp, Hc. simpl from_option. rewrite Hs. eauto.
  - intros Ht. unfold record_one, record_entry, key. simpl. rewrite Hfp. rewrite Hv.
    assert (error_text <$> e = if bool_decide (recorded_text e = "") then None else Some (recorded_text e)) as ->.
    { destruct e as [e|]; [|done]. by rewrite bool_decide_eq_false_2 by auto. }
    apply (directory_Save env yDecodeMap answer_shown ID c ID_plain (clock i) fp (req_any (request_of op))
      (resp_any r) e σ1 σ2 t q m); eauto using Fingerprint_hex.
    by apply (holds_frame σ).
Qed.

(** The calls of a recording session, one by one. *)
Lemma recorded_run_runs {B} s clock i (p : program Op V B) σ σ' b l t :
  mode s = ModeRecord → cassette s = Some c → recorded_run clock i p σ σ' b l →
  run (wrapped env request_of real view s clock) i p σ = (σ', (b, l)) ∧
  (holds σ t → holds σ' (record_log t l)).
Proof.
  intros Hm Hc H. revert t. induction H as [|i op k σ σ1 σ2 x b l Hcall _ IH]; intros t; [done|].
  destruct (recorded_call_runs s clock i op σ σ1 x t Hm Hc Hcall) as [(y & Hy & <-) Ht].
  destruct (IH (record_one t (op, show y))) as [Hrun Hl]. split; [by apply (run_Invoke _ _ _ _ _ σ1)|].
  intros H. by apply Hl, Ht.
Qed.
End table.

(** ** Replaying *)

Section replay.
Context {U : Unicode} {Y : YamlLib} {O : Faults} {L : YamlLaws} (env env' : string → string).
Context {Req Resp : Type} {A : Adapter Req Resp} {AL : AdapterLaws Req Resp} {Op V : Type}.
Context (request_of : Op → Req) (real : nat → Op → call Resp) (view : option (response Resp) → V).
(** The wrapper that replays may have another adapter of the same id, build other requests
    and have another interface inside. *)
Context (A' : Adapter Req Resp) (request_of' : Op → Req) (real' : nat → Op → call Resp).
Variable c : FileCassette.
Hypothesis same_id : @ID _ _ A' = @ID _ _ A.

(** The table machine: what a replay answers, if it has all the answers. *)
Fixpoint table_run {B} (t : gmap string (shown V)) (p : program Op V B) : option (B * list (Op * shown V)) :=
  match p with
  | Return b => Some (b, [])
  | Invoke op k =>
    x ← look (A := A') request_of' t op;
    r ← table_run t (k x);
    Some (r.1, (op, x) :: r.2)
  end.

Lemma replayed_call s clock i op σ t x :
  mode s = ModeReplay → cassette s = Some c → holds (A := A) view c σ t →
  look (A := A') request_of' t op = Some x →
  ∃ y, wrapped (A := A') env' request_of' real' view s clock i op σ = (σ, y) ∧ show y = x.
Proof.
  intros Hm Hc Ht Hx. unfold look, look_up, key in Hx.
  destruct (@Fingerprint _ _ A' (request_of' op)) as [|fp] eqn:Hfp; [done|].
  destruct (Ht fp x Hx) as (_ & text & q & p & Hl & ->).
  unfold wrapped, Record_. rewrite Hm, bool_decide_eq_false_2, bool_decide_eq_true_2 by done.
  unfold replay. rewrite Hfp, Hc, same_id. unfold Load. rewrite Hl. eexists. split; [done|].
  unfold show, answer_shown. simpl. by case_bool_decide.
Qed.

(** A replaying session refines the table: it answers every call of a program as
    the table does, makes no real call and changes no file. *)
Theorem replay_refines_table {B} s clock i (p : program Op V B) σ t b l :
  mode s = ModeReplay → cassette s = Some c → holds (A := A) view c σ t →
  table_run t p = Some (b, l) →
  run (wrapped (A := A') env' request_of' real' view s clock) i p σ = (σ, (b, l)).
Proof.
  intros Hm Hc Ht. revert i b l. induction p as [b0|op k IH]; intros i b l; cbn [table_run].
  - by intros [= -> <-].
  - intros (x & Hx & ([b1 l1] & Hr & [= -> <-])%bind_Some)%bind_Some.
    destruct (replayed_call s clock i op σ t x Hm Hc Ht Hx) as (y & Hy & <-).
    apply (run_Invoke _ _ _ _ _ σ); [done|]. by apply IH.
Qed.

(** *** What was recorded is answered *)

(** Calls that share a fingerprint had the same outcome. *)
Definition consistent : list (Op * shown V) → Prop := one_outcome (key (A := A) request_of).

Lemma recorded_run_table {B} clock i (p : program Op V B) σ σ' b l t :
  recorded_run (A := A) env request_of real view c clock i p σ σ' b l →
  (∀ x, x ∈ l → look (A := A') request_of' t x.1 = Some x.2) →
  table_run t p = Some (b, l).
Proof.
  induction 1 as [|i op k σ σ1 σ2 x b l _ _ IH]; intros Hl; [done|]. cbn [table_run].
  assert (look (A := A') request_of' t op = Some x) as -> by (apply (Hl (op, x)); by left).
  simpl. rewrite IH; [done|]. intros y Hy. apply Hl. by right.
Qed.

Lemma recorded_run_fingerprints {B} clock i (p : program Op V B) σ σ' b l :
  recorded_run (A := A) env request_of real view c clock i p σ σ' b l →
  Forall (λ x, ∃ fp, @Fingerprint _ _ A (request_of x.1) = inr fp) l.
Proof. induction 1 as [|i op k σ σ1 σ2 x b l Hcall _ IH]; constructor; [|done]. destruct Hcall; eauto. Qed.

(** C6. A session is a table of answers, keyed by fingerprint.  A recording leaves in the
    directory the table it started with, each call's answer written over the last one of its
    fingerprint; and any program - not only the one recorded - that asks what is in that
    table is answered from it in replay, in any order and any number of times, with no real
    call and no change of a file. *)
Theorem session_refines_table {B B'} s s' clock clock' i j (p : program Op V B) (p' : program Op V B')
    σ σ' b l b' l' t :
  (∀ f, read_fault f = None) →
  mode s = ModeRecord → cassette s = Some c → mode s' = ModeReplay → cassette s' = Some c →
  holds (A := A) view c σ t →
  recorded_run (A := A) env request_of real view c clock i p σ σ' b l →
  table_run (record_log (A := A) request_of t l) p' = Some (b', l') →
  run (wrapped (A := A) env request_of real view s clock) i p σ = (σ', (b, l)) ∧
  run (wrapped (A := A') env' request_of' real' view s' clock') j p' σ' = (σ', (b', l')).
Proof.
  intros Hrf Hm Hc Hm' Hc' Ht Hrun Htab.
  destruct (recorded_run_runs env request_of real view c Hrf s clock i p σ σ' b l t Hm Hc Hrun) as [H1 H2].
  split; [done|]. eapply replay_refines_table; [done..|by apply H2|done].
Qed.

(** Any program over a wrapped interface that records its calls is replayed: the
    replaying wrapper gives the program the same answers in the same order, so it returns the
    same result - whatever interface is inside, without a call of it and without a change of
    a file - provided calls with one fingerprint had one outcome and the replaying wrapper
    fingerprints the calls alike. *)
Theorem recorded_program_replays {B} s s' clock clock' i j (p : program Op V B) σ σ' σr b l :
  (∀ f, read_fault f = None) →
  mode s = ModeRecord → cassette s = Some c → mode s' = ModeReplay → cassette s' = Some c →
  recorded_run (A := A) env request_of real view c clock i p σ σ' b l → consistent l →
  Forall (λ x, @Fingerprint _ _ A' (request_of' x.1) = @Fingerprint _ _ A (request_of x.1)) l →
  (∀ fp kind, kind = "req" ∨ kind = "resp" →
    σr !! kind_path (A := A) c fp kind = σ' !! kind_path (A := A) c fp kind) →
  run (wrapped (A := A) env request_of real view s clock) i p σ = (σ', (b, l)) ∧
  run (wrapped (A := A') env' request_of' real' view s' clock') j p σr = (σr, (b, l)).
Proof.
  intros Hrf Hm Hc Hm' Hc' Hrun Hcons Hsame Hσ.
  destruct (recorded_run_runs env request_of real view c Hrf s clock i p σ σ' b l ∅ Hm Hc Hrun) as [H1 H2].
  split; [done|]. apply (replay_refines_table s' clock' j p σr (record_log (A := A) (V := V) request_of ∅ l)); [done..| |].
  - eapply holds_frame; [exact Hσ|]. apply H2, holds_empty.
  - apply (recorded_run_table _ _ _ _ _ _ _ _ Hrun). intros x Hx. unfold look, look_up, key.
    rewrite Forall_forall in Hsame. rewrite (Hsame x Hx).
    pose proof (recorded_run_fingerprints _ _ _ _ _ _ _ Hrun) as Hfp. rewrite Forall_forall in Hfp.
    destruct (Hfp x Hx) as [fp E]. rewrite E. by apply record_entries_last.
Qed.
End replay.

(** Providers that answer alike run a program alike. *)
Lemma run_ext {Op V B} (ask ask' : nat → provider Op V) i (p : program Op V B) σ :
  (∀ i op σ, ask i op σ = ask' i op σ) → run ask i p σ = run ask' i p σ.
Proof.
  intros H. revert i σ. induction p as [b|op k IH]; intros i σ; [done|]. cbn [run]. rewrite H.
  destruct (ask' i op σ) as [σ1 x]. by rewrite IH.
Qed.

(** The same program over renamed operations. *)
Fixpoint map_ops {Op Op' V B} (f : Op → Op') (p : program Op V B) : program Op' V B :=
  match p with
  | Return b => Return b
  | Invoke op k => Invoke (f op) (λ x, map_ops f (k x))
  end.

Lemma run_map_ops {Op Op' V B} (f : Op → Op') ask i (p : program Op V B) σ σ' b l :
  run (λ i op, ask i (f op)) i p σ = (σ', (b, l)) →
  run ask i (map_ops f p) σ = (σ', (b, prod_map f id <$> l)).
Proof.
  revert i σ b l. induction p as [b0|op k IH]; intros i σ b l; cbn [run map_ops].
  - by intros [= <- <- <-].
  - destruct (ask i (f op) σ) as [σ1 x]. destruct (run _ _ (k _) σ1) as [σ2 [b1 l1]] eqn:E.
    intros [= <- <- <-]. by rewrite (IH _ _ _ _ _ E).
Qed.

(** ** Directories that take recordings *)

Section writable.
#[local] Existing Instance ascii_only.
#[local] Existing Instance ReferenceYaml.lib.
#[local] Existing Instance no_faults.
Variable c : FileCassette.
Hypothesis cdir_nonempty : cdir c ≠ "".

Definition writable (aid : string) (σ : fsys) : Prop :=
  σ !! Clean (cdir c) = Some FDir ∧
  ∀ fp kind, kind = "req" ∨ kind = "resp" → fileable aid fp → σ !! file_path c aid fp kind ≠ Some FDir.

(** No directory has a name as long as a file of the cassette. *)
Lemma writable_short aid σ :
  σ !! Clean (cdir c) = Some FDir →
  map_Forall (λ q x, x = FDir → slen q < slen (dir_prefix (cdir c)) + 6) σ → writable aid σ.
Proof.
  intros Hd Hs. split; [done|]. intros fp kind Hk [Ha Hf] E.
  pose proof (Hs _ _ E eq_refl) as Hl. simpl in Hl. clear E. rename Hl into E.
  unfold file_path in E. rewrite filepath_Join_name in E by (by apply file_name_plain).
  unfold file_name in E. rewrite !slen_app in E. simpl in E. lia.
Qed.

Lemma write_writable env aid fp kind at_ e v σ :
  kind = "req" ∨ kind = "resp" → fileable aid fp → writable aid σ →
  ∃ σ', write env c aid fp kind at_ e v σ = (σ', inr tt) ∧ writable aid σ'.
Proof.
  intros Hk Hfl [Hd Hp].
  destruct (demo_write_ok env c aid fp kind at_ e v σ) as [data Hw]; [|by auto|].
  { unfold file_path. rewrite filepath_Dir_Join; [done..|]. destruct Hfl. by apply file_name_plain. }
  eexists. split; [exact Hw|]. split.
  - rewrite lookup_insert_ne; [done|]. intros E. apply (Hp fp kind Hk Hfl). by rewrite E.
  - intros fp' kind' Hk' Hfl'. destruct (decide (file_path c aid fp kind = file_path c aid fp' kind')) as [->|].
    + by rewrite lookup_insert_eq.
    + rewrite lookup_insert_ne by done. by apply Hp.
Qed.

(** With the reference YAML and no faults, every pair can be saved. *)
Lemma Save_writable env now aid fp q r e σ :
  fileable aid fp → writable aid σ → ∃ σ', Save env c now aid fp q r e σ = (σ', inr tt) ∧ writable aid σ'.
Proof.
  intros Hfl Hw. unfold Save, mbind, io_bind.
  destruct (write_writable env aid fp "req" (RFC3339 now) "" (normalizePayload q) σ) as (σ1 & -> & H1); [auto..|].
  cbv beta iota.
  destruct (write_writable env aid fp "resp" (RFC3339 now)
    match e with Some e => error_text e | None => "" end (normalizePayload r) σ1) as (σ2 & -> & H2); eauto.
Qed.
End writable.

(** ** At concrete values *)

Section witnesses.
#[local] Existing Instance ascii_only.
#[local] Existing Instance ReferenceYaml.lib.
#[local] Existing Instance ReferenceYaml.laws.
#[local] Existing Instance no_faults.
#[local] Existing Instance demo_adapter.
#[local] Existing Instance demo_adapter_laws.

(** An interface of one operation whose answers change; all calls have one fingerprint. *)
Definition demo_answer (i : nat) : gmap string any :=
  {[ "stdout" := VString (if bool_decide (i = 0) then "first" else "second") ]}.
Definition demo_real (i : nat) (_ : unit) : call (gmap string any) := λ σ, (σ, (Some (demo_answer i), None)).
Definition demo_unreal (_ : nat) (_ : unit) : call (gmap string any) := never.
Definition demo_view (r : option (response (gmap string any))) : option any :=
  match r with
  | Some (RLive m) | Some (RRaw _ (Some m)) => m !! "stdout"
  | _ => None
  end.
Definition demo_request (_ : unit) : gmap string any := demo_req "".
Definition demo_program : program unit (option any) (option any * option any) :=
  Invoke tt (λ x, Invoke tt (λ y, Return (x.1, y.1))).

Lemma demo_recorded i σ :
  writable demo_cassette "exec" σ →
  ∃ σ', recorded_call no_env demo_request demo_real demo_view demo_cassette i 0 tt σ σ'
    (demo_answer i !! "stdout", None) ∧ writable demo_cassette "exec" σ'.
Proof.
  intros Hw. assert (cdir demo_cassette ≠ "") as Hc by done.
  destruct (Save_writable demo_cassette Hc no_env 0 "exec" "0011aabb" (of_gomap (demo_req ""))
    (of_gomap (demo_answer i)) None σ) as (σ' & Hs & Hw'); [done|done|].
  exists σ'. split; [|done].
  refine (RecordedCall no_env demo_request demo_real demo_view demo_cassette i 0 tt σ (demo_answer i) None σ σ'
    "0011aabb" (Some (demo_req "")) (Some (demo_answer i)) eq_refl _ eq_refl Hs _ _ eq_refl I _); [done|..|done].
  - vm_compute. reflexivity.
  - unfold demo_answer. case_bool_decide; vm_compute; reflexivity.
Qed.

(** Two calls are recorded, and the later answer is the one that replays. *)
Lemma session_refines_table_witness :
  ∃ σ', (run (wrapped no_env demo_request demo_unreal demo_view (demo_session ModeReplay) (λ _, 7%Z)) 0
    (Invoke tt (λ x, Return x.1)) σ').2.1 = Some (VString "second").
Proof.
  assert (writable demo_cassette "exec" demo_fs) as Hw.
  { apply writable_short; [reflexivity|]. apply map_Forall_singleton. intros _. vm_compute. lia. }
  destruct (demo_recorded 0 demo_fs Hw) as (σ1 & H1 & W1).
  destruct (demo_recorded 1 σ1 W1) as (σ2 & H2 & W2). exists σ2.
  assert (recorded_run no_env demo_request demo_real demo_view demo_cassette (λ _, 0%Z) 0 demo_program demo_fs σ2
    (Some (VString "first"), Some (VString "second"))
    [(tt, (Some (VString "first"), None)); (tt, (Some (VString "second"), None))]) as Hrun.
  { eapply (RecordedInvoke no_env demo_request demo_real demo_view demo_cassette (λ _, 0%Z) 0 tt); [exact H1|].
    eapply (RecordedInvoke no_env demo_request demo_real demo_view demo_cassette (λ _, 0%Z) 1 tt); [exact H2|].
    apply RecordedReturn. }
  destruct (session_refines_table (O := no_faults) (A := demo_adapter) no_env no_env demo_request demo_real demo_view
    demo_adapter demo_request demo_unreal demo_cassette eq_refl (demo_session ModeRecord) (demo_session ModeReplay)
    (λ _, 0%Z) (λ _, 7%Z) 0 0 demo_program (Invoke tt (λ x, Return x.1)) demo_fs σ2 _ _
    (Some (VString "second")) [(tt, (Some (VString "second"), None))] ∅ (λ _, eq_refl) eq_refl eq_refl eq_refl eq_refl
    (holds_empty _ _ _) Hrun eq_refl) as [_ H].
  rewrite H. exact eq_refl.
Defined.
End witnesses.
