(* ===== verification/WrapCommand.v ===== *)
(** go/examples/wrap_command_runner and go/examples/env_session: a command-running
    interface of an application, its wrapper over a session, and what sits on top. *)

From S2P Require Import Prelude GoStrings Values Yaml Redact Os Paths CanonicalJson Cassette Session Directory Adapters Programs.

(** ** The interface *)

(** What a command run gives: its standard output and an error. *)
Definition runner_call : Type := fsys → fsys * (string * option err).

Class Real := {
  Run : string → list string → runner_call;
  RunInDir : string → string → list string → runner_call;
}.

(** Package os/exec: [exec.CommandContext(ctx, name, args...).Output()] with [cmd.Dir]. *)
Class Commands := Output : string → string → list string → runner_call.

Definition RealRunner {X : Commands} : Real :=
  {| Run name args := Output "" name args; RunInDir dir name args := Output dir name args |}.

(** ** The wrapper *)

(** Live responses and replayed payloads look the same. *)
Definition stdoutOf (r : option (response resp)) : string :=
  match r with
  | Some (RLive (RsExec r)) => Exec.Stdout r
  | Some (RRaw _ payload) =>
    match default ∅ payload !! "stdout" with Some (VString s) => s | _ => "" end
  | _ => ""
  end.

Definition run_request (dir name : string) (args : list string) : request :=
  RqExec {| Exec.Argv := Some (name :: args); Exec.Stdin := ""; Exec.Cwd := dir; Exec.Env := ∅ |}.

(** The response that the closure handed to [Record] builds. *)
Definition run_response (out : string) (e : option err) : Exec.Response :=
  {| Exec.Stdout := out; Exec.Stderr := ""; Exec.ExitCode := Exec.ExitCodeFromError e;
     Exec.DurationMs := 0 |}.

Definition run_live (inner : runner_call) : call resp := λ σ,
  let '(σ1, (out, e)) := inner σ in (σ1, (Some (RsExec (run_response out e)), e)).

Section wrapper.
Context {U : Unicode} {Y : YamlLib} {O : Faults} {F : FloatFormat} (env : string → string).

(** [now] is the reading of the clock in the call. *)
Definition Wrapper_Run (inner : Real) (s : FileSession) (now : Z) (name : string)
    (args : list string) : runner_call := λ σ,
  let '(σ', (r, e)) := Record_ (A := exec_adapter) env s now (run_request "" name args)
    (run_live (@Run inner name args)) σ in
  (σ', (stdoutOf r, e)).

Definition Wrapper_RunInDir (inner : Real) (s : FileSession) (now : Z) (dir name : string)
    (args : list string) : runner_call := λ σ,
  let '(σ', (r, e)) := Record_ (A := exec_adapter) env s now (run_request dir name args)
    (run_live (@RunInDir inner dir name args)) σ in
  (σ', (stdoutOf r, e)).

Definition Wrapper (inner : Real) (s : FileSession) (now : Z) : Real :=
  {| Run := Wrapper_Run inner s now; RunInDir := Wrapper_RunInDir inner s now |}.
End wrapper.

(** ** What sits on top *)

Definition is_newline (c : ascii) : bool := bool_decide (c ∈ ["010"; "013"]%char).

Definition last_byte (s : string) : option ascii := String.get (slen s - 1) s.

(** The loop of [trimNewline]; [fuel] bounds its turns. *)
Fixpoint trim_loop (fuel : nat) (s : string) : string :=
  match fuel with
  | O => s
  | S fuel' =>
    match last_byte s with
    | Some c => if is_newline c then trim_loop fuel' (stake (slen s - 1) s) else s
    | None => s
    end
  end.
Definition trimNewline (s : string) : string := trim_loop (slen s) s.

Section runners.
Context {R : Real}.

Definition trimmed (m : runner_call) : runner_call := λ σ,
  let '(σ', (out, e)) := m σ in (σ', (trimNewline out, e)).

Definition CurrentBranch (repoDir : string) : runner_call :=
  trimmed (RunInDir repoDir "git" ["rev-parse"; "--abbrev-ref"; "HEAD"]).
Definition Status (repoDir : string) : runner_call := RunInDir repoDir "git" ["status"; "--porcelain"].
Definition Version : runner_call := trimmed (Run "docker" ["version"; "--format"; "{{.Server.Version}}"]).
Definition Inspect (ref : string) : runner_call := Run "docker" ["inspect"; ref].

End runners.

(** One pass of [main]: echo, git, docker, each with the interface of its moment.  [None]
    when the echo fails, which is fatal; an error of the others only skips their line. *)
Definition succeeded (x : string * option err) : option string :=
  match x.2 with None => Some x.1 | Some _ => None end.

Definition pass (R : nat → Real) (σ : fsys)
    : fsys * option (string * option string * option string) :=
  let '(σ1, (out, e)) := @Run (R 0) "echo" ["hello from xrr"] σ in
  match e with
  | Some _ => (σ1, None)
  | None =>
    let '(σ2, branch) := @CurrentBranch (R 1) "." σ1 in
    let '(σ3, ver) := @Version (R 2) σ2 in
    (σ3, Some (out, succeeded branch, succeeded ver))
  end.

(** What a pass prints on standard output. *)
Definition pass_text (tag : string) (r : string * option string * option string) : string :=
  let '(out, branch, ver) := r in
  tag +:+ " echo: " +:+ out +:+
  from_option (λ b, tag +:+ " git branch: " +:+ b +:+ newline) "" branch +:+
  from_option (λ v, tag +:+ " docker version: " +:+ v +:+ newline) "" ver.

Section main.
Context {U : Unicode} {Y : YamlLib} {O : Faults} {F : FloatFormat} (env : string → string).

Definition main_session (mode : string) : FileSession :=
  NewSession mode (Some (NewFileCassette "./_cassettes")).

(** Standard output and exit status; [log.Fatalf] exits with 1. *)
Definition main_ (inner : Real) (clock : nat → Z) (σ : fsys) : fsys * (string * Z) :=
  match pass (λ i, Wrapper env inner (main_session ModeRecord) (clock i)) σ with
  | (σ1, None) => (σ1, ("", 1%Z))
  | (σ1, Some r) =>
    match pass (λ i, Wrapper env inner (main_session ModeReplay) (clock (3 + i))) σ1 with
    | (σ2, None) => (σ2, (pass_text "record" r, 1%Z))
    | (σ2, Some r') => (σ2, (pass_text "record" r +:+ pass_text "replay" r', 0%Z))
    end
  end.
End main.

(** ** Wrappers as providers of a program *)

Inductive invocation : Type :=
| IRun (name : string) (args : list string)
| IRunInDir (dir name : string) (args : list string).

Definition provide (R : Real) : provider invocation string := λ op,
  match op with IRun name args => @Run R name args | IRunInDir dir name args => @RunInDir R dir name args end.

Definition invocation_request (op : invocation) : request :=
  match op with
  | IRun name args => run_request "" name args
  | IRunInDir dir name args => run_request dir name args
  end.

(** The methods of the runners and a pass, as programs. *)
Definition currentBranch_program (repoDir : string) : program invocation string (string * option string) :=
  Invoke (IRunInDir repoDir "git" ["rev-parse"; "--abbrev-ref"; "HEAD"])
    (λ x, Return (trimNewline x.1, x.2)).

Definition trimmed_answer (x : shown string) : option string :=
  match x.2 with None => Some (trimNewline x.1) | Some _ => None end.

Definition pass_program : program invocation string (option (string * option string * option string)) :=
  Invoke (IRun "echo" ["hello from xrr"]) (λ x,
    match x.2 with
    | Some _ => Return None
    | None =>
      Invoke (IRunInDir "." "git" ["rev-parse"; "--abbrev-ref"; "HEAD"]) (λ y,
        Invoke (IRun "docker" ["version"; "--format"; "{{.Server.Version}}"]) (λ z,
          Return (Some (x.1, trimmed_answer y, trimmed_answer z))))
    end).

Lemma CurrentBranch_program R i repoDir σ :
  let '(σ', (out, e)) := @CurrentBranch (R i) repoDir σ in
  ∃ l, run (λ i, provide (R i)) i (currentBranch_program repoDir) σ = (σ', ((out, error_text <$> e), l)).
Proof.
  unfold CurrentBranch, trimmed. cbn [run currentBranch_program provide].
  destruct (RunInDir _ _ _ σ) as [σ1 [out e]]. eauto.
Qed.

Lemma pass_is_program R σ :
  let '(σ', r) := pass R σ in ∃ l, run (λ i, provide (R i)) 0 pass_program σ = (σ', (r, l)).
Proof.
  unfold pass, CurrentBranch, Version, trimmed. cbn [run pass_program provide].
  destruct (Run _ _ σ) as [σ1 [out [e|]]]; cbn; [eauto|].
  destruct (RunInDir _ _ _ σ1) as [σ2 [b [e2|]]]; cbn; destruct (Run _ _ σ2) as [σ3 [v [e3|]]]; cbn; eauto.
Qed.

(** ** Trimming *)

Lemma last_byte_split s c : last_byte s = Some c → s = stake (slen s - 1) s +:+ str1 c.
Proof.
  induction s as [|d s IH]; [done|]. unfold last_byte in *. cbn [slen]. rewrite Nat.sub_1_r. cbn [Nat.pred].
  destruct s as [|e s]; [by intros [= ->]|]. intros H.
  assert (String.get (slen (String e s) - 1) (String e s) = Some c) as Hc.
  { cbn [slen] in *. by rewrite Nat.sub_1_r in *. }
  specialize (IH Hc). cbn [slen] in *. rewrite Nat.sub_1_r in IH. cbn [Nat.pred stake] in *.
  rewrite sapp_cons. by f_equal.
Qed.

Lemma trim_loop_spec fuel s :
  slen s ≤ fuel →
  ∃ w, s = trim_loop fuel s +:+ w ∧ sall is_newline w ∧
    from_option is_newline false (last_byte (trim_loop fuel s)) = false.
Proof.
  revert s. induction fuel as [|fuel IH]; intros s Hs; simpl.
  - exists "". rewrite sapp_nil_r. rewrite (slen_zero s) by lia. done.
  - destruct (last_byte s) as [c|] eqn:E; [|exists ""; by rewrite sapp_nil_r, E].
    destruct (is_newline c) eqn:Hc; [|exists ""; by rewrite sapp_nil_r, E].
    pose proof (last_byte_split s c E) as Hsplit.
    assert (slen s ≠ 0) as Hne by (rewrite Hsplit, slen_app; simpl; lia).
    destruct (IH (stake (slen s - 1) s)) as (w & Hw & Hall & Hlast); [rewrite slen_stake; lia|].
    exists (w +:+ str1 c). split_and!; [by rewrite <-sapp_assoc, <-Hw| |done].
    rewrite sall_app. apply andb_True. split; [done|]. simpl. by rewrite Hc.
Qed.

(** [trimNewline] ends, with the text less exactly its trailing line feeds and
    carriage returns. *)
Theorem trimNewline_spec s :
  ∃ w, s = trimNewline s +:+ w ∧ sall is_newline w ∧
    from_option is_newline false (last_byte (trimNewline s)) = false.
Proof. by apply trim_loop_spec. Qed.

(** ** go/examples/env_session *)

(** The verb [%s] of an [any]: text as it is; [fmt_s] says how other values look. *)
Definition verb_s (fmt_s : any → string) (v : option any) : string :=
  match v with
  | Some (VString s) => s
  | Some v => fmt_s v
  | None => "%!s(<nil>)"
  end.

Section env_session.
Context {U : Unicode} {Y : YamlLib} {O : Faults} {F : FloatFormat} (fmt_s : any → string).

Definition echo_request : request := run_request "" "echo" ["hello from xrr env"].
Definition runEcho (X : Commands) : call resp :=
  run_live (@Output X "" "echo" ["hello from xrr env"]).

(** What the response prints after its tag. *)
Definition echoed (r : option (response resp)) : string :=
  match r with
  | Some (RLive (RsExec r)) => Exec.Stdout r
  | Some (RRaw _ payload) => verb_s fmt_s (default ∅ payload !! "stdout")
  | _ => ""
  end.

Definition response_tag (r : option (response resp)) : string :=
  match r with
  | Some (RLive (RsExec _)) => "recorded: "
  | Some (RRaw _ _) => "replayed: "
  | _ => ""
  end.

(** Standard output and exit status of [main]. *)
Definition env_main (env : string → string) (X : Commands) (now : Z) (σ : fsys) : fsys * (string * Z) :=
  match SessionFromEnv env σ with
  | (σ0, inl _) => (σ0, ("", 1%Z))
  | (σ0, inr None) =>
    let note := "(no xrr session; running real subprocess)" +:+ newline in
    match runEcho X σ0 with
    | (σ1, (_, Some _)) => (σ1, (note, 1%Z))
    | (σ1, (Some (RsExec r), None)) => (σ1, (note +:+ "real: " +:+ Exec.Stdout r, 0%Z))
    | (σ1, (_, None)) => (σ1, (note, 2%Z))
    end
  | (σ0, inr (Some s)) =>
    match Record_ (A := exec_adapter) env s now echo_request (runEcho X) σ0 with
    | (σ1, (_, Some _)) => (σ1, ("", 1%Z))
    | (σ1, (r, None)) => (σ1, (response_tag r +:+ echoed r, 0%Z))
    end
  end.
End env_session.

(** ** Properties *)

Section properties.
Context {U : Unicode} {Y : YamlLib} {O : Faults} {F : FloatFormat} {L : YamlLaws}.

(** Fingerprints of closed requests are not computed in proofs. *)
#[local] Opaque CanonicalFingerprint.

#[local] Existing Instance exec_adapter.
#[local] Existing Instance exec_laws.

Lemma command_Wrapper_provides env inner s clock i op σ :
  provide (Wrapper env inner s (clock i)) op σ =
  wrapped env invocation_request (λ _ op, run_live (provide inner op)) stdoutOf s clock i op σ.
Proof. by destruct op. Qed.

(** The response a wrapper records decodes to its fields. *)
Lemma response_decodes env c out e n :
  utf8_valid out → yEncode (Exec.response_yaml (run_response out e)) = inr n →
  redactNode n (activeRedactor env c) "payload" = n →
  stored env c (Exec.response_yaml (run_response out e)) =
    Some (Some {[ "stdout" := VString out; "exit_code" := VInt KInt (Exec.ExitCodeFromError e) ]}).
Proof.
  intros Hu Hn Hr. unfold stored, decoded. change (normalizePayload (Exec.response_yaml ?r)) with (Exec.response_yaml r).
  rewrite Hn, Hr. unfold Exec.response_yaml, run_response, omit_empty, omit_zero in Hn. simpl in Hn.
  rewrite (decode_struct _ _) with (3 := Hn); [done| |].
  - simpl. apply NoDup_cons; split; [set_solver by done|]. apply NoDup_singleton.
  - by repeat constructor.
Qed.

(** A call of the wrapped interface is recorded properly when it leaves the cassette alone,
    the pair is saved, and its output is text in which nothing calls for redaction. *)
Lemma runner_call_recorded env c i now inner op σ σ1 σ2 out e fp q n :
  provide inner op σ = (σ1, (out, e)) →
  (∀ fp' kind, kind = "req" ∨ kind = "resp" → σ1 !! kind_path c fp' kind = σ !! kind_path c fp' kind) →
  Fingerprint (invocation_request op) = inr fp →
  Save env c now "exec" fp (req_any (invocation_request op))
    (Exec.response_yaml (run_response out e)) e σ1 = (σ2, inr tt) →
  stored env c (req_any (invocation_request op)) = Some q →
  utf8_valid out → yEncode (Exec.response_yaml (run_response out e)) = inr n →
  redactNode n (activeRedactor env c) "payload" = n →
  utf8_valid (recorded_text e) → (e ≠ None → recorded_text e ≠ "") →
  recorded_call env invocation_request (λ _ op, run_live (provide inner op)) stdoutOf c i now op σ σ2
    (out, error_text <$> e).
Proof.
  intros Hin Hp Hfp Hs Hq Hu Hn Hr He Het.
  pose proof (response_decodes env c out e n Hu Hn Hr) as Hm.
  refine (RecordedCall _ _ _ _ _ _ _ _ _ (RsExec (run_response out e)) e σ1 σ2 fp q _ _ Hp Hfp Hs Hq Hm _ He Het);
    [|done]. unfold run_live. by rewrite Hin.
Qed.

Lemma runner_replays {B} env env' inner inner' s s' c clock clock'
    (p : program invocation string B) σ σ' b l :
  (∀ f, read_fault f = None) →
  mode s = ModeRecord → cassette s = Some c → mode s' = ModeReplay → cassette s' = Some c →
  recorded_run env invocation_request (λ _ op, run_live (provide inner op)) stdoutOf c clock 0 p σ σ' b l →
  consistent invocation_request l →
  run (λ i, provide (Wrapper env inner s (clock i))) 0 p σ = (σ', (b, l)) ∧
  run (λ i, provide (Wrapper env' inner' s' (clock' i))) 0 p σ' = (σ', (b, l)).
Proof.
  intros Hrf Hm Hc Hm' Hc' Hrun Hcons. rewrite !(run_ext _ _ _ _ _ (command_Wrapper_provides _ _ _ _)).
  apply (recorded_program_replays env env' invocation_request _ stdoutOf exec_adapter invocation_request
    (λ _ op, run_live (provide inner' op)) c eq_refl s s' clock clock' 0 0 p σ σ' σ' b l); try done.
  by apply Forall_true.
Qed.

(** A wrapped command runner: whatever an application does with a runner that records
    its calls, it gets the same outputs and the same errors in the same order from a wrapper
    that replays, over any runner, and no file changes. *)
Theorem wrapped_runner_replays {B} env env' inner inner' s s' c clock clock'
    (p : program invocation string B) σ σ' b l :
  (∀ f, read_fault f = None) →
  mode s = ModeRecord → cassette s = Some c → mode s' = ModeReplay → cassette s' = Some c →
  recorded_run env invocation_request (λ _ op, run_live (provide inner op)) stdoutOf c clock 0 p σ σ' b l →
  consistent invocation_request l →
  run (λ i, provide (Wrapper env inner s (clock i))) 0 p σ = (σ', (b, l)) ∧
  run (λ i, provide (Wrapper env' inner' s' (clock' i))) 0 p σ' = (σ', (b, l)).
Proof. apply runner_replays. Qed.

(** The demonstration: when its recording pass records properly, [main] prints the
    results of that pass twice, as recorded and as replayed, and exits with 0. *)
Theorem main_replays env inner clock σ σ' r l :
  (∀ f, read_fault f = None) →
  recorded_run env invocation_request (λ _ op, run_live (provide inner op)) stdoutOf
    (NewFileCassette "./_cassettes") clock 0 pass_program σ σ' (Some r) l →
  consistent invocation_request l →
  main_ env inner clock σ = (σ', (pass_text "record" r +:+ pass_text "replay" r, 0%Z)).
Proof.
  intros Hrf Hrun Hcons.
  destruct (runner_replays env env inner inner (main_session ModeRecord) (main_session ModeReplay)
    (NewFileCassette "./_cassettes") clock (λ i, clock (3 + i)) pass_program σ σ' (Some r) l
    Hrf eq_refl eq_refl eq_refl eq_refl Hrun Hcons) as [H1 H2].
  unfold main_.
  pose proof (pass_is_program (λ i, Wrapper env inner (main_session ModeRecord) (clock i)) σ) as P1.
  destruct (pass _ σ) as [σ1 r1]. destruct P1 as [l1 P1]. rewrite H1 in P1. injection P1 as <- <- _.
  pose proof (pass_is_program (λ i, Wrapper env inner (main_session ModeReplay) (clock (3 + i))) σ') as P2.
  destruct (pass _ σ') as [σ2 r2]. destruct P2 as [l2 P2]. rewrite H2 in P2. by injection P2 as <- <- _.
Qed.

(** A directory to write to is needed. *)
Lemma Save_needs_directory env c now aid fp q r e σ σ' :
  cdir c ≠ "" → fileable aid fp → Save env c now aid fp q r e σ = (σ', inr tt) → σ !! Clean (cdir c) = Some FDir.
Proof.
  intros Hc [Ha Hf] (σ1 & [] & H & _)%io_bind_inr. apply write_inr in H as (n & data & _ & _ & H & _).
  assert (filepath_Dir (file_path c aid fp "req") = Clean (cdir c)) as Hdir.
  { apply filepath_Dir_Join; [done|]. apply file_name_plain; auto. }
  unfold WriteFile in H. rewrite Hdir in H.
  destruct (σ !! Clean (cdir c)) as [[d|]|]; [|done|];
    by destruct (σ !! file_path c aid fp "req") as [[]|].
Qed.

(** The demonstration does not create the directory it records to: started where there
    is no [_cassettes], it fails at the first call. *)
Theorem main_needs_directory env inner clock σ :
  (@Run inner "echo" ["hello from xrr"] σ).1 !! "_cassettes" ≠ Some FDir →
  (main_ env inner clock σ).2 = ("", 1%Z).
Proof.
  intros Hd. unfold main_, pass. cbn [Run Wrapper]. unfold Wrapper_Run, Record_.
  rewrite bool_decide_eq_true_2 by done. unfold record, run_live.
  destruct (Run _ _ σ) as [σ1 [out e]]. simpl in Hd.
  destruct (Fingerprint (run_request "" "echo" ["hello from xrr"])) as [|fp] eqn:Hfp; [done|].
  cbn [cassette main_session NewSession]. 
  destruct (Save _ _ _ _ _ _ _ _ σ1) as [σ2 [|[]]] eqn:Hs; [done|].
  exfalso. apply Hd. change "_cassettes" with (Clean (cdir (NewFileCassette "./_cassettes"))).
  eapply Save_needs_directory; [|split|exact Hs]; [done|done|].
  eapply hex_no_slash, Fingerprint_hex, Hfp.
Qed.
(** Across processes: a process started with [XRR_MODE=record] and a later one started with
    [XRR_MODE=replay] on the same directory print the same output under their tags; the
    second runs no command and changes no file. *)
Theorem env_session_replays fmt_s env env' X X' now now' σ σ0 σ' d out :
  (∀ f, read_fault f = None) →
  env' EnvMode = ModeReplay → env' EnvCassetteDir = d → d ≠ "" →
  SessionFromEnv env σ = (σ0, inr (Some (NewSession ModeRecord (Some (NewFileCassette d))))) →
  recorded_call env (λ _ : unit, echo_request) (λ _ _, runEcho X) (echoed fmt_s) (NewFileCassette d)
    0 now tt σ0 σ' (out, None) →
  σ' !! d = Some FDir →
  env_main fmt_s env X now σ = (σ', ("recorded: " +:+ out, 0%Z)) ∧
  env_main fmt_s env' X' now' σ' = (σ', ("replayed: " +:+ out, 0%Z)).
Proof.
  intros Hrf Hm' Hd' Hd Hs Hcall Hdir.
  assert (∀ t, holds (echoed fmt_s) (NewFileCassette d) σ0 t →
    holds (echoed fmt_s) (NewFileCassette d) σ' (record_one (λ _ : unit, echo_request) t (tt, (out, None)))) as Hholds.
  { intros t. by apply (recorded_call_runs env (λ _ : unit, echo_request) (λ _ _, runEcho X) (echoed fmt_s)
      (NewFileCassette d) Hrf (NewSession ModeRecord (Some (NewFileCassette d))) (λ _, now) 0 tt σ0 σ'). }
  specialize (Hholds ∅ (holds_empty _ _ _)).
  remember (out, None) as x eqn:Hx in Hcall.
  destruct Hcall as [r e σ1 σ2 fp q m Hreal Hp Hfp Hsave Hq Hm Hv He Het].
  injection Hx as Hout He'. destruct e; [discriminate He'|]. split.
  - unfold env_main. rewrite Hs. unfold Record_. rewrite bool_decide_eq_true_2 by done.
    unfold record. rewrite Hreal, Hfp. cbn [cassette NewSession].
    change (from_option resp_any VNil (Some r)) with (resp_any r). rewrite Hsave.
    unfold runEcho, run_live in Hreal. destruct (Output _ _ _ σ0) as [? [? ?]]. injection Hreal as _ <- _.
    simpl. by rewrite <-Hout.
  - unfold record_one, record_entry, key in Hholds. cbn [fst snd] in Hholds. rewrite Hfp in Hholds.
    destruct (Hholds fp (out, None)) as (_ & text & q' & p & Hl & Ha); [by rewrite lookup_insert_eq|].
    unfold answer_shown in Ha. injection Ha as Hout' Htext. case_bool_decide as Ht; [|done].
    assert (SessionFromEnv env' σ2 = (σ2, inr (Some (NewSession ModeReplay (Some (NewFileCassette d)))))) as Hs'.
    { unfold SessionFromEnv. rewrite Hm', Hd', (bool_decide_eq_false_2 (d = "")) by done.
      change (negb (known_mode ModeReplay)) with false.
      rewrite !bool_decide_eq_false_2 by done. unfold mbind, io_bind, check_replay_dir, Stat.
      by rewrite Hrf, Hdir. }
    unfold env_main. rewrite Hs'. unfold Record_. rewrite bool_decide_eq_false_2, bool_decide_eq_true_2 by done.
    unfold replay. rewrite Hfp. cbn [cassette NewSession]. unfold Load. rewrite Hl.
    rewrite bool_decide_eq_true_2 by done. by rewrite Hout'.
Qed.
End properties.

(** ** At concrete values *)

Section witnesses.
#[local] Existing Instance ascii_only.
#[local] Existing Instance ReferenceYaml.lib.
#[local] Existing Instance ReferenceYaml.laws.
#[local] Existing Instance no_faults.
#[local] Existing Instance integral_floats.
#[local] Existing Instance exec_adapter.
#[local] Existing Instance exec_laws.

(** A runner that answers every command alike. *)
Definition demo_runner : Real :=
  {| Run _ _ σ := (σ, ("main" +:+ newline, None)); RunInDir _ _ _ σ := (σ, ("main" +:+ newline, None)) |}.
Definition angry_runner : Real :=
  {| Run _ _ σ := (∅, ("", Some (EPanic "called"))); RunInDir _ _ _ σ := (∅, ("", Some (EPanic "called"))) |}.

Definition here : FileCassette := NewFileCassette "./_cassettes".
Definition here_fs : fsys := {[ "_cassettes" := FDir ]}.

Lemma here_writable : writable here "exec" here_fs.
Proof. apply writable_short; [reflexivity|]. apply map_Forall_singleton. intros _. vm_compute. lia. Qed.

Definition fp_of (op : invocation) : string :=
  match Fingerprint (invocation_request op) with inr fp => fp | inl _ => "" end.
Definition stored_request (c : FileCassette) (op : invocation) : option (gmap string any) :=
  default None (stored no_env c (req_any (invocation_request op))).

(** The three calls of a pass. *)
Definition demo_op (op : invocation) : Prop :=
  op = IRun "echo" ["hello from xrr"] ∨
  op = IRunInDir "." "git" ["rev-parse"; "--abbrev-ref"; "HEAD"] ∨
  op = IRun "docker" ["version"; "--format"; "{{.Server.Version}}"].

Lemma demo_op_fp op : demo_op op → Fingerprint (invocation_request op) = inr (fp_of op).
Proof. intros [->|[->| ->]]; vm_compute; reflexivity. Qed.

Lemma demo_op_stored op :
  demo_op op → stored no_env here (req_any (invocation_request op)) = Some (stored_request here op).
Proof. intros [->|[->| ->]]; vm_compute; reflexivity. Qed.

Lemma demo_response_clean :
  redactNode (ReferenceYaml.encode (Exec.response_yaml (run_response ("main" +:+ newline) None)))
    (activeRedactor no_env here) "payload" =
  ReferenceYaml.encode (Exec.response_yaml (run_response ("main" +:+ newline) None)).
Proof. vm_compute. reflexivity. Qed.

Lemma demo_call i op σ :
  demo_op op → writable here "exec" σ →
  ∃ σ', recorded_call no_env invocation_request (λ _ op, run_live (provide demo_runner op)) stdoutOf here
    i 0 op σ σ' ("main" +:+ newline, None) ∧ writable here "exec" σ'.
Proof.
  intros Hop Hw. pose proof (demo_op_fp op Hop) as Hfp.
  assert (cdir here ≠ "") as Hc by done.
  destruct (Save_writable here Hc
    no_env 0 "exec" (fp_of op) (req_any (invocation_request op))
    (Exec.response_yaml (run_response ("main" +:+ newline) None)) None σ) as (σ' & Hs & Hw'); [|done|].
  { split; [done|]. eapply hex_no_slash, Fingerprint_hex, Hfp. }
  exists σ'. split; [|done].
  eapply (runner_call_recorded no_env here i 0 demo_runner op σ σ σ' ("main" +:+ newline) None (fp_of op)
    (stored_request here op) _); [by destruct op|done|done|exact Hs|by apply demo_op_stored|done|reflexivity|
    exact demo_response_clean|done|done].
Qed.

Lemma demo_pass :
  ∃ σ' l, recorded_run no_env invocation_request (λ _ op, run_live (provide demo_runner op)) stdoutOf here
    (λ _, 0%Z) 0 pass_program here_fs σ' (Some ("main" +:+ newline, Some "main", Some "main")) l ∧
    consistent invocation_request l.
Proof.
  destruct (demo_call 0 (IRun "echo" ["hello from xrr"]) here_fs) as (σ1 & H1 & W1);
    [by left|exact here_writable|].
  destruct (demo_call 1 (IRunInDir "." "git" ["rev-parse"; "--abbrev-ref"; "HEAD"]) σ1) as (σ2 & H2 & W2);
    [by right; left|exact W1|].
  destruct (demo_call 2 (IRun "docker" ["version"; "--format"; "{{.Server.Version}}"]) σ2) as (σ3 & H3 & W3);
    [by right; right|exact W2|].
  exists σ3. eexists. split.
  - eapply RecordedInvoke; [exact H1|]. eapply RecordedInvoke; [exact H2|].
    eapply RecordedInvoke; [exact H3|]. apply RecordedReturn.
  - intros x y fp Hx Hy _ _. rewrite !elem_of_cons, elem_of_nil in Hx, Hy.
    assert (∀ z, z = x ∨ z = y → z.2 = ("main" +:+ newline, None)) as Hz.
    { intros z [->| ->]; [destruct Hx as [->|[->|[->|[]]]]|destruct Hy as [->|[->|[->|[]]]]]; done. }
    rewrite (Hz x), (Hz y); auto.
Qed.

Lemma wrapped_runner_replays_witness :
  ∃ σ' l, run (λ _, provide (Wrapper no_env angry_runner (main_session ModeReplay) 7)) 0 pass_program σ' =
    (σ', (Some ("main" +:+ newline, Some "main", Some "main"), l)).
Proof.
  destruct demo_pass as (σ' & l & Hrun & Hcons). exists σ', l.
  exact (proj2 (wrapped_runner_replays (O := no_faults) no_env no_env demo_runner angry_runner (main_session ModeRecord)
    (main_session ModeReplay) here (λ _, 0%Z) (λ _, 7%Z) pass_program here_fs σ' _ l
    (λ _, eq_refl) eq_refl eq_refl eq_refl eq_refl Hrun Hcons)).
Defined.

Definition demo_result : string * option string * option string := ("main" +:+ newline, Some "main", Some "main").

Lemma main_replays_witness :
  (main_ no_env demo_runner (λ _, 0%Z) here_fs).2 =
    (pass_text "record" demo_result +:+ pass_text "replay" demo_result, 0%Z).
Proof.
  destruct demo_pass as (σ' & l & Hrun & Hcons).
  rewrite (main_replays (O := no_faults) no_env demo_runner (λ _, 0%Z) here_fs σ' demo_result l (λ _, eq_refl) Hrun Hcons).
  exact eq_refl.
Defined.

Lemma main_needs_directory_witness : (main_ no_env demo_runner (λ _, 0%Z) ∅).2 = ("", 1%Z).
Proof.
  apply (main_needs_directory no_env demo_runner (λ _, 0%Z) ∅). intros H. vm_compute in H. discriminate H.
Defined.

Definition demo_commands : Commands := λ _ _ _ σ, (σ, ("hi" +:+ newline, None)).
Definition no_commands : Commands := λ _ _ _ σ, (∅, ("", Some (EPanic "called"))).
Definition mode_env (m k : string) : string :=
  if bool_decide (k = EnvMode) then m else if bool_decide (k = EnvCassetteDir) then "new" else "".
Definition new_cassette : FileCassette := NewFileCassette "new".
Definition new_fs : fsys := <["new" := FDir]> demo_fs.
Definition fmt_any (v : any) : string := "%!s(any)".
Definition echo_fp : string := match Fingerprint echo_request with inr fp => fp | inl _ => "" end.

Definition echo_stored : option (gmap string any) :=
  default None (stored (mode_env ModeRecord) new_cassette (req_any echo_request)).
Definition hi : Exec.Response := run_response ("hi" +:+ newline) None.

Lemma echo_request_stored :
  stored (mode_env ModeRecord) new_cassette (req_any echo_request) = Some echo_stored.
Proof. vm_compute. reflexivity. Qed.

Lemma hi_clean :
  redactNode (ReferenceYaml.encode (Exec.response_yaml hi)) (activeRedactor (mode_env ModeRecord) new_cassette)
    "payload" = ReferenceYaml.encode (Exec.response_yaml hi).
Proof. vm_compute. reflexivity. Qed.

Lemma env_session_replays_witness :
  ∃ σ', env_main fmt_any (mode_env ModeReplay) no_commands 7 σ' = (σ', ("replayed: hi" +:+ newline, 0%Z)).
Proof.
  assert (writable new_cassette "exec" new_fs) as Hw.
  { apply writable_short; [reflexivity|]. apply map_Forall_insert_2; [intros _; vm_compute; lia|].
    apply map_Forall_singleton. intros _. vm_compute. lia. }
  assert (Fingerprint echo_request = inr echo_fp) as Hfp by (vm_compute; reflexivity).
  assert (cdir new_cassette ≠ "") as Hc by done.
  destruct (Save_writable new_cassette Hc (mode_env ModeRecord) 0 "exec" echo_fp (req_any echo_request)
    (Exec.response_yaml hi) None new_fs) as (σ' & Hs & [Hd _]); [|done|].
  { split; [done|]. eapply hex_no_slash, Fingerprint_hex, Hfp. }
  exists σ'.
  refine (proj2 (env_session_replays (O := no_faults) fmt_any (mode_env ModeRecord) (mode_env ModeReplay)
    demo_commands no_commands 0 7 demo_fs new_fs σ' "new" ("hi" +:+ newline) (λ _, eq_refl) eq_refl eq_refl
    ltac:(discriminate) _ _ Hd)).
  - vm_compute. reflexivity.
  - pose proof (response_decodes (mode_env ModeRecord) new_cassette ("hi" +:+ newline) None _ I eq_refl hi_clean) as Hm.
    refine (RecordedCall (mode_env ModeRecord) (λ _ : unit, echo_request) (λ _ _, runEcho demo_commands)
      (echoed fmt_any) new_cassette 0 0 tt new_fs (RsExec hi) None new_fs σ' echo_fp echo_stored _
      eq_refl (λ _ _ _, eq_refl) Hfp Hs echo_request_stored Hm eq_refl I (λ H, False_ind _ (H eq_refl))).
Defined.
End witnesses.
