(* ===== verification/WrapFs.v ===== *)
(** go/examples/wrap_fs_runner: a file-system interface of an application, its wrapper over
    a session, and cassettes that do not depend on the temporary directory. *)

From S2P Require Import Prelude GoStrings Values Yaml Redact Os Paths CanonicalJson Cassette Session Directory Adapters Programs.

(** ** The interface *)

Definition fs_call : Type := fsys → fsys * option err.

Class FS := {
  WriteFile : string → string → Z → fs_call;
  Mkdir : string → Z → fs_call;
  Remove : string → fs_call;
  RemoveAll : string → fs_call;
  Rename : string → string → fs_call;
  Chmod : string → Z → fs_call;
  Chown : string → Z → Z → fs_call;
  Symlink : string → string → fs_call;
  Link : string → string → fs_call;
  Truncate : string → Z → fs_call;
}.

(** A file system that panics on any call. *)
Definition panic (what : string) : fs_call := λ σ, (σ, Some (EPanic what)).
Definition panickyFS : FS :=
  {| WriteFile _ _ _ := panic "inner FS called during replay"; Mkdir _ _ := panic "nope";
     Remove _ := panic "nope"; RemoveAll _ := panic "nope"; Rename _ _ := panic "nope";
     Chmod _ _ := panic "nope"; Chown _ _ _ := panic "nope"; Symlink _ _ := panic "nope";
     Link _ _ := panic "nope"; Truncate _ _ := panic "nope" |}.

(** Its calls, as data. *)
Inductive operation : Type :=
| OWriteFile (path data : string) (mode : Z)
| OMkdir (path : string) (mode : Z)
| ORemove (path : string)
| ORemoveAll (path : string)
| ORename (oldpath newpath : string)
| OChmod (path : string) (mode : Z)
| OChown (path : string) (uid gid : Z)
| OSymlink (target link : string)
| OLink (oldpath newpath : string)
| OTruncate (path : string) (size : Z).

Definition perform (S : FS) (op : operation) : fs_call :=
  match op with
  | OWriteFile path data mode => WriteFile path data mode
  | OMkdir path mode => Mkdir path mode
  | ORemove path => Remove path
  | ORemoveAll path => RemoveAll path
  | ORename oldpath newpath => Rename oldpath newpath
  | OChmod path mode => Chmod path mode
  | OChown path uid gid => Chown path uid gid
  | OSymlink target link => Symlink target link
  | OLink oldpath newpath => Link oldpath newpath
  | OTruncate path size => Truncate path size
  end.

(** ** The wrapper *)

(** A request with the fields every method sets, and those some do. *)
Definition fs_request (op path dest data : string) (mode uid gid size : option Z) (recursive : bool)
    : Fs.Request :=
  {| Fs.Op := op; Fs.Path := path; Fs.Data := data; Fs.Mode := mode; Fs.UID := uid; Fs.GID := gid;
     Fs.Dest := dest; Fs.Size := size; Fs.Flags := 0; Fs.Recursive := recursive |}.

(** The request each method builds; [np] is the adapter's [Normalize]. *)
Definition operation_request (np : string → string) (op : operation) : Fs.Request :=
  match op with
  | OWriteFile path data mode => fs_request Fs.OpWrite (np path) "" data (Some mode) None None None false
  | OMkdir path mode => fs_request Fs.OpMkdir (np path) "" "" (Some mode) None None None false
  | ORemove path => fs_request Fs.OpRemove (np path) "" "" None None None None false
  | ORemoveAll path => fs_request Fs.OpRemove (np path) "" "" None None None None true
  | ORename oldpath newpath => fs_request Fs.OpRename (np oldpath) (np newpath) "" None None None None false
  | OChmod path mode => fs_request Fs.OpChmod (np path) "" "" (Some mode) None None None false
  | OChown path uid gid => fs_request Fs.OpChown (np path) "" "" None (Some uid) (Some gid) None false
  | OSymlink target link => fs_request Fs.OpSymlink (np target) (np link) "" None None None None false
  | OLink oldpath newpath => fs_request Fs.OpHardlink (np oldpath) (np newpath) "" None None None None false
  | OTruncate path size => fs_request Fs.OpTruncate (np path) "" "" None None None (Some size) false
  end.

(** The closure handed to [Record]; [took] is what the clock says it took. *)
Definition fs_live (took : Z) (do : fs_call) : call resp := λ σ,
  let '(σ1, runErr) := do σ in
  (σ1, (Some (RsFs {| Fs.DurationMs := took; Fs.BytesWritten := 0 |}), runErr)).

Section wrapper.
Context {U : Unicode} {Y : YamlLib} {O : Faults} {F : FloatFormat} (env : string → string).

Definition fs_record (a : Fs.PathNormalizer) (s : FileSession) (now took : Z) (req : Fs.Request)
    (do : fs_call) : fs_call := λ σ,
  let '(σ', (_, e)) := Record_ (A := fs_adapter a) env s now (RqFs req) (fs_live took do) σ in (σ', e).

Definition np (a : Fs.PathNormalizer) (p : string) : string := Fs.Normalize a p.

Definition Wrapper (inner : FS) (s : FileSession) (a : Fs.PathNormalizer) (now took : Z) : FS :=
  let method op := fs_record a s now took (operation_request (np a) op) (perform inner op) in
  {| WriteFile path data mode := method (OWriteFile path data mode);
     Mkdir path mode := method (OMkdir path mode);
     Remove path := method (ORemove path);
     RemoveAll path := method (ORemoveAll path);
     Rename oldpath newpath := method (ORename oldpath newpath);
     Chmod path mode := method (OChmod path mode);
     Chown path uid gid := method (OChown path uid gid);
     Symlink target link := method (OSymlink target link);
     Link oldpath newpath := method (OLink oldpath newpath);
     Truncate path size := method (OTruncate path size) |}.
End wrapper.

(** ** Paths of a temporary directory *)

Definition tmpNormalizer (tmp : string) : Fs.PathNormalizer := λ p,
  if bool_decide (p = tmp) then "$TMP" else
  if HasPrefix p (tmp +:+ "/") then "$TMP" +:+ sdrop (slen tmp) p else p.

(** ** The demonstration *)

(** [os.ReadDir]: the names in a directory, sorted. *)
Definition dir_names (d : string) (σ : fsys) : list string :=
  fst <$> sort_keys (omap (λ '(q, _),
    let n := sdrop (slen d + 1) q in
    if HasPrefix q (d +:+ "/") && negb (bool_decide (n = "")) && negb (contains_char n slash)
    then Some (n, tt) else None) (map_to_list σ)).

Section demo.
Context {U : Unicode} {Y : YamlLib} {O : Faults} {F : FloatFormat} (env : string → string).

Definition demo_session (mode tmp : string) : FileSession :=
  NewSession mode (Some (NewFileCassette (filepath_Join [tmp; "cassettes"]))).
Definition demo_adapter (tmp : string) : Fs.PathNormalizer :=
  Fs.WithNormalizer Fs.NewAdapter (tmpNormalizer tmp).
Definition demo_target (tmp : string) : string := filepath_Join [tmp; "hello.txt"].
Definition hello : string := "hello" +:+ newline.

(** Standard output and the error returned; the clock reads [clock i] in the [i]-th call. *)
Definition run_in (inner : FS) (tmp : string) (clock took : nat → Z) (σ : fsys)
    : fsys * (string * option err) :=
  let cassetteDir := filepath_Join [tmp; "cassettes"] in
  match MkdirAll cassetteDir σ with
  | (σ1, inl e) => (σ1, ("", Some e))
  | (σ1, inr _) =>
    let target := demo_target tmp in
    let a := demo_adapter tmp in
    match @WriteFile (Wrapper env inner (demo_session ModeRecord tmp) a (clock 0) (took 0)) target hello 420 σ1 with
    | (σ2, Some e) => (σ2, ("", Some (EWrap "record WriteFile: " e)))
    | (σ2, None) =>
      let out := "recorded: " +:+ target +:+ newline +:+
        sconcat ((λ n, "cassette: " +:+ n +:+ newline) <$> dir_names cassetteDir σ2) in
      match @WriteFile (Wrapper env panickyFS (demo_session ModeReplay tmp) a (clock 1) (took 1)) target hello 420 σ2 with
      | (σ3, Some e) => (σ3, (out, Some (EWrap "replay WriteFile: " e)))
      | (σ3, None) => (σ3, (out +:+ "replayed without touching disk" +:+ newline, None))
      end
    end
  end.

Definition demo_run (inner : FS) (temp : result string) (clock took : nat → Z) (σ : fsys)
    : fsys * (string * option err) :=
  match MkdirTemp temp σ with
  | (σ1, inl e) => (σ1, ("", Some e))
  | (σ1, inr tmp) => let '(σ2, r) := run_in inner tmp clock took σ1 in (Os.RemoveAll tmp σ2, r)
  end.
End demo.

(** ** The wrapper as a provider *)

Definition provide (S : FS) : provider operation unit := λ op σ,
  let '(σ', e) := perform S op σ in (σ', (tt, e)).

Definition no_view (r : option (response resp)) : unit := tt.

(** ** Relocation *)

Definition below (tmp p : string) : bool := bool_decide (p = tmp) || HasPrefix p (tmp +:+ "/").

(** A path of one temporary directory, in another. *)
Definition rebase (tmp tmp' p : string) : string :=
  if below tmp p then tmp' +:+ sdrop (slen tmp) p else p.

Definition map_paths (f : string → string) (op : operation) : operation :=
  match op with
  | OWriteFile path data mode => OWriteFile (f path) data mode
  | OMkdir path mode => OMkdir (f path) mode
  | ORemove path => ORemove (f path)
  | ORemoveAll path => ORemoveAll (f path)
  | ORename oldpath newpath => ORename (f oldpath) (f newpath)
  | OChmod path mode => OChmod (f path) mode
  | OChown path uid gid => OChown (f path) uid gid
  | OSymlink target link => OSymlink (f target) (f link)
  | OLink oldpath newpath => OLink (f oldpath) (f newpath)
  | OTruncate path size => OTruncate (f path) size
  end.

Definition paths (op : operation) : list string :=
  match op with
  | OWriteFile p _ _ | OMkdir p _ | ORemove p | ORemoveAll p | OChmod p _ | OChown p _ _ | OTruncate p _ => [p]
  | ORename p q | OSymlink p q | OLink p q => [p; q]
  end.

(** Paths that both directories see alike: in the first, or in neither. *)
Definition portable (tmp tmp' : string) (op : operation) : Prop :=
  Forall (λ p, below tmp p ∨ below tmp' p = false) (paths op).

Definition rooted (d : string) : Prop := HasPrefix d "/".

Lemma rooted_cons d : rooted d → ∃ d', d = String slash d'.
Proof.
  unfold rooted. destruct d as [|c d]; [done|]. simpl. rewrite HasPrefix_nil, andb_true_r.
  intros H%bool_decide_unpack. exists d. by rewrite <-H.
Qed.

Lemma below_app tmp p : below tmp p ↔ p = tmp ∨ ∃ q, p = tmp +:+ "/" +:+ q.
Proof.
  unfold below. rewrite orb_True, bool_decide_spec, HasPrefix_spec. apply or_iff_compat_l.
  split; intros [q ->]; exists q; by rewrite sapp_assoc.
Qed.

Lemma tmpNormalizer_below tmp p : below tmp p → tmpNormalizer tmp p = "$TMP" +:+ sdrop (slen tmp) p.
Proof.
  unfold tmpNormalizer, below. case_bool_decide as H.
  - subst. intros _. by rewrite <-(sapp_nil_r tmp) at 2; rewrite sdrop_app_exact.
  - simpl. by destruct (HasPrefix _ _).
Qed.

Lemma tmpNormalizer_other tmp p : below tmp p = false → tmpNormalizer tmp p = p.
Proof. unfold tmpNormalizer, below. intros [H1 H2]%orb_false_iff. by rewrite H1, H2. Qed.

Lemma below_rooted tmp p : rooted tmp → below tmp p → rooted p.
Proof.
  intros (d & ->)%rooted_cons [->|[q ->]]%below_app; unfold rooted; rewrite ?sapp_cons; simpl; by rewrite HasPrefix_nil.
Qed.

Lemma below_self tmp p : below tmp p → ∃ q, p = tmp +:+ q ∧ ∀ tmp', below tmp' (tmp' +:+ q).
Proof.
  intros [->|[q ->]]%below_app.
  - exists "". rewrite sapp_nil_r. split; [done|]. intros tmp'. rewrite sapp_nil_r. apply below_app. by left.
  - exists ("/" +:+ q). split; [done|]. intros tmp'. apply below_app. right. by exists q.
Qed.

Lemma rooted_nonempty p : rooted p → p ≠ "".
Proof. by intros (d & ->)%rooted_cons. Qed.

Lemma np_nonempty a p : p ≠ "" → np a p = a p.
Proof. intros Hp. unfold np, Fs.Normalize. by rewrite bool_decide_eq_false_2. Qed.

(** A normalized path stays as it is under a normalizer that did not see the original. *)
Lemma np_stable tmp tmp' p :
  rooted tmp → rooted tmp' → below tmp p ∨ below tmp' p = false →
  np (tmpNormalizer tmp') (np (tmpNormalizer tmp) p) = np (tmpNormalizer tmp) p.
Proof.
  intros Ht Ht' Hp. destruct (decide (p = "")) as [->|Hne]; [done|]. rewrite (np_nonempty _ p) by done.
  destruct (below tmp p) eqn:Hb.
  - apply Is_true_true_2 in Hb. rewrite tmpNormalizer_below by done.
    rewrite np_nonempty by done. apply tmpNormalizer_other. apply Is_true_false. intros H.
    by apply (below_rooted _ _ Ht') in H.
  - destruct Hp as [?|Hp]; [done|]. rewrite tmpNormalizer_other by done.
    rewrite np_nonempty by done. by apply tmpNormalizer_other.
Qed.

Lemma np_rebase tmp tmp' p :
  rooted tmp → rooted tmp' → below tmp p ∨ below tmp' p = false →
  np (tmpNormalizer tmp') (rebase tmp tmp' p) = np (tmpNormalizer tmp) p.
Proof.
  intros Ht Ht' Hp. unfold rebase. destruct (below tmp p) eqn:Hb.
  - apply Is_true_true_2 in Hb. rewrite (np_nonempty _ p) by (by apply rooted_nonempty, (below_rooted tmp)).
    rewrite tmpNormalizer_below by done. destruct (below_self _ _ Hb) as (q & -> & Hq).
    rewrite sdrop_app_exact.
    rewrite np_nonempty by (by apply rooted_nonempty, (below_rooted tmp')).
    by rewrite tmpNormalizer_below, sdrop_app_exact by apply Hq.
  - destruct Hp as [?|Hp]; [done|]. destruct (decide (p = "")) as [->|Hne]; [done|].
    rewrite !np_nonempty, !tmpNormalizer_other; done.
Qed.

Lemma request_rebase tmp tmp' op :
  rooted tmp → rooted tmp' → portable tmp tmp' op →
  operation_request (np (tmpNormalizer tmp')) (map_paths (rebase tmp tmp') op) =
  operation_request (np (tmpNormalizer tmp)) op.
Proof.
  intros Ht Ht' Hp. unfold portable in Hp.
  destruct op; cbn [paths] in Hp; rewrite !Forall_cons in Hp; destruct_and? Hp; simpl;
    rewrite ?np_rebase by done; done.
Qed.

(** The fingerprint sees a request's paths through the adapter's normalizer. *)
Lemma fs_fields_ext a a' r :
  Fs.Normalize a (Fs.Path r) = Fs.Normalize a' (Fs.Path r) →
  Fs.Normalize a (Fs.Dest r) = Fs.Normalize a' (Fs.Dest r) → Fs.fields a r = Fs.fields a' r.
Proof. unfold Fs.fields. by intros -> ->. Qed.

Lemma fingerprint_rebase {F : FloatFormat} tmp tmp' op :
  rooted tmp → rooted tmp' → portable tmp tmp' op →
  Fs.Fingerprint (tmpNormalizer tmp')
    (operation_request (np (tmpNormalizer tmp')) (map_paths (rebase tmp tmp') op)) =
  Fs.Fingerprint (tmpNormalizer tmp) (operation_request (np (tmpNormalizer tmp)) op).
Proof.
  intros Ht Ht' Hp. rewrite request_rebase by done. unfold Fs.Fingerprint. do 3 f_equal.
  unfold portable in Hp.
  assert (∀ p, below tmp p ∨ below tmp' p = false →
    Fs.Normalize (tmpNormalizer tmp') (np (tmpNormalizer tmp) p) =
    Fs.Normalize (tmpNormalizer tmp) (np (tmpNormalizer tmp) p)) as Hn.
  { intros p H. change (np (tmpNormalizer tmp') (np (tmpNormalizer tmp) p) =
      np (tmpNormalizer tmp) (np (tmpNormalizer tmp) p)).
    rewrite np_stable by done. symmetry. apply np_stable; [done..|].
    destruct (below tmp p); auto. }
  apply fs_fields_ext; destruct op; cbn [paths] in Hp; rewrite !Forall_cons in Hp; destruct_and? Hp; simpl; by auto.
Qed.

(** ** Properties *)

Section properties.
Context {U : Unicode} {Y : YamlLib} {O : Faults} {F : FloatFormat} {L : YamlLaws}.
#[local] Opaque CanonicalFingerprint.

Definition op_request (a : Fs.PathNormalizer) (op : operation) : request := RqFs (operation_request (np a) op).
Definition real_call (inner : FS) (took : nat → Z) (i : nat) (op : operation) : call resp :=
  fs_live (took i) (perform inner op).

Lemma fs_Wrapper_provides env inner s a clock took i op σ :
  provide (Wrapper env inner s a (clock i) (took i)) op σ =
  wrapped (A := fs_adapter a) env (op_request a) (real_call inner took) no_view s clock i op σ.
Proof.
  unfold provide, wrapped, op_request, real_call.
  assert (perform (Wrapper env inner s a (clock i) (took i)) op =
    fs_record env a s (clock i) (took i) (operation_request (np a) op) (perform inner op)) as -> by (by destruct op).
  unfold fs_record. by destruct (Record_ _ _ _ _ _ _) as [? [? ?]].
Qed.

(** C9. Cassettes do not depend on the temporary directory: what a program did to the files
    of one temporary directory through a recording wrapper with [tmpNormalizer], a replaying
    wrapper answers in another - the same program on the corresponding paths gets the same
    errors in the same order, over any file system and without a change of a file - as long
    as its other paths are outside the second directory. *)
Theorem fs_cassettes_portable {B} env env' inner inner' s s' c clock clock' took took' tmp tmp'
    (p : program operation unit B) σ σ' σr b l :
  (∀ f, read_fault f = None) → rooted tmp → rooted tmp' →
  mode s = ModeRecord → cassette s = Some c → mode s' = ModeReplay → cassette s' = Some c →
  recorded_run (A := fs_adapter (tmpNormalizer tmp)) env (op_request (tmpNormalizer tmp))
    (real_call inner took) no_view c clock 0 p σ σ' b l →
  consistent (A := fs_adapter (tmpNormalizer tmp)) (op_request (tmpNormalizer tmp)) l →
  Forall (λ x, portable tmp tmp' x.1) l →
  (∀ fp kind, kind = "req" ∨ kind = "resp" → σr !! file_path c "fs" fp kind = σ' !! file_path c "fs" fp kind) →
  run (λ i, provide (Wrapper env inner s (tmpNormalizer tmp) (clock i) (took i))) 0 p σ = (σ', (b, l)) ∧
  run (λ i, provide (Wrapper env' inner' s' (tmpNormalizer tmp') (clock' i) (took' i))) 0
    (map_ops (map_paths (rebase tmp tmp')) p) σr = (σr, (b, prod_map (map_paths (rebase tmp tmp')) id <$> l)).
Proof.
  intros Hrf Ht Ht' Hm Hc Hm' Hc' Hrun Hcons Hport Hσ.
  destruct (recorded_program_replays (A := fs_adapter (tmpNormalizer tmp))
    (AL := fs_laws _) env env' (op_request (tmpNormalizer tmp)) (real_call inner took) no_view
    (fs_adapter (tmpNormalizer tmp')) (λ op, op_request (tmpNormalizer tmp') (map_paths (rebase tmp tmp') op))
    (λ i op, real_call inner' took' i (map_paths (rebase tmp tmp') op)) c eq_refl s s' clock clock' 0 0 p
    σ σ' σr b l Hrf Hm Hc Hm' Hc' Hrun Hcons) as [H1 H2].
  - apply (Forall_impl _ _ _ Hport). intros x Hx. simpl. by rewrite fingerprint_rebase.
  - exact Hσ.
  - split; [by rewrite (run_ext _ _ _ _ _ (fs_Wrapper_provides _ _ _ _ _ _))|].
    apply run_map_ops. etrans; [|exact H2]. apply run_ext. intros i op σ0. apply fs_Wrapper_provides.
Qed.

(** The demonstration replays what it recorded. *)
Lemma run_in_ok env inner tmp clock took σ σ1 σ2 :
  let cassetteDir := filepath_Join [tmp; "cassettes"] in
  (∀ f, read_fault f = None) → MkdirAll cassetteDir σ = (σ1, inr tt) →
  recorded_call (A := fs_adapter (demo_adapter tmp)) env (op_request (demo_adapter tmp)) (real_call inner took)
    no_view (NewFileCassette cassetteDir) 0 (clock 0) (OWriteFile (demo_target tmp) hello 420) σ1 σ2 (tt, None) →
  run_in env inner tmp clock took σ =
    (σ2, ("recorded: " +:+ demo_target tmp +:+ newline +:+
          sconcat ((λ n, "cassette: " +:+ n +:+ newline) <$> dir_names cassetteDir σ2) +:+
          "replayed without touching disk" +:+ newline, None)).
Proof.
  intros cassetteDir Hrf Hmk Hcall. unfold run_in. fold cassetteDir. rewrite Hmk.
  set (a := demo_adapter tmp) in *. set (op := OWriteFile (demo_target tmp) hello 420) in *.
  pose proof (fs_laws a) as AL.
  assert (∀ S s i (σ σ' : fsys) k, wrapped (A := fs_adapter a) env (op_request a) (real_call S k) no_view s clock i op σ =
    (σ', (tt, None)) →
    @WriteFile (Wrapper env S s a (clock i) (k i)) (demo_target tmp) hello 420 σ = (σ', None)) as Hw.
  { intros S s i σ3 σ4 k H. rewrite <-fs_Wrapper_provides in H. unfold provide in H.
    cbn [perform op] in H. by destruct (WriteFile _ _ _ σ3); simplify_eq. }
  assert (∀ y : unit * option err, show y = (tt, None) → y = (tt, None)) as Hy by (by intros [[] [e|]]).
  assert (∃ fp, @Fingerprint _ _ (fs_adapter a) (op_request a op) = inr fp) as [fp Hfp].
  { inversion Hcall as [r e σ3 σ4 fp]. exists fp. assumption. }
  destruct (recorded_call_runs (A := fs_adapter a) env (op_request a) (real_call inner took) no_view
    (NewFileCassette cassetteDir) Hrf (demo_session ModeRecord tmp) clock 0 op σ1 σ2 (tt, None) ∅ eq_refl eq_refl Hcall)
    as [(y & Hrec & ->%Hy) Hh].
  destruct (replayed_call (A := fs_adapter a) env no_view (fs_adapter a) (op_request a)
    (real_call panickyFS took) (NewFileCassette cassetteDir) eq_refl (demo_session ModeReplay tmp) clock 1 op σ2 _ (tt, None) eq_refl eq_refl
    (Hh (holds_empty _ _ _))) as (y & Hrep & ->%Hy).
  { unfold look, look_up, record_one, record_entry, key. cbn [fst snd]. rewrite Hfp. by rewrite lookup_insert_eq. }
  rewrite (Hw _ _ _ _ _ _ Hrec), (Hw _ _ _ _ _ _ Hrep). by rewrite !sapp_assoc.
Qed.

(** It returns no error, and nothing is left of its temporary directory. *)
Theorem demo_run_ok env inner tmp clock took σ σ1 σ2 :
  let cassetteDir := filepath_Join [tmp; "cassettes"] in
  (∀ f, read_fault f = None) → MkdirAll cassetteDir (<[tmp := FDir]> σ) = (σ1, inr tt) →
  recorded_call (A := fs_adapter (demo_adapter tmp)) env (op_request (demo_adapter tmp)) (real_call inner took)
    no_view (NewFileCassette cassetteDir) 0 (clock 0) (OWriteFile (demo_target tmp) hello 420) σ1 σ2 (tt, None) →
  (demo_run env inner (inr tmp) clock took σ).2.2 = None ∧
  ∀ q, under tmp q → (demo_run env inner (inr tmp) clock took σ).1 !! q = None.
Proof.
  intros cassetteDir Hrf Hmk Hcall. unfold demo_run, MkdirTemp.
  rewrite (run_in_ok env inner tmp clock took _ σ1 σ2 Hrf Hmk Hcall).
  split; [done|]. intros q. apply RemoveAll_under.
Qed.
End properties.

(** ** At concrete values *)

Section witnesses.
#[local] Existing Instance ascii_only.
#[local] Existing Instance ReferenceYaml.lib.
#[local] Existing Instance ReferenceYaml.laws.
#[local] Existing Instance no_faults.
#[local] Existing Instance integral_floats.

(** A file system that refuses everything. *)
Definition refused : fs_call := λ σ, (σ, Some (ENew "read-only file system")).
Definition readOnlyFS : FS :=
  {| WriteFile _ _ _ := refused; Mkdir _ _ := refused; Remove _ := refused; RemoveAll _ := refused;
     Rename _ _ := refused; Chmod _ _ := refused; Chown _ _ _ := refused; Symlink _ _ := refused;
     Link _ _ := refused; Truncate _ _ := refused |}.

Definition demo_fs_cassette : FileCassette := NewFileCassette "/cas".
Definition cas_fs : fsys := {[ "/cas" := FDir ]}.
Definition fs_session (m : string) : FileSession := NewSession m (Some demo_fs_cassette).

Definition demo_op (op : operation) : Prop := op = OMkdir "/t1/d" 493 ∨ op = ORename "/t1/d" "/t1/e".
Definition demo_fs_program : program operation unit (option string * option string) :=
  Invoke (OMkdir "/t1/d" 493) (λ x, Invoke (ORename "/t1/d" "/t1/e") (λ y, Return (x.2, y.2))).

Definition fs_fp (op : operation) : string :=
  match Fs.Fingerprint (tmpNormalizer "/t1") (operation_request (np (tmpNormalizer "/t1")) op) with
  | inr fp => fp
  | inl _ => ""
  end.
Definition fs_stored (op : operation) : option (gmap string any) :=
  default None (stored no_env demo_fs_cassette (request_yaml (op_request (tmpNormalizer "/t1") op))).

Lemma fs_demo_op_fp op :
  demo_op op →
  Fs.Fingerprint (tmpNormalizer "/t1") (operation_request (np (tmpNormalizer "/t1")) op) = inr (fs_fp op).
Proof. intros [->| ->]; vm_compute; reflexivity. Qed.

Lemma fs_demo_op_stored op :
  demo_op op →
  stored no_env demo_fs_cassette (request_yaml (op_request (tmpNormalizer "/t1") op)) = Some (fs_stored op).
Proof. intros [->| ->]; vm_compute; reflexivity. Qed.

Lemma demo_fs_call i op σ :
  demo_op op → writable demo_fs_cassette "fs" σ →
  ∃ σ', recorded_call (A := fs_adapter (tmpNormalizer "/t1")) no_env (op_request (tmpNormalizer "/t1"))
    (real_call readOnlyFS (λ _, 0%Z)) no_view demo_fs_cassette i 0 op σ σ' (tt, Some "read-only file system") ∧
    writable demo_fs_cassette "fs" σ'.
Proof.
  intros Hop Hw. pose proof (fs_demo_op_fp op Hop) as Hfp. assert (cdir demo_fs_cassette ≠ "") as Hc by done.
  destruct (Save_writable demo_fs_cassette Hc no_env 0 "fs" (fs_fp op) (request_yaml (op_request (tmpNormalizer "/t1") op))
    (Fs.response_yaml {| Fs.DurationMs := 0; Fs.BytesWritten := 0 |}) (Some (ENew "read-only file system")) σ)
    as (σ' & Hs & Hw'); [|done|].
  { split; [done|]. eapply hex_no_slash, fingerprint_hex, Hfp. }
  exists σ'. split; [|done].
  refine (RecordedCall (A := fs_adapter (tmpNormalizer "/t1")) no_env (op_request (tmpNormalizer "/t1"))
    (real_call readOnlyFS (λ _, 0%Z)) no_view demo_fs_cassette i 0 op σ
    (RsFs {| Fs.DurationMs := 0; Fs.BytesWritten := 0 |}) (Some (ENew "read-only file system")) σ σ' (fs_fp op)
    (fs_stored op) (Some ∅) _ (λ _ _ _, eq_refl) Hfp Hs (fs_demo_op_stored op Hop) eq_refl eq_refl I _); [by destruct op|done].
Qed.

(** Recorded under [/t1], replayed under [/t2] over a file system that panics. *)
Lemma fs_cassettes_portable_witness :
  ∃ σ', (run (λ _, provide (Wrapper no_env panickyFS (fs_session ModeReplay) (tmpNormalizer "/t2") 7 3)) 0
    (Invoke (OMkdir "/t2/d" 493) (λ x, Invoke (ORename "/t2/d" "/t2/e") (λ y, Return (x.2, y.2)))) σ').2.1 =
    (Some "read-only file system", Some "read-only file system").
Proof.
  assert (writable demo_fs_cassette "fs" cas_fs) as Hw.
  { apply writable_short; [reflexivity|]. apply map_Forall_singleton. intros _. vm_compute. lia. }
  destruct (demo_fs_call 0 (OMkdir "/t1/d" 493) cas_fs) as (σ1 & H1 & W1); [by left|exact Hw|].
  destruct (demo_fs_call 1 (ORename "/t1/d" "/t1/e") σ1) as (σ2 & H2 & W2); [by right|exact W1|]. exists σ2.
  destruct (fs_cassettes_portable (O := no_faults) no_env no_env readOnlyFS panickyFS (fs_session ModeRecord)
    (fs_session ModeReplay) demo_fs_cassette (λ _, 0%Z) (λ _, 7%Z) (λ _, 0%Z) (λ _, 3%Z) "/t1" "/t2" demo_fs_program
    cas_fs σ2 σ2 (Some "read-only file system", Some "read-only file system")
    [(OMkdir "/t1/d" 493, (tt, Some "read-only file system"));
     (ORename "/t1/d" "/t1/e", (tt, Some "read-only file system"))]) as [_ H];
    [done|done|done|reflexivity|reflexivity|reflexivity|reflexivity| | | |done|].
  - eapply RecordedInvoke; [exact H1|]. eapply RecordedInvoke; [exact H2|]. apply RecordedReturn.
  - intros x y fp Hx Hy _ _. rewrite !elem_of_cons, elem_of_nil in Hx, Hy.
    by destruct Hx as [->|[->|[]]], Hy as [->|[->|[]]].
  - repeat constructor.
  - change (Invoke (OMkdir "/t2/d" 493) (λ x, Invoke (ORename "/t2/d" "/t2/e") (λ y, Return (x.2, y.2))))
      with (map_ops (map_paths (rebase "/t1" "/t2")) demo_fs_program).
    rewrite H. reflexivity.
Defined.
End witnesses.
