(* ===== verification/CliSuite.v ===== *)
(** go/cmd/xrr: a whole test suite under the shims - a program that calls commands, its
    calls answered by the shims of one run directory - and testdata/fakecli, the suite and
    the command line that the package's own tests run.

    What the shims record and replay, one call at a time (CliShim.v), is put together here:
    a recorded suite passes in replay, with its results, its log and the run's verdict. *)

From S2P Require Import Prelude GoStrings Values CanonicalJson Sha256 Yaml Redact Os Cassette Session Directory Programs Adapters Glob CliConfig CliScrub Paths CliPlatform CliReport CliShim CliRun.

(** ** Suites *)

(** A command that a suite starts: its environment if it is not the suite's own, the
    command, its arguments, and its standard input. *)
Record shim_call := {
  k_env : option (list string);
  k_bin : string;
  k_args : list string;
  k_char_device : bool;
  k_stdin : list input;
}.

(** What a suite is told of a command: standard output and exit code, and the error if the
    command did not start. *)
Abbreviation suite_program := (program shim_call (string * Z)).

Definition k_file (op : shim_call) : string := filepath_Base (k_bin op).

(** The process a command becomes; the clock is read when a cassette is saved. *)
Definition proc_of (senv : list string) (goos : string) (now dur : Z) (op : shim_call) : proc :=
  {| p_environ := default senv (k_env op); p_goos := goos; p_char_device := k_char_device op;
     p_stdin := k_stdin op; p_now := now; p_dur := dur |}.

Definition fresh_world (σ : fsys) : world := {| w_fs := σ; w_out := ""; w_err := ""; w_ran := [] |}.

(** The shim that a suite's PATH leads to. *)
Definition shim_exe (runDir : string) (op : shim_call) : string :=
  filepath_Join [filepath_Join [runDir; binSubdir]; k_file op].

Section suites.
Context {U : Unicode} {Y : YamlLib} {O : Faults} {F : FloatFormat} {P : Platform} {K : Child}.
Context {R : ResponseDecoder} {CD : ConfigDecoder}.
(** The suite's environment, its system, and the clock at its [i]-th call: the time of a
    save, and what a command took. *)
Variables (senv : list string) (goos : string) (clock : nat → Z * Z) (runDir : string).

Definition call_proc (i : nat) (op : shim_call) : proc := proc_of senv goos (clock i).1 (clock i).2 op.

Definition call_shim (i : nat) (op : shim_call) (σ : fsys) : fsys * (shown (string * Z) * list invocation) :=
  let '(w, r) := runAsShim (call_proc i op) (shim_exe runDir op) (k_args op) (fresh_world σ) in
  (w_fs w, (match r with
            | Some code => ((w_out w, code), None)
            | None => (("", 0%Z), Some "not a shim")
            end, w_ran w)).

(** A suite's result, and the real binaries that its shims started. *)
Fixpoint run_suite {B} (i : nat) (p : suite_program B) (σ : fsys) : fsys * (B * list invocation) :=
  match p with
  | Return b => (σ, (b, []))
  | Invoke op k =>
    let '(σ1, (x, ran)) := call_shim i op σ in
    let '(σ2, (b, ran')) := run_suite (S i) (k x) σ1 in
    (σ2, (b, ran ++ ran'))
  end.
End suites.

(** ** testdata/fakecli *)

Section fakecli.
Context {U : Unicode}.

(** The name that [main] switches on. *)
Fixpoint trim_ext (name : string) (exts : list string) : string :=
  match exts with
  | [] => name
  | e :: exts' => if HasSuffix name e then TrimSuffix name e else trim_ext name exts'
  end.
Definition fakecli_name (argv0 : string) : string :=
  trim_ext (ToLower (filepath_Base argv0)) [".exe"; ".cmd"; ".com"; ".bat"].

(** How a process ends: its two outputs and its exit code. *)
Record ended := { e_out : string; e_err : string; e_code : Z }.
Definition prints (out : string) (code : Z) : ended := {| e_out := out; e_err := ""; e_code := code |}.

(** What [call] prints of a command's outcome. *)
Definition call_text (bin : string) (args : list string) (x : shown (string * Z)) : string :=
  let '((out, code), e) := x in
  let '(text, rc) := match e with
                     | Some e => (bin +:+ ": " +:+ e +:+ newline, 100%Z)
                     | None => ("", code)
                     end in
  text +:+ out +:+ default "" (head args) +:+ " rc=" +:+ itoa rc +:+ newline.

(** [call]: a nil standard input is the null device. *)
Definition call {B} (env : option (list string)) (bin : string) (args : list string)
    (k : string → suite_program B) : suite_program B :=
  Invoke {| k_env := env; k_bin := bin; k_args := args; k_char_device := true; k_stdin := [] |}
    (λ x, k (call_text bin args x)).

Definition suite (lookPath : string → result string) (getenv : string → string) (args : list string)
    : suite_program ended :=
  let '(az, args) := match args with
                     | a :: rest => if HasPrefix a "bin=" then (TrimPrefix a "bin=", rest) else ("az", args)
                     | [] => ("az", args)
                     end in
  let first := head args in
  if bool_decide (first = Some "noenv") then
    match lookPath az with
    | inl e => Return (prints ("lookpath: " +:+ error_text e +:+ newline) 1)
    | inr bin =>
      let sr := getenv "SystemRoot" in
      let env := if bool_decide (sr = "") then [] else ["SystemRoot=" +:+ sr] in
      call (Some env) bin ["account"; "show"] (λ t, Return (prints t 0))
    end
  else if bool_decide (first = Some "rundir") then
    Return (prints ("XRR_RUN_DIR=" +:+ getenv "XRR_RUN_DIR" +:+ newline) 0)
  else
    call None az ["account"; "show"] (λ t1,
    call None az ["fail"] (λ t2,
    if bool_decide (first = Some "deny") then
      call None "open" ["x"] (λ t3, Return (prints (t1 +:+ t2 +:+ t3) 0))
    else Return (prints (t1 +:+ t2) 0))).

(** [main], under the name it was started by. *)
Definition fakecli (lookPath : string → result string) (getenv : string → string) (argv0 : string)
    (args : list string) : suite_program ended :=
  let name := fakecli_name argv0 in
  if bool_decide (name = "az") then
    Return {| e_out := "az:" +:+ Join args " " +:+ newline; e_err := "az-err" +:+ newline;
              e_code := if bool_decide (head args = Some "fail") then 3 else 0 |}
  else if bool_decide (name = "true") then Return (prints "" 0)
  else if bool_decide (name = "suite") then suite lookPath getenv args
  else Return {| e_out := ""; e_err := "fakecli: unknown name " +:+ Quote name +:+ newline; e_code := 99 |}.
End fakecli.

(** ** A suite's calls *)

Section properties.
Context {U : Unicode} {Y : YamlLib} {O : Faults} {L : YamlLaws} {F : FloatFormat} {P : Platform} {K : Child}.
Context {R : ResponseDecoder} {CD : ConfigDecoder} {D : CallDecoder}.
(** The one cassette directory of the recording and of the replay. *)
Variable dir : string.

Definition suite_cassette : FileCassette := NewFileCassette dir.

Definition shim_answer (text : string) (resp : Exec.Response) : string * Z :=
  (Exec.Stdout resp, replayed_code text resp).

#[local] Abbreviation table := (gmap string (string * Z)).

Definition shims_hold (σ : fsys) (t : table) : Prop :=
  directory_holds decodeResponse shim_answer "exec" suite_cassette σ t.

#[local] Abbreviation same_cassettes := (same_pairs "exec" suite_cassette).

Section setting.
Variables (senv : list string) (goos : string) (clock : nat → Z * Z) (cfg : runConfig) (runDir : string).

(** The shim of a call. *)
Definition shim_of (i : nat) (op : shim_call) : shim :=
  new_shim (call_proc senv goos clock i op) cfg runDir (k_file op) (k_args op).

Definition op_stdin (op : shim_call) : string :=
  if k_char_device op then "" else (read_until_idle (k_stdin op)).1.

(** The fingerprint under which a call is looked up. *)
Definition shim_key (op : shim_call) : result string :=
  Exec.Fingerprint {| Exec.Argv := Some (cassetteName (cmdFor cfg (k_file op) goos) :: k_args op);
                      Exec.Stdin := op_stdin op; Exec.Cwd := ""; Exec.Env := ∅ |}.

(** The run directory holds a configuration that reads as [cfg]. *)
Definition configured (σ : fsys) : Prop :=
  runDir ≠ "" ∧ Clean runDir = runDir ∧ HasPrefix (filepath_Base runDir) runDirPrefix ∧
  (∃ data, σ !! filepath_Join [runDir; configFile] = Some (FFile data)) ∧ (loadConfig runDir σ).2 = inr cfg.

(** A call that was recorded properly: it found its shim, was not denied, the real binary
    ran, read its input to the end and left the cassettes alone, the pair was saved and can
    be decoded, and the output held no secret. *)
Inductive shim_recorded (i : nat) (op : shim_call) (σ : fsys) : fsys → string * Z → Prop :=
| ShimRecorded w1 code out errs fp σ2 q :
    let p := call_proc senv goos clock i op in
    let s := shim_of i op in
    configured σ → plain_name (k_file op) → inNames (c_Deny cfg) (sh_name s) = false →
    execReal p s (p_stdin p) (p_char_device p) true (fresh_world σ) = (w1, (code, None, (op_stdin op, out, errs))) →
    same_cassettes σ (w_fs w1) → shim_key op = inr fp →
    Save (getenv p) suite_cassette (p_now p) "exec" fp (Exec.request_yaml (saved_request p s (op_stdin op)))
      (Exec.response_yaml (saved_response p s out errs code)) (exit_error code) (w_fs w1) = (σ2, inr tt) →
    decoded (getenv p) suite_cassette yDecodeMap (Exec.request_yaml (saved_request p s (op_stdin op))) = Some q →
    decoded (getenv p) suite_cassette decodeResponse (Exec.response_yaml (saved_response p s out errs code)) =
      Some (saved_response p s out errs code) →
    scrub (sh_env s) out = out → (0 ≤ code)%Z →
    shim_recorded i op σ (w_fs (record p s (fresh_world σ)).1) (out, code).

Inductive suite_recorded {B} : nat → suite_program B → fsys → fsys → B → list (shim_call * (string * Z)) → Prop :=
| SuiteReturn i b σ : suite_recorded i (Return b) σ σ b []
| SuiteInvoke i op k σ σ1 σ2 x b l :
    shim_recorded i op σ σ1 x → suite_recorded (S i) (k (x, None)) σ1 σ2 b l →
    suite_recorded i (Invoke op k) σ σ2 b ((op, x) :: l).

(** *** One call *)

Lemma started_shim i op σ :
  (∀ q, read_fault q = None) → configured σ → plain_name (k_file op) →
  runAsShim (call_proc senv goos clock i op) (shim_exe runDir op) (k_args op) (fresh_world σ) =
  let '(w, code) := run (call_proc senv goos clock i op) (shim_of i op) (fresh_world σ) in (w, Some code).
Proof.
  intros Hrf (Hne & Hcl & Hpre & [data Hdata] & Hload) Hplain. unfold runAsShim, shim_exe.
  cbn [fresh_world w_fs].
  rewrite (shimIdentity_bin runDir (k_file op) σ data) by (rewrite ?Hcl; done). rewrite Hcl.
  unfold shimMain, mbind, sh_bind, call_fs. cbn [fresh_world w_fs w_out w_err w_ran].
  assert ((loadConfig runDir σ).1 = σ) as Hfs.
  { unfold loadConfig, mbind, io_bind, ReadFile, lift. split_match. }
  destruct (loadConfig runDir σ) as [σ' r]. simpl in Hfs, Hload. subst σ' r.
  fold (fresh_world σ). fold (shim_of i op). by destruct (run _ _ _).
Qed.

Lemma started_as_shim i op σ :
  (∀ q, read_fault q = None) → configured σ → plain_name (k_file op) →
  call_shim senv goos clock runDir i op σ =
  let '(w, code) := run (call_proc senv goos clock i op) (shim_of i op) (fresh_world σ) in
  (w_fs w, (((w_out w, code), None), w_ran w)).
Proof. intros. unfold call_shim. rewrite started_shim by done. by destruct (run _ _ _). Qed.

(** A file of a cassette is not the call log. *)
Lemma pair_not_log fp kind d :
  fingerprint_shape fp → pair_kind kind → pair_path "exec" suite_cassette fp kind ≠ calls_path d.
Proof.
  intros Hf Hk H. apply (f_equal filepath_Base) in H. unfold pair_path, file_path, calls_path in H.
  rewrite !filepath_Base_Join in H; [|by split_and!|by apply pair_name_plain]. done.
Qed.

Lemma live_request_key i op :
  Exec.Fingerprint (live_request (shim_of i op) (op_stdin op)) = shim_key op.
Proof. done. Qed.

Lemma shim_recorded_runs i op σ σ' x t :
  (∀ q, read_fault q = None) → c_Mode cfg = ModeRecord → c_CassetteDir cfg = dir →
  shim_recorded i op σ σ' x →
  (∃ ran, call_shim senv goos clock runDir i op σ = (σ', ((x, None), ran))) ∧
  (shims_hold σ t → shims_hold σ' (record_entry shim_key t (op, x))).
Proof.
  intros Hrf Hm Hdir [w1 code out errs fp σ2 q p s Hconf Hplain Hdeny He Hsame Hfp Hsave Hq Hr Hscrub Hcode].
  assert (CliShim.run p s (fresh_world σ) = record p s (fresh_world σ)) as Hrun.
  { unfold CliShim.run. change (sh_cfg s) with cfg. by rewrite Hdeny, Hm, bool_decide_eq_true_2. }
  assert (NewFileCassette (c_CassetteDir (sh_cfg s)) = suite_cassette) as Hcas.
  { change (sh_cfg s) with cfg. unfold suite_cassette. by rewrite Hdir. }
  pose proof Hsave as Hsave'. rewrite <-Hcas in Hsave'.
  destruct (record_saved p s (fresh_world σ) w1 code _ out errs fp σ2 He Hfp Hsave') as (Hc & Ho & Hf).
  pose proof (execReal_out _ _ _ _ _ _ _ _ _ _ _ He) as Hout. split.
  - rewrite started_as_shim by done. fold p s. rewrite Hrun.
    destruct (record p s (fresh_world σ)) as [w' code']. simpl in *. subst code'. rewrite Ho, Hout. by eexists.
  - intros Ht. unfold record_entry. cbn [fst snd]. rewrite Hfp.
    assert (fingerprint_shape fp) as Hshape by (eapply fingerprint_hex, Hfp).
    assert ((out, code) = shim_answer (recorded_text (exit_error code)) (saved_response p s out errs code)) as ->.
    { unfold shim_answer. rewrite replayed_code_recorded by done. cbn [Exec.Stdout saved_response]. by rewrite Hscrub. }
    apply (directory_frame _ _ _ _ σ2).
    + intros fp' kind Hs Hk. apply Hf. by apply pair_not_log.
    + apply (directory_Save (getenv p) _ _ "exec" _ eq_refl _ _ _ _ _ _ _ _ q _ Hrf Hshape (exit_error_text code) Hq Hr Hsave).
      by apply (directory_frame _ _ _ _ σ).
Qed.

Lemma suite_recorded_runs {B} i (p : suite_program B) σ σ' b l t :
  (∀ q, read_fault q = None) → c_Mode cfg = ModeRecord → c_CassetteDir cfg = dir →
  suite_recorded i p σ σ' b l →
  (∃ ran, run_suite senv goos clock runDir i p σ = (σ', (b, ran))) ∧
  (shims_hold σ t → shims_hold σ' (record_entries shim_key t l)).
Proof.
  intros Hrf Hm Hdir H. revert t. induction H as [i b σ|i op k σ σ1 σ2 x b l Hcall _ IH]; intros t.
  { split; [by eexists|done]. }
  destruct (shim_recorded_runs i op σ σ1 x t Hrf Hm Hdir Hcall) as [[ran Hx] Ht].
  destruct (IH (record_entry shim_key t (op, x))) as [[ran' Hrun] Hl]. split.
  - eexists. cbn [run_suite]. by rewrite Hx, Hrun.
  - intros H. by apply Hl, Ht.
Qed.

Lemma suite_recorded_keys {B} i (p : suite_program B) σ σ' b l :
  suite_recorded i p σ σ' b l → Forall (λ x, plain_name (k_file x.1) ∧ ∃ fp, shim_key x.1 = inr fp) l.
Proof. induction 1 as [|i op k σ σ1 σ2 x b l Hcall _ IH]; constructor; [|done]. destruct Hcall; eauto. Qed.

(** *** One call, answered *)

(** The run directory of a replay, as its shims find it and leave it. *)
Definition replay_ready (σ : fsys) : Prop :=
  configured σ ∧ σ !! runDir = Some FDir ∧ σ !! calls_path runDir ≠ Some FDir.

Lemma replay_ready_log data σ : replay_ready σ → replay_ready (<[calls_path runDir := FFile data]> σ).
Proof.
  intros ((Hne & Hcl & Hpre & [cdata Hc] & Hload) & Hdir & Hlog).
  assert (calls_path runDir ≠ filepath_Join [runDir; configFile]) as Hne1.
  { intros H. apply filepath_Join_inj in H; [done|by split_and!..]. }
  assert (calls_path runDir ≠ runDir) as Hne2 by congruence.
  unfold replay_ready, configured. split_and!; try done.
  - exists cdata. by rewrite lookup_insert_ne.
  - revert Hload. unfold loadConfig, mbind, io_bind, ReadFile, lift. rewrite lookup_insert_ne by done. split_match.
  - by rewrite lookup_insert_ne.
  - by rewrite lookup_insert_eq.
Qed.

(** The log's entry for a replayed call. *)
Definition shim_entry (call : shim_call * (string * Z)) : callEntry :=
  replayed_entry (shim_of 0 call.1) (match shim_key call.1 with inr fp => fp | inl _ => "" end) call.2.2.

Lemma shim_replayed i op σ t x :
  (∀ q, read_fault q = None) → write_fault (calls_path runDir) = None →
  c_Mode cfg = ModeReplay → c_CassetteDir cfg = dir →
  replay_ready σ → shims_hold σ t → plain_name (k_file op) →
  inNames (c_Deny cfg) (cassetteName (cmdFor cfg (k_file op) goos)) = false →
  look_up shim_key t op = Some x →
  ∃ data, let σ' := <[calls_path runDir := FFile data]> σ in
    call_shim senv goos clock runDir i op σ = (σ', ((x, None), [])) ∧
    appendCall runDir (shim_entry (op, x)) σ = (σ', inr tt).
Proof.
  intros Hrf Hwf Hm Hdir (Hconf & Hrd & Hlog) Ht Hplain Hdeny Hx.
  unfold look_up in Hx. destruct (shim_key op) as [|fp] eqn:Hfp; [done|].
  destruct (Ht fp x Hx) as (_ & text & q & resp & Hl & ->).
  pose proof Hconf as (Hne & Hcl & _).
  destruct (appendCall_ok runDir (shim_entry (op, shim_answer text resp)) σ) as [data Hdata]; [done..|by rewrite Hcl|done|].
  exists data. split; [|done]. rewrite started_as_shim by done.
  set (p := call_proc senv goos clock i op). set (s := shim_of i op).
  assert (CliShim.run p s (fresh_world σ) = replay p s (fresh_world σ)) as ->.
  { unfold CliShim.run. change (sh_cfg s) with cfg. change (sh_name s) with (cassetteName (cmdFor cfg (k_file op) goos)).
    by rewrite Hdeny, Hm, bool_decide_eq_false_2, bool_decide_eq_true_2. }
  assert (NewFileCassette (c_CassetteDir (sh_cfg s)) = suite_cassette) as Hcas.
  { change (sh_cfg s) with cfg. unfold suite_cassette. by rewrite Hdir. }
  assert (∃ rest, readStdinIdle p = (op_stdin op, rest)) as [rest Hin].
  { unfold readStdinIdle, op_stdin. subst p. cbn [p_char_device p_stdin call_proc proc_of].
    destruct (k_char_device op); [by eexists|]. destruct (read_until_idle _); by eexists. }
  pose proof (replay_answered p s (fresh_world σ) _ rest fp text q resp Hin Hfp) as Hr.
  rewrite Hcas in Hr. cbn [fresh_world w_fs] in Hr. rewrite Hl in Hr. specialize (Hr eq_refl).
  destruct (replay p s (fresh_world σ)) as [w c]. destruct Hr as (-> & Hout & Hran & Hfs).
  change (replayed_entry s fp (replayed_code text resp)) with
    (replayed_entry (shim_of 0 op) fp (replayed_code text resp)) in Hfs.
  unfold shim_entry in Hdata. cbn [fst snd] in Hdata. rewrite Hfp in Hdata.
  change (shim_answer text resp).2 with (replayed_code text resp) in Hdata.
  change (sh_runDir s) with runDir in Hfs. rewrite Hdata in Hfs. simpl in *. by rewrite Hfs, Hout, Hran.
Qed.
End setting.

(** *** The suite, answered *)

Lemma suite_replayed {B} senv goos clock cfg runDir senv' goos' clock' cfg' runDir' i j (p : suite_program B)
    σ0 σ0' b l t σ :
  suite_recorded senv goos clock cfg runDir i p σ0 σ0' b l →
  (∀ q, read_fault q = None) → write_fault (calls_path runDir') = None →
  c_Mode cfg' = ModeReplay → c_CassetteDir cfg' = dir → replay_ready cfg' runDir' σ → shims_hold σ t →
  Forall (λ x, plain_name (k_file x.1) ∧
    inNames (c_Deny cfg') (cassetteName (cmdFor cfg' (k_file x.1) goos')) = false ∧
    look_up (shim_key goos' cfg') t x.1 = Some x.2) l →
  ∃ σ', run_suite senv' goos' clock' runDir' j p σ = (σ', (b, [])) ∧
    appendCalls runDir' (shim_entry senv' goos' clock' cfg' runDir' <$> l) σ = (σ', inr tt).
Proof.
  intros H Hrf Hwf Hm Hdir. revert j σ. induction H as [i b σ1|i op k σ1 σ2 σ3 x b l _ _ IH]; intros j σ Hready Ht Hall.
  { by exists σ. }
  apply Forall_cons in Hall as [(Hplain & Hdeny & Hx) Hall].
  destruct (shim_replayed senv' goos' clock' cfg' runDir' j op σ t x Hrf Hwf Hm Hdir Hready Ht Hplain Hdeny Hx)
    as (data & Hcall & Hlog).
  destruct (IH (S j) (<[calls_path runDir' := FFile data]> σ)) as (σ' & Hrun & Hlogs); [..|done|].
  { by apply replay_ready_log. }
  { apply (directory_frame _ _ _ _ σ); [|done]. intros fp kind Hs Hk.
    rewrite lookup_insert_ne; [done|]. by apply not_eq_sym, pair_not_log. }
  exists σ'. cbn [run_suite]. rewrite Hcall, Hrun. split; [done|].
  rewrite fmap_cons. cbn [appendCalls]. unfold mbind, io_bind. by rewrite Hlog.
Qed.

Lemma replayed_entries_pass senv goos clock cfg runDir l :
  anyFailing (shim_entry senv goos clock cfg runDir <$> l) = false.
Proof. by induction l. Qed.

(** C7. A suite that was recorded passes in replay: when each call of a suite was recorded
    properly, and calls with one fingerprint had one outcome, then in another run over the
    same cassettes - another run directory, another environment, another clock - the shims
    give the suite the same answers, so that it comes to the same result; no real binary
    is started; nothing is changed but the call log, which holds one replayed call for each
    recorded one, in order; and the run's verdict is the suite's own exit code. *)
Theorem suite_record_replay {B} senv senv' goos goos' clock clock' cfg cfg' runDir runDir' i j
    (p : suite_program B) σ σ' σr b l :
  (∀ q, read_fault q = None) → write_fault (calls_path runDir') = None →
  c_Mode cfg = ModeRecord → c_CassetteDir cfg = dir → c_Mode cfg' = ModeReplay → c_CassetteDir cfg' = dir →
  suite_recorded senv goos clock cfg runDir i p σ σ' b l → one_outcome (shim_key goos cfg) l →
  configured cfg' runDir' σr → σr !! runDir' = Some FDir → σr !! calls_path runDir' = None →
  same_cassettes σ' σr →
  Forall (λ x, inNames (c_Deny cfg') (cassetteName (cmdFor cfg' (k_file x.1) goos')) = false ∧
    shim_key goos' cfg' x.1 = shim_key goos cfg x.1) l →
  let entries := shim_entry senv' goos' clock' cfg' runDir' <$> l in
  (∀ e text, e ∈ entries → go_json true (callEntry_json e) = inr text → unmarshalCall text = inr e) →
  (∃ ran, run_suite senv goos clock runDir i p σ = (σ', (b, ran))) ∧
  ∃ σr', run_suite senv' goos' clock' runDir' j p σr = (σr', (b, [])) ∧
    (∀ q, q ≠ calls_path runDir' → σr' !! q = σr !! q) ∧
    readCalls runDir' σr' = (σr', inr entries) ∧
    ∀ o code w, o_reportFile o = "" → w_fs w = σr' → (report o cfg' runDir' code w).2 = code.
Proof.
  intros Hrf Hwf Hm Hdir Hm' Hdir' Hrec Hone Hconf Hrd Hlog Hsame Hall entries Hdec.
  destruct (suite_recorded_runs senv goos clock cfg runDir i p σ σ' b l ∅ Hrf Hm Hdir Hrec) as [Hrun Ht].
  split; [done|]. specialize (Ht (directory_empty _ _ _ _ _)).
  apply (directory_frame _ _ _ _ _ _ _ Hsame) in Ht. pose proof Hconf as (Hne & Hcl & _).
  destruct (suite_replayed senv goos clock cfg runDir senv' goos' clock' cfg' runDir' i j p σ σ' b l (record_entries (shim_key goos cfg) ∅ l) σr Hrec
    Hrf Hwf Hm' Hdir') as (σr' & Hrun' & Hcalls); [by split_and!; rewrite ?Hlog|exact Ht| |].
  { pose proof (suite_recorded_keys _ _ _ _ _ _ _ _ _ _ _ Hrec) as Hkeys. rewrite Forall_forall in Hall, Hkeys |- *.
    intros x Hx. destruct (Hall x Hx) as [Hd Hk], (Hkeys x Hx) as [Hp [fp Hfp]]. split_and!; [done..|].
    unfold look_up. rewrite Hk, Hfp. by apply record_entries_last. }
  exists σr'. split; [done|].
  destruct (appendCalls_readCalls runDir' entries σr Hne Hwf (Hrf _)) as (σ2 & H1 & H2 & H3); [by rewrite Hcl|done..|].
  assert (σ2 = σr') as -> by (change (entries) with (shim_entry senv' goos' clock' cfg' runDir' <$> l) in H1; congruence).
  split_and!; [done..|]. intros o code w Ho <-. unfold report, mbind, sh_bind, call_fs, writeErr. rewrite H3, Ho.
  cbn [snd]. rewrite bool_decide_eq_true_2 by done. unfold verdict, entries. rewrite replayed_entries_pass.
  destruct (Z.eqb_spec code 0) as [->|]; done.
Qed.
End properties.

(** ** At concrete values *)

Section witnesses.
#[local] Existing Instance ascii_only.
#[local] Existing Instance ReferenceYaml.lib.
#[local] Existing Instance ReferenceYaml.laws.
#[local] Existing Instance no_faults.
#[local] Existing Instance integral_floats.
#[local] Existing Instance shim_platform.
#[local] Existing Instance shim_responses.

Definition no_path (file : string) : result string := inl (ENew "exec: not found").

(** The real binary is fakecli, started as az. *)
#[local] Instance az_child : Child :=
  {| run_child i σ :=
       match fakecli no_path (Getenv (i_env i)) (i_path i) (tail (i_argv i)) with
       | Return e =>
         (σ, Ran 0 (e_out e) (e_err e)
               (if bool_decide (e_code e = 0%Z) then WOk
                else WErr (EExit (e_code e) None ("exit status " +:+ itoa (e_code e)))))
       | Invoke _ _ => (σ, NoStart (ENew "no suite inside a suite"))
       end;
     pipe_fault := None |}.

Definition suite_config (mode : string) : runConfig :=
  {| c_Mode := mode; c_CassetteDir := "/cas"; c_RealPath := "/bin"; c_Strict := true; c_Deny := ["open"];
     c_EnvCapture := []; c_ScrubDeny := []; c_ScrubAllow := []; c_Cmds := {[ "az" := "az"; "open" := "open" ]};
     c_StdinWaitMs := 250 |}.

#[local] Instance suite_configs : ConfigDecoder := λ b,
  if bool_decide (b = "record") then inr (suite_config ModeRecord) else
  if bool_decide (b = "replay") then inr (suite_config ModeReplay) else inl (ENew "json: bad").

Definition rec_dir : string := "/tmp/xrr-run-1".
Definition rep_dir : string := "/tmp/xrr-run-2".

Definition suite_fs : fsys :=
  {[ "/bin/az" := FFile "ELF"; "/cas" := FDir; rec_dir := FDir; "/tmp/xrr-run-1/config.json" := FFile "record" ]}.

Definition suite_env : list string := ["PATH=/bin"].
Definition suite_clock (i : nat) : Z * Z := (Z.of_nat i, 5%Z).
Definition later_clock (i : nat) : Z * Z := (1000 + Z.of_nat i, 0)%Z.

Definition az_call (args : list string) : shim_call :=
  {| k_env := None; k_bin := "az"; k_args := args; k_char_device := true; k_stdin := [] |}.
Definition az_out (args : list string) : string := "az:" +:+ Join args " " +:+ newline.

Definition rec_call (i : nat) (args : list string) (σ : fsys) : fsys :=
  (call_shim suite_env "linux" suite_clock rec_dir i (az_call args) σ).1.

Definition the_suite : suite_program ended := fakecli no_path (Getenv suite_env) "/src/suite" [].

(** What a call of the recording comes to. *)
Definition rec_shim (i : nat) (args : list string) : shim :=
  shim_of suite_env "linux" suite_clock (suite_config ModeRecord) rec_dir i (az_call args).
Definition rec_world (i : nat) (args : list string) (σ : fsys) : world :=
  (execReal (call_proc suite_env "linux" suite_clock i (az_call args)) (rec_shim i args) [] true true (fresh_world σ)).1.
Definition az_fp (args : list string) : string :=
  match shim_key "linux" (suite_config ModeRecord) (az_call args) with inr fp => fp | inl _ => "" end.
Definition az_request (i : nat) (args : list string) : any :=
  Exec.request_yaml (saved_request (call_proc suite_env "linux" suite_clock i (az_call args)) (rec_shim i args) "").
Definition az_response (i : nat) (args : list string) (code : Z) : any :=
  Exec.response_yaml (saved_response (call_proc suite_env "linux" suite_clock i (az_call args)) (rec_shim i args)
    (az_out args) ("az-err" +:+ newline) code).
Definition az_saved (i : nat) (args : list string) (code : Z) (σ : fsys) : fsys :=
  (Save (Getenv suite_env) (suite_cassette "/cas") (Z.of_nat i) "exec" (az_fp args) (az_request i args)
    (az_response i args code) (exit_error code) (w_fs (rec_world i args σ))).1.
Definition az_query (i : nat) (args : list string) : option (gmap string any) :=
  default None (decoded (Getenv suite_env) (suite_cassette "/cas") yDecodeMap (az_request i args)).

Definition show_args : list string := ["account"; "show"].
Definition fail_args : list string := ["fail"].

Definition suite_fs1 : fsys :=
  w_fs (record (call_proc suite_env "linux" suite_clock 0 (az_call show_args)) (rec_shim 0 show_args) (fresh_world suite_fs)).1.
Definition suite_fs2 : fsys :=
  w_fs (record (call_proc suite_env "linux" suite_clock 1 (az_call fail_args)) (rec_shim 1 fail_args) (fresh_world suite_fs1)).1.

Definition replay_fs : fsys :=
  <[rep_dir := FDir]> (<["/tmp/xrr-run-2/config.json" := FFile "replay"]> suite_fs2).

Definition suite_log : list (shim_call * (string * Z)) :=
  [(az_call show_args, (az_out show_args, 0%Z)); (az_call fail_args, (az_out fail_args, 3%Z))].

Definition suite_printed : string :=
  "az:account show" +:+ newline +:+ "account rc=0" +:+ newline +:+ "az:fail" +:+ newline +:+ "fail rc=3" +:+ newline.

Definition later_env : list string := ["PATH=/usr/bin"; "HOME=/h"].

Definition suite_entries : list callEntry :=
  shim_entry later_env "linux" later_clock (suite_config ModeReplay) rep_dir <$> suite_log.

#[local] Instance suite_calls : CallDecoder := λ b,
  match List.find (λ e, bool_decide (go_json true (callEntry_json e) = inr b)) suite_entries with
  | Some e => inr e
  | None => inl (ENew "json: bad")
  end.

(** Two shimmed calls are recorded, the second of a command that fails. *)
Lemma demo_suite_recorded :
  suite_recorded "/cas" suite_env "linux" suite_clock (suite_config ModeRecord) rec_dir 0 the_suite suite_fs suite_fs2
    (prints suite_printed 0) suite_log.
Proof.
  apply (SuiteInvoke _ _ _ _ _ _ 0 (az_call show_args) _ suite_fs suite_fs1 suite_fs2 (az_out show_args, 0%Z)).
  - apply (ShimRecorded "/cas" suite_env "linux" suite_clock (suite_config ModeRecord) rec_dir 0 (az_call show_args)
      suite_fs (rec_world 0 show_args suite_fs) 0 (az_out show_args) ("az-err" +:+ newline) (az_fp show_args)
      (az_saved 0 show_args 0 suite_fs) (az_query 0 show_args));
      first [by intros fp kind _ _|(vm_compute; reflexivity)|(vm_compute; by split_and!)|idtac].
    + split_and!; [done|vm_compute; reflexivity|vm_compute; exact I|exists "record"; vm_compute; reflexivity|
          vm_compute; reflexivity].
    + done.
  - apply (SuiteInvoke _ _ _ _ _ _ 1 (az_call fail_args) _ suite_fs1 suite_fs2 suite_fs2 (az_out fail_args, 3%Z)).
    + apply (ShimRecorded "/cas" suite_env "linux" suite_clock (suite_config ModeRecord) rec_dir 1 (az_call fail_args)
        suite_fs1 (rec_world 1 fail_args suite_fs1) 3 (az_out fail_args) ("az-err" +:+ newline) (az_fp fail_args)
        (az_saved 1 fail_args 3 suite_fs1) (az_query 1 fail_args));
        first [by intros fp kind _ _|(vm_compute; reflexivity)|(vm_compute; by split_and!)|idtac].
      * split_and!; [done|vm_compute; reflexivity|vm_compute; exact I|exists "record"; vm_compute; reflexivity|
          vm_compute; reflexivity].
      * done.
    + apply SuiteReturn.
Qed.

Lemma demo_one_outcome : one_outcome (shim_key "linux" (suite_config ModeRecord)) suite_log.
Proof.
  intros x y fp. unfold suite_log. rewrite !elem_of_cons, !elem_of_nil.
  intros [Ex|[Ex|[]]] [Ey|[Ey|[]]] Hx Hy.
  1, 4: by rewrite Ex, Ey.
  all: rewrite Ex in Hx; rewrite Ey in Hy; vm_compute in Hx; vm_compute in Hy; congruence.
Qed.

(** In the replay the same two lines are printed, no binary starts, and the run passes. *)
Lemma suite_record_replay_witness :
  ∃ σr', run_suite later_env "linux" later_clock rep_dir 0 the_suite replay_fs =
      (σr', (prints suite_printed 0, [])) ∧
    ∃ calls, (readCalls rep_dir σr').2 = inr calls ∧ ce_Outcome <$> calls = [outReplayed; outReplayed].
Proof.
  pose proof (suite_record_replay "/cas" suite_env later_env "linux" "linux" suite_clock later_clock
    (suite_config ModeRecord) (suite_config ModeReplay) rec_dir rep_dir 0 0 the_suite suite_fs suite_fs2 replay_fs
    (prints suite_printed 0) suite_log) as H.
  cbv zeta in H. destruct H as [_ (σr' & Hrun & _ & Hlog & _)].
  - intros q. reflexivity.
  - reflexivity.
  - reflexivity.
  - reflexivity.
  - reflexivity.
  - reflexivity.
  - exact demo_suite_recorded.
  - exact demo_one_outcome.
  - split_and!; [intros E; discriminate E|vm_compute; reflexivity|vm_compute; exact I|eexists; vm_compute; reflexivity|
      vm_compute; reflexivity].
  - vm_compute. reflexivity.
  - vm_compute. reflexivity.
  - intros fp kind Hs Hk. unfold replay_fs. rewrite !lookup_insert_ne; [reflexivity|..]; intros E.
    + apply (f_equal filepath_Base) in E. unfold pair_path, file_path in E.
      rewrite filepath_Base_Join in E by (by apply pair_name_plain). discriminate E.
    + apply (f_equal filepath_Base) in E. unfold pair_path, file_path in E.
      rewrite filepath_Base_Join in E by (by apply pair_name_plain). discriminate E.
  - repeat constructor; vm_compute; reflexivity.
  - intros e text He Hj. unfold unmarshalCall, suite_calls.
    unfold suite_log in He. rewrite !fmap_cons, !elem_of_cons, fmap_nil, elem_of_nil in He. destruct He as [->|[->|[]]]; vm_compute in Hj; injection Hj as <-;
      vm_compute; reflexivity.
  - exists σr'. split; [exact Hrun|]. eexists. split; [rewrite Hlog; reflexivity|]. vm_compute. reflexivity.
Defined.
End witnesses.
