(* ===== verification/CliParallel.v ===== *)
(** go/cmd/xrr: shims that run at the same time - the stages of a pipeline, background jobs,
    a parallel test runner - as processes that share the file system and take turns, one
    system call at a time.

    CliShim.v gives a shim as one step and CliSuite.v runs a suite's shims one after the
    other; here every schedule of strict replaying shims is shown to be as good as that. *)

From stdpp Require Import relations.
From S2P Require Import Prelude GoStrings Values CanonicalJson Sha256 Yaml Redact Os Cassette Session Directory Programs Adapters Glob CliConfig CliScrub Paths CliPlatform CliReport CliShim CliRun CliSuite.

(** ** A shim in steps *)

(** What a shim does once it has its answer: what it prints, the outcome it logs, with the
    fingerprint and the detail, and its exit code. *)
Record reaction := {
  a_out : string;
  a_err : string;
  a_outcome : string;
  a_fp : string;
  a_code : Z;
  a_detail : string;
}.

(** Where a shim is: started, its run directory found, configured, the request file of the
    cassette read, with its answer but not yet logged, or at its end. *)
Inductive shim_pc : Type :=
| Begun
| Found (runDir file : string)
| Shimmed (s : shim)
| HalfRead (s : shim) (fp : string) (q : string * option (gmap string any))
| Answered (s : shim) (a : reaction)
| Ended (out errs : string) (code : option Z).

Section steps.
Context {U : Unicode} {Y : YamlLib} {O : Faults} {F : FloatFormat} {P : Platform} {K : Child}.
Context {R : ResponseDecoder} {CD : ConfigDecoder}.

Section process.
Variables (p : proc) (exe : string) (args : list string).

Definition line (s : string) : string := s +:+ newline.

(** [run] and [replay], as far as they come without a file: the answer to a denied command
    and to a request that has no fingerprint, or the fingerprint to look for. *)
Definition first_answer (s : shim) : option (reaction + string) :=
  if inNames (c_Deny (sh_cfg s)) (sh_name s) then
    Some (inl {| a_out := "";
                 a_err := line ("xrr: denied: " +:+ Join (safeArgv s) " " +:+
                                " (side-effect command blocked by xrr run; real binary not executed)");
                 a_outcome := outDenied; a_fp := ""; a_code := exitDenied;
                 a_detail := "blocked, real binary not executed" |})
  else if bool_decide (c_Mode (sh_cfg s) = ModeReplay) then
    match Exec.Fingerprint (live_request s (readStdinIdle p).1) with
    | inl e =>
      Some (inl {| a_out := ""; a_err := line ("xrr: fingerprint " +:+ sh_name s +:+ ": " +:+ error_text e);
                   a_outcome := outError; a_fp := ""; a_code := exitUsage; a_detail := error_text e |})
    | inr fp => Some (inr fp)
    end
  else None.

(** [replay] after the load; a miss that is let through runs the real binary, which is no
    reaction. *)
Definition loaded_reaction (s : shim) (fp : string)
    (r : result (string * option (gmap string any) * Exec.Response)) : option reaction :=
  match r with
  | inl e =>
    if errors_is e SCassetteMiss then
      if c_Strict (sh_cfg s) then
        Some {| a_out := "";
                a_err := line ("xrr: cassette miss: " +:+ Join (safeArgv s) " " +:+ " (fingerprint " +:+ fp +:+
                               ", dir " +:+ c_CassetteDir (sh_cfg s) +:+ ")");
                a_outcome := outMiss; a_fp := fp; a_code := exitMiss; a_detail := "" |}
      else None
    else
      Some {| a_out := ""; a_err := line ("xrr: load cassette for " +:+ sh_name s +:+ ": " +:+ error_text e);
              a_outcome := outError; a_fp := fp; a_code := exitUsage; a_detail := error_text e |}
  | inr (recErr, _, resp) =>
    Some {| a_out := Exec.Stdout resp; a_err := Exec.Stderr resp; a_outcome := outReplayed; a_fp := fp;
            a_code := replayed_code recErr resp; a_detail := "" |}
  end.

Definition reaction_entry (s : shim) (a : reaction) : callEntry :=
  {| ce_Cmd := sh_name s; ce_Argv := safeArgv s; ce_Outcome := a_outcome a; ce_Fingerprint := a_fp a;
     ce_ExitCode := a_code a; ce_Detail := a_detail a |}.

Definition shim_cassette (s : shim) : FileCassette := NewFileCassette (c_CassetteDir (sh_cfg s)).

Definition answering (s : shim) (σ : fsys) (a : option reaction) : option (fsys * shim_pc) :=
  a ← a; Some (σ, Answered s a).

(** The next system call. A shim that does not replay, or would run a real binary, is not
    stepped. *)
Definition shim_step (σ : fsys) (pc : shim_pc) : option (fsys * shim_pc) :=
  match pc with
  | Begun =>
    Some (σ, match shimIdentity exe σ with None => Ended "" "" None | Some (d, f) => Found d f end)
  | Found d f =>
    let '(σ', r) := loadConfig d σ in
    Some (σ', match r with
              | inl e => Ended "" (line ("xrr shim " +:+ f +:+ ": " +:+ error_text e)) (Some exitUsage)
              | inr cfg => Shimmed (new_shim p cfg d f args)
              end)
  | Shimmed s =>
    match first_answer s with
    | None => None
    | Some (inl a) => Some (σ, Answered s a)
    | Some (inr fp) =>
      match read_into yDecodeMap (shim_cassette s) "exec" fp "req" σ with
      | (σ', inl e) => answering s σ' (loaded_reaction s fp (inl e))
      | (σ', inr q) => Some (σ', HalfRead s fp q)
      end
    end
  | HalfRead s fp q =>
    let '(σ', r) := read_into decodeResponse (shim_cassette s) "exec" fp "resp" σ in
    answering s σ' (loaded_reaction s fp (x ← r; mret (x.1, q.2, x.2)))
  | Answered s a =>
    let '(σ', r) := appendCall (sh_runDir s) (reaction_entry s a) σ in
    Some (σ', Ended (a_out a)
      (a_err a +:+ match r with
                   | inl e => line ("xrr shim " +:+ sh_name s +:+ ": log call: " +:+ error_text e)
                   | inr _ => ""
                   end) (Some (a_code a)))
  | Ended _ _ _ => None
  end.

Definition steps_left (pc : shim_pc) : nat :=
  match pc with Begun => 5 | Found _ _ => 4 | Shimmed _ => 3 | HalfRead _ _ _ => 2 | Answered _ _ => 1 | Ended _ _ _ => 0 end.
End process.

(** ** One shim alone *)

(** The whole answer, from one state of the files. *)
Definition reacts (p : proc) (s : shim) (σ : fsys) : option reaction :=
  match first_answer p s with
  | None => None
  | Some (inl a) => Some a
  | Some (inr fp) =>
    loaded_reaction s fp (Load_into yDecodeMap decodeResponse (shim_cassette s) "exec" fp σ).2
  end.

Definition complaint (s : shim) (r : result unit) : string :=
  match r with
  | inl e => line ("xrr shim " +:+ sh_name s +:+ ": log call: " +:+ error_text e)
  | inr _ => ""
  end.

Lemma log_world s outcome fp code detail w :
  log s outcome fp code detail w =
  let '(σ', r) := appendCall (sh_runDir s)
    {| ce_Cmd := sh_name s; ce_Argv := safeArgv s; ce_Outcome := outcome; ce_Fingerprint := fp;
       ce_ExitCode := code; ce_Detail := detail |} (w_fs w) in
  ({| w_fs := σ'; w_out := w_out w; w_err := w_err w +:+ complaint s r; w_ran := w_ran w |}, tt).
Proof.
  unfold log, mbind, sh_bind, call_fs, complaint, line, println. destruct (appendCall _ _ _) as [σ' [e|]]; simpl.
  - done.
  - by rewrite sapp_nil_r.
Qed.

#[local] Ltac by_logging :=
  intros [= <-]; unfold mbind, sh_bind, println, writeOut, writeErr; rewrite log_world; simpl;
  unfold reaction_entry; simpl; by destruct (appendCall _ _ _).

(** The code's [run] does what the answer says. *)
Lemma run_reacts p s σ a :
  reacts p s σ = Some a →
  CliShim.run p s (fresh_world σ) =
  let '(σ', r) := appendCall (sh_runDir s) (reaction_entry s a) σ in
  ({| w_fs := σ'; w_out := a_out a; w_err := a_err a +:+ complaint s r; w_ran := [] |}, a_code a).
Proof.
  unfold reacts, first_answer, CliShim.run. destruct (inNames (c_Deny (sh_cfg s)) (sh_name s)).
  { by_logging. }
  case_bool_decide as Hm; [|done]. rewrite bool_decide_eq_false_2 by (by rewrite Hm). unfold replay.
  destruct (readStdinIdle p) as [stdin rest]. cbn [fst].
  destruct (Exec.Fingerprint (live_request s stdin)) as [e|fp].
  { by_logging. }
  unfold mbind at 1, sh_bind at 1, call_fs. cbn [fresh_world w_fs w_out w_err w_ran].
  fold (shim_cassette s). pose proof (Load_into_frame yDecodeMap decodeResponse (shim_cassette s) "exec" fp σ) as Hf.
  destruct (Load_into _ _ _ _ _ σ) as [σ' [e|[[recErr q] resp]]]; simpl in Hf; subst σ'; cbn [snd].
  - unfold loaded_reaction. destruct (errors_is e SCassetteMiss).
    + destruct (c_Strict (sh_cfg s)) eqn:Hs; [|done]. unfold miss. rewrite Hs. cbn [negb]. by_logging.
    + by_logging.
  - by_logging.
Qed.

(** ** Many shims *)

Section pool.
Variables (senv : list string) (goos : string) (clock : nat → Z * Z) (cfg : runConfig) (runDir : string).

Local Abbreviation proc_at := (call_proc senv goos clock).
Local Abbreviation shim_at := (shim_of senv goos clock cfg runDir).

(** One of them makes its next system call. *)
Inductive pool_step (calls : list shim_call) : fsys * list shim_pc → fsys * list shim_pc → Prop :=
| pool_steps σ pcs i op pc σ' pc' :
    calls !! i = Some op → pcs !! i = Some pc →
    shim_step (proc_at i op) (shim_exe runDir op) (k_args op) σ pc = Some (σ', pc') →
    pool_step calls (σ, pcs) (σ', <[i := pc']> pcs).

(** What the [i]-th of them logs, on the files that are there at the start. *)
Definition entry_at (calls : list shim_call) (σ0 : fsys) (i : nat) : option callEntry :=
  op ← calls !! i; a ← reacts (proc_at i op) (shim_at i op) σ0; Some (reaction_entry (shim_at i op) a).

Definition has_ended (pc : shim_pc) : Prop := match pc with Ended _ _ _ => True | _ => False end.

#[local] Instance has_ended_dec pc : Decision (has_ended pc).
Proof. destruct pc; apply _. Defined.

(** The files as they were but for the log. *)
Definition same_but_log (σ0 σ : fsys) : Prop := ∀ q, q ≠ calls_path runDir → σ !! q = σ0 !! q.

(** *** One of them among the others *)

(** What a process knows is what it would know alone. *)
Definition pc_ok (σ0 : fsys) (i : nat) (op : shim_call) (pc : shim_pc) : Prop :=
  match pc with
  | Begun => True
  | Found d f => d = runDir ∧ f = k_file op
  | Shimmed s => s = shim_at i op
  | HalfRead s fp q => s = shim_at i op ∧ first_answer (proc_at i op) s = Some (inr fp) ∧
      (read_into yDecodeMap (shim_cassette s) "exec" fp "req" σ0).2 = inr q
  | Answered s a => s = shim_at i op ∧ reacts (proc_at i op) s σ0 = Some a
  | Ended out errs code => ∃ a, reacts (proc_at i op) (shim_at i op) σ0 = Some a ∧
      out = a_out a ∧ errs = a_err a ∧ code = Some (a_code a)
  end.

Context (Hrf : ∀ q, read_fault q = None) (Hwf : write_fault (calls_path runDir) = None).
Context (Hmode : c_Mode cfg = ModeReplay) (Hstrict : c_Strict cfg = true).

Lemma first_answer_fp p s fp :
  first_answer p s = Some (inr fp) →
  Exec.Fingerprint (live_request s (readStdinIdle p).1) = inr fp ∧ fingerprint_shape fp.
Proof.
  unfold first_answer. destruct (inNames _ _); [done|]. case_bool_decide; [|done].
  destruct (Exec.Fingerprint _) as [|fp'] eqn:E; [done|]. intros [= ->]. split; [done|].
  by eapply fingerprint_hex.
Qed.

Lemma read_pair_same {T} (d : ynode → result T) s fp kind σ0 σ :
  fingerprint_shape fp → pair_kind kind → same_but_log σ0 σ →
  read_into d (shim_cassette s) "exec" fp kind σ = (σ, (read_into d (shim_cassette s) "exec" fp kind σ0).2).
Proof.
  intros Hfp Hk Hs. rewrite (surjective_pairing (read_into _ _ _ _ _ σ)), read_into_frame. f_equal.
  apply read_into_ext, Hs, (pair_not_log (c_CassetteDir (sh_cfg s))); done.
Qed.

Lemma strict_reaction i op fp r :
  ∃ a, loaded_reaction (shim_at i op) fp r = Some a.
Proof.
  unfold loaded_reaction. destruct r as [e|[[recErr q] resp]]; [|by eexists].
  change (sh_cfg (shim_at i op)) with cfg. rewrite Hstrict. destruct (errors_is _ _); by eexists.
Qed.

Lemma Load_into_reads s fp σ :
  (Load_into yDecodeMap decodeResponse (shim_cassette s) "exec" fp σ).2 =
  (q ← (read_into yDecodeMap (shim_cassette s) "exec" fp "req" σ).2;
   x ← (read_into decodeResponse (shim_cassette s) "exec" fp "resp" σ).2;
   mret (x.1, q.2, x.2)).
Proof.
  unfold Load_into, mbind, io_bind, result_bind.
  pose proof (read_into_frame yDecodeMap (shim_cassette s) "exec" fp "req" σ) as H1.
  destruct (read_into yDecodeMap _ _ _ "req" σ) as [σ1 [e|q]]; simpl in *; [done|]. subst.
  by destruct (read_into decodeResponse _ _ _ "resp" σ) as [σ2 [e|x]].
Qed.

#[local] Ltac stepped t := split; [reflexivity|split; [t|split; [simpl; lia|split; [reflexivity|by intros []]]]].

(** A step on files that differ in the log only: what is learnt is what would be learnt
    alone, and only the last step changes anything. *)
Lemma shim_steps σ0 σ i op pc :
  replay_ready cfg runDir σ → same_but_log σ0 σ → plain_name (k_file op) → pc_ok σ0 i op pc → ¬ has_ended pc →
  ∃ σ' pc', shim_step (proc_at i op) (shim_exe runDir op) (k_args op) σ pc = Some (σ', pc') ∧
    pc_ok σ0 i op pc' ∧ steps_left pc' < steps_left pc ∧
    match pc with
    | Answered s a => (∃ data, σ' = <[calls_path runDir := FFile data]> σ) ∧ has_ended pc' ∧
        appendCall runDir (reaction_entry s a) σ = (σ', inr tt)
    | _ => σ' = σ ∧ ¬ has_ended pc'
    end.
Proof.
  intros ((Hne & Hcl & Hpre & [data Hdata] & Hload) & Hdir & Hlog) Hsame Hplain Hok Hend.
  assert (∀ a, reacts (proc_at i op) (shim_at i op) σ0 = Some a → pc_ok σ0 i op (Answered (shim_at i op) a)) as Hans
    by (by intros).
  destruct pc as [|d f|s|s fp q|s a|]; simpl in Hok.
  - exists σ, (Found runDir (k_file op)). cbn [shim_step].
    rewrite (shimIdentity_bin runDir (k_file op) σ data) by (rewrite ?Hcl; done). rewrite Hcl.
    stepped ltac:(by split).
  - destruct Hok as [-> ->]. exists σ, (Shimmed (shim_at i op)). cbn [shim_step].
    assert ((loadConfig runDir σ).1 = σ) as Hfs by (unfold loadConfig, mbind, io_bind, ReadFile, lift; split_match).
    rewrite (surjective_pairing (loadConfig runDir σ)), Hfs, Hload. stepped ltac:(exact eq_refl).
  - subst s. cbn [shim_step]. destruct (first_answer (proc_at i op) (shim_at i op)) as [[a|fp]|] eqn:Ha.
    + exists σ, (Answered (shim_at i op) a). stepped ltac:(apply Hans; unfold reacts; by rewrite Ha).
    + destruct (first_answer_fp _ _ _ Ha) as [Hfp Hshape].
      rewrite (read_pair_same yDecodeMap (shim_at i op) fp "req" σ0 σ Hshape (or_introl eq_refl) Hsame).
      destruct (read_into yDecodeMap _ _ _ "req" σ0).2 as [e|q] eqn:Hq.
      * destruct (strict_reaction i op fp (inl e)) as [a Hra]. rewrite Hra.
        exists σ, (Answered (shim_at i op) a). stepped ltac:(apply Hans; unfold reacts; rewrite Ha, Load_into_reads, Hq; exact Hra).
      * exists σ, (HalfRead (shim_at i op) fp q). stepped ltac:(split; [reflexivity|split; [exact Ha|exact Hq]]).
    + exfalso. unfold first_answer in Ha. destruct (inNames _ _); [done|].
      change (sh_cfg (shim_at i op)) with cfg in Ha. rewrite Hmode, bool_decide_eq_true_2 in Ha by done.
      by destruct (Exec.Fingerprint _).
  - destruct Hok as (-> & Ha & Hq). destruct (first_answer_fp _ _ _ Ha) as [Hfp Hshape]. cbn [shim_step].
    rewrite (read_pair_same decodeResponse (shim_at i op) fp "resp" σ0 σ Hshape (or_intror eq_refl) Hsame).
    set (r := x ← _; mret (x.1, q.2, x.2)). destruct (strict_reaction i op fp r) as [a Hra]. rewrite Hra.
    exists σ, (Answered (shim_at i op) a). stepped ltac:(apply Hans; unfold reacts; rewrite Ha, Load_into_reads, Hq; exact Hra).
  - destruct Hok as [-> Ha]. cbn [shim_step]. change (sh_runDir (shim_at i op)) with runDir.
    destruct (appendCall_ok runDir (reaction_entry (shim_at i op) a) σ) as [d Hd]; [done..|by rewrite Hcl|done|].
    rewrite Hd. do 2 eexists. split; [done|]. split_and!; [|simpl; lia|by eexists|done|done].
    exists a. split; [exact Ha|]. split; [done|]. split; [by rewrite sapp_nil_r|done].
  - by destruct Hend.
Qed.

(** *** All of them *)

Lemma appendCalls_snoc es e σ σ1 σ2 :
  appendCalls runDir es σ = (σ1, inr tt) → appendCall runDir e σ1 = (σ2, inr tt) →
  appendCalls runDir (es ++ [e]) σ = (σ2, inr tt).
Proof.
  revert σ. induction es as [|e' es IH]; intros σ; simpl.
  - intros [= ->] He. unfold mbind, io_bind. by rewrite He.
  - unfold mbind, io_bind. destruct (appendCall runDir e' σ) as [σ' [?|[]]]; [done|]. apply IH.
Qed.

Lemma steps_left_insert pcs i pc pc' :
  pcs !! i = Some pc → steps_left pc' < steps_left pc →
  sum_list_with steps_left (<[i := pc']> pcs) < sum_list_with steps_left pcs.
Proof.
  revert i. induction pcs as [|pc0 pcs IH]; intros [|i] Hi Hlt; simplify_eq/=; [lia|].
  specialize (IH i Hi Hlt). lia.
Qed.

(** What a schedule has come to; [order] is who has logged, first to last. *)
Record pool_inv (calls : list shim_call) (σ0 σ : fsys) (pcs : list shim_pc) (order : list nat) : Prop := {
  pi_length : length pcs = length calls;
  pi_ok : ∀ i op pc, calls !! i = Some op → pcs !! i = Some pc → pc_ok σ0 i op pc;
  pi_ready : replay_ready cfg runDir σ;
  pi_same : same_but_log σ0 σ;
  pi_nodup : NoDup order;
  pi_order : ∀ i, i ∈ order ↔ ∃ pc, pcs !! i = Some pc ∧ has_ended pc;
  pi_log : appendCalls runDir (omap (entry_at calls σ0) order) σ0 = (σ, inr tt);
}.

Lemma pool_inv_start calls σ0 :
  replay_ready cfg runDir σ0 → pool_inv calls σ0 σ0 (const Begun <$> calls) [].
Proof.
  intros Hready. split; try done.
  - apply length_fmap.
  - intros i op pc _ Hpc. rewrite list_lookup_fmap in Hpc. by destruct (calls !! i); simplify_eq/=.
  - constructor.
  - intros i. rewrite elem_of_nil. split; [done|]. intros (pc & Hpc & Hend). rewrite list_lookup_fmap in Hpc.
    by destruct (calls !! i); simplify_eq/=.
Qed.

Lemma pool_inv_step calls σ0 σ pcs order i op pc :
  Forall (λ op, plain_name (k_file op)) calls → pool_inv calls σ0 σ pcs order →
  calls !! i = Some op → pcs !! i = Some pc → ¬ has_ended pc →
  ∃ σ' pc' order', shim_step (proc_at i op) (shim_exe runDir op) (k_args op) σ pc = Some (σ', pc') ∧
    steps_left pc' < steps_left pc ∧ pool_inv calls σ0 σ' (<[i := pc']> pcs) order'.
Proof.
  intros Hplain Hinv Hop Hpc Hend. rewrite Forall_lookup in Hplain.
  destruct (shim_steps σ0 σ i op pc (pi_ready _ _ _ _ _ Hinv) (pi_same _ _ _ _ _ Hinv) (Hplain _ _ Hop)
    (pi_ok _ _ _ _ _ Hinv _ _ _ Hop Hpc) Hend) as (σ' & pc' & Hstep & Hok & Hlt & Hpost).
  assert (i < length pcs) as Hi by (by eapply lookup_lt_Some).
  assert (∀ j op' pc0, calls !! j = Some op' → <[i := pc']> pcs !! j = Some pc0 → pc_ok σ0 j op' pc0) as Hoks.
  { intros j op' pc0 Hop' Hpc0. destruct (decide (i = j)) as [<-|Hne].
    - rewrite list_lookup_insert_eq in Hpc0 by done. by simplify_eq.
    - rewrite list_lookup_insert_ne in Hpc0 by done. by eapply (pi_ok _ _ _ _ _ Hinv). }
  assert (σ' = σ ∧ ¬ has_ended pc' ∨ ∃ s a, pc = Answered s a ∧ (∃ data, σ' = <[calls_path runDir := FFile data]> σ) ∧
    has_ended pc' ∧ appendCall runDir (reaction_entry s a) σ = (σ', inr tt)) as Hcase.
  { destruct pc; [by left..|right; naive_solver|by destruct Hend]. }
  destruct Hcase as [[-> Hne]|(s & a & -> & [data Hdata] & Hended & Happ)].
  - exists σ, pc', order. split_and!; [done..|]. destruct Hinv as [? _ ? ? ? Horder ?]. split; try done.
    + by rewrite length_insert.
    + intros j. rewrite Horder. destruct (decide (i = j)) as [<-|Hj].
      * rewrite list_lookup_insert_eq, Hpc by done. naive_solver.
      * by rewrite list_lookup_insert_ne.
  - exists σ', pc', (order ++ [i]). split_and!; [done..|].
    pose proof (pi_ok _ _ _ _ _ Hinv _ _ _ Hop Hpc) as [-> Hreact].
    destruct Hinv as [? _ Hready Hsame Hdup Horder Hlog]. subst σ'. split; try done.
    + by rewrite length_insert.
    + by apply replay_ready_log.
    + intros q Hq. rewrite lookup_insert_ne by done. by apply Hsame.
    + apply NoDup_app. split_and!; [done| |apply NoDup_singleton]. intros j Hj ->%list_elem_of_singleton.
      apply Horder in Hj as (pc0 & Hpc0 & Hend0). rewrite Hpc in Hpc0. by simplify_eq.
    + intros j. rewrite elem_of_app, list_elem_of_singleton, Horder. destruct (decide (i = j)) as [<-|Hj].
      * rewrite list_lookup_insert_eq by done. naive_solver.
      * rewrite list_lookup_insert_ne by done. naive_solver.
    + rewrite omap_app. cbn [omap list_omap].
      assert (entry_at calls σ0 i = Some (reaction_entry (shim_at i op) a)) as ->.
      { unfold entry_at. rewrite Hop. simpl. by rewrite Hreact. }
      by eapply appendCalls_snoc.
Qed.

Lemma pool_reaches calls σ0 n σ pcs :
  Forall (λ op, plain_name (k_file op)) calls → replay_ready cfg runDir σ0 →
  nsteps (pool_step calls) n (σ0, const Begun <$> calls) (σ, pcs) →
  (∃ order, pool_inv calls σ0 σ pcs order) ∧ n + sum_list_with steps_left pcs ≤ 5 * length calls.
Proof.
  intros Hplain Hready Hn.
  assert (sum_list_with steps_left (const Begun <$> calls) = 5 * length calls) as Hsum.
  { clear. induction calls as [|op calls IH]; [done|]. rewrite fmap_cons. cbn [sum_list_with const steps_left length]. lia. }
  rewrite <-Hsum. clear Hsum. pose proof (pool_inv_start calls σ0 Hready) as Hinv. revert Hinv.
  generalize (@nil nat). remember (σ0, const Begun <$> calls) as x eqn:Hx. remember (σ, pcs) as y eqn:Hy.
  assert (∀ order, pool_inv calls σ0 x.1 x.2 order →
    (∃ order, pool_inv calls σ0 y.1 y.2 order) ∧ n + sum_list_with steps_left y.2 ≤ sum_list_with steps_left x.2)
    as Hgen; [|by subst; exact Hgen].
  clear Hx Hy. induction Hn as [x|n x y z Hstep _ IH]; intros order Hinv; [by split; [exists order|]|].
  destruct Hstep as [σ1 pcs1 i op pc σ' pc' Hop Hpc Hst]. cbn [fst snd] in *.
  assert (¬ has_ended pc) as Hend by (by destruct pc; intros []).
  destruct (pool_inv_step calls σ0 σ1 pcs1 order i op pc Hplain Hinv Hop Hpc Hend)
    as (σ2 & pc2 & order' & Hst' & Hlt & Hinv'). rewrite Hst in Hst'. injection Hst' as <- <-.
  destruct (IH order' Hinv') as [? Hle]. split; [done|].
  pose proof (steps_left_insert pcs1 i pc pc' Hpc Hlt). lia.
Qed.

(** C8. Shims run side by side as they would one by one. Let strict replaying shims of one
    run be started together - the stages of a pipeline, background jobs - and take turns in
    any way, one system call at a time. Each one ends with the output, the complaints and
    the exit code it has when it runs alone on the files as they were, and starts no real
    binary; nothing is changed but the call log; as long as one is not done some step is
    possible, no schedule is longer than five steps for each shim, and when all are done
    the log holds the entry of each, whole and once, in some order. *)
Theorem parallel_shims calls σ0 n σ pcs :
  Forall (λ op, plain_name (k_file op)) calls → replay_ready cfg runDir σ0 →
  nsteps (pool_step calls) n (σ0, const Begun <$> calls) (σ, pcs) →
  (∀ i op out errs code, calls !! i = Some op → pcs !! i = Some (Ended out errs code) →
     ∃ σi e, runAsShim (proc_at i op) (shim_exe runDir op) (k_args op) (fresh_world σ0) =
         ({| w_fs := σi; w_out := out; w_err := errs; w_ran := [] |}, code) ∧
       entry_at calls σ0 i = Some e ∧ appendCall runDir e σ0 = (σi, inr tt)) ∧
  same_but_log σ0 σ ∧ n ≤ 5 * length calls ∧
  ((∃ next, pool_step calls (σ, pcs) next) ∨
   Forall has_ended pcs ∧ ∃ es, appendCalls runDir es σ0 = (σ, inr tt) ∧
     es ≡ₚ omap (entry_at calls σ0) (seq 0 (length calls))).
Proof.
  intros Hplain Hready Hn. destruct (pool_reaches calls σ0 n σ pcs Hplain Hready Hn) as [[order Hinv] Hle].
  split; [|split; [apply (pi_same _ _ _ _ _ Hinv)|split; [lia|]]].
  - intros i op out errs code Hop Hpc.
    destruct (pi_ok _ _ _ _ _ Hinv _ _ _ Hop Hpc) as (a & Ha & -> & -> & ->).
    destruct Hready as (Hconf & Hdir & Hlog). pose proof Hconf as (Hne & Hcl & _).
    destruct (appendCall_ok runDir (reaction_entry (shim_at i op) a) σ0) as [d Hd]; [done..|by rewrite Hcl|done|].
    eexists _, (reaction_entry (shim_at i op) a). split_and!; [|unfold entry_at; rewrite Hop; simpl; by rewrite Ha|exact Hd].
    rewrite Forall_lookup in Hplain. rewrite (started_shim senv goos clock cfg runDir i op σ0 Hrf Hconf (Hplain _ _ Hop)).
    rewrite (run_reacts _ _ _ _ Ha). change (sh_runDir (shim_at i op)) with runDir. rewrite Hd. cbn [complaint].
    by rewrite sapp_nil_r.
  - destruct (decide (Forall has_ended pcs)) as [Hall|Hnot].
    + right. split; [done|]. exists (omap (entry_at calls σ0) order). split; [apply (pi_log _ _ _ _ _ Hinv)|].
      apply omap_Permutation, NoDup_Permutation; [apply (pi_nodup _ _ _ _ _ Hinv)|apply NoDup_seq|]. intros i.
      rewrite (pi_order _ _ _ _ _ Hinv), elem_of_seq, <-(pi_length _ _ _ _ _ Hinv). rewrite Forall_lookup in Hall.
      split; [intros (pc & Hpc & _); apply lookup_lt_Some in Hpc; lia|].
      intros [_ Hi]. destruct (lookup_lt_is_Some_2 pcs i Hi) as [pc Hpc]. by eauto.
    + left. apply not_Forall_Exists in Hnot; [|apply _]. apply Exists_exists in Hnot as (pc & Hin & Hend).
      apply list_elem_of_lookup in Hin as [i Hpc].
      assert (is_Some (calls !! i)) as [op Hop].
      { apply lookup_lt_is_Some. rewrite <-(pi_length _ _ _ _ _ Hinv). by eapply lookup_lt_Some. }
      destruct (pool_inv_step calls σ0 σ pcs order i op pc Hplain Hinv Hop Hpc Hend) as (σ' & pc' & _ & Hst & _).
      eexists. by eapply pool_steps.
Qed.

(** A schedule, carried out. *)
Fixpoint take_turns (calls : list shim_call) (turns : list nat) (x : fsys * list shim_pc)
    : option (fsys * list shim_pc) :=
  match turns with
  | [] => Some x
  | i :: turns' =>
    op ← calls !! i; pc ← x.2 !! i;
    y ← shim_step (proc_at i op) (shim_exe runDir op) (k_args op) x.1 pc;
    take_turns calls turns' (y.1, <[i := y.2]> x.2)
  end.

Lemma take_turns_steps calls turns x y :
  take_turns calls turns x = Some y → nsteps (pool_step calls) (length turns) x y.
Proof.
  revert x. induction turns as [|i turns IH]; intros [σ pcs]; cbn [take_turns].
  { intros [= <-]. constructor. }
  intros (op & Hop & (pc & Hpc & ([σ' pc'] & Hst & H)%bind_Some)%bind_Some)%bind_Some.
  eapply nsteps_l; [by eapply pool_steps|]. by apply IH.
Qed.
End pool.
End steps.

(** ** At concrete values *)

Section witnesses.
#[local] Existing Instance ascii_only.
#[local] Existing Instance ReferenceYaml.lib.
#[local] Existing Instance no_faults.
#[local] Existing Instance integral_floats.
#[local] Existing Instance shim_platform.
#[local] Existing Instance shim_responses.
#[local] Existing Instance az_child.
#[local] Existing Instance suite_configs.

(** A recorded command, a denied one and one that was never recorded. *)
Definition side_by_side : list shim_call :=
  [az_call show_args;
   {| k_env := None; k_bin := "open"; k_args := ["x"]; k_char_device := true; k_stdin := [] |};
   az_call ["new"]].
Definition some_turns : list nat := [0; 1; 2; 2; 1; 0; 0; 2; 1; 2; 0; 1; 0].

Definition after_turns : option (fsys * list shim_pc) :=
  take_turns later_env "linux" later_clock rep_dir side_by_side some_turns
    (replay_fs, const Begun <$> side_by_side).

Definition codes (pcs : list shim_pc) : list (option Z) :=
  (λ pc, match pc with Ended _ _ c => c | _ => None end) <$> pcs.

Definition turned : fsys * list shim_pc := default (∅, []) after_turns.

Lemma turned_eq :
  after_turns = Some turned ∧ codes turned.2 = [Some exitOK; Some exitDenied; Some exitMiss].
Proof.
  assert (match after_turns with Some x => codes x.2 | None => [] end =
    [Some exitOK; Some exitDenied; Some exitMiss]) as H by (vm_compute; reflexivity).
  unfold turned. destruct after_turns; [by split|]. discriminate H.
Qed.

Lemma replay_fs_ready : replay_ready (suite_config ModeReplay) rep_dir replay_fs.
Proof.
  split; [|split; [vm_compute; reflexivity|intros E; vm_compute in E; discriminate E]].
  split; [intros E; discriminate E|]. split_and!; [vm_compute; reflexivity|vm_compute; exact I|eexists|];
    vm_compute; reflexivity.
Qed.

Lemma parallel_shims_witness :
  codes turned.2 = [Some exitOK; Some exitDenied; Some exitMiss] ∧
  ∃ es, appendCalls rep_dir es replay_fs = (turned.1, inr tt) ∧
    es ≡ₚ omap (entry_at later_env "linux" later_clock (suite_config ModeReplay) rep_dir side_by_side replay_fs) (seq 0 3).
Proof.
  pose proof turned_eq as [E Hc]. apply take_turns_steps in E. split; [exact Hc|].
  destruct turned as [σ pcs]. cbn [fst snd] in *.
  assert (∀ q, read_fault q = None) as Hrf by reflexivity.
  assert (write_fault (calls_path rep_dir) = None) as Hwf by reflexivity.
  destruct (parallel_shims later_env "linux" later_clock (suite_config ModeReplay) rep_dir Hrf Hwf
    eq_refl eq_refl side_by_side replay_fs 13 σ pcs) as (_ & _ & _ & Hend); [|exact replay_fs_ready|exact E|].
  - repeat (apply Forall_cons; split; [vm_compute; split_and!; done|]). apply Forall_nil_2.
  - destruct Hend as [[next Hnext]|(_ & es & Hes & Hperm)].
    + exfalso. inversion Hnext as [? ? i op pc ? ? _ Hpc Hst]. subst.
      assert (codes pcs !! i = Some None) as Hnone.
      { unfold codes. rewrite list_lookup_fmap, Hpc. by destruct pc. }
      rewrite Hc in Hnone. by do 3 (destruct i as [|i]; [discriminate Hnone|]).
    + exists es. split; [exact Hes|exact Hperm].
Defined.
End witnesses.
